(* ===== verification/_CoqProject ===== *)
-Q . S2P
Prelude.v
JsValue.v
JsJson.v
JsonText.v
Database.v
Proc.v
Hoare.v
Http.v
Auth.v
DemoWorld.v
Worker.v
Scheduler.v
Setup.v
Router.v
Integrity.v
Statements.v
Programs.v
Invariant.v
Fixtures.v
Claim.v
Execution.v
TickLogic.v
Sessions.v
Tenancy.v
JobsApi.v
Lifecycle.v
Interference.v
Machine.v
Tick.v
Liveness.v
Throttle.v
SetupProps.v
Format.v
Widgets.v
ApiTypes.v
Query.v
Client.v
ClientProps.v
Status.v
Palette.v
Shell.v
Forms.v
Views.v
Charts.v
Pulse.v
DeadLetters.v
Detail.v
Overview.v
Pages.v
Projects.v
