(* ===== verification/Prelude.v ===== *)
(** * Verification of the job scheduler's TypeScript control plane

    The program (under src/dashboard/src) is a job scheduler that runs as a
    Next.js application over one Postgres database:

    - the server: [server/router.ts] answers the API requests ([handleApi]),
      [server/worker.ts] is the worker (register, reap, claim, execute),
      [server/worker-scheduler.ts] throttles the ticks that requests start in
      the background, [server/http.ts] maps rows to JSON, [server/auth.ts] and
      [server/db.ts] hold sessions and configuration, [server/setup.ts] the
      schema and the demo data; [app/api] has the three route files that call
      them;
    - the client: [lib/api.ts] sends requests and keeps the session token,
      [lib/use-api.ts] names what the views poll, [lib/types.ts] declares what
      they read, [lib/format.ts] and [lib/status.ts] present it;
    - the console: sign-in, guard and shell, command palette, forms, overview,
      queues, jobs, workers and dead letters, each with its state, its handlers
      and what it shows.

    Requests, cron calls and background ticks interact through the database
    and through two module variables; the client and the server through HTTP
    requests and responses. Both couplings are modelled, so the theorems reach
    from a form of the console to the rows of the database.

    ** How code is modelled

    - A JavaScript value is a [jsval]; numbers are exact rationals with NaN and
      the infinities, which is what the code computes with except for the
      rounding of floating point ([to_double] is used where rounding is
      printed). Code that throws returns a sum.
    - A table is a finite map from primary keys to row records, one field per
      column. A statement is a [query]: it reads the database at a step and
      fails or returns rows and the next database. Each statement is a
      transaction of its own, as with the serverless driver, and is taken to be
      atomic. What Postgres decides (the clock, fresh uuids, the
      order of an unordered scan, the conversion of parameters, which
      statements the connection fails before or after they took effect) is the
      parameter [World] with its documented laws [WorldOk].
    - An [async] function is a [proc], a tree of atomic actions. [run] executes
      one program alone; [pool_step] and [reachable] interleave any number of
      programs at their awaits, with programs abandoned at any point. All loops
      of the server are over the rows of a result, so programs are finite trees
      and [run] is a total function without fuel.
    - [jose] (signing and verifying tokens) is the parameter [Jose] with the
      laws [JoseOk]; the splitting of a path by Next.js is [NextRouting] with
      [NextRoutingOk]. Each is instantiated by a concrete function where a
      theorem is applied to an example (DemoWorld.v, Fixtures.v,
      ClientProps.v).
    - The only fuel is in [JSON.parse] (twice the length of the text, since
      each call consumes a character or is followed by one that does; the round
      trip of JsonText.v shows that it is enough for every printed value) and
      in the number of decimals printed for a fraction.

    ** Files

    - Prelude, JsValue, JsJson, JsonText: results, lists, tactics; JavaScript
      values, strings and dates; JSON text and its round trip.
    - Database: the tables of [setup.ts] as rows, the world, the integrity
      condition [db_ok]. Proc, Hoare: asynchronous programs, their
      interleavings, triples for programs that run alone.
    - Http ([http.ts]), Auth ([auth.ts], [db.ts]), Worker ([worker.ts]),
      Scheduler ([worker-scheduler.ts]), Setup ([setup.ts]), Router
      ([router.ts] and [app/api]): one definition per function, route and
      statement, with the names of the code; [sql_x] is the statement of that
      purpose and [set_x] its SET clause.
    - Integrity, Statements, Programs, Invariant, TickLogic: preservation
      lemmas per statement, and the interfaces through which the programs of
      the server are walked once for all instances: [ServerStatements] (a law
      that every statement follows, in every interleaving), [ApiStatements],
      [TickInvariant] and [SerialInvariant] (an invariant of handlers, of ticks
      and of the whole server when one program runs at a time).
    - DemoWorld, Fixtures: a concrete world and a database for examples.
    - Format ([format.ts]), Widgets ([CopyId.tsx]), ApiTypes ([types.ts]), Status ([status.ts]),
      Query, Client ([api.ts], [use-api.ts]), Palette ([CommandPalette.tsx]),
      Shell ([ConsoleProvider.tsx], [AuthGuard.tsx], [TopBar.tsx],
      [LeftRail.tsx], [login/page.tsx]), Forms ([SubmitJobForm.tsx],
      [CreateQueueForm.tsx]), Views ([QueuesView.tsx], [JobsExplorer.tsx]),
      Charts (figures of [page.tsx], [Sparkline.tsx]), Pulse ([Pulse.tsx]),
      DeadLetters ([dlq/page.tsx]), Detail ([JobDetailContent.tsx],
      [StatusChip.tsx], the tables, the deep link), Overview ([page.tsx],
      [StatPanel.tsx], [workers/page.tsx]), Pages ([QueuesView.tsx],
      [JobsExplorer.tsx] and [Drawer.tsx] as whole pages), Projects
      ([CreateProjectInline]): the client and the console. A view is modelled by the record of the texts it shows, a page
      with state by the events that change it.
    - Claim, Execution, Lifecycle, Interference, Machine, Tick, Liveness,
      Throttle, Sessions, Tenancy, JobsApi, SetupProps, ClientProps: the theorems about
      the server, and about client and server together.

    ** Theorems

    - Server, every interleaving: [server_invariant] (integrity of the
      database), [lifecycle_refined] (each step moves each job along one
      transition of the abstract machine of Machine.v, at the time of the
      statement), [history_append_only], [one_scheduled_tick],
      [pause_respected], [unleased_job_stuck].
    - Server, one program at a time: [claim_correct] and [executeJob_correct]
      refine the abstract specifications [claim_spec] and [execution_spec];
      [reaper_correct], [tick_completes], [jobs_settle] (ticks at a pace that
      lets retries become due bring every job of the queues that are served to
      an end, within a number of ticks that is computed from the database),
      [poison_stops_tick], [lifecycle_when_serial] (the server refines the
      lifecycle of the README with all its guards), [ownership_when_serial],
      [concurrency_limit_when_serial]; [overlap_breaks_ownership] and
      [overlap_exceeds_limit] show by execution that these need ticks that do
      not overlap, [crashes_exceed_attempts] that a job whose runs are cut off
      is started beyond its limit.
    - API: [tenant_isolation], [unauthenticated_rejected],
      [handleApi_answers], [enqueue_creates], [enqueue_idempotent],
      [retry_requeues], [list_jobs_correct], [retry_deletes_foreign_dead_letter], [responses_conform].
    - Deployment: [schema_resumable], [schema_complete], [seed_once],
      [first_deployment].
    - Client and server together: [client_calls_routed],
      [expired_session_signs_out], [sign_in_session], [submit_form_creates],
      [queue_form_creates], [project_form_creates], [dead_letter_retried], [queue_save_correct],
      [drawer_toggle_stale], [explorer_correct], [overview_shows],
      [job_history_shown].
    - Console: [swr_key_identifies], [palette_ranking], [palette_enter],
      [console_trace], [auth_guard_correct], [relative_time_agrees],
      [relative_time_fresh], [copy_mark_clears], [pulse_trace_bounded].

    ** Not modelled

    Styling, the chart library and the canvas beyond the strokes of the trace;
    the clipboard beyond its answer; the validation of fields by the browser; React, SWR, Next.js,
    jose and the Postgres driver beyond the parameters above; [Math.sin] beyond
    its range; the Go service under cmd, internal and pkg, a separate
    deployment of the same product; migrations, scripts and container files.
    Characters are bytes: strings of the console are read as their UTF-8
    encoding. *)

From Stdlib Require Export Lia.
From stdpp Require Export base tactics sorting strings gmap pretty numbers list.


(** ** Results of code that can throw

    A JavaScript expression either yields a value or throws. *)

Declare Scope js_scope.
Delimit Scope js_scope with js.

(** [bind_sum m k] runs [k] on the value of [m] and propagates what [m]
    throws. *)
Definition bind_sum {E A B : Type} (m : E + A) (k : A → E + B) : E + B :=
  match m with
  | inl e => inl e
  | inr a => k a
  end.

Notation "'try!' x := m 'in' k" := (bind_sum m (fun x => k))
  (at level 10, x pattern, m at level 100, k at level 200) : js_scope.

Fixpoint map_sum {E A B : Type} (f : A → E + B) (l : list A) : E + list B :=
  match l with
  | [] => inr []
  | a :: l => bind_sum (f a) (fun b => bind_sum (map_sum f l) (fun bs => inr (b :: bs)))
  end.

Definition from_option_sum {E A : Type} (e : E) (o : option A) : E + A :=
  match o with Some a => inr a | None => inl e end.

(** ** Tactics of the development *)

(** Case analysis on the scrutinee of every [match] left in the goal. *)
Ltac case_all :=
  repeat (case_match; simplify_eq/=; try done).

(** Destruct existentials and conjunctions of the context. *)
Ltac split_hyps :=
  repeat match goal with
  | H : _ ∧ _ |- _ => destruct H
  | H : ∃ _, _ |- _ => destruct H
  end.

Create HintDb sched.
Create Rewrite HintDb sched_rw.

(** ** Lists *)

Lemma sum_list_elem {A} (f : A → nat) l a : a ∈ l → (f a ≤ sum_list_with f l)%nat.
Proof. induction 1; simpl; lia. Qed.

Section lists.
Context {A : Type}.
Implicit Types l : list A.

(** The last [n] elements, [Array.prototype.slice(-n)] for [n > 0]. *)
Definition take_last (n : nat) l : list A := drop (length l - n) l.

Lemma length_take_last n l : length (take_last n l) = n `min` length l.
Proof. unfold take_last. rewrite length_drop. lia. Qed.

Lemma take_last_suffix n l : take_last n l `suffix_of` l.
Proof. exists (take (length l - n) l). unfold take_last. by rewrite take_drop. Qed.

(** The prefix of a sorted list is below its remainder: the shape of
    [ORDER BY ... LIMIT n]. *)
Lemma sorted_take_drop (R : relation A) n l x y :
  StronglySorted R l → x ∈ take n l → y ∈ drop n l → R x y.
Proof.
  intros Hs Hx Hy. rewrite <- (take_drop n l) in Hs.
  by eapply StronglySorted_app_1_elem_of.
Qed.

(** [ORDER BY R LIMIT n]: sorted, from the rows, and what is left out ranks
    behind a full page. *)
Definition order_limit (R : relation A) `{!RelDecision R} (n : nat) l : list A :=
  take n (merge_sort R l).

Section order_limit.
Context (R : relation A) `{!RelDecision R, !Total R, !Transitive R}.

Lemma order_limit_sorted n l : StronglySorted R (order_limit R n l).
Proof.
  unfold order_limit. pose proof (StronglySorted_merge_sort R l) as H.
  rewrite <- (take_drop n (merge_sort R l)) in H. by apply StronglySorted_app_1_l in H.
Qed.

Lemma length_order_limit n l : length (order_limit R n l) = n `min` length l.
Proof. unfold order_limit. by rewrite length_take, merge_sort_Permutation. Qed.

Lemma elem_of_order_limit n l x : x ∈ order_limit R n l → x ∈ l.
Proof.
  unfold order_limit. intros (i & Hi & _)%elem_of_take.
  apply list_elem_of_lookup_2 in Hi. by rewrite merge_sort_Permutation in Hi.
Qed.

Lemma order_limit_left_out n l x :
  x ∈ l → x ∉ order_limit R n l →
  length (order_limit R n l) = n ∧ ∀ y, y ∈ order_limit R n l → R y x.
Proof.
  intros Hx Hn. unfold order_limit in *.
  assert (x ∈ drop n (merge_sort R l)) as Hd.
  { rewrite <- (merge_sort_Permutation R l), <- (take_drop n (merge_sort R l)) in Hx.
    apply elem_of_app in Hx as [?|?]; done. }
  split.
  - apply length_take_le. destruct (le_lt_dec n (length (merge_sort R l))); [done|].
    rewrite drop_ge in Hd by lia. set_solver.
  - intros y Hy. by eapply sorted_take_drop; [apply StronglySorted_merge_sort|..].
Qed.

End order_limit.

Lemma elem_of_filter_bool (P : A → bool) l x :
  x ∈ List.filter P l ↔ P x = true ∧ x ∈ l.
Proof. rewrite !list_elem_of_In, filter_In. tauto. Qed.

Lemma forallb_Forall (P : A → bool) l : forallb P l = true ↔ Forall (fun a => P a = true) l.
Proof. rewrite forallb_forall, Forall_forall. by setoid_rewrite <- list_elem_of_In. Qed.

Lemma filter_bool_perm (P : A → bool) l l' :
  l ≡ₚ l' → List.filter P l ≡ₚ List.filter P l'.
Proof. induction 1; simpl; repeat case_match; eauto using perm_trans, perm_swap. Qed.

Lemma length_filter_bool_le (P : A → bool) l : length (List.filter P l) ≤ length l.
Proof. induction l; simpl; [lia|]. case_match; simpl; lia. Qed.

Lemma filter_bool_ext (P Q : A → bool) l :
  (∀ x, x ∈ l → P x = Q x) → List.filter P l = List.filter Q l.
Proof.
  induction l as [|a l IH]; intros H; simpl; [done|].
  rewrite (H a) by set_solver. rewrite IH by set_solver. done.
Qed.

Lemma filter_bool_none (P : A → bool) l : (∀ x, x ∈ l → P x = false) → List.filter P l = [].
Proof. intros H. rewrite (filter_bool_ext P (fun _ => false)) by done. clear. by induction l. Qed.

(** Counting over a disjunction of exclusive predicates. *)
Lemma length_filter_or (P Q : A → bool) l :
  (∀ x, x ∈ l → P x = true → Q x = false) →
  length (List.filter (fun x => P x || Q x) l) =
  length (List.filter P l) + length (List.filter Q l).
Proof.
  induction l as [|a l IH]; intros H; simpl; [done|].
  specialize (IH ltac:(set_solver)). pose proof (H a ltac:(set_solver)) as Ha.
  destruct (P a), (Q a); simpl; try lia; naive_solver.
Qed.

Lemma length_filter_impl (P Q : A → bool) l :
  (∀ x, x ∈ l → P x = true → Q x = true) →
  length (List.filter P l) ≤ length (List.filter Q l).
Proof.
  induction l as [|a l IH]; intros H; simpl; [done|].
  specialize (IH ltac:(set_solver)). pose proof (H a ltac:(set_solver)) as Ha.
  destruct (P a), (Q a); simpl; try lia; naive_solver.
Qed.

Lemma NoDup_filter_bool (P : A → bool) l : NoDup l → NoDup (List.filter P l).
Proof. rewrite !NoDup_ListNoDup. apply List.NoDup_filter. Qed.

End lists.

Lemma filter_bool_fmap {A B} (f : A → B) (P : B → bool) l :
  List.filter P (f <$> l) = f <$> List.filter (fun a => P (f a)) l.
Proof. induction l as [|a l IH]; csimpl; [done|]. case_match; csimpl; by rewrite IH. Qed.

Lemma NoDup_fmap_filter {A B} (f : A → B) (P : A → bool) l :
  NoDup (f <$> l) → NoDup (f <$> List.filter P l).
Proof.
  induction l as [|a l IH]; csimpl; [done|]. rewrite NoDup_cons. intros [Ha Hl].
  destruct (P a); csimpl; [|auto]. apply NoDup_cons. split; [|auto]. contradict Ha.
  apply list_elem_of_fmap in Ha as (b & -> & [_ Hb]%elem_of_filter_bool). by apply list_elem_of_fmap_2.
Qed.

(** ** Finite maps as tables *)

Section tables.
Context {R : Type}.
Implicit Types (t : gmap string R) (P : R → bool) (f : R → R).

(** Rows of a table, in the map's own order. *)
Definition rows t : list R := (map_to_list t).*2.

Lemma elem_of_rows t r : r ∈ rows t ↔ ∃ k, t !! k = Some r.
Proof.
  unfold rows. rewrite list_elem_of_fmap. split.
  - intros [[k r'] [-> Hin]]. exists k. by apply elem_of_map_to_list.
  - intros [k Hk]. exists (k, r). split; [done|]. by apply elem_of_map_to_list.
Qed.

Lemma rows_insert t k r : t !! k = None → rows (<[k := r]> t) ≡ₚ r :: rows t.
Proof. intros Hk. unfold rows. by rewrite map_to_list_insert. Qed.

(** [UPDATE t SET f WHERE P]. *)
Definition update_where P f t : gmap string R :=
  (fun r => if P r then f r else r) <$> t.

Lemma lookup_update_where P f t k :
  update_where P f t !! k = (fun r => if P r then f r else r) <$> t !! k.
Proof. unfold update_where. by rewrite lookup_fmap. Qed.

Lemma lookup_update_where_Some P f t k r' :
  update_where P f t !! k = Some r' ↔
  ∃ r, t !! k = Some r ∧ r' = if P r then f r else r.
Proof.
  rewrite lookup_update_where, fmap_Some. naive_solver.
Qed.

Lemma update_where_none P f t :
  (∀ k r, t !! k = Some r → P r = false) → update_where P f t = t.
Proof.
  intros H. apply map_eq. intros k. rewrite lookup_update_where.
  destruct (t !! k) as [r|] eqn:E; simpl; [|done]. by rewrite (H k r E).
Qed.

Lemma dom_update_where P f t : dom (update_where P f t) = dom t.
Proof. unfold update_where. apply dom_fmap_L. Qed.

(** Number of rows that satisfy [P]: [SELECT COUNT( * ) FROM t WHERE P]. *)
Definition count_where P t : nat := length (List.filter P (rows t)).

Lemma rows_update_where P f t :
  rows (update_where P f t) ≡ₚ (fun r => if P r then f r else r) <$> rows t.
Proof.
  unfold rows, update_where. rewrite map_to_list_fmap, <- !list_fmap_compose.
  apply reflexive_eq, list_fmap_ext. by intros i [k r] _.
Qed.

Lemma count_update_where P f Q t :
  count_where Q (update_where P f t) =
  count_where (fun r => Q (if P r then f r else r)) t.
Proof.
  unfold count_where. rewrite (filter_bool_perm _ _ _ (rows_update_where P f t)).
  rewrite filter_bool_fmap. apply length_fmap.
Qed.

(** A table whose rows carry their key has no duplicate key, nor row. *)
Lemma NoDup_row_keys (key : R → string) t :
  (∀ k r, t !! k = Some r → key r = k) → NoDup (key <$> rows t).
Proof.
  intros Hk. unfold rows. rewrite <- list_fmap_compose.
  assert ((key ∘ snd) <$> map_to_list t = (map_to_list t).*1) as ->.
  { apply list_fmap_ext. intros i [k r] Hi. simpl.
    apply list_elem_of_lookup_2, elem_of_map_to_list in Hi. eauto. }
  apply NoDup_fst_map_to_list.
Qed.

Lemma NoDup_rows (key : R → string) t :
  (∀ k r, t !! k = Some r → key r = k) → NoDup (rows t).
Proof. intros Hk. by apply (NoDup_fmap_1 key), NoDup_row_keys. Qed.

Lemma NoDup_filter_keys (key : R → string) P t :
  (∀ k r, t !! k = Some r → key r = k) → NoDup (key <$> List.filter P (rows t)).
Proof. intros Hk. by apply NoDup_fmap_filter, NoDup_row_keys. Qed.

End tables.

#[export] Hint Rewrite @lookup_update_where @lookup_fmap : sched_rw.

Lemma bind_sum_inr {E A B} (m : E + A) (k : A → E + B) b :
  bind_sum m k = inr b ↔ ∃ a, m = inr a ∧ k a = inr b.
Proof. destruct m; simpl; naive_solver. Qed.

Lemma from_option_sum_inr {E A} (e : E) (o : option A) a :
  from_option_sum e o = inr a ↔ o = Some a.
Proof. destruct o; simpl; naive_solver. Qed.
