(* ===== verification/JsValue.v ===== *)
(** * JavaScript values

    The part of the language the TypeScript sources use: numbers with [NaN]
    and the infinities, dynamically typed values, truthiness, [??] and [||],
    member access, [Number()], [String()], [parseInt], [trim],
    [toLowerCase] and [Date.prototype.toISOString].

    Numbers are exact rationals where JavaScript has doubles, so rounding is
    not modelled; strings are byte strings whose character operations are
    those of the ASCII range. *)

From Stdlib Require Import Ascii QArith Qcanon Qround.
From S2P Require Import Prelude.

Local Open Scope Z_scope.

(** ** Exceptions *)

(** Errors PostgreSQL reports for a statement. *)
Inductive pg_error :=
| UniqueViolation (constraint : string)
| ForeignKeyViolation (constraint : string)
| NotNullViolation (column : string)
| InvalidText (type : string)
| OutOfRange (type : string).

(** A thrown value: an [Error] with its message, an [Error] the database
    driver raises, or a value that is not an [Error]. *)
Inductive thrown :=
| JsError (msg : string)
| PgError (e : pg_error)
| NotAnError.

#[export] Instance pg_error_eq_dec : EqDecision pg_error.
Proof. solve_decision. Defined.
#[export] Instance thrown_eq_dec : EqDecision thrown.
Proof. solve_decision. Defined.

(** ** Numbers *)

Inductive num :=
| NaN
| Inf (positive : bool)
| Fin (q : Qc).

#[export] Instance num_eq_dec : EqDecision num.
Proof. solve_decision. Defined.

Definition num_of_Z (z : Z) : num := Fin (Qc_of_Z z).

(** [a < b] and [a >= b] on numbers: every comparison with [NaN] is false. *)
Definition num_ltb (a b : num) : bool :=
  match a, b with
  | NaN, _ | _, NaN => false
  | Inf false, Inf false => false
  | Inf false, _ => true
  | Inf true, _ => false
  | Fin _, Inf p => p
  | Fin x, Fin y => bool_decide (x < y)%Qc
  end.

Definition num_leb (a b : num) : bool :=
  match a, b with
  | NaN, _ | _, NaN => false
  | Inf false, _ => true
  | _, Inf true => true
  | Inf true, _ => false
  | Fin _, Inf false => false
  | Fin x, Fin y => bool_decide (x ≤ y)%Qc
  end.

(** [Math.min(a, b)]. *)
Definition num_min (a b : num) : num :=
  match a, b with
  | NaN, _ | _, NaN => NaN
  | _, _ => if num_ltb b a then b else a
  end.

(** Decimal digits of a finite number: [Number::toString]. A fraction is
    printed with as many digits as its decimal expansion has; an expansion
    that does not end within [17] digits (no such number is a double) is cut
    there. *)
Definition pow10 (k : nat) : Z := 10 ^ Z.of_nat k.

Fixpoint frac_digits (k fuel : nat) (d : Z) : nat :=
  match fuel with
  | O => k
  | S fuel => if decide (pow10 k `mod` d = 0) then k else frac_digits (S k) fuel d
  end.

Fixpoint pad_zeros (n : nat) (s : string) : string :=
  match n with O => s | S n => "0" +:+ pad_zeros n s end.

Definition pad_left (w : nat) (s : string) : string :=
  pad_zeros (w - String.length s) s.

Definition decimal_abs (q : Qc) : string :=
  let n := Z.abs (Qnum q) in
  let d := Zpos (Qden q) in
  let k := frac_digits 0 17 d in
  let scaled := n * pow10 k `div` d in
  let int := scaled `div` pow10 k in
  if decide (k = O) then pretty int
  else pretty int +:+ "." +:+ pad_left k (pretty (scaled `mod` pow10 k)).

Definition num_to_string (a : num) : string :=
  match a with
  | NaN => "NaN"
  | Inf true => "Infinity"
  | Inf false => "-Infinity"
  | Fin q => if decide (Qnum q < 0) then "-" +:+ decimal_abs q else decimal_abs q
  end.

(** ** Values *)

(** [JDate ms] is a [Date] object holding milliseconds since the epoch;
    objects keep their own properties in insertion order. *)
Inductive jsval :=
| JUndef
| JNull
| JBool (b : bool)
| JNum (a : num)
| JStr (s : string)
| JDate (ms : Z)
| JArr (l : list jsval)
| JObj (l : list (string * jsval)).

Definition JInt (z : Z) : jsval := JNum (num_of_Z z).

Definition truthy (v : jsval) : bool :=
  match v with
  | JUndef | JNull => false
  | JBool b => b
  | JNum NaN => false
  | JNum (Inf _) => true
  | JNum (Fin q) => bool_decide (q ≠ 0%Qc)
  | JStr s => bool_decide (s ≠ "")
  | JDate _ | JArr _ | JObj _ => true
  end.

Definition is_nullish (v : jsval) : bool :=
  match v with JUndef | JNull => true | _ => false end.

(** [v ?? w] and [v || w]. *)
Definition nullish (v w : jsval) : jsval := if is_nullish v then w else v.
Definition js_or (v w : jsval) : jsval := if truthy v then v else w.

Fixpoint obj_get (l : list (string * jsval)) (k : string) : jsval :=
  match l with
  | [] => JUndef
  | (k', v) :: l => if decide (k' = k) then v else obj_get l k
  end.

Fixpoint obj_set (l : list (string * jsval)) (k : string) (v : jsval) :
    list (string * jsval) :=
  match l with
  | [] => [(k, v)]
  | (k', v') :: l =>
      if decide (k' = k) then (k', v) :: l else (k', v') :: obj_set l k v
  end.

(** Member access [v.k]: a [TypeError] on [null] and [undefined]; a value
    that is not an object has none of the properties the sources read. *)
Definition prop (v : jsval) (k : string) : thrown + jsval :=
  match v with
  | JUndef => inl (JsError ("Cannot read properties of undefined (reading '" +:+ k +:+ "')"))
  | JNull => inl (JsError ("Cannot read properties of null (reading '" +:+ k +:+ "')"))
  | JObj l => inr (obj_get l k)
  | _ => inr JUndef
  end.

(** Member access on a value known to be an object. *)
Definition field (v : jsval) (k : string) : jsval :=
  match v with JObj l => obj_get l k | _ => JUndef end.

(** ** Characters and strings *)

Definition chars := list Ascii.ascii.
Definition to_chars (s : string) : chars := String.list_ascii_of_string s.
Definition of_chars (l : chars) : string := String.string_of_list_ascii l.

Lemma to_of_chars l : to_chars (of_chars l) = l.
Proof. apply String.list_ascii_of_string_of_list_ascii. Qed.

Lemma of_to_chars s : of_chars (to_chars s) = s.
Proof. apply String.string_of_list_ascii_of_string. Qed.

Definition code (c : Ascii.ascii) : Z := Z.of_nat (Ascii.nat_of_ascii c).

Definition is_digit (c : Ascii.ascii) : bool := bool_decide (48 ≤ code c ≤ 57).
Definition is_lower (c : Ascii.ascii) : bool := bool_decide (97 ≤ code c ≤ 122).
Definition is_upper (c : Ascii.ascii) : bool := bool_decide (65 ≤ code c ≤ 90).
Definition is_alnum (c : Ascii.ascii) : bool := is_digit c || is_lower c.

Definition lower_char (c : Ascii.ascii) : Ascii.ascii :=
  if is_upper c then Ascii.ascii_of_nat (Ascii.nat_of_ascii c + 32) else c.

(** [toLowerCase] on the ASCII range. *)
Definition toLowerCase (s : string) : string := of_chars (lower_char <$> to_chars s).

Fixpoint drop_while {A} (P : A → bool) (l : list A) : list A :=
  match l with
  | [] => []
  | a :: l' => if P a then drop_while P l' else l
  end.

Fixpoint take_while {A} (P : A → bool) (l : list A) : list A :=
  match l with
  | [] => []
  | a :: l' => if P a then a :: take_while P l' else []
  end.

Definition trim_chars (l : chars) : chars :=
  reverse (drop_while Ascii.is_space (reverse (drop_while Ascii.is_space l))).

Definition trim (s : string) : string := of_chars (trim_chars (to_chars s)).

Definition startsWith (s p : string) : bool := String.prefix p s.

(** [includes]. *)
Fixpoint includes (s sub : string) : bool :=
  String.prefix sub s ||
  match s with EmptyString => false | String _ s' => includes s' sub end.

(** [s.slice(0, n)] and [s.slice(n)] for [n >= 0]. *)
Definition slice_to (s : string) (n : nat) : string := of_chars (take n (to_chars s)).
Definition slice_from (s : string) (n : nat) : string := of_chars (drop n (to_chars s)).

(** [Array.prototype.join]. *)
Fixpoint join (sep : string) (l : list string) : string :=
  match l with
  | [] => ""
  | [s] => s
  | s :: l' => s +:+ sep +:+ join sep l'
  end.

(** ** Numbers from text *)

Definition digits_to_Z (l : chars) : Z :=
  foldl (fun acc c => acc * 10 + (code c - 48)) 0 l.

(** [m * 10 ^ e]. *)
Definition scale10 (m e : Z) : Qc :=
  if decide (0 ≤ e) then Qc_of_Z (m * 10 ^ e)
  else (Qc_of_Z m / Qc_of_Z (10 ^ (- e)))%Qc.

Definition split_sign (l : chars) : Z * chars :=
  match l with
  | "-"%char :: l' => (-1, l')
  | "+"%char :: l' => (1, l')
  | _ => (1, l)
  end.

(** The exponent part of a decimal literal. *)
Definition parse_exponent (l : chars) : option (Z * chars) :=
  match l with
  | ("e" | "E")%char :: l' =>
      let '(sg, l1) := split_sign l' in
      let ds := take_while is_digit l1 in
      if decide (ds = []) then None
      else Some (sg * digits_to_Z ds, drop_while is_digit l1)
  | _ => Some (0, l)
  end.

(** The digits after a decimal point, if there is one, and what follows. *)
Definition parse_fraction (l : chars) : chars * chars :=
  match l with
  | "."%char :: l' => (take_while is_digit l', drop_while is_digit l')
  | _ => ([], l)
  end.

(** An unsigned decimal literal: integer part, fraction and exponent; at
    least one digit. *)
Definition parse_decimal (l : chars) : option (Qc * chars) :=
  let ints := take_while is_digit l in
  let l1 := drop_while is_digit l in
  let '(fracs, l2) := parse_fraction l1 in
  if decide (ints ++ fracs = []) then None
  else match parse_exponent l2 with
       | None => None
       | Some (e, rest) =>
           Some (scale10 (digits_to_Z (ints ++ fracs)) (e - Z.of_nat (length fracs)), rest)
       end.

(** [Number(s)] for a string (decimal literals and [Infinity]). *)
Definition string_to_num (s : string) : num :=
  let l := trim_chars (to_chars s) in
  if decide (l = []) then num_of_Z 0
  else
    let '(sg, l1) := split_sign l in
    if decide (of_chars l1 = "Infinity") then Inf (bool_decide (0 < sg))
    else match parse_decimal l1 with
         | Some (q, []) => Fin (Qc_of_Z sg * q)%Qc
         | _ => NaN
         end.

(** [parseInt(s, 10)]. *)
Definition parseInt10 (s : string) : num :=
  let '(sg, l) := split_sign (drop_while Ascii.is_space (to_chars s)) in
  let ds := take_while is_digit l in
  if decide (ds = []) then NaN else num_of_Z (sg * digits_to_Z ds).

(** ** Dates *)

(** Civil date of a day number counted from 1970-01-01, by the 400-year era
    algorithm. *)
Definition civil_of_days (z0 : Z) : Z * Z * Z :=
  let z := z0 + 719468 in
  let era := z `div` 146097 in
  let doe := z - era * 146097 in
  let yoe := (doe - doe `div` 1460 + doe `div` 36524 - doe `div` 146096) `div` 365 in
  let doy := doe - (365 * yoe + yoe `div` 4 - yoe `div` 100) in
  let mp := (5 * doy + 2) `div` 153 in
  let d := doy - (153 * mp + 2) `div` 5 + 1 in
  let m := if decide (mp < 10) then mp + 3 else mp - 9 in
  let y := yoe + era * 400 in
  (if decide (m ≤ 2) then y + 1 else y, m, d).

Definition pad2 (z : Z) : string := pad_left 2 (pretty z).

(** [new Date(ms).toISOString()] for the years 0 to 9999. *)
Definition toISOString (ms : Z) : string :=
  let days := ms `div` 86400000 in
  let r := ms `mod` 86400000 in
  let '(y, m, d) := civil_of_days days in
  pad_left 4 (pretty y) +:+ "-" +:+ pad2 m +:+ "-" +:+ pad2 d +:+ "T" +:+
  pad2 (r `div` 3600000) +:+ ":" +:+ pad2 ((r `div` 60000) `mod` 60) +:+ ":" +:+
  pad2 ((r `div` 1000) `mod` 60) +:+ "." +:+ pad_left 3 (pretty (r `mod` 1000)) +:+ "Z".

(** ** Conversions of values *)

(** [String(v)]. Arrays join their elements, [null] and [undefined] being
    empty there. No source applies [String] to a [Date]; it is given its ISO
    form. *)
Fixpoint js_to_string (v : jsval) : string :=
  match v with
  | JUndef => "undefined"
  | JNull => "null"
  | JBool true => "true"
  | JBool false => "false"
  | JNum a => num_to_string a
  | JStr s => s
  | JDate ms => toISOString ms
  | JArr l => join "," (map (fun w => if is_nullish w then "" else js_to_string w) l)
  | JObj _ => "[object Object]"
  end.

(** [Number(v)]. *)
Definition js_to_num (v : jsval) : num :=
  match v with
  | JUndef => NaN
  | JNull => num_of_Z 0
  | JBool b => num_of_Z (if b then 1 else 0)
  | JNum a => a
  | JStr s => string_to_num s
  | JDate ms => num_of_Z ms
  | JArr _ => string_to_num (js_to_string v)
  | JObj _ => NaN
  end.

(** [n || d] on a number. *)
Definition num_or (a d : num) : num := if truthy (JNum a) then a else d.
