(* ===== verification/JsJson.v ===== *)
(** * JSON

    [JSON.parse] as a parser on characters, and [JSON.stringify] both as text
    and as the value a peer reads back ([json_value]): properties holding
    [undefined] are dropped, [undefined] array elements, [NaN] and the
    infinities become [null], and a [Date] becomes its ISO string. *)

From Stdlib Require Import Ascii QArith Qcanon.
From S2P Require Import Prelude JsValue.

Local Open Scope Z_scope.

(** ** Writing *)

Fixpoint json_value (v : jsval) : option jsval :=
  match v with
  | JUndef => None
  | JNum (Fin q) => Some (JNum (Fin q))
  | JNum _ => Some JNull
  | JDate ms => Some (JStr (toISOString ms))
  | JArr l => Some (JArr (map (fun w => default JNull (json_value w)) l))
  | JObj l =>
      Some (JObj ((fix go l :=
        match l with
        | [] => []
        | (k, w) :: l' =>
            match json_value w with
            | Some w' => (k, w') :: go l'
            | None => go l'
            end
        end) l))
  | JNull | JBool _ | JStr _ => Some v
  end.

(** Escapes of [JSON.stringify] for a character of a string. *)
Definition escape_char (c : ascii) : chars :=
  if decide (code c = 34) then ["\"; c]%char
  else if decide (code c = 92) then ["\"; c]%char
  else if decide (code c = 8) then ["\"; "b"]%char
  else if decide (code c = 9) then ["\"; "t"]%char
  else if decide (code c = 10) then ["\"; "n"]%char
  else if decide (code c = 12) then ["\"; "f"]%char
  else if decide (code c = 13) then ["\"; "r"]%char
  else if decide (code c < 32)
  then to_chars "\u00" ++
       (if decide (code c < 16) then ["0"]%char else ["1"]%char) ++
       [default "0"%char (to_chars "0123456789abcdef" !! Z.to_nat (code c `mod` 16))]
  else [c].

Definition quote : chars := [ascii_of_nat 34].

Definition quote_string (s : string) : chars :=
  quote ++ concat (map escape_char (to_chars s)) ++ quote.

Fixpoint join_chars (sep : chars) (l : list chars) : chars :=
  match l with
  | [] => []
  | [s] => s
  | s :: l' => s ++ sep ++ join_chars sep l'
  end.

(** The text of a value that [json_value] produced. *)
Fixpoint print_json (v : jsval) : chars :=
  match v with
  | JUndef | JNull => to_chars "null"
  | JBool true => to_chars "true"
  | JBool false => to_chars "false"
  | JNum a => to_chars (num_to_string a)
  | JStr s => quote_string s
  | JDate ms => quote_string (toISOString ms)
  | JArr l => to_chars "[" ++ join_chars (to_chars ",") (map print_json l) ++ to_chars "]"
  | JObj l =>
      to_chars "{" ++
      join_chars (to_chars ",")
        (map (fun kv => quote_string kv.1 ++ to_chars ":" ++ print_json kv.2) l) ++
      to_chars "}"
  end.

(** [JSON.stringify(v)]: [undefined] for a value that is not serializable. *)
Definition stringify (v : jsval) : option string :=
  (fun w => of_chars (print_json w)) <$> json_value v.

(** ** Reading *)

Definition is_json_space (c : ascii) : bool :=
  bool_decide (code c = 32 ∨ code c = 9 ∨ code c = 10 ∨ code c = 13).

Definition skip_space (l : chars) : chars := drop_while is_json_space l.

(** Drop the literal [w] in front of [l]. *)
Fixpoint strip (w l : chars) : option chars :=
  match w, l with
  | [], _ => Some l
  | c :: w', d :: l' => if decide (c = d) then strip w' l' else None
  | _ :: _, [] => None
  end.

Definition hex_digit (c : ascii) : option Z :=
  if is_digit c then Some (code c - 48)
  else if bool_decide (97 ≤ code c ≤ 102) then Some (code c - 87)
  else if bool_decide (65 ≤ code c ≤ 70) then Some (code c - 55)
  else None.

Definition hex4 (l : chars) : option (Z * chars) :=
  match l with
  | a :: b :: c :: d :: l' =>
      match hex_digit a, hex_digit b, hex_digit c, hex_digit d with
      | Some a, Some b, Some c, Some d => Some (((a * 16 + b) * 16 + c) * 16 + d, l')
      | _, _, _, _ => None
      end
  | _ => None
  end.

Definition byte_char (z : Z) : ascii := ascii_of_nat (Z.to_nat z).

(** UTF-8 bytes of a code unit below [0x10000]. *)
Definition utf8 (z : Z) : chars :=
  if decide (z < 128) then [byte_char z]
  else if decide (z < 2048) then [byte_char (192 + z `div` 64); byte_char (128 + z `mod` 64)]
  else [byte_char (224 + z `div` 4096); byte_char (128 + (z `div` 64) `mod` 64);
        byte_char (128 + z `mod` 64)].

(** The rest of a string literal after its opening quote. *)
Fixpoint parse_string_body (fuel : nat) (l : chars) : option (chars * chars) :=
  match fuel, l with
  | S fuel, c :: l' =>
      if decide (code c = 34) then Some ([], l')
      else if decide (code c < 32) then None
      else if decide (code c = 92) then
        match l' with
        | d :: l'' =>
            let cont (bs : chars) (rest : chars) :=
              prod_map (app bs) id <$> parse_string_body fuel rest in
            match code d with
            | 34 | 92 | 47 => cont [d] l''
            | 98 => cont [byte_char 8] l''
            | 102 => cont [byte_char 12] l''
            | 110 => cont [byte_char 10] l''
            | 114 => cont [byte_char 13] l''
            | 116 => cont [byte_char 9] l''
            | 117 => match hex4 l'' with
                     | Some (z, rest) => cont (utf8 z) rest
                     | None => None
                     end
            | _ => None
            end
        | [] => None
        end
      else prod_map (cons c) id <$> parse_string_body fuel l'
  | _, _ => None
  end.

(** A decimal point must be followed by a digit. *)
Definition bare_point (l : chars) : bool :=
  match drop_while is_digit l with
  | "."%char :: d :: _ => negb (is_digit d)
  | ["."%char] => true
  | _ => false
  end.

Definition minus_sign (l : chars) : Z * chars :=
  match l with "-"%char :: l' => (-1, l') | _ => (1, l) end.

(** A number: an optional minus sign and a decimal literal that starts with
    a digit, with no superfluous leading zero. *)
Definition parse_number (l : chars) : option (num * chars) :=
  let '(sg, l1) := minus_sign l in
  match l1 with
  | c :: rest =>
      if is_digit c && negb (bare_point l1) &&
         negb (bool_decide (c = "0"%char) &&
               match rest with d :: _ => is_digit d | [] => false end)
      then match parse_decimal l1 with
           | Some (q, l2) => Some (Fin (Qc_of_Z sg * q)%Qc, l2)
           | None => None
           end
      else None
  | [] => None
  end.

Fixpoint parse_value (fuel : nat) (l : chars) {struct fuel} : option (jsval * chars) :=
  match fuel with
  | O => None
  | S fuel =>
      let l := skip_space l in
      match l with
      | "n"%char :: _ => (fun r => (JNull, r)) <$> strip (to_chars "null") l
      | "t"%char :: _ => (fun r => (JBool true, r)) <$> strip (to_chars "true") l
      | "f"%char :: _ => (fun r => (JBool false, r)) <$> strip (to_chars "false") l
      | "["%char :: l' =>
          match skip_space l' with
          | "]"%char :: r => Some (JArr [], r)
          | _ => prod_map JArr id <$> parse_elems fuel l'
          end
      | "{"%char :: l' =>
          match skip_space l' with
          | "}"%char :: r => Some (JObj [], r)
          | _ => prod_map JObj id <$> parse_members fuel [] l'
          end
      | c :: l' =>
          if decide (code c = 34)
          then (fun p => (JStr (of_chars p.1), p.2)) <$> parse_string_body (length l) l'
          else (fun p => (JNum p.1, p.2)) <$> parse_number l
      | [] => None
      end
  end
with parse_elems (fuel : nat) (l : chars) {struct fuel} : option (list jsval * chars) :=
  match fuel with
  | O => None
  | S fuel =>
      match parse_value fuel l with
      | Some (v, r) =>
          match skip_space r with
          | ","%char :: r' => prod_map (cons v) id <$> parse_elems fuel r'
          | "]"%char :: r' => Some ([v], r')
          | _ => None
          end
      | None => None
      end
  end
with parse_members (fuel : nat) (acc : list (string * jsval)) (l : chars) {struct fuel} :
    option (list (string * jsval) * chars) :=
  match fuel with
  | O => None
  | S fuel =>
      match skip_space l with
      | q :: l1 =>
          if decide (code q = 34) then
            match parse_string_body (S (length l1)) l1 with
            | Some (k, l2) =>
                match skip_space l2 with
                | ":"%char :: l3 =>
                    match parse_value fuel l3 with
                    | Some (v, r) =>
                        let acc := obj_set acc (of_chars k) v in
                        match skip_space r with
                        | ","%char :: r' => parse_members fuel acc r'
                        | "}"%char :: r' => Some (acc, r')
                        | _ => None
                        end
                    | None => None
                    end
                | _ => None
                end
            | None => None
            end
          else None
      | [] => None
      end
  end.

(** Message of the [SyntaxError] that [JSON.parse] throws. *)
Definition json_syntax_error : thrown := JsError "Unexpected token in JSON".

(** [JSON.parse(s)]. Every recursive call consumes a character or follows
    one that did, so twice the length is enough fuel. *)
Definition json_parse (s : string) : thrown + jsval :=
  let l := to_chars s in
  match parse_value (S (2 * length l)) l with
  | Some (v, r) => if decide (skip_space r = []) then inr v else inl json_syntax_error
  | None => inl json_syntax_error
  end.
