(* ===== verification/JsonText.v ===== *)
(** * JSON text

    [JSON.stringify] with and without indentation, and the round trip of JSON
    text: what [JSON.parse] reads of a text that [JSON.stringify] wrote is the
    value itself. *)

From Stdlib Require Import Ascii QArith Qcanon.
From S2P Require Import Prelude JsValue JsJson.

Local Open Scope Z_scope.

(** ** Indentation *)

(** A line break and the indentation, when there is an indentation. *)
Definition break (gap ind : chars) : chars :=
  match gap with [] => [] | _ => byte_char 10 :: ind end.

Definition bracketed (gap ind : chars) (op cl : chars) (items : list chars) : chars :=
  match items with
  | [] => op ++ cl
  | _ => op ++ break gap (ind ++ gap) ++
         join_chars (to_chars "," ++ break gap (ind ++ gap)) items ++
         break gap ind ++ cl
  end.

(** The text of a JSON value at the indentation [ind], with the unit [gap]. *)
Fixpoint print_gap (gap ind : chars) (v : jsval) : chars :=
  match v with
  | JArr l => bracketed gap ind (to_chars "[") (to_chars "]")
                (map (print_gap gap (ind ++ gap)) l)
  | JObj l => bracketed gap ind (to_chars "{") (to_chars "}")
                (map (fun kv => quote_string kv.1 ++ to_chars ":" ++
                        (match gap with [] => [] | _ => to_chars " " end) ++
                        print_gap gap (ind ++ gap) kv.2) l)
  | _ => print_json v
  end.

(** [JSON.stringify(v, null, 2)]. *)
Definition stringify_indent (v : jsval) : option string :=
  (fun w => of_chars (print_gap (to_chars "  ") [] w)) <$> json_value v.

Example stringify_indent_example :
  stringify_indent (JObj [("type", JStr "sleep"); ("n", JArr [JInt 1; JObj []])]) =
  Some (of_chars (concat
    [to_chars "{"; [byte_char 10]; to_chars "  "; quote; to_chars "type"; quote; to_chars ": ";
     quote; to_chars "sleep"; quote; to_chars ","; [byte_char 10]; to_chars "  "; quote;
     to_chars "n"; quote; to_chars ": ["; [byte_char 10]; to_chars "    1,"; [byte_char 10];
     to_chars "    {}"; [byte_char 10]; to_chars "  ]"; [byte_char 10]; to_chars "}"])).
Proof. by vm_compute. Qed.

(** ** Values that JSON text holds *)

(** A value that survives the text: its numbers are integers and the keys of
    its objects are distinct. *)
Fixpoint json_plain (v : jsval) : bool :=
  match v with
  | JNull | JBool _ | JStr _ => true
  | JNum (Fin q) => bool_decide (q = Qc_of_Z (Qnum q))
  | JArr l => forallb json_plain l
  | JObj l => bool_decide (NoDup l.*1) && forallb (fun kv => json_plain kv.2) l
  | _ => false
  end.

(** Nodes of a value, with one more for each element. *)
Fixpoint json_size (v : jsval) : nat :=
  match v with
  | JArr l => S (sum_list_with (fun w => S (json_size w)) l)
  | JObj l => S (sum_list_with (fun kv => S (json_size kv.2)) l)
  | _ => 1
  end.

Lemma json_ind (P : jsval → Prop) :
  (∀ v, (∀ w, (json_size w < json_size v)%nat → P w) → P v) → ∀ v, P v.
Proof. intros H v. apply (well_founded_induction (Wf_nat.well_founded_ltof _ json_size) P). exact H. Qed.

(** ** Numbers *)

Lemma digits_to_Z_snoc l c : digits_to_Z (l ++ [c]) = digits_to_Z l * 10 + (code c - 48).
Proof. unfold digits_to_Z. by rewrite foldl_app. Qed.

Lemma pretty_N_char_digit x :
  (x < 10)%N → is_digit (pretty_N_char x) = true ∧ code (pretty_N_char x) = 48 + Z.of_N x.
Proof.
  intros Hx. assert (x = 0 ∨ x = 1 ∨ x = 2 ∨ x = 3 ∨ x = 4 ∨ x = 5 ∨ x = 6 ∨ x = 7 ∨ x = 8 ∨ x = 9)%N
    as Hc by lia.
  repeat destruct Hc as [->|Hc]; try subst x; done.
Qed.

(** The decimal digits of a positive number, in front of the accumulator. *)
Lemma pretty_N_go_digits x s :
  ∃ ds, to_chars (pretty_N_go x s) = ds ++ to_chars s ∧
    Forall (fun c => is_digit c = true) ds ∧ digits_to_Z ds = Z.of_N x ∧
    ((0 < x)%N → ∃ c ds', ds = c :: ds' ∧ c ≠ "0"%char).
Proof.
  revert s. induction (N.lt_wf_0 x) as [x _ IH]. intros s.
  destruct (decide (x = 0%N)) as [->|Hx].
  { exists []. rewrite pretty_N_go_0. by repeat split. }
  rewrite pretty_N_go_step by lia.
  destruct (IH (x `div` 10)%N ltac:(apply N.div_lt; lia)
              (String (pretty_N_char (x `mod` 10)) s)) as (ds & E & Hd & Hv & Hz).
  destruct (pretty_N_char_digit (x `mod` 10)) as [Hdig Hcode]; [by apply N.mod_lt|].
  exists (ds ++ [pretty_N_char (x `mod` 10)]). split; [|split; [|split]].
  - rewrite E. cbn. by rewrite <- app_assoc.
  - apply Forall_app. split; [done|]. by constructor.
  - rewrite digits_to_Z_snoc, Hv, Hcode, N2Z.inj_div, N2Z.inj_mod.
    change (Z.of_N 10) with 10. pose proof (Z.div_mod (Z.of_N x) 10 ltac:(lia)). lia.
  - intros _. destruct (decide (0 < x `div` 10)%N) as [Hp|Hp].
    { destruct (Hz Hp) as (c & ds' & -> & ?). by eexists _, _. }
    assert (x `div` 10 = 0)%N as Hq by (by apply N.le_0_r, N.nlt_ge). rewrite Hq in Hv.
    apply N.div_small_iff in Hq; [|done]. rewrite N.mod_small in * by done.
    rewrite N.div_small in E by done. rewrite pretty_N_go_0 in E.
    assert (ds = []) as ->.
    { apply (f_equal length) in E. rewrite length_app in E. destruct ds; [done|]. simpl in E. lia. }
    exists (pretty_N_char x), []. split; [done|]. intros Hc. rewrite Hc in Hcode.
    change (code "0"%char) with 48 in Hcode. lia.
Qed.

(** The text of a non-negative integer: its digits, without a leading zero. *)
Lemma pretty_digits z :
  0 ≤ z → ∃ c ds, to_chars (pretty z) = c :: ds ∧
    Forall (fun c => is_digit c = true) (c :: ds) ∧ digits_to_Z (c :: ds) = z ∧
    (c = "0"%char → ds = []).
Proof.
  intros Hz. destruct z as [|p|p]; [|clear Hz|lia].
  { exists "0"%char, []. split; [done|]. split; [|done]. by constructor. }
  change (pretty (Zpos p)) with (pretty_N_go (Npos p) "").
  destruct (pretty_N_go_digits (Npos p) "") as (ds & E & Hd & Hv & Hh).
  destruct (Hh ltac:(lia)) as (c & ds' & -> & Hc). rewrite E, app_nil_r.
  by exists c, ds'.
Qed.

(** A text that may follow a number: no digit, point or exponent. *)
Definition ends_number (r : chars) : bool :=
  match r with
  | [] => true
  | c :: _ => negb (is_digit c || bool_decide (c = "."%char ∨ c = "e"%char ∨ c = "E"%char))
  end.

Lemma take_while_app {A} (P : A → bool) l r :
  Forall (fun c => P c = true) l → (∀ c, head r = Some c → P c = false) →
  take_while P (l ++ r) = l ∧ drop_while P (l ++ r) = r.
Proof.
  induction 1 as [|c l Hc _ IH]; intros Hr; simpl.
  { destruct r as [|d r]; [done|]. simpl. by rewrite (Hr d). }
  rewrite Hc. by destruct (IH Hr) as [-> ->].
Qed.

Lemma ends_number_digit r c : ends_number r = true → head r = Some c → is_digit c = false.
Proof. destruct r; intros H [= ->]; simpl in H. by destruct (is_digit c). Qed.

Lemma parse_exponent_none r : ends_number r = true → parse_exponent r = Some (0, r).
Proof.
  destruct r as [|c r]; [done|]. cbn [ends_number]. intros H.
  apply negb_true_iff, orb_false_iff in H as [_ H]. apply bool_decide_eq_false in H.
  by destruct c as [[] [] [] [] [] [] [] []]; try done; exfalso; apply H; vm_compute; auto.
Qed.

Lemma parse_fraction_none r : ends_number r = true → parse_fraction r = ([], r).
Proof.
  destruct r as [|c r]; [done|]. cbn [ends_number]. intros H.
  apply negb_true_iff, orb_false_iff in H as [_ H]. apply bool_decide_eq_false in H.
  by destruct c as [[] [] [] [] [] [] [] []]; try done; exfalso; apply H; vm_compute; auto.
Qed.

Lemma parse_decimal_digits c ds r :
  Forall (fun c => is_digit c = true) (c :: ds) → ends_number r = true →
  parse_decimal (c :: ds ++ r) = Some (Qc_of_Z (digits_to_Z (c :: ds)), r).
Proof.
  intros Hd Hr. unfold parse_decimal.
  destruct (take_while_app is_digit (c :: ds) r Hd ltac:(intros; by eapply ends_number_digit))
    as [Et Ed].
  change (c :: ds ++ r) with ((c :: ds) ++ r). rewrite Et, Ed.
  rewrite (parse_fraction_none r Hr).
  rewrite decide_False by done. rewrite (parse_exponent_none r Hr).
  rewrite app_nil_r. unfold scale10. rewrite decide_True by done.
  change (0 - Z.of_nat (length (@nil ascii))) with 0. by rewrite Z.pow_0_r, Z.mul_1_r.
Qed.

Lemma num_of_Z_text z :
  num_to_string (num_of_Z z) = if decide (z < 0) then "-" +:+ pretty (- z) else pretty z.
Proof.
  unfold num_to_string, num_of_Z, decimal_abs. change (Qnum (Qc_of_Z z)) with z.
  change (frac_digits 0 17 (Zpos (Qden (Qc_of_Z z)))) with 0%nat.
  change (Zpos (Qden (Qc_of_Z z))) with 1. change (pow10 0) with 1.
  rewrite Z.mul_1_r, !Z.div_1_r, (decide_True (P := 0%nat = 0%nat)) by done.
  case_decide; f_equal; f_equal; lia.
Qed.

Lemma digits_no_point c ds r :
  Forall (fun c => is_digit c = true) (c :: ds) → ends_number r = true →
  bare_point (c :: ds ++ r) = false.
Proof.
  intros Hd Hr. unfold bare_point.
  destruct (take_while_app is_digit (c :: ds) r Hd ltac:(intros; by eapply ends_number_digit))
    as [_ Ed].
  change (c :: ds ++ r) with ((c :: ds) ++ r). rewrite Ed.
  destruct r as [|d r]; [done|]. cbn [ends_number] in Hr.
  apply negb_true_iff, orb_false_iff in Hr as [_ Hr]. apply bool_decide_eq_false in Hr.
  by destruct d as [[] [] [] [] [] [] [] []]; try done; exfalso; apply Hr; vm_compute; auto.
Qed.

(** The unsigned part of a number, after its sign was read. *)
Lemma parse_unsigned sg c ds r :
  Forall (fun c => is_digit c = true) (c :: ds) → (c = "0"%char → ds = []) →
  ends_number r = true →
  (if is_digit c && negb (bare_point (c :: ds ++ r)) &&
      negb (bool_decide (c = "0"%char) &&
            match ds ++ r with d :: _ => is_digit d | [] => false end)
   then match parse_decimal (c :: ds ++ r) with
        | Some (q, l2) => Some (Fin (Qc_of_Z sg * q)%Qc, l2)
        | None => None
        end
   else None) = Some (Fin (Qc_of_Z sg * Qc_of_Z (digits_to_Z (c :: ds)))%Qc, r).
Proof.
  intros Hd Hz Hr. rewrite digits_no_point, parse_decimal_digits by done.
  pose proof Hd as [-> _]%Forall_cons. simpl.
  case_bool_decide as H0; simpl; [|done]. rewrite (Hz H0). simpl.
  destruct r as [|d r]; [done|]. by rewrite (ends_number_digit (d :: r) d).
Qed.

Lemma Qc_of_Z_sign z : (Qc_of_Z (-1) * Qc_of_Z (- z))%Qc = Qc_of_Z z.
Proof. rewrite <- Z2Qc_inj_mul. f_equal. lia. Qed.

Lemma parse_number_text z r :
  ends_number r = true →
  parse_number (to_chars (num_to_string (num_of_Z z)) ++ r) = Some (num_of_Z z, r).
Proof.
  intros Hr. rewrite num_of_Z_text. case_decide as Hneg.
  - destruct (pretty_digits (- z) ltac:(lia)) as (c & ds & E & Hd & Hv & Hz).
    change (to_chars ("-" +:+ pretty (- z))) with ("-"%char :: to_chars (pretty (- z))).
    rewrite E. unfold parse_number. cbn [app].
    change (minus_sign ("-"%char :: c :: ds ++ r)) with (-1, c :: ds ++ r).
    cbv iota beta. pose proof (parse_unsigned (-1) c ds r Hd Hz Hr) as ->.
    by rewrite Hv, Qc_of_Z_sign.
  - destruct (pretty_digits z ltac:(lia)) as (c & ds & E & Hd & Hv & Hz).
    rewrite E, <- app_comm_cons. unfold parse_number.
    assert (minus_sign (c :: ds ++ r) = (1, c :: ds ++ r)) as Ec.
    { apply Forall_cons in Hd as [Hd _].
      by destruct c as [[] [] [] [] [] [] [] []]; try done. }
    rewrite Ec. pose proof (parse_unsigned 1 c ds r Hd Hz Hr) as ->.
    rewrite Hv. unfold num_of_Z. by rewrite Z2Qc_inj_1, Qcmult_1_l.
Qed.

(** ** Strings *)

Lemma escape_char_length c : (1 ≤ length (escape_char c))%nat.
Proof. destruct c as [[] [] [] [] [] [] [] []]; vm_compute; lia. Qed.

Lemma parse_escaped fuel c r :
  parse_string_body (S fuel) (escape_char c ++ r) =
  prod_map (cons c) id <$> parse_string_body fuel r.
Proof. destruct c as [[] [] [] [] [] [] [] []]; reflexivity. Qed.

Lemma parse_string_text fuel l r :
  (length l < fuel)%nat →
  parse_string_body fuel (concat (map escape_char l) ++ quote ++ r) = Some (l, r).
Proof.
  revert fuel. induction l as [|c l IH]; intros [|fuel] Hf; simpl in Hf; [lia|done|lia|].
  cbn [map concat]. rewrite <- app_assoc, parse_escaped, IH by lia. done.
Qed.

Lemma length_escaped l : (length l ≤ length (concat (map escape_char l)))%nat.
Proof.
  induction l as [|c l IH]; cbn [map concat length]; [lia|]. rewrite length_app.
  pose proof (escape_char_length c). lia.
Qed.

(** ** Values *)

Abbreviation spaces := (Forall (fun c => is_json_space c = true)).

(** First characters of JSON values. *)
Definition starts_value (c : ascii) : bool :=
  is_digit c || bool_decide (code c = 34) ||
  bool_decide (c ∈ ["n"; "t"; "f"; "["; "{"; "-"]%char).

Lemma skip_spaces ws c l :
  spaces ws → is_json_space c = false → skip_space (ws ++ c :: l) = c :: l.
Proof.
  intros Hws Hc. unfold skip_space. induction Hws as [|d ws Hd _ IH]; simpl; [by rewrite Hc|].
  by rewrite Hd.
Qed.

Lemma skip_char c l : is_json_space c = false → skip_space (c :: l) = c :: l.
Proof. by apply (skip_spaces []). Qed.

Lemma starts_not_space c : starts_value c = true → is_json_space c = false.
Proof. by destruct c as [[] [] [] [] [] [] [] []]. Qed.

Lemma print_starts gap ind v :
  json_plain v = true → ∃ c l, print_gap gap ind v = c :: l ∧ starts_value c = true.
Proof.
  destruct v as [| |[]|[| |q]|s| |l|l]; intros Hv; try done; try (by eexists _, _).
  - cbn in Hv. apply bool_decide_eq_true in Hv. rewrite Hv. cbn [print_gap print_json].
    change (Fin (Qc_of_Z (Qnum q))) with (num_of_Z (Qnum q)). rewrite num_of_Z_text.
    case_decide; [by eexists _, _|].
    destruct (pretty_digits (Qnum q) ltac:(lia)) as (c & ds & -> & [Hc _]%Forall_cons & _).
    exists c, ds. split; [done|]. unfold starts_value. by rewrite Hc.
  - cbn [print_gap]. unfold bracketed. destruct (map _ l); by eexists _, _.
  - cbn [print_gap]. unfold bracketed. destruct (map _ l); by eexists _, _.
Qed.

(** Spaces in front of a value do not matter. *)
Lemma parse_value_space fuel ws c l :
  spaces ws → is_json_space c = false → parse_value fuel (ws ++ c :: l) = parse_value fuel (c :: l).
Proof.
  intros Hws Hc. destruct fuel as [|fuel]; [done|]. cbn [parse_value].
  rewrite (skip_spaces ws) by done. by rewrite skip_char.
Qed.

Lemma parse_value_number fuel c l :
  is_digit c = true ∨ c = "-"%char →
  parse_value (S fuel) (c :: l) = (fun p => (JNum p.1, p.2)) <$> parse_number (c :: l).
Proof. intros [H| ->]; [|done]. by destruct c as [[] [] [] [] [] [] [] []]. Qed.

Lemma parse_value_array fuel ws c l :
  spaces ws → starts_value c = true →
  parse_value (S fuel) ("["%char :: ws ++ c :: l) =
  prod_map JArr id <$> parse_elems fuel (ws ++ c :: l).
Proof.
  intros Hws Hc. cbn [parse_value]. rewrite (skip_char "["%char) by done.
  cbv iota beta. rewrite skip_spaces by (done || by apply starts_not_space).
  by destruct c as [[] [] [] [] [] [] [] []].
Qed.

Lemma parse_value_object fuel ws k l :
  spaces ws →
  parse_value (S fuel) ("{"%char :: ws ++ quote_string k ++ l) =
  prod_map JObj id <$> parse_members fuel [] (ws ++ quote_string k ++ l).
Proof.
  intros Hws. cbn [parse_value]. rewrite (skip_char "{"%char) by done.
  cbv iota beta. unfold quote_string, quote. rewrite <- !app_assoc. cbn [app].
  by rewrite skip_spaces.
Qed.

Lemma ends_number_spaces ws c r :
  spaces ws → ends_number (c :: r) = true → ends_number (ws ++ c :: r) = true.
Proof.
  intros [|d ws' Hd _] Hc; [done|].
  by destruct d as [[] [] [] [] [] [] [] []].
Qed.

(** A printer whose text reads back, whatever surrounds it. *)
Definition reads_back (pr : jsval → chars) (v : jsval) : Prop :=
  ∀ fuel ws r, spaces ws → (json_size v ≤ fuel)%nat → ends_number r = true →
    parse_value fuel (ws ++ pr v ++ r) = Some (v, r).

Lemma join_chars_cons sep x y l :
  join_chars sep (x :: y :: l) = x ++ sep ++ join_chars sep (y :: l).
Proof. done. Qed.

Lemma parse_elems_text pr ws sep ws' fuel l r :
  spaces ws → spaces sep → spaces ws' → l ≠ [] → Forall (reads_back pr) l →
  (sum_list_with (fun w => S (json_size w)) l ≤ fuel)%nat →
  parse_elems fuel (ws ++ join_chars (","%char :: sep) (map pr l) ++ ws' ++ "]"%char :: r) =
  Some (l, r).
Proof.
  intros Hws Hsep Hws' Hne Hl. revert ws fuel Hws Hne.
  induction Hl as [|v l Hv Hl IH]; intros ws [|fuel] Hws Hne Hf; cbn in Hf; try done; [lia|].
  cbn [parse_elems map]. destruct l as [|v' l].
  - cbn [map join_chars]. rewrite Hv by (done || lia || by apply ends_number_spaces).
    by rewrite skip_spaces.
  - rewrite !map_cons, join_chars_cons, <- map_cons, <- app_assoc.
    rewrite Hv by (done || lia || by apply ends_number_spaces).
    cbn [app]. rewrite skip_char by done. cbn beta iota. rewrite <- app_assoc.
    rewrite IH by (done || lia). done.
Qed.

Lemma obj_set_fresh l k v : k ∉ l.*1 → obj_set l k v = l ++ [(k, v)].
Proof.
  induction l as [|[k' v'] l IH]; csimpl; [done|]. intros Hk.
  rewrite not_elem_of_cons in Hk. destruct Hk. rewrite decide_False by done. by rewrite IH.
Qed.

(** A member of an object. *)
Definition print_member (col : chars) (pr : jsval → chars) (kv : string * jsval) : chars :=
  quote_string kv.1 ++ ":"%char :: col ++ pr kv.2.

Lemma parse_member_key fuel acc ws k l :
  spaces ws →
  parse_members (S fuel) acc (ws ++ quote_string k ++ ":"%char :: l) =
  match parse_value fuel l with
  | Some (v, r) =>
      match skip_space r with
      | ","%char :: r' => parse_members fuel (obj_set acc k v) r'
      | "}"%char :: r' => Some (obj_set acc k v, r')
      | _ => None
      end
  | None => None
  end.
Proof.
  intros Hws. cbn [parse_members]. unfold quote_string, quote at 1. rewrite <- !app_assoc.
  cbn [app]. rewrite skip_spaces by done. rewrite decide_True by done.
  rewrite parse_string_text.
  - rewrite skip_char, of_to_chars by done. done.
  - rewrite length_app. pose proof (length_escaped (to_chars k)). lia.
Qed.

Lemma parse_members_text col pr ws sep ws' fuel acc l r :
  spaces ws → spaces sep → spaces ws' → spaces col → l ≠ [] →
  Forall (fun kv => reads_back pr kv.2) l → NoDup (acc ++ l).*1 →
  (sum_list_with (fun kv => S (json_size kv.2)) l ≤ fuel)%nat →
  parse_members fuel acc
    (ws ++ join_chars (","%char :: sep) (map (print_member col pr) l) ++ ws' ++ "}"%char :: r) =
  Some (acc ++ l, r).
Proof.
  intros Hws Hsep Hws' Hcol Hne Hl. revert ws acc fuel Hws Hne.
  induction Hl as [|[k v] l Hv Hl IH]; intros ws acc [|fuel] Hws Hne Hnd Hf; cbn in Hf;
    try done; [lia|]. cbn in Hv.
  assert (obj_set acc k v = acc ++ [(k, v)]) as Eset.
  { apply obj_set_fresh. rewrite fmap_app in Hnd. apply NoDup_app in Hnd as (_ & Hd & _).
    intros Hk. apply (Hd k Hk). csimpl. set_solver. }
  destruct l as [|kv l].
  - cbn [map join_chars]. unfold print_member. cbn [fst snd].
    rewrite <- app_assoc. cbn [app]. rewrite <- app_assoc. rewrite parse_member_key by done.
    rewrite Hv by (done || lia || by apply ends_number_spaces).
    rewrite skip_spaces by done. by rewrite Eset.
  - rewrite !map_cons, join_chars_cons, <- map_cons. unfold print_member at 1. cbn [fst snd].
    rewrite <- !app_assoc. cbn [app]. rewrite <- !app_assoc. rewrite parse_member_key by done.
    rewrite Hv by (done || lia || by apply ends_number_spaces).
    cbn [app]. rewrite skip_char by done. cbn beta iota. rewrite Eset.
    rewrite (IH sep (acc ++ [(k, v)]) fuel); [by rewrite <- app_assoc|done|done| |lia].
    by rewrite <- app_assoc.
Qed.

Lemma spaces_break gap ind : spaces ind → spaces (break gap ind).
Proof. intros H. destruct gap; simpl; [done|]. by constructor. Qed.

(** The space after a colon. *)
Definition colon_space (gap : chars) : chars := match gap with [] => [] | _ => to_chars " " end.

Lemma print_gap_object gap ind kv l :
  print_gap gap ind (JObj (kv :: l)) =
  to_chars "{" ++ break gap (ind ++ gap) ++
  join_chars (","%char :: break gap (ind ++ gap))
    (map (print_member (colon_space gap) (print_gap gap (ind ++ gap))) (kv :: l)) ++
  break gap ind ++ to_chars "}".
Proof. done. Qed.

Lemma print_gap_array gap ind v l :
  print_gap gap ind (JArr (v :: l)) =
  to_chars "[" ++ break gap (ind ++ gap) ++
  join_chars (","%char :: break gap (ind ++ gap)) (map (print_gap gap (ind ++ gap)) (v :: l)) ++
  break gap ind ++ to_chars "]".
Proof. done. Qed.

Lemma parse_value_string fuel s r :
  parse_value (S fuel) (quote_string s ++ r) = Some (JStr s, r).
Proof.
  unfold quote_string, quote at 1. rewrite <- !app_assoc. cbn [app].
  cbn [parse_value]. rewrite skip_char by done. cbn beta iota.
  transitivity ((fun p => (JStr (of_chars p.1), p.2)) <$>
    parse_string_body (length (ascii_of_nat 34 :: concat (map escape_char (to_chars s)) ++ quote ++ r))
      (concat (map escape_char (to_chars s)) ++ quote ++ r)); [done|].
  rewrite parse_string_text.
  - cbn. by rewrite of_to_chars.
  - cbn [length]. rewrite length_app. pose proof (length_escaped (to_chars s)). lia.
Qed.

Lemma join_chars_head sep x l : ∃ u, join_chars sep (x :: l) = x ++ u.
Proof. destruct l; [exists []; by rewrite app_nil_r|by eexists]. Qed.

Lemma parse_array_text gap ind v l fuel r :
  spaces gap → spaces ind → json_plain v = true →
  Forall (reads_back (print_gap gap (ind ++ gap))) (v :: l) →
  (json_size (JArr (v :: l)) ≤ S fuel)%nat → ends_number r = true →
  parse_value (S fuel) (print_gap gap ind (JArr (v :: l)) ++ r) = Some (JArr (v :: l), r).
Proof.
  intros Hgap Hind Hv Hl Hf Hr. rewrite print_gap_array.
  assert (spaces (ind ++ gap)) as Hig by (by apply Forall_app).
  destruct (print_starts gap (ind ++ gap) v Hv) as (d & t' & Ed & Hd).
  rewrite <- !app_assoc. cbn [to_chars String.list_ascii_of_string app].
  destruct (join_chars_head (","%char :: break gap (ind ++ gap)) (print_gap gap (ind ++ gap) v)
              (map (print_gap gap (ind ++ gap)) l)) as (u & Eu).
  rewrite map_cons, Eu, Ed. cbn [app]. rewrite <- !app_assoc.
  rewrite parse_value_array by (done || by apply spaces_break).
  rewrite (app_comm_cons t'), <- Ed, (app_assoc _ u), <- Eu, <- map_cons.
  rewrite parse_elems_text by (done || (by apply spaces_break) || (simpl in *; lia)). done.
Qed.

Lemma parse_object_text gap ind k v l fuel r :
  spaces gap → spaces ind → NoDup ((k, v) :: l).*1 →
  Forall (fun kv => reads_back (print_gap gap (ind ++ gap)) kv.2) ((k, v) :: l) →
  (json_size (JObj ((k, v) :: l)) ≤ S fuel)%nat → ends_number r = true →
  parse_value (S fuel) (print_gap gap ind (JObj ((k, v) :: l)) ++ r) = Some (JObj ((k, v) :: l), r).
Proof.
  intros Hgap Hind Hnd Hl Hf Hr. rewrite print_gap_object.
  assert (spaces (ind ++ gap)) as Hig by (by apply Forall_app).
  rewrite <- !app_assoc. cbn [to_chars String.list_ascii_of_string app].
  destruct (join_chars_head (","%char :: break gap (ind ++ gap))
              (print_member (colon_space gap) (print_gap gap (ind ++ gap)) (k, v))
              (map (print_member (colon_space gap) (print_gap gap (ind ++ gap))) l)) as (u & Eu).
  rewrite map_cons, Eu. unfold print_member at 1. cbn [fst]. rewrite <- !app_assoc.
  rewrite parse_value_object by (by apply spaces_break).
  rewrite (app_assoc (quote_string k)).
  change (quote_string k ++ ":"%char :: colon_space gap ++ print_gap gap (ind ++ gap) (k, v).2)
    with (print_member (colon_space gap) (print_gap gap (ind ++ gap)) (k, v)).
  rewrite (app_assoc _ u), <- Eu, <- map_cons.
  rewrite parse_members_text; [done|..]; try done; try (by apply spaces_break).
  + by destruct gap; repeat constructor.
  + simpl in *. lia.
Qed.

Lemma print_reads_back gap v :
  spaces gap → json_plain v = true → ∀ ind, spaces ind → reads_back (print_gap gap ind) v.
Proof.
  intros Hgap. induction v as [v IH] using json_ind. intros Hv ind Hind fuel ws r Hws Hf Hr.
  assert (1 ≤ json_size v)%nat as H1 by (destruct v; simpl; lia).
  destruct fuel as [|fuel]; [lia|].
  assert (spaces (ind ++ gap)) as Hig by (by apply Forall_app).
  destruct (print_starts gap ind v Hv) as (c & t & Ec & Hc).
  rewrite Ec at 1. cbn [app]. rewrite parse_value_space by (done || by apply starts_not_space).
  change (c :: t ++ r) with ((c :: t) ++ r). rewrite <- Ec.
  destruct v as [| |[]|[| |q]|s| |l|l]; try done.
  - cbn in Hv. apply bool_decide_eq_true in Hv. rewrite Hv in Ec |- *.
    cbn [print_gap print_json] in Ec |- *.
    change (Fin (Qc_of_Z (Qnum q))) with (num_of_Z (Qnum q)) in Ec |- *.
    assert (is_digit c = true ∨ c = "-"%char) as Hcd.
    { rewrite num_of_Z_text in Ec. case_decide; [right; by simplify_eq/=|left].
      destruct (pretty_digits (Qnum q) ltac:(lia)) as (d & ds & E & [Hd _]%Forall_cons & _).
      congruence. }
    rewrite Ec. cbn [app]. rewrite parse_value_number by done.
    change (c :: t ++ r) with ((c :: t) ++ r). rewrite <- Ec. by rewrite parse_number_text.
  - apply parse_value_string.
  - destruct l as [|v l]; [done|]. apply parse_array_text; try done.
    { by apply andb_true_iff in Hv as [Hv _]. }
    apply Forall_forall. intros w Hw. apply IH; [|by eapply forallb_forall, list_elem_of_In|done].
    apply (sum_list_elem (fun w => S (json_size w))) in Hw. simpl in *. lia.
  - destruct l as [|[k v] l]; [done|].
    apply andb_true_iff in Hv as [Hnd%bool_decide_eq_true Hv]. apply parse_object_text; try done.
    apply Forall_forall. intros kv Hw.
    apply IH; [|by eapply (forallb_forall (fun kv => json_plain kv.2)), list_elem_of_In|done].
    apply (sum_list_elem (fun kv => S (json_size kv.2))) in Hw. simpl in *. lia.
Qed.

(** ** The round trip *)

Lemma length_join_chars (sep x : chars) (l : list chars) :
  (1 ≤ length sep)%nat →
  (sum_list_with length (x :: l) + length l ≤ length (join_chars sep (x :: l)))%nat.
Proof.
  intros Hs. revert x. induction l as [|y l IH]; intros x; [simpl; lia|].
  rewrite join_chars_cons, !length_app. specialize (IH y). simpl in *. lia.
Qed.

Lemma sum_list_bound {A} (f : A → nat) (g : A → chars) l :
  Forall (fun a => (f a ≤ 2 * length (g a))%nat) l →
  (sum_list_with (fun a => S (f a)) l ≤ 2 * sum_list_with length (map g l) + length l)%nat.
Proof. induction 1; simpl in *; lia. Qed.

(** Twice the length of its text is enough fuel to read a value. *)
Lemma json_size_text gap v ind :
  json_plain v = true → (json_size v ≤ 2 * length (print_gap gap ind v))%nat.
Proof.
  revert ind. induction v as [v IH] using json_ind. intros ind Hv.
  assert (1 ≤ length (print_gap gap ind v))%nat as H1.
  { destruct (print_starts gap ind v Hv) as (c & t & -> & _). simpl. lia. }
  destruct v as [| | | | | |l|l]; try (cbn [json_size]; lia).
  - destruct l as [|v l]; [simpl in *; lia|]. rewrite print_gap_array, !length_app, map_cons.
    pose proof (length_join_chars (","%char :: break gap (ind ++ gap))
      (print_gap gap (ind ++ gap) v) (map (print_gap gap (ind ++ gap)) l)
      ltac:(simpl; lia)) as Hj.
    pose proof (sum_list_bound json_size (print_gap gap (ind ++ gap)) (v :: l)) as Hs.
    ospecialize (Hs _).
    { apply Forall_forall. intros w Hw. apply IH; [|by eapply forallb_forall, list_elem_of_In].
      apply (sum_list_elem (fun w => S (json_size w))) in Hw. simpl in *. lia. }
    rewrite List.length_map in Hj. simpl in *. lia.
  - destruct l as [|[k v] l]; [simpl in *; lia|]. rewrite print_gap_object, !length_app, map_cons.
    set (pr := print_member (colon_space gap) (print_gap gap (ind ++ gap))).
    pose proof (length_join_chars (","%char :: break gap (ind ++ gap)) (pr (k, v)) (map pr l)
      ltac:(simpl; lia)) as Hj.
    pose proof (sum_list_bound (fun kv => json_size kv.2) pr ((k, v) :: l)) as Hs.
    ospecialize (Hs _).
    { apply andb_true_iff in Hv as [_ Hv].
      apply Forall_forall. intros kv Hw. transitivity (2 * length (print_gap gap (ind ++ gap) kv.2))%nat.
      - apply IH; [|by eapply (forallb_forall (fun kv => json_plain kv.2)), list_elem_of_In].
        apply (sum_list_elem (fun kv => S (json_size kv.2))) in Hw. simpl in *. lia.
      - unfold pr, print_member. rewrite length_app. cbn [length]. rewrite length_app. lia. }
    rewrite List.length_map in Hj. simpl in *. lia.
Qed.

Lemma parse_print gap v :
  spaces gap → json_plain v = true → json_parse (of_chars (print_gap gap [] v)) = inr v.
Proof.
  intros Hgap Hv. unfold json_parse. rewrite to_of_chars.
  pose proof (print_reads_back gap v Hgap Hv [] ltac:(done)
    (S (2 * length (print_gap gap [] v))) [] [] ltac:(done)) as H.
  rewrite app_nil_r in H. cbn [app] in H. rewrite H; [done| |done].
  pose proof (json_size_text gap v [] Hv). lia.
Qed.

Lemma print_no_gap v : ∀ ind, print_gap [] ind v = print_json v.
Proof.
  induction v as [v IH] using json_ind. intros ind.
  destruct v as [| | | | | |l|l]; try done.
  - cbn [print_gap print_json]. destruct l as [|v l]; [done|].
    assert (map (print_gap [] (ind ++ [])) (v :: l) = map print_json (v :: l)) as ->; [|done].
    apply map_ext_in. intros w Hw%list_elem_of_In. apply IH.
    apply (sum_list_elem (fun w => S (json_size w))) in Hw. simpl in *. lia.
  - cbn [print_gap print_json]. destruct l as [|kv l]; [done|].
    set (m := fun kv => quote_string kv.1 ++ to_chars ":" ++ print_json kv.2).
    transitivity (bracketed [] ind (to_chars "{") (to_chars "}") (map m (kv :: l))); [|done].
    f_equal. apply map_ext_in. intros kv' Hw%list_elem_of_In. unfold m. cbn [app].
    rewrite IH; [done|]. apply (sum_list_elem (fun kv => S (json_size kv.2))) in Hw.
    simpl in *. lia.
Qed.

Lemma json_value_plain v : json_plain v = true → json_value v = Some v.
Proof.
  induction v as [v IH] using json_ind. intros Hv.
  destruct v as [| | |[]| | |l|l]; try done.
  - cbn [json_value]. do 2 f_equal. rewrite <- (map_id l) at 2. apply map_ext_in.
    intros w Hw. rewrite IH; [done| |by eapply forallb_forall].
    apply list_elem_of_In, (sum_list_elem (fun w => S (json_size w))) in Hw. simpl in *. lia.
  - apply andb_true_iff in Hv as [_ Hv]. cbn [json_value]. do 2 f_equal.
    assert (∀ kv, kv ∈ l → json_value kv.2 = Some kv.2) as Hl.
    { intros kv Hw. apply IH; [|by eapply (forallb_forall (fun kv => json_plain kv.2)), list_elem_of_In].
      apply (sum_list_elem (fun kv => S (json_size kv.2))) in Hw. simpl in *. lia. }
    clear -Hl. induction l as [|[k v] l IH]; [done|].
    pose proof (Hl (k, v) ltac:(set_solver)) as E. cbn [snd] in E.
    rewrite E, IH by set_solver. done.
Qed.

(** What is written with [JSON.stringify], indented or not, is read back as
    the value it stands for on the wire. *)
Lemma stringify_parse v w :
  json_value v = Some w → json_plain w = true →
  ∃ s, stringify v = Some s ∧ json_parse s = inr w.
Proof.
  intros Hv Hw. unfold stringify. rewrite Hv. eexists. split; [done|].
  rewrite <- (print_no_gap w []). by apply parse_print.
Qed.

Lemma stringify_indent_parse v :
  json_plain v = true →
  ∃ s, stringify_indent v = Some s ∧ json_parse s = inr v.
Proof.
  intros Hv. unfold stringify_indent. rewrite json_value_plain by done. eexists. split; [done|].
  apply parse_print; [|done]. by repeat constructor.
Qed.
