(* ===== verification/Database.v ===== *)
(** * The PostgreSQL database

    The tables that [dashboard/src/server/setup.ts] creates, as finite maps
    from primary key to row, and the outside world a statement depends on:
    the clock behind [NOW()], [gen_random_uuid()], the physical order in
    which a scan visits rows, the conversion of statement parameters, and the
    failures of the connection. *)

From S2P Require Import Prelude JsValue.

Local Open Scope Z_scope.

(** ** Row types (setup.ts, [STATEMENTS]) *)

Inductive job_status :=
| Queued | Scheduled | Claimed | Running | Completed | Failed | DeadLetter.

Inductive worker_status := WActive | WDraining | WOffline.

#[export] Instance job_status_eq_dec : EqDecision job_status.
Proof. solve_decision. Defined.
#[export] Instance worker_status_eq_dec : EqDecision worker_status.
Proof. solve_decision. Defined.

Definition job_status_text (s : job_status) : string :=
  match s with
  | Queued => "queued" | Scheduled => "scheduled" | Claimed => "claimed"
  | Running => "running" | Completed => "completed" | Failed => "failed"
  | DeadLetter => "dead_letter"
  end.

Definition worker_status_text (s : worker_status) : string :=
  match s with WActive => "active" | WDraining => "draining" | WOffline => "offline" end.

(** Instants are microseconds since the epoch ([TIMESTAMPTZ]). *)
Definition instant := Z.

Record OrgRow := MkOrg {
  org_id : string; org_name : string; org_slug : string;
  org_created_at : instant; org_updated_at : instant }.

Record UserRow := MkUser {
  usr_id : string; usr_org_id : string; usr_email : string; usr_name : string;
  usr_role : string; usr_password_hash : string;
  usr_created_at : instant; usr_updated_at : instant }.

Record ProjectRow := MkProject {
  prj_id : string; prj_org_id : string; prj_name : string; prj_slug : string;
  prj_description : option string;
  prj_created_at : instant; prj_updated_at : instant }.

Record QueueRow := MkQueue {
  q_id : string; q_project_id : string; q_name : string; q_slug : string;
  q_retry_policy_id : option string; q_priority_default : Z;
  q_concurrency_limit : option Z; q_paused : bool;
  q_created_at : instant; q_updated_at : instant }.

Record WorkerRow := MkWorker {
  w_id : string; w_name : string; w_status : worker_status;
  w_meta : option jsval; w_created_at : instant; w_updated_at : instant }.

Record HeartbeatRow := MkHeartbeat {
  hb_id : string; hb_worker_id : string; hb_last_seen_at : instant;
  hb_metadata : option jsval; hb_created_at : instant; hb_updated_at : instant }.

Record JobRow := MkJob {
  j_id : string; j_queue_id : string; j_status : job_status; j_priority : Z;
  j_payload : jsval; j_idempotency_key : option string;
  j_next_run_at : option instant; j_attempts : Z; j_max_attempts : Z;
  j_retry_policy_id : option string; j_worker_id : option string;
  j_claimed_at : option instant; j_lease_expires_at : option instant;
  j_completed_at : option instant; j_failed_at : option instant;
  j_error_message : option string; j_cron_expr : option string;
  j_batch_id : option string; j_created_at : instant; j_updated_at : instant }.

Record ExecRow := MkExec {
  x_id : string; x_job_id : string; x_worker_id : option string; x_attempt : Z;
  x_status : string; x_started_at : instant; x_finished_at : option instant;
  x_error : option string; x_duration_ms : option Z;
  x_created_at : instant; x_updated_at : instant }.

Record LogRow := MkLog {
  l_id : string; l_job_id : string; l_level : string; l_message : string;
  l_metadata : option jsval; l_created_at : instant }.

Record DlqRow := MkDlq {
  d_id : string; d_job_id : string; d_original_queue_id : string;
  d_payload : jsval; d_failed_at : instant; d_reason : option string;
  d_attempts_made : Z; d_created_at : instant }.

Record DB := MkDB {
  organizations : gmap string OrgRow;
  users : gmap string UserRow;
  projects : gmap string ProjectRow;
  queues : gmap string QueueRow;
  workers : gmap string WorkerRow;
  worker_heartbeats : gmap string HeartbeatRow;
  jobs : gmap string JobRow;
  job_executions : gmap string ExecRow;
  job_logs : gmap string LogRow;
  dead_letter_queue : gmap string DlqRow }.

Definition empty_db : DB := MkDB ∅ ∅ ∅ ∅ ∅ ∅ ∅ ∅ ∅ ∅.

(** *** [SET] clauses on a job row *)

Inductive job_set :=
| SetStatus (s : job_status)
| SetAttempts (z : Z)
| SetNextRunAt (t : option instant)
| SetWorkerId (w : option string)
| SetClaimedAt (t : option instant)
| SetLeaseExpiresAt (t : option instant)
| SetCompletedAt (t : option instant)
| SetFailedAt (t : option instant)
| SetErrorMessage (m : option string)
| SetUpdatedAt (t : instant).

Definition job_assign (j : JobRow) (a : job_set) : JobRow :=
  let '(MkJob i q s p pl ik nr at_ ma rp w cl le co fa er ce ba cr up) := j in
  match a with
  | SetStatus s => MkJob i q s p pl ik nr at_ ma rp w cl le co fa er ce ba cr up
  | SetAttempts at_ => MkJob i q s p pl ik nr at_ ma rp w cl le co fa er ce ba cr up
  | SetNextRunAt nr => MkJob i q s p pl ik nr at_ ma rp w cl le co fa er ce ba cr up
  | SetWorkerId w => MkJob i q s p pl ik nr at_ ma rp w cl le co fa er ce ba cr up
  | SetClaimedAt cl => MkJob i q s p pl ik nr at_ ma rp w cl le co fa er ce ba cr up
  | SetLeaseExpiresAt le => MkJob i q s p pl ik nr at_ ma rp w cl le co fa er ce ba cr up
  | SetCompletedAt co => MkJob i q s p pl ik nr at_ ma rp w cl le co fa er ce ba cr up
  | SetFailedAt fa => MkJob i q s p pl ik nr at_ ma rp w cl le co fa er ce ba cr up
  | SetErrorMessage er => MkJob i q s p pl ik nr at_ ma rp w cl le co fa er ce ba cr up
  | SetUpdatedAt up => MkJob i q s p pl ik nr at_ ma rp w cl le co fa er ce ba cr up
  end.

Definition job_assigns (l : list job_set) (j : JobRow) : JobRow := foldl job_assign j l.

(** *** Table updates *)

Definition with_organizations (f : gmap string OrgRow → gmap string OrgRow) (db : DB) : DB :=
  let '(MkDB o u p q w h j x l d) := db in MkDB (f o) u p q w h j x l d.
Definition with_users (f : gmap string UserRow → gmap string UserRow) (db : DB) : DB :=
  let '(MkDB o u p q w h j x l d) := db in MkDB o (f u) p q w h j x l d.
Definition with_projects (f : gmap string ProjectRow → gmap string ProjectRow) (db : DB) : DB :=
  let '(MkDB o u p q w h j x l d) := db in MkDB o u (f p) q w h j x l d.
Definition with_queues (f : gmap string QueueRow → gmap string QueueRow) (db : DB) : DB :=
  let '(MkDB o u p q w h j x l d) := db in MkDB o u p (f q) w h j x l d.
Definition with_workers (f : gmap string WorkerRow → gmap string WorkerRow) (db : DB) : DB :=
  let '(MkDB o u p q w h j x l d) := db in MkDB o u p q (f w) h j x l d.
Definition with_heartbeats (f : gmap string HeartbeatRow → gmap string HeartbeatRow) (db : DB) : DB :=
  let '(MkDB o u p q w h j x l d) := db in MkDB o u p q w (f h) j x l d.
Definition with_jobs (f : gmap string JobRow → gmap string JobRow) (db : DB) : DB :=
  let '(MkDB o u p q w h j x l d) := db in MkDB o u p q w h (f j) x l d.
Definition with_executions (f : gmap string ExecRow → gmap string ExecRow) (db : DB) : DB :=
  let '(MkDB o u p q w h j x l d) := db in MkDB o u p q w h j (f x) l d.
Definition with_logs (f : gmap string LogRow → gmap string LogRow) (db : DB) : DB :=
  let '(MkDB o u p q w h j x l d) := db in MkDB o u p q w h j x (f l) d.
Definition with_dlq (f : gmap string DlqRow → gmap string DlqRow) (db : DB) : DB :=
  let '(MkDB o u p q w h j x l d) := db in MkDB o u p q w h j x l (f d).

(** ** The outside world *)

(** What a statement or a synchronous block meets at step [n] of the
    system. [fault_at n = Some (applied, e)] is a failure of the connection
    at that statement: the driver throws [e], and the statement took effect
    exactly when [applied]. The parameter conversions are those of the driver
    and of the PostgreSQL input functions. *)
Class World := {
  pg_now : nat → instant;
  js_now : nat → Z;
  pg_uuid : nat → string;
  pg_scan : nat → ∀ A : Type, list A → list A;
  fault_at : nat → option (bool * thrown);
  uuid_param : jsval → pg_error + option string;
  int4_param : jsval → pg_error + option Z;
  text_param : jsval → option string;
  seconds_param : num → pg_error + Z;
  pg_message : pg_error → string;
  process_env : string → option string;
}.

Definition int4_min : Z := - 2 ^ 31.
Definition int4_max : Z := 2 ^ 31 - 1.

(** Documented behaviour of those components. *)
Class WorldOk (W : World) : Prop := {
  pg_now_mono : ∀ n m, (n ≤ m)%nat → pg_now n ≤ pg_now m;
  pg_uuid_inj : ∀ n m, pg_uuid n = pg_uuid m → n = m;
  pg_scan_perm : ∀ n A (l : list A), pg_scan n A l ≡ₚ l;
  uuid_param_uuid : ∀ n, uuid_param (JStr (pg_uuid n)) = inr (Some (pg_uuid n));
  uuid_param_null : ∀ v, is_nullish v = true → uuid_param v = inr None;
  uuid_param_str : ∀ s o, uuid_param (JStr s) = inr o → is_Some o;
  int4_param_null : ∀ v, is_nullish v = true → int4_param v = inr None;
  int4_param_int : ∀ z, int4_min ≤ z ≤ int4_max → int4_param (JInt z) = inr (Some z);
  int4_param_range : ∀ v z, int4_param v = inr (Some z) → int4_min ≤ z ≤ int4_max;
  text_param_null : ∀ v, is_nullish v = true → text_param v = None;
  text_param_str : ∀ s, text_param (JStr s) = Some s;
  seconds_param_int : ∀ z, 0 ≤ z ≤ 1000000000 →
    seconds_param (num_of_Z z) = inr (z * 1000000);
}.

Definition seconds (z : Z) : Z := z * 1000000.

(** ** Statements *)

(** One SQL statement: it reads the database at step [n] and either fails,
    leaving the database as it was, or returns a result and the database it
    leaves. *)
Definition query (X : Type) := nat → DB → thrown + (X * DB).

Section statements.
Context {W : World}.

(** A statement under the connection failures of the world. *)
Definition exec_query {X} (q : query X) (n : nat) (db : DB) : (thrown + X) * DB :=
  let out := match q n db with
             | inl e => (inl e, db)
             | inr (x, db') => (inr x, db')
             end in
  match fault_at n with
  | None => out
  | Some (applied, e) => (inl e, if applied : bool then out.2 else db)
  end.

(** [SELECT * FROM t WHERE P]: in some physical order. *)
Definition select_where {R} (n : nat) (P : R → bool) (t : gmap string R) : list R :=
  pg_scan n R (List.filter P (rows t)).

(** [UPDATE t SET f WHERE P RETURNING *]: the rows it returns. *)
Definition updated_rows {R} (n : nat) (P : R → bool) (f : R → R) (t : gmap string R) : list R :=
  f <$> select_where n P t.

(** A constraint check. *)
Definition require (b : bool) (e : pg_error) : thrown + unit :=
  if b then inr tt else inl (PgError e).

Definition has_key {R} (t : gmap string R) (k : string) : bool :=
  match t !! k with Some _ => true | None => false end.

Definition some_row {R} (P : R → bool) (t : gmap string R) : bool :=
  existsb P (rows t).

Definition throw_pg {A} (r : pg_error + A) : thrown + A :=
  match r with inl e => inl (PgError e) | inr a => inr a end.

End statements.

(** Rows a statement selects or returns. *)
Section rows.
Context {W : World} `{!WorldOk W}.

Lemma elem_of_select_where {R} n (P : R → bool) t r :
  r ∈ select_where n P t ↔ P r = true ∧ ∃ k, t !! k = Some r.
Proof.
  unfold select_where. rewrite pg_scan_perm, elem_of_filter_bool, elem_of_rows. done.
Qed.

Lemma select_where_perm {R} n (P : R → bool) t :
  select_where n P t ≡ₚ List.filter P (rows t).
Proof. apply pg_scan_perm. Qed.

(** A [WHERE] clause that fixes the primary key selects at most one row. *)
Lemma select_by_key {R} (key : R → string) n (P : R → bool) t id :
  (∀ k r, t !! k = Some r → key r = k) → (∀ r, P r = true → key r = id) →
  select_where n P t =
  match t !! id with Some r => if P r then [r] else [] | None => [] end.
Proof.
  intros Hkey HP. pose proof (fun r => elem_of_select_where n P t r) as Hl.
  assert (NoDup (select_where n P t)) as Hnd.
  { rewrite select_where_perm. by apply NoDup_filter_bool, (NoDup_rows key). }
  assert (∀ r, r ∈ select_where n P t ↔ t !! id = Some r ∧ P r = true) as Hr.
  { intros r. rewrite Hl. split; [|naive_solver]. intros (HPr & k & Hk).
    rewrite <- (HP r HPr), (Hkey _ _ Hk). done. }
  clear Hl. destruct (select_where n P t) as [|r [|r' l]].
  - destruct (t !! id) as [r|]; [|done]. destruct (P r) eqn:E; [|done].
    exfalso. eapply not_elem_of_nil, Hr. eauto.
  - by destruct (proj1 (Hr r) ltac:(set_solver)) as [-> ->].
  - destruct (proj1 (Hr r) ltac:(set_solver)) as [E1 _].
    destruct (proj1 (Hr r') ltac:(set_solver)) as [E2 _]. simplify_eq.
    apply NoDup_cons in Hnd as [[] _]. set_solver.
Qed.

Lemma elem_of_updated_rows {R} n (P : R → bool) f t r :
  r ∈ updated_rows n P f t ↔ ∃ k r0, t !! k = Some r0 ∧ P r0 = true ∧ r = f r0.
Proof.
  unfold updated_rows. rewrite list_elem_of_fmap. setoid_rewrite elem_of_select_where.
  naive_solver.
Qed.

End rows.

(** [ORDER BY key ASC] and [ORDER BY key DESC]. *)
Definition asc_by {R} (key : R → Z) (a b : R) : Prop := key a ≤ key b.
Definition desc_by {R} (key : R → Z) (a b : R) : Prop := key b ≤ key a.

#[export] Instance asc_by_dec {R} (key : R → Z) : RelDecision (asc_by key).
Proof. intros a b. unfold asc_by. apply _. Defined.
#[export] Instance desc_by_dec {R} (key : R → Z) : RelDecision (desc_by key).
Proof. intros a b. unfold desc_by. apply _. Defined.
#[export] Instance asc_by_total {R} (key : R → Z) : Total (asc_by key).
Proof. intros a b. unfold asc_by. lia. Qed.
#[export] Instance desc_by_total {R} (key : R → Z) : Total (desc_by key).
Proof. intros a b. unfold desc_by. lia. Qed.
#[export] Instance asc_by_trans {R} (key : R → Z) : Transitive (asc_by key).
Proof. intros a b c. unfold asc_by. lia. Qed.
#[export] Instance desc_by_trans {R} (key : R → Z) : Transitive (desc_by key).
Proof. intros a b c. unfold desc_by. lia. Qed.

(** ** Integrity of the database

    What the table constraints promise: every row is stored under its primary
    key, foreign keys resolve and the unique constraints hold. *)

Record db_ok (db : DB) : Prop := {
  ok_prj_id : ∀ k r, projects db !! k = Some r → prj_id r = k;
  ok_q_id : ∀ k r, queues db !! k = Some r → q_id r = k;
  ok_w_id : ∀ k r, workers db !! k = Some r → w_id r = k;
  ok_j_id : ∀ k r, jobs db !! k = Some r → j_id r = k;
  ok_x_id : ∀ k r, job_executions db !! k = Some r → x_id r = k;
  ok_d_id : ∀ k r, dead_letter_queue db !! k = Some r → d_id r = k;
  ok_usr_org : ∀ k r, users db !! k = Some r → is_Some (organizations db !! usr_org_id r);
  ok_prj_org : ∀ k r, projects db !! k = Some r → is_Some (organizations db !! prj_org_id r);
  ok_q_prj : ∀ k r, queues db !! k = Some r → is_Some (projects db !! q_project_id r);
  ok_hb_w : ∀ k r, worker_heartbeats db !! k = Some r → is_Some (workers db !! hb_worker_id r);
  ok_j_q : ∀ k r, jobs db !! k = Some r → is_Some (queues db !! j_queue_id r);
  ok_j_w : ∀ k r w, jobs db !! k = Some r → j_worker_id r = Some w → is_Some (workers db !! w);
  ok_x_j : ∀ k r, job_executions db !! k = Some r → is_Some (jobs db !! x_job_id r);
  ok_l_j : ∀ k r, job_logs db !! k = Some r → is_Some (jobs db !! l_job_id r);
  ok_d_j : ∀ k r, dead_letter_queue db !! k = Some r → is_Some (jobs db !! d_job_id r);
  ok_d_q : ∀ k r, dead_letter_queue db !! k = Some r →
    is_Some (queues db !! d_original_queue_id r);
  ok_idem : ∀ k1 k2 r1 r2 key, jobs db !! k1 = Some r1 → jobs db !! k2 = Some r2 →
    j_queue_id r1 = j_queue_id r2 →
    j_idempotency_key r1 = Some key → j_idempotency_key r2 = Some key → k1 = k2;
  ok_dlq_job : ∀ k1 k2 r1 r2, dead_letter_queue db !! k1 = Some r1 →
    dead_letter_queue db !! k2 = Some r2 → d_job_id r1 = d_job_id r2 → k1 = k2;
  ok_hb_uniq : ∀ k1 k2 r1 r2, worker_heartbeats db !! k1 = Some r1 →
    worker_heartbeats db !! k2 = Some r2 → hb_worker_id r1 = hb_worker_id r2 → k1 = k2;
}.
