(* ===== verification/Proc.v ===== *)
(** * Asynchronous programs

    An [async] function is a tree of atomic actions: SQL statements,
    synchronous blocks on the variables of the server module, timers, and
    promises that are started and not awaited. [run] executes one program
    alone; [pool_step] interleaves the programs of several requests at their
    awaits, which is where the JavaScript event loop can switch. *)

From S2P Require Import Prelude JsValue Database.

(** Module variables of [worker-scheduler.ts]. *)
Record modvars := MkVars { inFlight : bool; lastRunAt : Z }.

Inductive proc (A : Type) : Type :=
| Done (r : thrown + A)
| Sql (X : Type) (q : query X) (k : thrown + X → proc A)
| Sync (X : Type) (f : nat → modvars → X * modvars) (k : X → proc A)
| Sleep (ms : num) (k : proc A)
| Fork (p : proc unit) (k : proc A).
Arguments Done {A} r.
Arguments Sql {A X} q k.
Arguments Sync {A X} f k.
Arguments Sleep {A} ms k.
Arguments Fork {A} p k.

(** ** Sequencing and exceptions *)

(** Continue a program with its outcome, exceptional or not. *)
Fixpoint proc_then {A B} (p : proc A) (k : thrown + A → proc B) : proc B :=
  match p with
  | Done r => k r
  | Sql q c => Sql q (fun x => proc_then (c x) k)
  | Sync f c => Sync f (fun x => proc_then (c x) k)
  | Sleep ms c => Sleep ms (proc_then c k)
  | Fork b c => Fork b (proc_then c k)
  end.

Definition ret {A} (a : A) : proc A := Done (inr a).
Definition throw {A} (e : thrown) : proc A := Done (inl e).
Definition lift {A} (r : thrown + A) : proc A := Done r.

Definition bind {A B} (p : proc A) (k : A → proc B) : proc B :=
  proc_then p (fun r => match r with inl e => throw e | inr a => k a end).

(** [try { p } catch (e) { h e }]. *)
Definition catch {A} (p : proc A) (h : thrown → proc A) : proc A :=
  proc_then p (fun r => match r with inl e => h e | inr a => ret a end).

(** [await sql`...`]. *)
Definition sql {X} (q : query X) : proc X := Sql q (fun r => Done r).

(** A synchronous block that cannot throw. *)
Definition sync {X} (f : nat → modvars → X * modvars) : proc X := Sync f ret.

Definition sleep (ms : num) : proc unit := Sleep ms (ret tt).

(** Start a promise without awaiting it. *)
Definition fork (p : proc unit) : proc unit := Fork p (ret tt).

Notation "'let!' x := p 'in' k" := (bind p (fun x => k))
  (at level 10, x pattern, p at level 100, k at level 200) : js_scope.
Notation "p ;;! k" := (bind p (fun _ => k))
  (at level 100, k at level 200, right associativity) : js_scope.

Open Scope js_scope.

(** [for (const a of l) await f(a)] with an accumulator. *)
Fixpoint for_each {A B} (f : B → A → proc B) (l : list A) (b : B) : proc B :=
  match l with
  | [] => ret b
  | a :: l => let! b' := f b a in for_each f l b'
  end.

(** ** Execution *)

Record store := MkStore {
  st_db : DB;
  st_vars : modvars;
  st_step : nat;
  st_bg : list (proc unit) }.

Section execution.
Context {W : World}.

(** One atomic action of a program. *)
Definition step1 {A} (p : proc A) (s : store) : proc A * store :=
  match p with
  | Done r => (Done r, s)
  | Sql q k =>
      let '(r, db') := exec_query q (st_step s) (st_db s) in
      (k r, MkStore db' (st_vars s) (S (st_step s)) (st_bg s))
  | Sync f k =>
      let '(x, v') := f (st_step s) (st_vars s) in
      (k x, MkStore (st_db s) v' (S (st_step s)) (st_bg s))
  | Sleep _ k => (k, MkStore (st_db s) (st_vars s) (S (st_step s)) (st_bg s))
  | Fork b k => (k, MkStore (st_db s) (st_vars s) (st_step s) (st_bg s ++ [b]))
  end.

(** A program run to its end with nothing else scheduled in between; the
    promises it started are left in [st_bg]. *)
Fixpoint run {A} (p : proc A) (s : store) : (thrown + A) * store :=
  match p with
  | Done r => (r, s)
  | Sql q k =>
      let '(r, db') := exec_query q (st_step s) (st_db s) in
      run (k r) (MkStore db' (st_vars s) (S (st_step s)) (st_bg s))
  | Sync f k =>
      let '(x, v') := f (st_step s) (st_vars s) in
      run (k x) (MkStore (st_db s) v' (S (st_step s)) (st_bg s))
  | Sleep _ k => run k (MkStore (st_db s) (st_vars s) (S (st_step s)) (st_bg s))
  | Fork b k => run k (MkStore (st_db s) (st_vars s) (st_step s) (st_bg s ++ [b]))
  end.

Lemma run_then {A B} (p : proc A) (k : thrown + A → proc B) s :
  run (proc_then p k) s = let '(r, s') := run p s in run (k r) s'.
Proof.
  revert s. induction p as [A r|A X q c IH|A X f c IH|A ms c IH|A b ? c IH];
    intros s; simpl; try done.
  - destruct (exec_query _ _ _) as [r db']. apply IH.
  - destruct (f _ _) as [x v']. apply IH.
Qed.

Lemma run_bind {A B} (p : proc A) (k : A → proc B) s :
  run (bind p k) s =
  match run p s with
  | (inl e, s') => (inl e, s')
  | (inr a, s') => run (k a) s'
  end.
Proof. unfold bind. rewrite run_then. destruct (run p s) as [[e|a] s']; done. Qed.

Lemma run_catch {A} (p : proc A) h s :
  run (catch p h) s =
  match run p s with
  | (inl e, s') => run (h e) s'
  | (inr a, s') => (inr a, s')
  end.
Proof. unfold catch. rewrite run_then. destruct (run p s) as [[e|a] s']; done. Qed.

Lemma run_sql {X} (q : query X) s :
  run (sql q) s =
  let '(r, db') := exec_query q (st_step s) (st_db s) in
  (r, MkStore db' (st_vars s) (S (st_step s)) (st_bg s)).
Proof. unfold sql. simpl. by destruct (exec_query _ _ _). Qed.

(** A statement that succeeds when the connection does not fail. *)
Lemma run_sql_ok {X B} (q : query X) (k : X → proc B) s x db' :
  fault_at (st_step s) = None → q (st_step s) (st_db s) = inr (x, db') →
  run (bind (sql q) k) s = run (k x) (MkStore db' (st_vars s) (S (st_step s)) (st_bg s)).
Proof. intros Hf Hq. rewrite run_bind, run_sql. unfold exec_query. by rewrite Hf, Hq. Qed.

Lemma run_sync_bind {X B} (f : nat → modvars → X * modvars) (k : X → proc B) s :
  run (bind (sync f) k) s =
  let '(x, v) := f (st_step s) (st_vars s) in
  run (k x) (MkStore (st_db s) v (S (st_step s)) (st_bg s)).
Proof. rewrite run_bind. unfold sync. simpl. by destruct (f _ _). Qed.

Lemma run_lift_bind {A B} (a : A) (k : A → proc B) s :
  run (bind (lift (inr a)) k) s = run (k a) s.
Proof. done. Qed.

(** [run] is the closure of [step1]. *)
Lemma run_step1 {A} (p : proc A) s : run (step1 p s).1 (step1 p s).2 = run p s.
Proof.
  destruct p; simpl; try done.
  - by destruct (exec_query _ _ _).
  - by destruct (f _ _).
Qed.

(** ** Interleaving *)

(** The programs of the server process and the store they share. Step [i]
    lets program [i] perform its next action; promises it starts join the
    pool. A program that is never scheduled again has crashed or timed out
    at that await. *)
Definition pool := list (proc unit).

Definition pool_step (i : nat) (c : pool * store) : pool * store :=
  let '(ps, s) := c in
  match ps !! i with
  | None => c
  | Some p =>
      let '(p', s') := step1 p s in
      (<[i := p']> ps ++ st_bg s', MkStore (st_db s') (st_vars s') (st_step s') [])
  end.

Definition pool_run (sched : list nat) (c : pool * store) : pool * store :=
  foldl (fun c i => pool_step i c) c sched.

Inductive reachable (c : pool * store) : pool * store → Prop :=
| reach_refl : reachable c c
| reach_step c' i : reachable c c' → reachable c (pool_step i c').

Lemma pool_run_reachable c sched : reachable c (pool_run sched c).
Proof.
  unfold pool_run. induction sched as [|i sched IH] using rev_ind; [constructor|].
  rewrite foldl_app. simpl. by constructor.
Qed.

(** ** Invariants of every interleaving *)

(** What is asked of a statement and of the value it returns. *)
Definition law : Type := ∀ X : Type, query X → (X → Prop) → Prop.

(** [follows L Q p]: every statement of [p] satisfies the law [L], whatever the
    other programs do between its actions, and a value [p] returns satisfies
    [Q]. What is known of the result of a statement may be used in the sequel,
    as long as it does not mention the database. *)
Inductive follows (L : law) : ∀ A : Type, (A → Prop) → proc A → Prop :=
| safe_done A (Q : A → Prop) (r : thrown + A) :
    match r with inl _ => True | inr a => Q a end → follows L A Q (Done r)
| safe_op A (Q : A → Prop) X (q : query X) (P : X → Prop) k :
    L X q P →
    (∀ e, follows L A Q (k (inl e))) → (∀ x, P x → follows L A Q (k (inr x))) →
    follows L A Q (Sql q k)
| safe_block A (Q : A → Prop) X f (k : X → proc A) :
    (∀ x, follows L A Q (k x)) → follows L A Q (Sync f k)
| safe_timer A (Q : A → Prop) ms k : follows L A Q k → follows L A Q (Sleep ms k)
| safe_spawn A (Q : A → Prop) b k :
    follows L unit (fun _ => True) b → follows L A Q k → follows L A Q (Fork b k).
Arguments follows L {A} Q p.

Abbreviation obeys L p := (follows L (fun _ => True) p).

(** A statement that keeps [I]. *)
Definition keeping (I : DB → Prop) : law := fun X q P =>
  ∀ n db x db', I db → q n db = inr (x, db') → I db' ∧ P x.

(** A statement that keeps [I] and changes the database as [G] allows. *)
Definition guaranteeing (I : DB → Prop) (G : nat → DB → DB → Prop) : law := fun X q P =>
  keeping I X q P ∧ ∀ n db x db', I db → q n db = inr (x, db') → G n db db'.

Abbreviation safe I Q p := (follows (keeping I) Q p).
Abbreviation preserves I p := (safe I (fun _ => True) p).

(** The result of a statement under the failures of the world. *)
Lemma exec_query_inv (I : DB → Prop) {X} (q : query X) (P : X → Prop) n db :
  (∀ x db', q n db = inr (x, db') → I db' ∧ P x) → I db →
  I (exec_query q n db).2 ∧
  ∀ x, (exec_query q n db).1 = inr x → P x.
Proof.
  intros Hq Hdb. unfold exec_query.
  destruct (q n db) as [e|[x db']] eqn:E; destruct (fault_at n) as [[[] ?]|]; simpl;
    split; naive_solver.
Qed.

(** Programs under a law that keeps [I], started where [I] holds. *)
Definition pool_ok (L : law) (I : DB → Prop) (c : pool * store) : Prop :=
  Forall (fun p => obeys L p) c.1 ∧ st_bg c.2 = [] ∧ I (st_db c.2).

Section pools.
Context (L : law) (I : DB → Prop) (HL : ∀ X q P, L X q P → keeping I X q P).

Lemma safe_step1 {A} (Q : A → Prop) (p : proc A) s :
  follows L Q p → I (st_db s) → Forall (fun b => obeys L b) (st_bg s) →
  follows L Q (step1 p s).1 ∧ I (st_db (step1 p s).2) ∧
  Forall (fun b => obeys L b) (st_bg (step1 p s).2).
Proof.
  intros Hp. destruct Hp as [A Q r Hr|A Q X q P k Hq Hk1 Hk2|A Q X f k Hk|A Q ms k Hk|A Q b k Hb Hk];
    intros HI Hbg; simpl.
  - split; [by constructor|done].
  - apply HL in Hq.
    destruct (exec_query_inv I q P (st_step s) (st_db s)) as [HI' HP]; [eauto|done|].
    destruct (exec_query q (st_step s) (st_db s)) as [[e|x] db']; simpl in *; auto.
  - destruct (f _ _) as [x v']. by simpl.
  - done.
  - split; [done|]. split; [done|]. apply Forall_app_2; [done|]. by constructor.
Qed.

Lemma pool_step_ok i c : pool_ok L I c → pool_ok L I (pool_step i c).
Proof.
  destruct c as [ps s]. intros (Hps & Hbg & HI). unfold pool_step. simpl in *.
  destruct (ps !! i) as [p|] eqn:Ei; [|done].
  pose proof (safe_step1 _ p s (Forall_lookup_1 _ _ _ _ Hps Ei) HI) as H.
  rewrite Hbg in H. specialize (H (Forall_nil_2 _)).
  destruct (step1 p s) as [p' s']. destruct H as (Hp' & HI' & Hbg').
  split; [|done]. apply Forall_app_2; [|done]. by apply Forall_insert.
Qed.

(** Every reachable configuration of a pool of invariant-preserving programs
    satisfies the invariant. *)
Lemma reachable_ok c c' : pool_ok L I c → reachable c c' → pool_ok L I c'.
Proof. intros Hc. induction 1; eauto using pool_step_ok. Qed.

End pools.

(** One step of a pool whose statements guarantee [G]. *)
Lemma step1_guarantee I G {A} (Q : A → Prop) (p : proc A) s :
  follows (guaranteeing I G) Q p → I (st_db s) →
  st_db (step1 p s).2 = st_db s ∨ G (st_step s) (st_db s) (st_db (step1 p s).2).
Proof.
  intros Hp. destruct Hp as [|A Q X q P k [_ HG] _ _|A Q X f k _| |]; intros HI; simpl; auto.
  - unfold exec_query. destruct (q (st_step s) (st_db s)) as [e|[x db']] eqn:E;
      destruct (fault_at _) as [[[] ?]|]; simpl; eauto.
  - destruct (f _ _). by left.
Qed.

Lemma pool_step_guarantee I G i c :
  pool_ok (guaranteeing I G) I c →
  st_db (pool_step i c).2 = st_db c.2 ∨
  G (st_step c.2) (st_db c.2) (st_db (pool_step i c).2).
Proof.
  destruct c as [ps s]. intros (Hps & _ & HI). simpl in *.
  destruct (ps !! i) as [p|] eqn:Ei; [|by left].
  pose proof (step1_guarantee I G _ p s (Forall_lookup_1 _ _ _ _ Hps Ei) HI) as H.
  by destruct (step1 p s).
Qed.

Lemma safe_then L {A B} (Q : A → Prop) (R : B → Prop) (p : proc A) (k : thrown + A → proc B) :
  follows L Q p → (∀ e, follows L R (k (inl e))) → (∀ a, Q a → follows L R (k (inr a))) →
  follows L R (proc_then p k).
Proof.
  intros Hp He Ha. induction Hp as [A Q [e|a] Hr|A Q X q P k' Hq ? ? ? ?|?|?|?];
    simpl; eauto using follows.
Qed.

Lemma safe_weaken L {A} (Q R : A → Prop) (p : proc A) :
  follows L Q p → (∀ a, Q a → R a) → follows L R p.
Proof.
  intros Hp HQR. induction Hp as [A Q [e|a] Hr|A Q X q P k' Hq ? ? ? ?|?|?|?];
    eauto using follows.
Qed.

Lemma safe_bind L {A B} (Q : A → Prop) (R : B → Prop) (p : proc A) (k : A → proc B) :
  follows L Q p → (∀ a, Q a → follows L R (k a)) → follows L R (bind p k).
Proof. intros Hp Hk. by eapply safe_then; [done|by constructor|]. Qed.

Lemma preserves_bind L {A B} (p : proc A) (k : A → proc B) :
  obeys L p → (∀ a, obeys L (k a)) → obeys L (bind p k).
Proof. intros Hp Hk. by eapply safe_bind. Qed.

Lemma safe_catch L {A} (Q : A → Prop) (p : proc A) h :
  follows L Q p → (∀ e, follows L Q (h e)) → follows L Q (catch p h).
Proof. intros Hp Hh. eapply safe_then; [done|done|by constructor]. Qed.

Lemma safe_ret L {A} (Q : A → Prop) (a : A) : Q a → follows L Q (ret a).
Proof. by constructor. Qed.

Lemma safe_throw L {A} (Q : A → Prop) e : follows L Q (throw e).
Proof. by constructor. Qed.

Lemma preserves_lift L {A} (r : thrown + A) : obeys L (lift r).
Proof. constructor. by destruct r. Qed.

Lemma follows_sql (L : law) {X} (q : query X) (P : X → Prop) :
  L X q P → follows L P (sql q).
Proof. intros H. eapply safe_op; [done|by constructor|by constructor]. Qed.

Lemma safe_sql (I : DB → Prop) {X} (q : query X) (P : X → Prop) :
  (∀ n db x db', I db → q n db = inr (x, db') → I db' ∧ P x) → safe I P (sql q).
Proof. apply (follows_sql (keeping I)). Qed.

Lemma preserves_sql (I : DB → Prop) {X} (q : query X) :
  (∀ n db x db', I db → q n db = inr (x, db') → I db') → preserves I (sql q).
Proof. intros H. apply safe_sql. eauto. Qed.

Lemma preserves_sync L {X} (f : nat → modvars → X * modvars) : obeys L (sync f).
Proof. constructor. by constructor. Qed.

Lemma preserves_sleep L ms : obeys L (sleep ms).
Proof. constructor. by constructor. Qed.

Lemma preserves_fork L p : obeys L p → obeys L (fork p).
Proof. intros. constructor; [done|]. by constructor. Qed.

Lemma preserves_for_each L {A B} (f : B → A → proc B) l b :
  (∀ b a, a ∈ l → obeys L (f b a)) → obeys L (for_each f l b).
Proof.
  revert b. induction l as [|a l IH]; intros b Hf; simpl; [by constructor|].
  apply preserves_bind; [apply Hf; set_solver|]. intros b'. apply IH. set_solver.
Qed.

(** An invariant also holds at the end of a program run alone. *)
Lemma safe_run I {A} (Q : A → Prop) (p : proc A) s :
  safe I Q p → I (st_db s) → I (st_db (run p s).2).
Proof.
  intros Hp. revert s.
  induction Hp as [A Q r Hr|A Q X q P k Hq Hk1 IH1 Hk2 IH2|A Q X f k Hk IH|A Q ms k Hk IH
                  |A Q b k Hb IHb Hk IH]; intros s HI; simpl; eauto.
  - destruct (exec_query_inv I q P (st_step s) (st_db s)) as [HI' HP]; [eauto|done|].
    destruct (exec_query q (st_step s) (st_db s)) as [[e|x] db']; simpl in *; auto.
  - destruct (f _ _) as [x v']. by apply IH.
Qed.

End execution.

Arguments follows L {A} Q p.
Abbreviation obeys L p := (follows L (fun _ => True) p).
Abbreviation safe I Q p := (follows (keeping I) Q p).
Abbreviation preserves I p := (safe I (fun _ => True) p).

Create HintDb preserves.
#[export] Hint Resolve preserves_bind safe_catch preserves_lift preserves_sync
  preserves_sleep preserves_fork safe_ret safe_throw : preserves.

(** Walk through a program: sequencing, exceptions, case analysis, and the
    statements of the hint database. *)
Ltac walk :=
  repeat (intros; cbv zeta; lazymatch goal with
    | |- follows _ _ (bind _ _) => apply preserves_bind
    | |- follows _ _ (catch _ _) => apply safe_catch
    | |- follows _ _ (for_each _ _ _) => apply preserves_for_each
    | |- follows _ _ (match _ with _ => _ end) => case_match
    | |- _ => solve [auto with preserves]
    end).
