(* ===== verification/Hoare.v ===== *)
(** * Sequential reasoning

    Triples for a program that runs alone, under arbitrary failures of the
    connection: the postcondition of a value that is returned, and the
    condition that holds when an exception leaves the program. Where [safe] of
    Proc.v speaks of every interleaving, a triple may carry facts about the
    database from one statement to the next. *)

From S2P Require Import Prelude JsValue Database Proc.

Open Scope js_scope.

Section triples.
Context {W : World}.

(** The exceptional condition [E] need not mention the step. *)
Definition triple {A} (P : nat → DB → Prop) (p : proc A) (Q : A → nat → DB → Prop)
    (E : DB → Prop) : Prop :=
  ∀ s, P (st_step s) (st_db s) →
  match run p s with
  | (inr a, s') => Q a (st_step s') (st_db s')
  | (inl _, s') => E (st_db s')
  end.

Lemma triple_conseq {A} (P P' : nat → DB → Prop) (p : proc A) (Q Q' : A → nat → DB → Prop)
    (E E' : DB → Prop) :
  triple P' p Q' E' → (∀ n db, P n db → P' n db) →
  (∀ a n db, Q' a n db → Q a n db) → (∀ db, E' db → E db) → triple P p Q E.
Proof.
  intros H HP HQ HE s Hs. specialize (H s (HP _ _ Hs)).
  destruct (run p s) as [[e|a] s']; eauto.
Qed.

Lemma triple_bind {A B} P (p : proc A) Q E (k : A → proc B) R :
  triple P p Q E → (∀ a, triple (Q a) (k a) R E) → triple P (bind p k) R E.
Proof.
  intros Hp Hk s Hs. rewrite run_bind. specialize (Hp s Hs).
  destruct (run p s) as [[e|a] s']; [done|]. by apply Hk.
Qed.

Lemma triple_ret {A} (P : nat → DB → Prop) (a : A) Q (E : DB → Prop) :
  (∀ n db, P n db → Q a n db) → triple P (ret a) Q E.
Proof. intros H s Hs. simpl. eauto. Qed.

Lemma triple_lift {A} (P : nat → DB → Prop) (r : thrown + A) (E : DB → Prop) :
  (∀ n db, P n db → E db) → triple P (lift r) (fun a n db => r = inr a ∧ P n db) E.
Proof. intros H s Hs. simpl. destruct r; eauto. Qed.

(** A statement: it may fail before or after it took effect. *)
Lemma triple_sql {X} (P : nat → DB → Prop) (q : query X) Q (E : DB → Prop) :
  (∀ n db, P n db → E db) →
  (∀ n db x db', P n db → q n db = inr (x, db') → Q x (S n) db' ∧ E db') →
  triple P (sql q) Q E.
Proof.
  intros HE Hq s Hs. rewrite run_sql. unfold exec_query.
  specialize (HE _ _ Hs). specialize (Hq (st_step s) (st_db s)).
  destruct (q (st_step s) (st_db s)) as [e|[x db']]; destruct (fault_at _) as [[[] e']|]; simpl;
    try done; by destruct (Hq x db').
Qed.

Lemma triple_sync {X} (P : nat → DB → Prop) (f : nat → modvars → X * modvars) Q (E : DB → Prop) :
  (∀ n v db, P n db → Q (f n v).1 (S n) db) → triple P (sync f) Q E.
Proof.
  intros H s Hs. unfold sync. simpl. specialize (H _ (st_vars s) _ Hs). by destruct (f _ _).
Qed.

(** A loop with an invariant on the elements that are left. *)
Lemma triple_for_each {A B} (f : B → A → proc B) (I : B → list A → nat → DB → Prop) E l b :
  (∀ b a l, triple (I b (a :: l)) (f b a) (fun b' => I b' l) E) →
  triple (I b l) (for_each f l b) (fun b' => I b' []) E.
Proof.
  intros Hf. revert b. induction l as [|a l IH]; intros b; simpl; [by apply triple_ret|].
  eapply triple_bind; [apply Hf|]. intros b'. apply IH.
Qed.

(** A program that keeps a condition at every step keeps it in the end. *)
Lemma triple_safe {A} (I : DB → Prop) (Q : A → Prop) (p : proc A) :
  safe I Q p → triple (fun _ => I) p (fun a _ db => Q a ∧ I db) I.
Proof.
  intros Hp. induction Hp as [A Q r Hr|A Q X q P k Hq Hk1 IH1 Hk2 IH2|A Q X f k Hk IH
                             |A Q ms k Hk IH|A Q b k Hb IHb Hk IH]; intros s HI; simpl.
  - by destruct r.
  - destruct (exec_query_inv I q P (st_step s) (st_db s)) as [HI' HP]; [eauto|done|].
    destruct (exec_query q (st_step s) (st_db s)) as [[e|x] db']; simpl in *.
    + by apply (IH1 e (MkStore _ _ _ _)).
    + by apply (IH2 x (HP _ eq_refl) (MkStore _ _ _ _)).
  - destruct (f _ _) as [x v']. by apply (IH x (MkStore _ _ _ _)).
  - by apply (IH (MkStore _ _ _ _)).
  - by apply (IH (MkStore _ _ _ _)).
Qed.

(** What the result of a program is known to satisfy. *)
Lemma safe_result {A} (I : DB → Prop) (Q : A → Prop) (p : proc A) s a s' :
  safe I Q p → I (st_db s) → run p s = (inr a, s') → Q a.
Proof. intros Hp HI Hr. pose proof (triple_safe I Q p Hp s HI) as H. rewrite Hr in H. apply H. Qed.

End triples.
