(* ===== verification/Http.v ===== *)
(** * HTTP responses and row mapping ([dashboard/src/server/http.ts])

    Responses of the route handlers, the objects the driver makes of rows,
    and the mapping of rows to the objects of the REST API. *)

From S2P Require Import Prelude JsValue JsJson Database.

Open Scope js_scope.
Local Open Scope Z_scope.

(** ** Requests and responses *)

(** What a handler reads of a [Request]: [req_json] is the outcome of
    [req.json()]. *)
Record Request := MkRequest {
  req_method : string;
  req_authorization : option string;
  req_search : list (string * string);
  req_json : thrown + jsval }.

(** A response; [res_body = None] is an empty body. *)
Record Response := MkResponse { res_status : Z; res_body : option jsval }.

(** [json(data, status)]: the body is what the peer reads. *)
Definition json (data : jsval) (status : Z) : thrown + Response :=
  match json_value data with
  | Some v => inr (MkResponse status (Some v))
  | None => inl (JsError "Value is not JSON serializable")
  end.

(** [error(message, status, code)]: an object of two strings always
    serializes. *)
Definition error (message : string) (status : Z) (code : string) : Response :=
  MkResponse status (Some (JObj [("error", JStr message); ("code", JStr code)])).

Definition unauthorized : Response := error "unauthorized" 401 "UNAUTHORIZED".

Lemma error_is_json message status code :
  json (JObj [("error", JStr message); ("code", JStr code)]) status =
  inr (error message status code).
Proof. done. Qed.

(** ** Rows as the driver returns them *)

Definition js_opt {A} (f : A → jsval) (o : option A) : jsval :=
  match o with Some a => f a | None => JNull end.

(** [TIMESTAMPTZ] columns become [Date] objects. *)
Definition js_instant (t : instant) : jsval := JDate (t `div` 1000).

Definition project_to_js (p : ProjectRow) : jsval :=
  JObj [("id", JStr (prj_id p)); ("org_id", JStr (prj_org_id p));
        ("name", JStr (prj_name p)); ("slug", JStr (prj_slug p));
        ("description", js_opt JStr (prj_description p));
        ("created_at", js_instant (prj_created_at p));
        ("updated_at", js_instant (prj_updated_at p))].

Definition queue_to_js (q : QueueRow) : jsval :=
  JObj [("id", JStr (q_id q)); ("project_id", JStr (q_project_id q));
        ("name", JStr (q_name q)); ("slug", JStr (q_slug q));
        ("retry_policy_id", js_opt JStr (q_retry_policy_id q));
        ("priority_default", JInt (q_priority_default q));
        ("concurrency_limit", js_opt JInt (q_concurrency_limit q));
        ("paused", JBool (q_paused q));
        ("created_at", js_instant (q_created_at q));
        ("updated_at", js_instant (q_updated_at q))].

Definition job_to_js (j : JobRow) : jsval :=
  JObj [("id", JStr (j_id j)); ("queue_id", JStr (j_queue_id j));
        ("status", JStr (job_status_text (j_status j)));
        ("priority", JInt (j_priority j)); ("payload", j_payload j);
        ("idempotency_key", js_opt JStr (j_idempotency_key j));
        ("next_run_at", js_opt js_instant (j_next_run_at j));
        ("attempts", JInt (j_attempts j)); ("max_attempts", JInt (j_max_attempts j));
        ("retry_policy_id", js_opt JStr (j_retry_policy_id j));
        ("worker_id", js_opt JStr (j_worker_id j));
        ("claimed_at", js_opt js_instant (j_claimed_at j));
        ("lease_expires_at", js_opt js_instant (j_lease_expires_at j));
        ("completed_at", js_opt js_instant (j_completed_at j));
        ("failed_at", js_opt js_instant (j_failed_at j));
        ("error_message", js_opt JStr (j_error_message j));
        ("cron_expr", js_opt JStr (j_cron_expr j));
        ("batch_id", js_opt JStr (j_batch_id j));
        ("created_at", js_instant (j_created_at j));
        ("updated_at", js_instant (j_updated_at j))].

Definition exec_to_js (x : ExecRow) : jsval :=
  JObj [("id", JStr (x_id x)); ("job_id", JStr (x_job_id x));
        ("worker_id", js_opt JStr (x_worker_id x)); ("attempt", JInt (x_attempt x));
        ("status", JStr (x_status x)); ("started_at", js_instant (x_started_at x));
        ("finished_at", js_opt js_instant (x_finished_at x));
        ("error", js_opt JStr (x_error x)); ("duration_ms", js_opt JInt (x_duration_ms x));
        ("created_at", js_instant (x_created_at x));
        ("updated_at", js_instant (x_updated_at x))].

Definition log_to_js (l : LogRow) : jsval :=
  JObj [("id", JStr (l_id l)); ("job_id", JStr (l_job_id l));
        ("level", JStr (l_level l)); ("message", JStr (l_message l));
        ("metadata", js_opt id (l_metadata l)); ("created_at", js_instant (l_created_at l))].

(** ** Row mapping *)

(** [toIso]. *)
Definition toIso (v : jsval) : jsval :=
  match v with
  | JUndef | JNull => JUndef
  | JDate ms => JStr (toISOString ms)
  | _ => JStr (js_to_string v)
  end.

(** [v ?? undefined]. *)
Definition or_undefined (v : jsval) : jsval := nullish v JUndef.

Definition mapQueue (row : jsval) : jsval :=
  JObj [("id", field row "id");
        ("project_id", field row "project_id");
        ("name", field row "name");
        ("slug", field row "slug");
        ("retry_policy_id", or_undefined (field row "retry_policy_id"));
        ("priority_default", JNum (js_to_num (nullish (field row "priority_default") (JInt 0))));
        ("concurrency_limit",
          if is_nullish (field row "concurrency_limit") then JUndef
          else JNum (js_to_num (field row "concurrency_limit")));
        ("is_paused", JBool (truthy (field row "paused")));
        ("created_at", toIso (field row "created_at"));
        ("updated_at", toIso (field row "updated_at"))].

(** [typeof v === "string" ? JSON.parse(v) : v]. *)
Definition parse_payload (v : jsval) : thrown + jsval :=
  match v with JStr s => json_parse s | _ => inr v end.

Definition mapJob (row : jsval) : thrown + jsval :=
  try! payload := parse_payload (field row "payload") in
  inr (JObj
    [("id", field row "id");
     ("queue_id", field row "queue_id");
     ("status", field row "status");
     ("priority", JNum (js_to_num (nullish (field row "priority") (JInt 0))));
     ("payload", payload);
     ("idempotency_key", or_undefined (field row "idempotency_key"));
     ("next_run_at", toIso (field row "next_run_at"));
     ("attempts", JNum (js_to_num (nullish (field row "attempts") (JInt 0))));
     ("max_attempts", JNum (js_to_num (nullish (field row "max_attempts") (JInt 3))));
     ("retry_policy_id", or_undefined (field row "retry_policy_id"));
     ("worker_id", or_undefined (field row "worker_id"));
     ("claimed_at", toIso (field row "claimed_at"));
     ("lease_expires_at", toIso (field row "lease_expires_at"));
     ("completed_at", toIso (field row "completed_at"));
     ("failed_at", toIso (field row "failed_at"));
     ("error_message", or_undefined (field row "error_message"));
     ("cron_expr", or_undefined (field row "cron_expr"));
     ("batch_id", or_undefined (field row "batch_id"));
     ("created_at", toIso (field row "created_at"));
     ("updated_at", toIso (field row "updated_at"))]).

(** ** Properties *)

(** The wire form of a nullable column: the property is absent exactly when
    the column is [NULL]. *)
Lemma json_or_undefined o :
  json_value (or_undefined (js_opt JStr o)) = JStr <$> o.
Proof. by destruct o. Qed.

Lemma json_toIso_opt o :
  json_value (toIso (js_opt js_instant o)) =
  (fun t => JStr (toISOString (t `div` 1000))) <$> o.
Proof. by destruct o. Qed.

(** A job row maps to an API object exactly when its payload is not a string
    or is a string holding JSON. *)
Lemma mapJob_ok j :
  (∃ v, mapJob (job_to_js j) = inr v) ↔ ∃ p, parse_payload (j_payload j) = inr p.
Proof.
  unfold mapJob. change (field (job_to_js j) "payload") with (j_payload j).
  destruct (parse_payload (j_payload j)) as [e|p]; simpl; naive_solver.
Qed.

Lemma mapJob_throws j e :
  parse_payload (j_payload j) = inl e → mapJob (job_to_js j) = inl e.
Proof.
  intros H. unfold mapJob. change (field (job_to_js j) "payload") with (j_payload j).
  by rewrite H.
Qed.

(** The fields of a mapped job. *)
Lemma mapJob_fields j v :
  mapJob (job_to_js j) = inr v →
  field v "id" = JStr (j_id j) ∧
  field v "queue_id" = JStr (j_queue_id j) ∧
  field v "status" = JStr (job_status_text (j_status j)) ∧
  field v "priority" = JInt (j_priority j) ∧
  field v "attempts" = JInt (j_attempts j) ∧
  field v "max_attempts" = JInt (j_max_attempts j) ∧
  parse_payload (j_payload j) = inr (field v "payload").
Proof.
  unfold mapJob. change (field (job_to_js j) "payload") with (j_payload j).
  destruct (parse_payload (j_payload j)) as [e|p] eqn:E; intros H; [done|].
  apply (inj inr) in H. subst v. by repeat split.
Qed.

Lemma mapQueue_fields q :
  field (mapQueue (queue_to_js q)) "id" = JStr (q_id q) ∧
  field (mapQueue (queue_to_js q)) "name" = JStr (q_name q) ∧
  field (mapQueue (queue_to_js q)) "priority_default" = JInt (q_priority_default q) ∧
  field (mapQueue (queue_to_js q)) "is_paused" = JBool (q_paused q) ∧
  json_value (field (mapQueue (queue_to_js q)) "concurrency_limit") =
    JInt <$> q_concurrency_limit q.
Proof. destruct q as [? ? ? ? ? ? [l|] ? ? ?]; by repeat split. Qed.
