(* ===== verification/Auth.v ===== *)
(** * Sessions and configuration ([dashboard/src/server/auth.ts], [db.ts])

    JWT issue and verification over the [jose] library, which is a parameter
    with its documented behaviour, and the environment lookups. *)

From S2P Require Import Prelude JsValue JsJson Database Proc Http.

Open Scope js_scope.
Local Open Scope Z_scope.

(** The [jose] library: [jwt_sign secret claims iat exp] is the compact token
    with the given string claims and registered times; [jwt_verify secret now
    token] is the claims set of a token whose signature and expiry check out,
    or the error it throws. Times are in seconds. *)
Class Jose := {
  jwt_sign : string → list (string * string) → Z → Z → string;
  jwt_verify : string → Z → string → thrown + list (string * jsval);
}.

Definition string_members (l : list (string * string)) : list (string * jsval) :=
  prod_map id JStr <$> l.

Class JoseOk (J : Jose) : Prop := {
  jwt_verify_sign : ∀ secret claims iat exp now,
    now < exp →
    ∃ w, jwt_verify secret now (jwt_sign secret claims iat exp) = inr w ∧
         ∀ k, k ≠ "iat" → k ≠ "exp" → obj_get w k = obj_get (string_members claims) k;
  jwt_verify_expired : ∀ secret claims iat exp now,
    exp ≤ now → ∃ e, jwt_verify secret now (jwt_sign secret claims iat exp) = inl e;
  jwt_sign_compact : ∀ secret claims iat exp, jwt_sign secret claims iat exp ≠ "";
}.

Record Claims := MkClaims {
  c_user_id : string; c_org_id : string; c_email : string; c_role : string }.

Section auth.
Context {W : World} {J : Jose}.

(** [process.env.X || d]: an empty variable counts as unset. *)
Definition env_or (k : string) (d : option string) : option string :=
  match process_env k with
  | Some "" | None => d
  | Some s => Some s
  end.

(** [getUrl] of db.ts. *)
Definition getUrl : thrown + string :=
  match env_or "DATABASE_URL" (env_or "POSTGRES_URL" None) with
  | Some url => inr url
  | None => inl (JsError "DATABASE_URL is not configured. Add Vercel Postgres (Neon) to the project.")
  end.

(** [getSql]: it only fails when the connection string is missing. *)
Definition getSql : proc unit := lift (try! _ := getUrl in inr tt).

Definition secret : string :=
  default "" (env_or "JWT_SECRET" (Some "vercel-demo-secret-change-me")).

Definition claims_members (c : Claims) : list (string * string) :=
  [("user_id", c_user_id c); ("org_id", c_org_id c);
   ("email", c_email c); ("role", c_role c)].

(** Seconds of [Date.now()], as [jose] rounds them. *)
Definition epoch (n : nat) : Z := js_now n `div` 1000.

Definition signToken (c : Claims) : proc string :=
  sync (fun n v =>
    (jwt_sign secret (claims_members c) (epoch n) (epoch n + 86400), v)).

Definition verify_at (n : nat) (token : string) : option Claims :=
  match jwt_verify secret (epoch n) token with
  | inr payload =>
      Some (MkClaims (js_to_string (obj_get payload "user_id"))
                     (js_to_string (obj_get payload "org_id"))
                     (js_to_string (obj_get payload "email"))
                     (js_to_string (obj_get payload "role")))
  | inl _ => None
  end.

Definition verifyToken (token : string) : proc (option Claims) :=
  sync (fun n v => (verify_at n token, v)).

Definition demoAuthEnabled : bool :=
  match process_env "DEMO_AUTH" with
  | Some s => bool_decide (s ≠ "false")
  | None => true
  end.

(** [bearerClaims]: both branches return [null]. *)
Definition bearerClaims (req : Request) : option Claims :=
  match req_authorization req with
  | Some auth => if negb (startsWith auth "Bearer ") then None else None
  | None => None
  end.

Definition claimsFromRequest (req : Request) : proc (option Claims) :=
  match req_authorization req with
  | Some auth =>
      if startsWith auth "Bearer " then verifyToken (slice_from auth 7) else ret None
  | None => ret None
  end.

(** ** Properties *)

Lemma getSql_url db : (∃ url, getUrl = inr url) → run getSql db = (inr tt, db).
Proof. intros [url H]. unfold getSql. by rewrite H. Qed.

Lemma bearer_prefix (t : string) :
  startsWith ("Bearer " +:+ t) "Bearer " = true ∧ slice_from ("Bearer " +:+ t) 7 = t.
Proof.
  unfold startsWith, slice_from, to_chars, of_chars.
  split; [|by cbn; apply String.string_of_list_ascii_of_string]. cbn. by destruct t.
Qed.

Lemma verify_sign_claims `{!JoseOk J} c n m :
  epoch m < epoch n + 86400 →
  verify_at m (jwt_sign secret (claims_members c) (epoch n) (epoch n + 86400)) = Some c.
Proof.
  intros Hlt. unfold verify_at.
  destruct (jwt_verify_sign secret (claims_members c) (epoch n) _ _ Hlt) as (w & -> & Hw).
  rewrite !Hw by done. by destruct c.
Qed.

End auth.
