(* ===== verification/DemoWorld.v ===== *)
(** * A concrete world

    An executable instance of the parameters, with the laws the theorems
    assume: step [n] happens [tick] microseconds after step [n-1], scans
    visit rows in key order, ids are numbered, and the connection fails as
    [faults] says. It is used to evaluate the model on concrete inputs. *)

From Stdlib Require Import Ascii QArith Qcanon.
From S2P Require Import Prelude JsValue JsJson Database Proc Http Auth.

Local Open Scope Z_scope.

Definition demo_epoch : Z := 1700000000000000.

Definition demo_uuid (n : nat) : string := "id-" +:+ pretty n.

Definition demo_int4 (v : jsval) : pg_error + option Z :=
  let check z := if decide (int4_min ≤ z ≤ int4_max) then inr (Some z)
                 else inl (OutOfRange "integer") in
  match v with
  | JUndef | JNull => inr None
  | JNum (Fin q) =>
      if decide (Qden q = 1%positive) then check (Qnum q) else inl (InvalidText "integer")
  | JStr s => match string_to_num s with
              | Fin q => if decide (Qden q = 1%positive) then check (Qnum q)
                         else inl (InvalidText "integer")
              | _ => inl (InvalidText "integer")
              end
  | _ => inl (InvalidText "integer")
  end.

Definition demo_env (vars : list (string * string)) (k : string) : option string :=
  snd <$> head (List.filter (fun kv => bool_decide (kv.1 = k)) vars).

Definition demo_world (tick : Z) (faults : nat → option (bool * thrown))
    (vars : list (string * string)) : World := {|
  pg_now n := demo_epoch + Z.of_nat n * tick;
  js_now n := (demo_epoch + Z.of_nat n * tick) `div` 1000;
  pg_uuid := demo_uuid;
  pg_scan _ _ l := l;
  fault_at := faults;
  uuid_param v := match v with
                  | JUndef | JNull => inr None
                  | JStr s => inr (Some s)
                  | _ => inl (InvalidText "uuid")
                  end;
  int4_param := demo_int4;
  text_param v := match v with
                  | JUndef | JNull => None
                  | _ => Some (js_to_string v)
                  end;
  seconds_param a := match a with
                     | Fin q => inr ((Qnum q * 1000000) `div` Zpos (Qden q))
                     | _ => inl (OutOfRange "interval")
                     end;
  pg_message e := match e with
                  | UniqueViolation c => "duplicate key value violates unique constraint " +:+ c
                  | ForeignKeyViolation c => "violates foreign key constraint " +:+ c
                  | NotNullViolation c => "null value violates not-null constraint in column " +:+ c
                  | InvalidText t => "invalid input syntax for type " +:+ t
                  | OutOfRange t => t +:+ " out of range"
                  end;
  process_env := demo_env vars;
|}.

Definition no_faults : nat → option (bool * thrown) := fun _ => None.

Definition demo_vars : list (string * string) := [("DATABASE_URL", "postgres://demo")].

(** One second per step, no failures. *)
#[export] Instance demo : World := demo_world 1000000 no_faults demo_vars.

Lemma demo_world_ok tick faults vars : 0 ≤ tick → WorldOk (demo_world tick faults vars).
Proof.
  intros Ht. split; simpl; try done.
  - intros n m Hnm. nia.
  - intros n m Hnm. unfold demo_uuid in Hnm. by simplify_eq.
  - by intros [].
  - intros s o [= <-]. by eexists.
  - by intros [].
  - intros z Hz. case_decide; [done|lia].
  - intros v z. unfold demo_int4. intros H.
    repeat first [case_decide | case_match]; simplify_eq/=; lia.
  - by intros [].
  - intros z Hz. f_equal. rewrite Z.div_1_r. done.
Qed.

(** A text form of positive numbers, to write encoded data into a token. *)
Fixpoint bits_of_pos (p : positive) : string :=
  match p with
  | xH => ""
  | xO p => String "0"%char (bits_of_pos p)
  | xI p => String "1"%char (bits_of_pos p)
  end.

Fixpoint pos_of_bits (s : string) : positive :=
  match s with
  | EmptyString => 1%positive
  | String "1"%char s => xI (pos_of_bits s)
  | String _ s => xO (pos_of_bits s)
  end.

Lemma pos_of_bits_of_pos p : pos_of_bits (bits_of_pos p) = p.
Proof. induction p; simpl; by f_equal. Qed.

(** Tokens that carry the secret, the claims and the expiry in clear. *)
Definition demo_token := (string * list (string * string) * (Z * Z))%type.

#[export] Instance demo_jose : Jose := {|
  jwt_sign secret claims iat exp :=
    "." +:+ bits_of_pos (encode ((secret, claims, (iat, exp)) : demo_token));
  jwt_verify secret now token :=
    match (decode (pos_of_bits (slice_from token 1)) : option demo_token) with
    | Some (s, claims, (iat, exp)) =>
        if bool_decide (s = secret) then
          if bool_decide (now < exp)
          then inr (string_members claims ++ [("iat", JInt iat); ("exp", JInt exp)])
          else inl (JsError "exp claim timestamp check failed")
        else inl (JsError "signature verification failed")
    | None => inl (JsError "Invalid Compact JWS")
    end;
|}.

Lemma obj_get_app_str claims l k :
  obj_get l k = JUndef →
  obj_get (string_members claims ++ l) k = obj_get (string_members claims) k.
Proof.
  intros Hl. induction claims as [|[k' s] claims IH]; simpl; [done|]. by case_decide.
Qed.

Lemma demo_jose_ok : JoseOk demo_jose.
Proof.
  assert (∀ s, slice_from ("." +:+ s) 1 = s) as Hs by (intros s; apply of_to_chars).
  split; [..|done]; intros secret claims iat exp now Hn; cbn [jwt_sign jwt_verify demo_jose];
    rewrite Hs, pos_of_bits_of_pos, decode_encode; rewrite bool_decide_true by done.
  - rewrite bool_decide_true by done. eexists. split; [done|].
    intros k Hi He. apply obj_get_app_str. simpl. by rewrite !decide_False.
  - rewrite bool_decide_false by lia. by eexists.
Qed.
