(* ===== verification/Worker.v ===== *)
(** * The worker ([dashboard/src/server/worker.ts])

    One tick requeues expired leases, registers the worker, then claims and
    executes the due jobs of every queue that is not paused. Each SQL
    statement of the file is a definition of its own; the functions compose
    them in the order of the source. *)

From S2P Require Import Prelude JsValue JsJson Database Proc Http Auth.

Open Scope js_scope.
Local Open Scope Z_scope.

Definition WORKER_NAME : string := "vercel-worker-1".
Definition LEASE_SECONDS : Z := 30.

(** ** Statements *)

Section statements.
Context {W : World}.

(** worker.ts: [SELECT id FROM workers WHERE name = ... LIMIT 1]. *)
Definition sql_find_worker : query (list string) := fun n db =>
  inr (take 1 (w_id <$>
    select_where n (fun w => bool_decide (w_name w = WORKER_NAME)) (workers db)), db).

(** [INSERT INTO worker_heartbeats ... ON CONFLICT (worker_id) DO UPDATE]. *)
Definition sql_upsert_heartbeat (id : string) : query unit := fun n db =>
  let mine := fun h => bool_decide (hb_worker_id h = id) in
  if some_row mine (worker_heartbeats db)
  then inr (tt, with_heartbeats (update_where mine (fun h =>
         MkHeartbeat (hb_id h) (hb_worker_id h) (pg_now n) (hb_metadata h)
                     (hb_created_at h) (pg_now n))) db)
  else
    try! _ := require (negb (has_key (worker_heartbeats db) (pg_uuid n)))
                (UniqueViolation "worker_heartbeats_pkey") in
    try! _ := require (has_key (workers db) id)
                (ForeignKeyViolation "worker_heartbeats_worker_id_fkey") in
    inr (tt, with_heartbeats <[pg_uuid n :=
      MkHeartbeat (pg_uuid n) id (pg_now n) None (pg_now n) (pg_now n)]> db).

(** [INSERT INTO worker_heartbeats (worker_id, last_seen_at)]. *)
Definition sql_insert_heartbeat (id : string) : query unit := fun n db =>
  try! _ := require (negb (has_key (worker_heartbeats db) (pg_uuid n)))
              (UniqueViolation "worker_heartbeats_pkey") in
  try! _ := require (negb (some_row (fun h => bool_decide (hb_worker_id h = id))
                             (worker_heartbeats db)))
              (UniqueViolation "worker_heartbeats_worker_id_key") in
  try! _ := require (has_key (workers db) id)
              (ForeignKeyViolation "worker_heartbeats_worker_id_fkey") in
  inr (tt, with_heartbeats <[pg_uuid n :=
    MkHeartbeat (pg_uuid n) id (pg_now n) None (pg_now n) (pg_now n)]> db).

(** [UPDATE workers SET status = 'active', updated_at = NOW() WHERE id]. *)
Definition sql_activate_worker (id : string) : query unit := fun n db =>
  inr (tt, with_workers (update_where (fun w => bool_decide (w_id w = id))
    (fun w => MkWorker (w_id w) (w_name w) WActive (w_meta w) (w_created_at w) (pg_now n))) db).

(** [INSERT INTO workers (name, status) VALUES (WORKER_NAME, 'active') RETURNING id]. *)
Definition sql_insert_worker : query string := fun n db =>
  try! _ := require (negb (has_key (workers db) (pg_uuid n))) (UniqueViolation "workers_pkey") in
  inr (pg_uuid n, with_workers <[pg_uuid n :=
    MkWorker (pg_uuid n) WORKER_NAME WActive None (pg_now n) (pg_now n)]> db).

Definition in_flight (j : JobRow) : bool :=
  bool_decide (j_status j = Claimed ∨ j_status j = Running).

(** [lease_expires_at < NOW()]: [NULL] does not satisfy it. *)
Definition lease_expired (now : instant) (j : JobRow) : bool :=
  match j_lease_expires_at j with
  | Some t => bool_decide (t < now)
  | None => false
  end.

Definition reaped (now : instant) : JobRow → JobRow :=
  job_assigns [SetStatus Queued; SetWorkerId None; SetClaimedAt None;
               SetLeaseExpiresAt None; SetUpdatedAt now].

Definition sql_reap : query unit := fun n db =>
  inr (tt, with_jobs (update_where (fun j => in_flight j && lease_expired (pg_now n) j)
                        (reaped (pg_now n))) db).

Definition by_id (id : string) (j : JobRow) : bool := bool_decide (j_id j = id).

Definition int4_ok (z : Z) : bool := bool_decide (int4_min ≤ z ≤ int4_max).

Definition set_running (attempt : Z) (now : instant) : JobRow → JobRow :=
  job_assigns [SetStatus Running; SetAttempts attempt; SetUpdatedAt now].

Definition sql_mark_running (id : string) (attempt : Z) : query unit := fun n db =>
  try! _ := require (int4_ok attempt) (OutOfRange "integer") in
  inr (tt, with_jobs (update_where (by_id id) (set_running attempt (pg_now n))) db).

Definition sql_insert_execution (jobId workerId : string) (attempt : Z) : query string :=
  fun n db =>
  try! _ := require (int4_ok attempt) (OutOfRange "integer") in
  try! _ := require (negb (has_key (job_executions db) (pg_uuid n)))
              (UniqueViolation "job_executions_pkey") in
  try! _ := require (has_key (jobs db) jobId)
              (ForeignKeyViolation "job_executions_job_id_fkey") in
  try! _ := require (has_key (workers db) workerId)
              (ForeignKeyViolation "job_executions_worker_id_fkey") in
  inr (pg_uuid n, with_executions <[pg_uuid n :=
    MkExec (pg_uuid n) jobId (Some workerId) attempt "running" (pg_now n)
           None None None (pg_now n) (pg_now n)]> db).

Definition sql_insert_log (jobId level message : string) : query unit := fun n db =>
  try! _ := require (negb (has_key (job_logs db) (pg_uuid n))) (UniqueViolation "job_logs_pkey") in
  try! _ := require (has_key (jobs db) jobId) (ForeignKeyViolation "job_logs_job_id_fkey") in
  inr (tt, with_logs <[pg_uuid n :=
    MkLog (pg_uuid n) jobId level message None (pg_now n)]> db).

Definition set_completed (now : instant) : JobRow → JobRow :=
  job_assigns [SetStatus Completed; SetCompletedAt (Some now); SetWorkerId None;
               SetLeaseExpiresAt None; SetErrorMessage None; SetUpdatedAt now].

Definition sql_complete (id : string) : query unit := fun n db =>
  inr (tt, with_jobs (update_where (by_id id) (set_completed (pg_now n))) db).

Definition set_dead_letter (errMsg : string) (now : instant) : JobRow → JobRow :=
  job_assigns [SetStatus DeadLetter; SetFailedAt (Some now); SetErrorMessage (Some errMsg);
               SetWorkerId None; SetLeaseExpiresAt None; SetUpdatedAt now].

Definition sql_dead_letter (id errMsg : string) : query unit := fun n db =>
  inr (tt, with_jobs (update_where (by_id id) (set_dead_letter errMsg (pg_now n))) db).

Definition set_requeued (errMsg : string) (now : instant) : JobRow → JobRow :=
  job_assigns [SetStatus Queued; SetFailedAt (Some now); SetErrorMessage (Some errMsg);
               SetWorkerId None; SetClaimedAt None; SetLeaseExpiresAt None;
               SetNextRunAt (Some (now + seconds 5)); SetUpdatedAt now].

Definition sql_requeue (id errMsg : string) : query unit := fun n db =>
  inr (tt, with_jobs (update_where (by_id id) (set_requeued errMsg (pg_now n))) db).

(** [INSERT INTO dead_letter_queue ... ON CONFLICT (job_id) DO NOTHING]; the
    payload is [JSON.stringify(payload)::jsonb]. *)
Definition sql_insert_dlq (jobId queueId : string) (payload : jsval) (reason : string)
    (attempt : Z) : query unit := fun n db =>
  try! body := from_option_sum (PgError (NotNullViolation "payload")) (json_value payload) in
  try! _ := require (int4_ok attempt) (OutOfRange "integer") in
  if some_row (fun d => bool_decide (d_job_id d = jobId)) (dead_letter_queue db)
  then inr (tt, db)
  else
    try! _ := require (negb (has_key (dead_letter_queue db) (pg_uuid n)))
                (UniqueViolation "dead_letter_queue_pkey") in
    try! _ := require (has_key (jobs db) jobId)
                (ForeignKeyViolation "dead_letter_queue_job_id_fkey") in
    try! _ := require (has_key (queues db) queueId)
                (ForeignKeyViolation "dead_letter_queue_original_queue_id_fkey") in
    inr (tt, with_dlq <[pg_uuid n :=
      MkDlq (pg_uuid n) jobId queueId body (pg_now n) (Some reason) attempt (pg_now n)]> db).

(** [UPDATE job_executions SET status, finished_at, duration_ms (, error)]. *)
Definition set_finished (status : string) (duration : Z) (err : option string) (now : instant)
    (x : ExecRow) : ExecRow :=
  MkExec (x_id x) (x_job_id x) (x_worker_id x) (x_attempt x) status (x_started_at x) (Some now)
    (match err with Some m => Some m | None => x_error x end)
    (Some duration) (x_created_at x) (x_updated_at x).

Definition sql_finish_execution (id status : string) (duration : Z) (err : option string) :
    query unit := fun n db =>
  try! _ := require (int4_ok duration) (OutOfRange "integer") in
  inr (tt, with_executions (update_where (fun x => bool_decide (x_id x = id))
    (set_finished status duration err (pg_now n))) db).

(** [SELECT id FROM queues WHERE paused = FALSE]. *)
Definition sql_active_queues : query (list string) := fun n db =>
  inr (q_id <$> select_where n (fun q => negb (q_paused q)) (queues db), db).

Definition in_queue (qid : string) (j : JobRow) : bool := bool_decide (j_queue_id j = qid).

Definition in_flight_count (qid : string) (db : DB) : Z :=
  Z.of_nat (count_where (fun j => in_queue qid j && in_flight j) (jobs db)).

(** [GREATEST(COALESCE(concurrency_limit, 5) - in flight, 0)]: one row when
    the queue exists. *)
Definition sql_budget (qid : string) : query (option Z) := fun n db =>
  inr ((fun q => Z.max (default 5 (q_concurrency_limit q) - in_flight_count qid db) 0)
         <$> queues db !! qid, db).

(** [next_run_at IS NULL OR next_run_at <= NOW()]. *)
Definition due (now : instant) (j : JobRow) : bool :=
  match j_next_run_at j with
  | None => true
  | Some t => bool_decide (t ≤ now)
  end.

Definition claimable (qid : string) (now : instant) (j : JobRow) : bool :=
  in_queue qid j && bool_decide (j_status j = Queued) && due now j.

(** [ORDER BY priority DESC, next_run_at ASC NULLS FIRST]. *)
Definition nulls_first_le (a b : option instant) : Prop :=
  match a, b with
  | None, _ => True
  | Some _, None => False
  | Some x, Some y => x ≤ y
  end.

Definition claim_order (a b : JobRow) : Prop :=
  j_priority b < j_priority a ∨
  (j_priority a = j_priority b ∧ nulls_first_le (j_next_run_at a) (j_next_run_at b)).

#[global] Instance nulls_first_le_dec a b : Decision (nulls_first_le a b).
Proof. destruct a, b; simpl; apply _. Defined.
#[global] Instance claim_order_dec : RelDecision claim_order.
Proof. intros a b. unfold claim_order. apply _. Defined.

(** Ids of the inner [SELECT ... LIMIT budget]. *)
Definition claim_selection (n : nat) (qid : string) (budget : nat) (db : DB) : list JobRow :=
  take budget (merge_sort claim_order (select_where n (claimable qid (pg_now n)) (jobs db))).

Definition set_claimed (workerId : string) (now : instant) : JobRow → JobRow :=
  job_assigns [SetStatus Claimed; SetWorkerId (Some workerId); SetClaimedAt (Some now);
               SetLeaseExpiresAt (Some (now + seconds LEASE_SECONDS)); SetUpdatedAt now].

Definition selected_by (sel : list JobRow) (j : JobRow) : bool :=
  bool_decide (j_id j ∈ (j_id <$> sel)).

(** The claim: one statement selects and updates. *)
Definition sql_claim (qid workerId : string) (budget : nat) : query (list JobRow) :=
  fun n db =>
  let sel := claim_selection n qid budget db in
  try! _ := require (bool_decide (sel = []) || has_key (workers db) workerId)
              (ForeignKeyViolation "jobs_worker_id_fkey") in
  inr (updated_rows n (selected_by sel) (set_claimed workerId (pg_now n)) (jobs db),
       with_jobs (update_where (selected_by sel) (set_claimed workerId (pg_now n))) db).

(** ** Functions *)

Definition ensureWorker : proc string :=
  let! existing := sql sql_find_worker in
  match existing with
  | id :: _ =>
      sql (sql_upsert_heartbeat id) ;;!
      sql (sql_activate_worker id) ;;!
      ret id
  | [] =>
      let! id := sql sql_insert_worker in
      sql (sql_insert_heartbeat id) ;;!
      ret id
  end.

Definition reaper : proc unit := sql sql_reap.

(** [e instanceof Error ? e.message : d]. *)
Definition error_message (e : thrown) (d : string) : string :=
  match e with
  | JsError m => m
  | PgError e => pg_message e
  | NotAnError => d
  end.

Definition is_str (v : jsval) (s : string) : bool :=
  match v with JStr t => bool_decide (t = s) | _ => false end.

(** [Math.min(Number(payload.duration_ms) || 100, 5000)]. *)
Definition sleep_ms (v : jsval) : num :=
  num_min (num_or (js_to_num v) (num_of_Z 100)) (num_of_Z 5000).

(** The [try] block of [executeJob]: whether the job succeeded, and the
    error message. *)
Definition perform (payload : jsval) : proc (bool * string) :=
  catch
    (let! ty := lift (prop payload "type") in
     if is_str ty "sleep" then
       let! d := lift (prop payload "duration_ms") in
       sleep (sleep_ms d) ;;! ret (true, "")
     else if is_str ty "always_fail" then
       let! m := lift (prop payload "message") in
       ret (false, js_to_string (js_or m (JStr "simulated failure")))
     else ret (true, ""))
    (fun e => ret (false, error_message e "execution error")).

Definition date_now : proc Z := sync (fun n v => (js_now n, v)).

(** What [executeJob] writes after a run that failed. *)
Definition record_failure (job : JobRow) (attempt : Z) (payload : jsval) (errMsg : string) :
    proc unit :=
  if bool_decide (j_max_attempts job ≤ attempt) then
    sql (sql_dead_letter (j_id job) errMsg) ;;!
    sql (sql_insert_dlq (j_id job) (j_queue_id job) payload errMsg attempt)
  else sql (sql_requeue (j_id job) errMsg).

Definition executeJob (job : JobRow) (workerId : string) : proc unit :=
  let jobId := j_id job in
  let attempt := j_attempts job + 1 in
  let! payload := lift (parse_payload (j_payload job)) in
  sql (sql_mark_running jobId attempt) ;;!
  let! exec := sql (sql_insert_execution jobId workerId attempt) in
  sql (sql_insert_log jobId "info" "Job started") ;;!
  let! start := date_now in
  let! (success, errMsg) := perform payload in
  let! stop := date_now in
  let duration := stop - start in
  if success : bool then
    sql (sql_complete jobId) ;;!
    sql (sql_finish_execution exec "completed" duration None) ;;!
    sql (sql_insert_log jobId "info" "Job completed")
  else
    record_failure job attempt payload errMsg ;;!
    sql (sql_finish_execution exec "failed" duration (Some errMsg)) ;;!
    sql (sql_insert_log jobId "error" errMsg).

(** Body of the loop over queues: claim and execute within the budget. *)
Definition process_queue (workerId : string) (processed : nat) (queueId : string) : proc nat :=
  let! budgetRow := sql (sql_budget queueId) in
  let budget := default 0 budgetRow in
  if bool_decide (budget ≤ 0) then ret processed
  else
    let! claimed := sql (sql_claim queueId workerId (Z.to_nat budget)) in
    for_each (fun processed job => executeJob job workerId ;;! ret (S processed))
      claimed processed.

(** [runWorkerTick]: the number of jobs processed; the worker name it returns
    beside it is the constant. *)
Definition runWorkerTick : proc nat :=
  getSql ;;!
  reaper ;;!
  let! workerId := ensureWorker in
  let! queues := sql sql_active_queues in
  for_each (process_queue workerId) queues O.

End statements.
