(* ===== verification/Scheduler.v ===== *)
(** * The tick scheduler ([dashboard/src/server/worker-scheduler.ts])

    Request handlers start worker ticks in the background; the module
    variables [inFlight] and [lastRunAt] throttle them. *)

From S2P Require Import Prelude JsValue JsJson Database Proc Http Auth Worker.

Open Scope js_scope.
Local Open Scope Z_scope.

Definition MIN_INTERVAL_MS : Z := 2500.

Definition initial_vars : modvars := MkVars false 0.

Section scheduler.
Context {W : World}.

(** The synchronous prefix of [scheduleWorkerTick]: whether a tick starts. *)
Definition schedule_guard (n : nat) (v : modvars) : bool * modvars :=
  let now := js_now n in
  if inFlight v || bool_decide (now - lastRunAt v < MIN_INTERVAL_MS)
  then (false, v)
  else (true, MkVars true now).

(** [.finally(() => { inFlight = null; })]. *)
Definition clear_in_flight (n : nat) (v : modvars) : unit * modvars :=
  (tt, MkVars false (lastRunAt v)).

(** [runWorkerTick().catch(...).finally(...)]. *)
Definition background_tick : proc unit :=
  proc_then (catch (runWorkerTick ;;! ret tt) (fun _ => ret tt))
    (fun _ => sync clear_in_flight).

Definition scheduleWorkerTick : proc unit :=
  let! start := sync schedule_guard in
  if start : bool then fork background_tick else ret tt.

Definition set_last_run (n : nat) (v : modvars) : unit * modvars :=
  (tt, MkVars (inFlight v) (js_now n)).

Definition runWorkerTickNow : proc nat :=
  sync set_last_run ;;! runWorkerTick.

End scheduler.
