(* ===== verification/Setup.v ===== *)
(** * Schema and demo data ([dashboard/src/server/setup.ts])

    The DDL statements as data with their effect on a catalog, [ensureSchema]
    that runs them in order, the demo seed, and the demo user lookup. *)

From S2P Require Import Prelude JsValue JsJson Database Proc Http Auth.

Open Scope js_scope.
Local Open Scope Z_scope.

(** ** Schema *)

Inductive on_delete := Cascade | SetNullOnDelete.

Inductive col_type := UUID | TEXT | INT | BOOLEAN | JSONB | TIMESTAMPTZ | ENUM (name : string).

Record column := MkCol {
  col_name : string; col_type_of : col_type; col_not_null : bool;
  col_default : option string; col_unique : bool;
  col_refs : option (string * on_delete) }.

Record table_def := MkTable {
  tbl_cols : list column; tbl_pk : string; tbl_uniques : list (list string) }.

Record index_def := MkIndex {
  idx_table : string; idx_cols : list string; idx_unique : bool; idx_where : option string }.

(** Every statement is a no-op on an object that exists already: [IF NOT
    EXISTS], [OR REPLACE], or the [duplicate_object] handler. *)
Inductive ddl :=
| CreateExtension (name : string)
| CreateEnum (name : string) (labels : list string)
| CreateFunction (name : string)
| CreateTable (name : string) (t : table_def)
| CreateIndex (name : string) (i : index_def).

Record catalog := MkCatalog {
  cat_extensions : gset string;
  cat_enums : gmap string (list string);
  cat_functions : gset string;
  cat_tables : gmap string table_def;
  cat_indexes : gmap string index_def }.

Definition empty_catalog : catalog := MkCatalog ∅ ∅ ∅ ∅ ∅.

Definition col (n : string) (t : col_type) : column := MkCol n t false None false None.
Definition req (n : string) (t : col_type) : column := MkCol n t true None false None.
Definition dflt (n : string) (t : col_type) (d : string) : column :=
  MkCol n t true (Some d) false None.
Definition fk (n : string) (r : string) : column :=
  MkCol n UUID true None false (Some (r, Cascade)).
Definition ufk (n : string) (r : string) : column :=
  MkCol n UUID true None true (Some (r, Cascade)).
Definition nfk (n : string) (r : string) : column :=
  MkCol n UUID false None false (Some (r, SetNullOnDelete)).

Definition pk_id : column := MkCol "id" UUID true (Some "gen_random_uuid()") true None.
Definition created_at : column := dflt "created_at" TIMESTAMPTZ "NOW()".
Definition updated_at : column := dflt "updated_at" TIMESTAMPTZ "NOW()".

Definition STATEMENTS : list ddl := [
  CreateExtension "pgcrypto";
  CreateEnum "job_status"
    ["queued"; "scheduled"; "claimed"; "running"; "completed"; "failed"; "dead_letter"];
  CreateEnum "worker_status" ["active"; "draining"; "offline"];
  CreateFunction "set_updated_at";
  CreateTable "organizations" (MkTable
    [pk_id; req "name" TEXT; MkCol "slug" TEXT true None true None; created_at; updated_at]
    "id" [["slug"]]);
  CreateTable "users" (MkTable
    [pk_id; fk "org_id" "organizations"; req "email" TEXT; req "name" TEXT;
     dflt "role" TEXT "'member'"; dflt "password_hash" TEXT "''"; created_at; updated_at]
    "id" [["org_id"; "email"]]);
  CreateTable "projects" (MkTable
    [pk_id; fk "org_id" "organizations"; req "name" TEXT; req "slug" TEXT;
     col "description" TEXT; created_at; updated_at]
    "id" [["org_id"; "slug"]]);
  CreateTable "queues" (MkTable
    [pk_id; fk "project_id" "projects"; req "name" TEXT; req "slug" TEXT;
     col "retry_policy_id" UUID; dflt "priority_default" INT "0";
     col "concurrency_limit" INT; dflt "paused" BOOLEAN "FALSE"; created_at; updated_at]
    "id" [["project_id"; "slug"]]);
  CreateTable "workers" (MkTable
    [pk_id; req "name" TEXT; dflt "status" (ENUM "worker_status") "'active'";
     col "meta" JSONB; created_at; updated_at]
    "id" []);
  CreateTable "worker_heartbeats" (MkTable
    [pk_id; ufk "worker_id" "workers"; dflt "last_seen_at" TIMESTAMPTZ "NOW()";
     col "metadata" JSONB; created_at; updated_at]
    "id" [["worker_id"]]);
  CreateTable "jobs" (MkTable
    [pk_id; fk "queue_id" "queues"; dflt "status" (ENUM "job_status") "'queued'";
     dflt "priority" INT "0"; req "payload" JSONB; col "idempotency_key" TEXT;
     MkCol "next_run_at" TIMESTAMPTZ false (Some "NOW()") false None;
     dflt "attempts" INT "0"; dflt "max_attempts" INT "3"; col "retry_policy_id" UUID;
     nfk "worker_id" "workers"; col "claimed_at" TIMESTAMPTZ;
     col "lease_expires_at" TIMESTAMPTZ; col "completed_at" TIMESTAMPTZ;
     col "failed_at" TIMESTAMPTZ; col "error_message" TEXT; col "cron_expr" TEXT;
     col "batch_id" UUID; created_at; updated_at]
    "id" []);
  CreateTable "job_executions" (MkTable
    [pk_id; fk "job_id" "jobs"; nfk "worker_id" "workers"; req "attempt" INT;
     req "status" TEXT; req "started_at" TIMESTAMPTZ; col "finished_at" TIMESTAMPTZ;
     col "error" TEXT; col "duration_ms" INT; created_at; updated_at]
    "id" []);
  CreateTable "job_logs" (MkTable
    [pk_id; fk "job_id" "jobs"; dflt "level" TEXT "'info'"; req "message" TEXT;
     col "metadata" JSONB; created_at]
    "id" []);
  CreateTable "dead_letter_queue" (MkTable
    [pk_id; ufk "job_id" "jobs"; fk "original_queue_id" "queues"; req "payload" JSONB;
     dflt "failed_at" TIMESTAMPTZ "NOW()"; col "reason" TEXT; req "attempts_made" INT;
     created_at]
    "id" [["job_id"]]);
  CreateIndex "idx_jobs_claim"
    (MkIndex "jobs" ["queue_id"; "priority"; "next_run_at"] false (Some "status = 'queued'"));
  CreateIndex "idx_jobs_idempotency"
    (MkIndex "jobs" ["queue_id"; "idempotency_key"] true (Some "idempotency_key IS NOT NULL"));
  CreateIndex "idx_jobs_queue_status" (MkIndex "jobs" ["queue_id"; "status"] false None);
  CreateIndex "idx_job_executions_job_id"
    (MkIndex "job_executions" ["job_id"; "attempt"] false None);
  CreateIndex "idx_job_logs_job_created" (MkIndex "job_logs" ["job_id"; "created_at"] false None);
  CreateIndex "idx_job_executions_finished"
    (MkIndex "job_executions" ["finished_at"] false (Some "finished_at IS NOT NULL"))
].

(** What a new table needs: referenced tables and enum types exist. *)
Definition column_ok (c : catalog) (k : column) : bool :=
  match col_refs k with
  | Some (t, _) => bool_decide (is_Some (cat_tables c !! t))
  | None => true
  end &&
  match col_type_of k with
  | ENUM e => bool_decide (is_Some (cat_enums c !! e))
  | _ => true
  end.

Definition has_column (t : table_def) (k : string) : bool :=
  bool_decide (k ∈ col_name <$> tbl_cols t).

Definition undefined_object : thrown := PgError (InvalidText "undefined object").

Definition exec_ddl (s : ddl) (c : catalog) : thrown + catalog :=
  let '(MkCatalog ex en fn tb ix) := c in
  match s with
  | CreateExtension n => inr (MkCatalog ({[n]} ∪ ex) en fn tb ix)
  | CreateEnum n ls =>
      inr (match en !! n with Some _ => c | None => MkCatalog ex (<[n := ls]> en) fn tb ix end)
  | CreateFunction n => inr (MkCatalog ex en ({[n]} ∪ fn) tb ix)
  | CreateTable n t =>
      match tb !! n with
      | Some _ => inr c
      | None =>
          if forallb (column_ok c) (tbl_cols t)
          then inr (MkCatalog ex en fn (<[n := t]> tb) ix)
          else inl undefined_object
      end
  | CreateIndex n i =>
      match ix !! n with
      | Some _ => inr c
      | None =>
          match tb !! idx_table i with
          | Some t =>
              if forallb (has_column t) (idx_cols i)
              then inr (MkCatalog ex en fn tb (<[n := i]> ix))
              else inl undefined_object
          | None => inl undefined_object
          end
      end
  end.

(** The loop over [STATEMENTS]; each statement commits on its own, and the
    connection may fail before any of them. *)
Fixpoint run_ddl (fails : nat → option thrown) (n : nat) (l : list ddl) (c : catalog) :
    (thrown + unit) * catalog :=
  match l with
  | [] => (inr tt, c)
  | s :: l =>
      match fails n with
      | Some e => (inl e, c)
      | None =>
          match exec_ddl s c with
          | inl e => (inl e, c)
          | inr c' => run_ddl fails (S n) l c'
          end
      end
  end.

Section setup.
Context {W : World}.

(** [ensureSchema]: the [finally] block only closes the pool. *)
Definition ensureSchema (fails : nat → option thrown) (c : catalog) :
    (thrown + unit) * catalog :=
  match getUrl with
  | inl e => (inl e, c)
  | inr _ => run_ddl fails 0 STATEMENTS c
  end.

(** ** Seed *)

Definition sql_demo_org : query (list string) := fun n db =>
  inr (take 1 (org_id <$>
    select_where n (fun o => bool_decide (org_slug o = "demo")) (organizations db)), db).

Definition sql_insert_org (name slug : string) : query string := fun n db =>
  try! _ := require (negb (has_key (organizations db) (pg_uuid n)))
              (UniqueViolation "organizations_pkey") in
  try! _ := require (negb (some_row (fun o => bool_decide (org_slug o = slug)) (organizations db)))
              (UniqueViolation "organizations_slug_key") in
  inr (pg_uuid n, with_organizations <[pg_uuid n :=
    MkOrg (pg_uuid n) name slug (pg_now n) (pg_now n)]> db).

Definition sql_insert_user (org email name role hash : string) : query UserRow := fun n db =>
  try! _ := require (negb (has_key (users db) (pg_uuid n))) (UniqueViolation "users_pkey") in
  try! _ := require (negb (some_row (fun u => bool_decide (usr_org_id u = org ∧ usr_email u = email))
                             (users db)))
              (UniqueViolation "users_org_id_email_key") in
  try! _ := require (has_key (organizations db) org) (ForeignKeyViolation "users_org_id_fkey") in
  let row := MkUser (pg_uuid n) org email name role hash (pg_now n) (pg_now n) in
  inr (row, with_users <[pg_uuid n := row]> db).

Definition sql_seed_project (org name slug description : string) : query string := fun n db =>
  try! _ := require (negb (has_key (projects db) (pg_uuid n))) (UniqueViolation "projects_pkey") in
  try! _ := require (negb (some_row (fun p => bool_decide (prj_org_id p = org ∧ prj_slug p = slug))
                             (projects db)))
              (UniqueViolation "projects_org_id_slug_key") in
  try! _ := require (has_key (organizations db) org) (ForeignKeyViolation "projects_org_id_fkey") in
  inr (pg_uuid n, with_projects <[pg_uuid n :=
    MkProject (pg_uuid n) org name slug (Some description) (pg_now n) (pg_now n)]> db).

Definition sql_seed_queue (project name slug : string) (limit : Z) : query string := fun n db =>
  try! _ := require (negb (has_key (queues db) (pg_uuid n))) (UniqueViolation "queues_pkey") in
  try! _ := require (negb (some_row (fun q => bool_decide (q_project_id q = project ∧ q_slug q = slug))
                             (queues db)))
              (UniqueViolation "queues_project_id_slug_key") in
  try! _ := require (has_key (projects db) project)
              (ForeignKeyViolation "queues_project_id_fkey") in
  inr (pg_uuid n, with_queues <[pg_uuid n :=
    MkQueue (pg_uuid n) project name slug None 5 (Some limit) false (pg_now n) (pg_now n)]> db).

(** Columns that the statement does not list take their defaults. *)
Definition sql_seed_job (queue : string) (payload : jsval) : query unit := fun n db =>
  try! _ := require (negb (has_key (jobs db) (pg_uuid n))) (UniqueViolation "jobs_pkey") in
  try! _ := require (has_key (queues db) queue) (ForeignKeyViolation "jobs_queue_id_fkey") in
  inr (tt, with_jobs <[pg_uuid n :=
    MkJob (pg_uuid n) queue Queued 5 payload None (Some (pg_now n)) 0 3 None None None None
          None None None None None (pg_now n) (pg_now n)]> db).

Definition sql_seed_worker : query unit := fun n db =>
  try! _ := require (negb (has_key (workers db) (pg_uuid n))) (UniqueViolation "workers_pkey") in
  inr (tt, with_workers <[pg_uuid n :=
    MkWorker (pg_uuid n) "vercel-worker-1" WActive None (pg_now n) (pg_now n)]> db).

Definition seed_queues : list (string * string * Z) :=
  [("Emails", "emails", 10); ("Webhooks", "webhooks", 5); ("Reports", "reports", 3)].

Definition seed_payload (i : Z) : jsval :=
  JObj [("type", JStr "sleep"); ("duration_ms", JInt (200 + i * 100))].

(** The object [seedDemo] returns. *)
Definition seed_user_js (u : UserRow) : jsval :=
  JObj [("id", JStr (usr_id u)); ("org_id", JStr (usr_org_id u));
        ("email", JStr (usr_email u)); ("role", JStr (usr_role u))].

Definition seed_queue (project : string) (q : string * string * Z) : proc unit :=
  let! queue := sql (sql_seed_queue project q.1.1 q.1.2 q.2) in
  for_each (fun _ i => sql (sql_seed_job queue (seed_payload i))) [0; 1; 2] tt.

Definition seedDemo : proc (list (string * jsval)) :=
  getSql ;;!
  let! existing := sql sql_demo_org in
  if bool_decide (existing ≠ []) then ret [("seeded", JBool false)]
  else
    let! org := sql (sql_insert_org "Demo Corp" "demo") in
    let! user := sql (sql_insert_user org "admin@demo.com" "Demo Admin" "admin" "demo") in
    let! project := sql (sql_seed_project org "Platform" "platform" "Demo project") in
    for_each (fun _ q => seed_queue project q) seed_queues tt ;;!
    sql sql_seed_worker ;;!
    ret [("seeded", JBool true); ("user", seed_user_js user)].

(** ** Demo login *)

(** [SELECT id, org_id, email, name, role FROM users WHERE email = ... LIMIT 1]. *)
Definition sql_user_by_email (email : string) : query (list UserRow) := fun n db =>
  inr (take 1 (select_where n (fun u => bool_decide (usr_email u = email)) (users db)), db).

Definition resolveDemoUser (email : string) : proc (option UserRow) :=
  getSql ;;!
  let! rows := sql (sql_user_by_email email) in
  match rows with
  | u :: _ => ret (Some u)
  | [] =>
      let! fallback := sql (sql_user_by_email "admin@demo.com") in
      ret (head fallback)
  end.

End setup.
