(* ===== verification/Router.v ===== *)
(** * The REST API ([dashboard/src/server/router.ts])

    [handleApi] dispatches on the method and the path; every branch of the
    source is a handler here, with its SQL statements as definitions of their
    own. The route handlers of [app/api] are at the end. *)

From Stdlib Require Import Ascii QArith Qcanon.
From S2P Require Import Prelude JsValue JsJson Database Proc Http Auth Worker Scheduler Setup.

Open Scope js_scope.
Local Open Scope Z_scope.

(** ** Paths *)

Definition not_slash (c : ascii) : bool := bool_decide (c ≠ "/"%char).

(** A character that [.] matches. *)
Definition not_newline (c : ascii) : bool := bool_decide (code c ≠ 10 ∧ code c ≠ 13).

(** [p.match(/^prefix\/([^/]+)(?:\/(.+))?$/)]: the two groups, the second
    one empty when it does not take part in the match. *)
Definition match_resource (prefix p : string) : option (string * string) :=
  match strip (to_chars (prefix +:+ "/")) (to_chars p) with
  | None => None
  | Some l =>
      let seg := take_while not_slash l in
      if decide (seg = []) then None
      else match drop_while not_slash l with
           | [] => Some (of_chars seg, "")
           | _ :: [] => None
           | _ :: sub => if forallb not_newline sub then Some (of_chars seg, of_chars sub) else None
           end
  end.

Definition js_page (items : list jsval) : jsval :=
  JObj [("items", JArr items); ("has_more", JBool false)].

Section router.
Context {W : World} {J : Jose}.

(** ** Tenancy *)

(** The joins [JOIN projects p ON p.id = q.project_id WHERE p.org_id = ...]
    and [JOIN queues q ON q.id = j.queue_id ...]. *)
Definition queue_in_org (db : DB) (org : string) (q : QueueRow) : bool :=
  match projects db !! q_project_id q with
  | Some p => bool_decide (prj_org_id p = org)
  | None => false
  end.

Definition job_in_org (db : DB) (org : string) (j : JobRow) : bool :=
  match queues db !! j_queue_id j with
  | Some q => queue_in_org db org q
  | None => false
  end.

(** A [uuid] parameter that is compared with a key: [NULL] matches nothing. *)
Definition uuid_arg (v : jsval) : thrown + option string := throw_pg (uuid_param v).

Definition eq_arg (o : option string) (k : string) : bool := bool_decide (o = Some k).

(** ** Statements *)

Definition user_to_js (u : UserRow) : jsval :=
  JObj [("id", JStr (usr_id u)); ("org_id", JStr (usr_org_id u));
        ("email", JStr (usr_email u)); ("name", JStr (usr_name u));
        ("role", JStr (usr_role u))].

Definition sql_list_projects (org : string) : query (list ProjectRow) := fun n db =>
  try! o := uuid_arg (JStr org) in
  inr (merge_sort (asc_by prj_created_at)
         (select_where n (fun p => eq_arg o (prj_org_id p)) (projects db)), db).

(** A text parameter for a [NOT NULL] column. *)
Definition text_required (col : string) (v : jsval) : thrown + string :=
  from_option_sum (PgError (NotNullViolation col)) (text_param v).

Definition uuid_required (col : string) (v : jsval) : thrown + string :=
  try! o := uuid_arg v in from_option_sum (PgError (NotNullViolation col)) o.

Definition int4_required (col : string) (v : jsval) : thrown + Z :=
  try! o := throw_pg (int4_param v) in from_option_sum (PgError (NotNullViolation col)) o.

Definition sql_insert_project (org : string) (name slug description : jsval) :
    query ProjectRow := fun n db =>
  try! o := uuid_required "org_id" (JStr org) in
  try! nm := text_required "name" name in
  try! sl := text_required "slug" slug in
  try! _ := require (negb (has_key (projects db) (pg_uuid n))) (UniqueViolation "projects_pkey") in
  try! _ := require (negb (some_row (fun p => bool_decide (prj_org_id p = o ∧ prj_slug p = sl))
                             (projects db)))
              (UniqueViolation "projects_org_id_slug_key") in
  try! _ := require (has_key (organizations db) o) (ForeignKeyViolation "projects_org_id_fkey") in
  let row := MkProject (pg_uuid n) o nm sl (text_param description) (pg_now n) (pg_now n) in
  inr (row, with_projects <[pg_uuid n := row]> db).

Definition sql_list_queues (org : string) : query (list QueueRow) := fun n db =>
  try! o := uuid_arg (JStr org) in
  inr (merge_sort (asc_by q_created_at)
         (select_where n (fun q => match o with Some o => queue_in_org db o q | None => false end)
            (queues db)), db).

Definition sql_find_project (id : jsval) (org : string) : query (list string) := fun n db =>
  try! i := uuid_arg id in
  try! o := uuid_arg (JStr org) in
  inr (take 1 (prj_id <$>
    select_where n (fun p => eq_arg i (prj_id p) && eq_arg o (prj_org_id p)) (projects db)), db).

Definition sql_insert_queue (project name slug priority limit : jsval) : query QueueRow :=
  fun n db =>
  try! pid := uuid_required "project_id" project in
  try! nm := text_required "name" name in
  try! sl := text_required "slug" slug in
  try! pr := int4_required "priority_default" priority in
  try! li := throw_pg (int4_param limit) in
  try! _ := require (negb (has_key (queues db) (pg_uuid n))) (UniqueViolation "queues_pkey") in
  try! _ := require (negb (some_row (fun q => bool_decide (q_project_id q = pid ∧ q_slug q = sl))
                             (queues db)))
              (UniqueViolation "queues_project_id_slug_key") in
  try! _ := require (has_key (projects db) pid) (ForeignKeyViolation "queues_project_id_fkey") in
  let row := MkQueue (pg_uuid n) pid nm sl None pr li false (pg_now n) (pg_now n) in
  inr (row, with_queues <[pg_uuid n := row]> db).

(** [WHERE q.id = ... AND p.org_id = ...] on queues. *)
Definition org_queue (db : DB) (i o : option string) (q : QueueRow) : bool :=
  eq_arg i (q_id q) && match o with Some o => queue_in_org db o q | None => false end.

Definition sql_select_queue (queueId org : string) : query (list QueueRow) := fun n db =>
  try! i := uuid_arg (JStr queueId) in
  try! o := uuid_arg (JStr org) in
  inr (select_where n (org_queue db i o) (queues db), db).

Definition set_paused (b : bool) (now : instant) (q : QueueRow) : QueueRow :=
  MkQueue (q_id q) (q_project_id q) (q_name q) (q_slug q) (q_retry_policy_id q)
          (q_priority_default q) (q_concurrency_limit q) b (q_created_at q) now.

Definition sql_set_paused (b : bool) (queueId org : string) : query unit := fun n db =>
  try! i := uuid_arg (JStr queueId) in
  try! o := uuid_arg (JStr org) in
  inr (tt, with_queues (update_where (org_queue db i o) (set_paused b (pg_now n))) db).

(** [COALESCE(param, column)] on each column of the update. *)
Definition set_queue (name : option string) (prio limit : option Z) (now : instant)
    (q : QueueRow) : QueueRow :=
  MkQueue (q_id q) (q_project_id q) (default (q_name q) name) (q_slug q)
          (q_retry_policy_id q) (default (q_priority_default q) prio)
          (match limit with Some l => Some l | None => q_concurrency_limit q end)
          (q_paused q) (q_created_at q) now.

Definition sql_update_queue (queueId org : string) (name prio limit : jsval) :
    query (list QueueRow) := fun n db =>
  try! i := uuid_arg (JStr queueId) in
  try! o := uuid_arg (JStr org) in
  try! pr := throw_pg (int4_param prio) in
  try! li := throw_pg (int4_param limit) in
  let f := set_queue (text_param name) pr li (pg_now n) in
  inr (updated_rows n (org_queue db i o) f (queues db),
       with_queues (update_where (org_queue db i o) f) db).

(** *** Queue statistics *)

Definition hour : Z := seconds 3600.

Definition sql_queue_depth (queueId : string) : query Z := fun n db =>
  try! i := uuid_arg (JStr queueId) in
  inr (Z.of_nat (count_where
    (fun j => eq_arg i (j_queue_id j) && bool_decide (j_status j = Queued)) (jobs db)), db).

Record StatsRow := MkStats {
  s_tp1h : Z; s_tp24h : Z; s_completed : Z; s_failed : Z; s_avg_ms : Qc }.

Definition finished_since (t : instant) (x : ExecRow) : bool :=
  match x_finished_at x with Some f => bool_decide (t ≤ f) | None => false end.

Definition exec_in_queue (db : DB) (i : option string) (x : ExecRow) : bool :=
  match jobs db !! x_job_id x with Some j => eq_arg i (j_queue_id j) | None => false end.

Definition exec_is (s : string) (x : ExecRow) : bool := bool_decide (x_status x = s).

(** [COALESCE(AVG(...), 0)]. *)
Definition average (l : list Z) : Qc :=
  match l with
  | [] => 0%Qc
  | _ => (Qc_of_Z (foldr Z.add 0%Z l) / Qc_of_Z (Z.of_nat (length l)))%Qc
  end.

Definition sql_queue_stats (queueId : string) : query StatsRow := fun n db =>
  try! i := uuid_arg (JStr queueId) in
  let rs := List.filter
    (fun x => exec_in_queue db i x && finished_since (pg_now n - 24 * hour) x)
    (rows (job_executions db)) in
  let count P := Z.of_nat (length (List.filter P rs)) in
  inr (MkStats
    (count (fun x => exec_is "completed" x && finished_since (pg_now n - hour) x))
    (count (fun x => exec_is "completed" x && finished_since (pg_now n - 24 * hour) x))
    (count (exec_is "completed")) (count (exec_is "failed"))
    (average (omap x_duration_ms (List.filter (exec_is "completed") rs))), db).

(** *** Jobs *)

Definition sql_job_by_key (queueId : string) (key : jsval) : query (list JobRow) := fun n db =>
  try! i := uuid_arg (JStr queueId) in
  inr (take 1 (select_where n (fun j => eq_arg i (j_queue_id j) &&
         match text_param key with
         | Some k => bool_decide (j_idempotency_key j = Some k)
         | None => false
         end) (jobs db)), db).

(** The [INSERT INTO jobs] of both branches; [delay] is the parameter that is
    added to [NOW()], absent in the branch without a delay. *)
Definition sql_insert_job (queueId : string) (priority payload key maxAttempts : jsval)
    (delay : option num) (cron : jsval) : query JobRow := fun n db =>
  try! qid := uuid_required "queue_id" (JStr queueId) in
  try! pr := int4_required "priority" priority in
  try! body := from_option_sum (PgError (NotNullViolation "payload")) (json_value payload) in
  try! ma := int4_required "max_attempts" maxAttempts in
  try! off := match delay with Some d => throw_pg (seconds_param d) | None => inr 0 end in
  try! _ := require (negb (has_key (jobs db) (pg_uuid n))) (UniqueViolation "jobs_pkey") in
  try! _ := require (match text_param key with
                     | Some k => negb (some_row (fun j =>
                         bool_decide (j_queue_id j = qid ∧ j_idempotency_key j = Some k)) (jobs db))
                     | None => true
                     end) (UniqueViolation "idx_jobs_idempotency") in
  try! _ := require (has_key (queues db) qid) (ForeignKeyViolation "jobs_queue_id_fkey") in
  let row := MkJob (pg_uuid n) qid Queued pr body (text_param key) (Some (pg_now n + off)) 0 ma
               None None None None None None None (text_param cron) None (pg_now n) (pg_now n) in
  inr (row, with_jobs <[pg_uuid n := row]> db).

Definition sql_list_jobs (org status : string) (queueId : option string) : query (list JobRow) :=
  fun n db =>
  try! o := uuid_arg (JStr org) in
  try! i := uuid_arg (js_opt JStr queueId) in
  inr (order_limit (desc_by j_created_at) 100 (select_where n (fun j =>
         match o with Some o => job_in_org db o j | None => false end &&
         (bool_decide (status = "") || bool_decide (job_status_text (j_status j) = status)) &&
         match i with None => true | Some i => bool_decide (j_queue_id j = i) end) (jobs db)), db).

Definition org_job (db : DB) (i o : option string) (j : JobRow) : bool :=
  eq_arg i (j_id j) && match o with Some o => job_in_org db o j | None => false end.

Definition sql_select_job (jobId org : string) : query (list JobRow) := fun n db =>
  try! i := uuid_arg (JStr jobId) in
  try! o := uuid_arg (JStr org) in
  inr (select_where n (org_job db i o) (jobs db), db).

(** Rows of a table that belongs to a job, joined up to the organization. *)
Definition owned_by_job (db : DB) (i o : option string) (job : string) : bool :=
  eq_arg i job && match jobs db !! job, o with
                  | Some j, Some o => job_in_org db o j
                  | _, _ => false
                  end.

Definition sql_job_executions (jobId org : string) : query (list ExecRow) := fun n db =>
  try! i := uuid_arg (JStr jobId) in
  try! o := uuid_arg (JStr org) in
  inr (merge_sort (asc_by x_attempt)
    (select_where n (fun x => owned_by_job db i o (x_job_id x)) (job_executions db)), db).

Definition sql_job_logs (jobId org : string) : query (list LogRow) := fun n db =>
  try! i := uuid_arg (JStr jobId) in
  try! o := uuid_arg (JStr org) in
  inr (merge_sort (asc_by l_created_at)
    (select_where n (fun x => owned_by_job db i o (l_job_id x)) (job_logs db)), db).

(** [DELETE FROM dead_letter_queue WHERE job_id = ...]. *)
Definition sql_delete_dlq (jobId : string) : query unit := fun n db =>
  try! i := uuid_arg (JStr jobId) in
  inr (tt, with_dlq (filter (fun kd => eq_arg i (d_job_id kd.2) = false)) db).

Definition set_retried (now : instant) : JobRow → JobRow :=
  job_assigns [SetStatus Queued; SetAttempts 0; SetNextRunAt (Some now); SetFailedAt None;
               SetErrorMessage None; SetWorkerId None; SetClaimedAt None;
               SetLeaseExpiresAt None; SetUpdatedAt now].

Definition sql_retry_job (jobId org : string) : query (list JobRow) := fun n db =>
  try! i := uuid_arg (JStr jobId) in
  try! o := uuid_arg (JStr org) in
  inr (updated_rows n (org_job db i o) (set_retried (pg_now n)) (jobs db),
       with_jobs (update_where (org_job db i o) (set_retried (pg_now n))) db).

(** *** Workers and the dead letter queue *)

Definition worker_load (db : DB) (w : WorkerRow) : Z :=
  Z.of_nat (count_where
    (fun j => bool_decide (j_worker_id j = Some (w_id w)) && in_flight j) (jobs db)).

Definition heartbeats_of (db : DB) (w : WorkerRow) : list HeartbeatRow :=
  List.filter (fun h => bool_decide (hb_worker_id h = w_id w)) (rows (worker_heartbeats db)).

Definition worker_to_js (db : DB) (last_seen : option instant) (w : WorkerRow) : jsval :=
  JObj [("id", JStr (w_id w)); ("name", JStr (w_name w));
        ("status", JStr (worker_status_text (w_status w)));
        ("last_seen_at", js_opt js_instant last_seen);
        ("created_at", js_instant (w_created_at w));
        ("updated_at", js_instant (w_updated_at w));
        ("jobs_in_flight", JInt (worker_load db w))].

(** [workers LEFT JOIN worker_heartbeats]: one row per heartbeat, or one with
    a [NULL] heartbeat. *)
Definition sql_list_workers : query (list jsval) := fun n db =>
  inr (ws ← merge_sort (desc_by w_created_at)
              (select_where n (fun _ => true) (workers db));
       match heartbeats_of db ws with
       | [] => [worker_to_js db None ws]
       | hs => (fun h => worker_to_js db (Some (hb_last_seen_at h)) ws) <$> hs
       end, db).

Definition dlq_to_js (db : DB) (d : DlqRow) : jsval :=
  JObj [("id", JStr (d_id d)); ("job_id", JStr (d_job_id d));
        ("original_queue_id", JStr (d_original_queue_id d));
        ("queue_name", js_opt (fun q => JStr (q_name q)) (queues db !! d_original_queue_id d));
        ("payload", d_payload d); ("failed_at", js_instant (d_failed_at d));
        ("reason", js_opt JStr (d_reason d)); ("attempts_made", JInt (d_attempts_made d));
        ("created_at", js_instant (d_created_at d))].

Definition dlq_in_org (db : DB) (org : string) (d : DlqRow) : bool :=
  match queues db !! d_original_queue_id d with
  | Some q => queue_in_org db org q
  | None => false
  end.

Definition sql_list_dlq (org : string) : query (list jsval) := fun n db =>
  try! o := uuid_arg (JStr org) in
  inr (dlq_to_js db <$>
    order_limit (desc_by d_failed_at) 100
      (select_where n (fun d => match o with Some o => dlq_in_org db o d | None => false end)
         (dead_letter_queue db)), db).

(** ** Handlers *)

Definition respond (data : jsval) (status : Z) : proc Response := lift (json data status).

Definition not_found : Response := error "not found" 404 "ERROR".
Definition no_content : Response := MkResponse 204 None.

Definition requireAuth (req : Request) : proc (option Claims) := claimsFromRequest req.

Definition body_of (req : Request) : proc jsval := lift (req_json req).
Definition get (v : jsval) (k : string) : proc jsval := lift (prop v k).

Definition login (req : Request) : proc Response :=
  let! body := body_of req in
  let! e := get body "email" in
  let! pw := get body "password" in
  let email := trim (js_to_string (js_or e (JStr ""))) in
  let password := js_to_string (js_or pw (JStr "")) in
  if bool_decide (email = "" ∨ password = "")
  then ret (error "email and password required" 422 "ERROR")
  else
    getSql ;;!
    let! user :=
      (if demoAuthEnabled then resolveDemoUser email
       else let! rows := sql (sql_user_by_email email) in ret (head rows)) in
    match user with
    | None => ret (error "invalid credentials" 401 "UNAUTHORIZED")
    | Some u =>
        let! token := signToken (MkClaims (usr_id u) (usr_org_id u) (usr_email u) (usr_role u)) in
        respond (JObj [("token", JStr token);
                       ("user", JObj [("id", JStr (usr_id u)); ("org_id", JStr (usr_org_id u));
                          ("email", JStr (usr_email u)); ("name", JStr (usr_name u));
                          ("role", JStr (usr_role u)); ("password_hash", JUndef)])]) 200
    end.

Definition list_projects (org : string) : proc Response :=
  let! rows := sql (sql_list_projects org) in
  respond (js_page (project_to_js <$> rows)) 200.

Definition create_project (req : Request) (org : string) : proc Response :=
  let! body := body_of req in
  let! name := get body "name" in
  let! slug := get body "slug" in
  let! description := get body "description" in
  let! row := sql (sql_insert_project org name slug (nullish description JNull)) in
  respond (project_to_js row) 201.

Definition list_queues (org : string) : proc Response :=
  let! rows := sql (sql_list_queues org) in
  respond (js_page ((fun q => mapQueue (queue_to_js q)) <$> rows)) 200.

Definition create_queue (req : Request) (org : string) : proc Response :=
  let! body := body_of req in
  let! project := get body "project_id" in
  let! proj := sql (sql_find_project project org) in
  match proj with
  | [] => ret (error "project not found" 404 "ERROR")
  | _ :: _ =>
      let! name := get body "name" in
      let! slug := get body "slug" in
      let! prio := get body "priority_default" in
      let! limit := get body "concurrency_limit" in
      let! row := sql (sql_insert_queue project name slug (nullish prio (JInt 5))
                         (nullish limit JNull)) in
      respond (mapQueue (queue_to_js row)) 201
  end.

(** [total ? completed / total : 1]. *)
Definition success_rate (completed failed : Z) : Qc :=
  let total := (completed + failed)%Z in
  if bool_decide (total = 0%Z) then 1%Qc else (Qc_of_Z completed / Qc_of_Z total)%Qc.

Definition queue_stats (queueId org : string) : proc Response :=
  let! depth := sql (sql_queue_depth queueId) in
  let! stats := sql (sql_queue_stats queueId) in
  let! qname := sql (sql_select_queue queueId org) in
  match qname with
  | [] => ret not_found
  | q :: _ =>
      respond (JObj
        [("queue_id", JStr queueId); ("queue_name", JStr (q_name q));
         ("depth", JInt depth); ("throughput_1h", JInt (s_tp1h stats));
         ("throughput_24h", JInt (s_tp24h stats));
         ("success_rate", JNum (Fin (success_rate (s_completed stats) (s_failed stats))));
         ("avg_latency_ms", JNum (Fin (s_avg_ms stats)));
         ("p95_latency_ms", JNum (Fin (s_avg_ms stats)))]) 200
  end.

Definition pause_queue (b : bool) (queueId org : string) : proc Response :=
  sql (sql_set_paused b queueId org) ;;! ret no_content.

Definition update_queue (req : Request) (queueId org : string) : proc Response :=
  let! body := body_of req in
  let! name := get body "name" in
  let! prio := get body "priority_default" in
  let! limit := get body "concurrency_limit" in
  let! row := sql (sql_update_queue queueId org (nullish name JNull) (nullish prio JNull)
                     (nullish limit JNull)) in
  match row with
  | [] => ret not_found
  | q :: _ => respond (mapQueue (queue_to_js q)) 200
  end.

(** [mapJob] in an async function: what it throws rejects the promise. *)
Definition map_job (j : JobRow) : proc jsval := lift (mapJob (job_to_js j)).

Definition insert_and_schedule (queueId : string) (body : jsval) (q : QueueRow)
    (delay : option num) : proc Response :=
  let f k := field body k in
  let! row := sql (sql_insert_job queueId
      (nullish (nullish (f "priority") (JInt (q_priority_default q))) (JInt 5))
      (f "payload") (nullish (f "idempotency_key") JNull)
      (nullish (f "max_attempts") (JInt 3)) delay (nullish (f "cron_expr") JNull)) in
  scheduleWorkerTick ;;!
  let! job := map_job row in
  respond job 201.

Definition enqueue_job (req : Request) (queueId org : string) : proc Response :=
  let! body := body_of req in
  let! qrows := sql (sql_select_queue queueId org) in
  match qrows with
  | [] => ret not_found
  | q :: _ =>
      let! key := get body "idempotency_key" in
      let! existing := (if truthy key then sql (sql_job_by_key queueId key) else ret []) in
      match existing with
      | j :: _ => let! job := map_job j in respond job 200
      | [] =>
          let delaySec := num_or (js_to_num (field body "delay_seconds")) (num_of_Z 0) in
          insert_and_schedule queueId body q
            (if num_ltb (num_of_Z 0) delaySec then Some delaySec else None)
      end
  end.

Definition worker_pulse : proc Response :=
  let! processed := runWorkerTickNow in
  respond (JObj [("ok", JBool true); ("processed", JInt (Z.of_nat processed));
                 ("worker", JStr WORKER_NAME)]) 200.

(** [url.searchParams.get(k)]. *)
Definition search_param (req : Request) (k : string) : option string :=
  snd <$> head (List.filter (fun kv => bool_decide (kv.1 = k)) (req_search req)).

Definition list_jobs (req : Request) (org : string) : proc Response :=
  scheduleWorkerTick ;;!
  let status := default "" (search_param req "status") in
  let! rows := sql (sql_list_jobs org status (search_param req "queue_id")) in
  let! items := lift (map_sum (fun j => mapJob (job_to_js j)) rows) in
  respond (js_page items) 200.

Definition job_executions_of (jobId org : string) : proc Response :=
  let! rows := sql (sql_job_executions jobId org) in
  respond (JArr (exec_to_js <$> rows)) 200.

Definition job_logs_of (jobId org : string) : proc Response :=
  let! rows := sql (sql_job_logs jobId org) in
  respond (JArr (log_to_js <$> rows)) 200.

Definition retry_job (jobId org : string) : proc Response :=
  sql (sql_delete_dlq jobId) ;;!
  let! row := sql (sql_retry_job jobId org) in
  match row with
  | [] => ret not_found
  | j :: _ =>
      scheduleWorkerTick ;;!
      let! job := map_job j in
      respond job 200
  end.

Definition get_job (jobId org : string) : proc Response :=
  let! rows := sql (sql_select_job jobId org) in
  match rows with
  | [] => ret not_found
  | j :: _ => let! job := map_job j in respond job 200
  end.

Definition list_workers : proc Response :=
  let! rows := sql sql_list_workers in
  respond (JArr rows) 200.

Definition list_dlq (org : string) : proc Response :=
  let! rows := sql (sql_list_dlq org) in
  respond (js_page rows) 200.

(** ** Dispatch *)

Definition method_is (m : string) (req : Request) : bool := bool_decide (req_method req = m).

(** The branches under [queueMatch]; [None] falls through. *)
Definition queue_routes (req : Request) (queueId sub org : string) : option (proc Response) :=
  if method_is "GET" req && bool_decide (sub = "stats") then Some (queue_stats queueId org)
  else if method_is "POST" req && bool_decide (sub = "pause") then Some (pause_queue true queueId org)
  else if method_is "POST" req && bool_decide (sub = "resume") then Some (pause_queue false queueId org)
  else if method_is "PUT" req && bool_decide (sub = "") then Some (update_queue req queueId org)
  else if method_is "POST" req && bool_decide (sub = "jobs") then Some (enqueue_job req queueId org)
  else None.

(** The branches under [jobMatch]. *)
Definition job_routes (req : Request) (jobId sub org : string) : option (proc Response) :=
  if method_is "GET" req && bool_decide (sub = "executions") then Some (job_executions_of jobId org)
  else if method_is "GET" req && bool_decide (sub = "logs") then Some (job_logs_of jobId org)
  else if method_is "POST" req && bool_decide (sub = "retry") then Some (retry_job jobId org)
  else if method_is "GET" req && bool_decide (sub = "") then Some (get_job jobId org)
  else None.

(** The routes behind authentication, in the order of the source: those
    after the [queueMatch] block, and all of them. *)
Definition late_routes (req : Request) (p org : string) : proc Response :=
  if method_is "GET" req && bool_decide (p = "worker/pulse") then worker_pulse
  else if method_is "GET" req && bool_decide (p = "jobs") then list_jobs req org
  else
    match ('(jobId, sub) ← match_resource "jobs" p; job_routes req jobId sub org) with
    | Some h => h
    | None =>
        if method_is "GET" req && bool_decide (p = "workers") then list_workers
        else if method_is "GET" req && bool_decide (p = "dlq") then list_dlq org
        else ret (error "not found" 404 "NOT_FOUND")
    end.

Definition routes (req : Request) (p org : string) : proc Response :=
  if method_is "GET" req && bool_decide (p = "projects") then list_projects org
  else if method_is "POST" req && bool_decide (p = "projects") then create_project req org
  else if method_is "GET" req && bool_decide (p = "queues") then list_queues org
  else if method_is "POST" req && bool_decide (p = "queues") then create_queue req org
  else
    match ('(queueId, sub) ← match_resource "queues" p; queue_routes req queueId sub org) with
    | Some h => h
    | None => late_routes req p org
    end.

(** The outer [catch] of [handleApi]. *)
Definition api_error (e : thrown) : Response :=
  let msg := error_message e "internal error" in
  if includes msg "DATABASE_URL" then error msg 503 "UNAVAILABLE"
  else error msg 500 "INTERNAL".

Definition handleApi (req : Request) (path : list string) : proc Response :=
  let p := join "/" path in
  catch
    (if method_is "POST" req && bool_decide (p = "auth/login") then login req
     else
       let! claims := requireAuth req in
       match claims with
       | None => ret unauthorized
       | Some c => getSql ;;! routes req p (c_org_id c)
       end)
    (fun e => ret (api_error e)).

(** ** Route handlers of [app/api] *)

(** [dispatch] of the catch-all route: a missing [path] is empty. *)
Definition dispatch (req : Request) (path : option (list string)) : proc Response :=
  handleApi req (default [] path).

(** [auth !== `Bearer ${secret}`]. *)
Definition bearer_is (req : Request) (secret : string) : bool :=
  bool_decide (req_authorization req = Some ("Bearer " +:+ secret)).

(** [GET /api/cron/worker]. *)
Definition cron_worker (req : Request) : proc Response :=
  let tick :=
    catch
      (let! processed := runWorkerTick in
       respond (JObj [("ok", JBool true); ("processed", JInt (Z.of_nat processed));
                      ("worker", JStr WORKER_NAME)]) 200)
      (fun e => ret (error (error_message e "worker tick failed") 500 "ERROR")) in
  match process_env "CRON_SECRET" with
  | Some "" | None => tick
  | Some s => if bearer_is req s then tick else ret (error "forbidden" 403 "FORBIDDEN")
  end.

(** [POST /api/setup]: the outcome, and the catalog it leaves. *)
Definition setup_post (req : Request) (fails : nat → option thrown) (c : catalog) :
    proc Response * catalog :=
  let go :=
    match ensureSchema fails c with
    | (inl e, c') => (ret (error (error_message e "setup failed") 500 "ERROR"), c')
    | (inr _, c') =>
        (catch
           (let! seed := seedDemo in
            respond (JObj ([("ok", JBool true); ("schema", JBool true)] ++ seed)) 200)
           (fun e => ret (error (error_message e "setup failed") 500 "ERROR")), c')
    end in
  match env_or "SETUP_SECRET" (process_env "CRON_SECRET") with
  | Some "" | None => go
  | Some s => if bearer_is req s then go else (ret (error "forbidden" 403 "FORBIDDEN"), c)
  end.

(** [GET /api/setup]. *)
Definition setup_get : thrown + Response :=
  json (JObj [("endpoint",
    JStr "POST /api/setup to initialize database and seed demo data")]) 200.

End router.
