(* ===== verification/Integrity.v ===== *)
(** * Integrity of the database

    [db_ok] is preserved by every SQL statement of the server; the lemmas of
    the first part are one per kind of table change, those of the second part
    one per statement. *)

From S2P Require Import Prelude JsValue JsJson Database Proc Http Auth Worker Scheduler Setup.
From S2P Require Import Router.

Open Scope js_scope.

(** ** Table changes *)

Lemma is_Some_insert {R} (m : gmap string R) k r x :
  is_Some (m !! x) → is_Some (<[k := r]> m !! x).
Proof. rewrite lookup_insert_is_Some'. auto. Qed.

Lemma is_Some_insert_eq {R} (m : gmap string R) k r : is_Some (<[k := r]> m !! k).
Proof. rewrite lookup_insert_eq. eauto. Qed.

Lemma is_Some_update_where {R} (m : gmap string R) P f x :
  is_Some (m !! x) → is_Some (update_where P f m !! x).
Proof. rewrite lookup_update_where. intros [r ->]. simpl. eauto. Qed.

Lemma has_key_true {R} (m : gmap string R) k : has_key m k = true ↔ is_Some (m !! k).
Proof. unfold has_key. destruct (m !! k); naive_solver. Qed.

Lemma has_key_false {R} (m : gmap string R) k : has_key m k = false ↔ m !! k = None.
Proof. unfold has_key. destruct (m !! k); naive_solver. Qed.

Lemma some_row_false {R} (P : R → bool) (m : gmap string R) :
  some_row P m = false ↔ ∀ k r, m !! k = Some r → P r = false.
Proof.
  unfold some_row. rewrite <- not_true_iff_false, existsb_exists. split.
  - intros H k r Hk. destruct (P r) eqn:E; [|done]. destruct H. exists r.
    split; [|done]. apply list_elem_of_In, elem_of_rows. eauto.
  - intros H (r & Hr & HP). apply list_elem_of_In, elem_of_rows in Hr as [k Hk].
    rewrite (H k r Hk) in HP. done.
Qed.

#[export] Hint Resolve is_Some_insert is_Some_insert_eq is_Some_update_where : sched.

(** Turn lookups in a changed table into lookups in the old one. *)
Ltac old_rows :=
  repeat match goal with
  | H : <[_ := _]> _ !! _ = Some _ |- _ =>
      apply lookup_insert_Some in H as [[? ?]|[? H]]
  | H : update_where _ _ _ !! _ = Some _ |- _ =>
      apply lookup_update_where_Some in H as (? & H & ?)
  | H : filter _ _ !! _ = Some _ |- _ =>
      apply map_lookup_filter_Some in H as [H _]
  end; simplify_eq/=.

Ltac db_ok_change :=
  match goal with H : db_ok ?db |- _ => destruct db; destruct H; simpl in * end;
  split; simpl in *; intros; old_rows; eauto with sched.

Lemma db_ok_insert_org db k r : db_ok db → db_ok (with_organizations <[k := r]> db).
Proof. intros. db_ok_change. Qed.

Lemma db_ok_insert_user db k r :
  db_ok db → is_Some (organizations db !! usr_org_id r) →
  db_ok (with_users <[k := r]> db).
Proof. intros. db_ok_change. Qed.

Lemma db_ok_insert_project db k r :
  db_ok db → prj_id r = k → is_Some (organizations db !! prj_org_id r) →
  db_ok (with_projects <[k := r]> db).
Proof. intros. db_ok_change. Qed.

Lemma db_ok_insert_queue db k r :
  db_ok db → q_id r = k → is_Some (projects db !! q_project_id r) →
  db_ok (with_queues <[k := r]> db).
Proof. intros. db_ok_change. Qed.

Lemma db_ok_insert_worker db k r :
  db_ok db → w_id r = k → db_ok (with_workers <[k := r]> db).
Proof. intros. db_ok_change. Qed.

Lemma db_ok_insert_heartbeat db k r :
  db_ok db → is_Some (workers db !! hb_worker_id r) →
  (∀ k' r', worker_heartbeats db !! k' = Some r' → hb_worker_id r' ≠ hb_worker_id r) →
  db_ok (with_heartbeats <[k := r]> db).
Proof. intros. db_ok_change; naive_solver. Qed.

Lemma db_ok_insert_job db k r :
  db_ok db → j_id r = k → is_Some (queues db !! j_queue_id r) → j_worker_id r = None →
  (∀ k' r' key, jobs db !! k' = Some r' → j_queue_id r' = j_queue_id r →
     j_idempotency_key r' = Some key → j_idempotency_key r ≠ Some key) →
  db_ok (with_jobs <[k := r]> db).
Proof. intros. db_ok_change; naive_solver. Qed.

Lemma db_ok_insert_exec db k r :
  db_ok db → x_id r = k → is_Some (jobs db !! x_job_id r) →
  db_ok (with_executions <[k := r]> db).
Proof. intros. db_ok_change. Qed.

Lemma db_ok_insert_log db k r :
  db_ok db → is_Some (jobs db !! l_job_id r) → db_ok (with_logs <[k := r]> db).
Proof. intros. db_ok_change. Qed.

Lemma db_ok_insert_dlq db k r :
  db_ok db → d_id r = k → is_Some (jobs db !! d_job_id r) →
  is_Some (queues db !! d_original_queue_id r) →
  (∀ k' r', dead_letter_queue db !! k' = Some r' → d_job_id r' ≠ d_job_id r) →
  db_ok (with_dlq <[k := r]> db).
Proof. intros. db_ok_change; naive_solver. Qed.

(** Updates that keep the key columns. *)
Definition keeps_job_keys (f : JobRow → JobRow) : Prop :=
  ∀ j, j_id (f j) = j_id j ∧ j_queue_id (f j) = j_queue_id j ∧
       j_idempotency_key (f j) = j_idempotency_key j.

Lemma job_assigns_keys l : keeps_job_keys (job_assigns l).
Proof.
  unfold job_assigns. induction l as [|a l IH] using rev_ind; intros j; [done|].
  rewrite foldl_app. simpl. destruct (IH j) as (<- & <- & <-).
  by destruct (foldl job_assign j l), a.
Qed.

Lemma db_ok_update_jobs db P f :
  db_ok db → keeps_job_keys f →
  (∀ j w, P j = true → j_worker_id (f j) = Some w →
     j_worker_id j = Some w ∨ is_Some (workers db !! w)) →
  db_ok (with_jobs (update_where P f) db).
Proof.
  intros Hok Hf Hw. db_ok_change.
  - destruct (P x); [|eauto]. destruct (Hf x) as (-> & _ & _). eauto.
  - destruct (P x); [|eauto]. destruct (Hf x) as (_ & -> & _). eauto.
  - destruct (P x) eqn:E; [|eauto].
    match goal with H : j_worker_id (f x) = Some _ |- _ => destruct (Hw _ _ E H) end; eauto.
  - assert (∀ j, j_queue_id (if P j then f j else j) = j_queue_id j ∧
                 j_idempotency_key (if P j then f j else j) = j_idempotency_key j) as Hk.
    { intros j. destruct (P j); [|done]. by destruct (Hf j) as (_ & ? & ?). }
    repeat match goal with
    | H : context [j_queue_id (if P ?j then _ else _)] |- _ => rewrite (proj1 (Hk j)) in H
    | H : j_idempotency_key (if P ?j then _ else _) = _ |- _ => rewrite (proj2 (Hk j)) in H
    end. eauto.
Qed.

Lemma db_ok_update_queues db P f :
  db_ok db → (∀ q, q_id (f q) = q_id q ∧ q_project_id (f q) = q_project_id q) →
  db_ok (with_queues (update_where P f) db).
Proof.
  intros Hok Hf. db_ok_change; destruct (P x); eauto; destruct (Hf x) as [E1 E2];
    rewrite ?E1, ?E2; eauto.
Qed.

Lemma db_ok_update_workers db P f :
  db_ok db → (∀ w, w_id (f w) = w_id w) → db_ok (with_workers (update_where P f) db).
Proof. intros Hok Hf. db_ok_change. destruct (P x); rewrite ?Hf; eauto. Qed.

Lemma db_ok_update_heartbeats db P f :
  db_ok db → (∀ h, hb_worker_id (f h) = hb_worker_id h) →
  db_ok (with_heartbeats (update_where P f) db).
Proof.
  intros Hok Hf. db_ok_change.
  - destruct (P x); rewrite ?Hf; eauto.
  - assert (∀ h, hb_worker_id (if P h then f h else h) = hb_worker_id h) as Hk
      by (intros h; by destruct (P h)). rewrite !Hk in *. eauto.
Qed.

Lemma db_ok_update_execs db P f :
  db_ok db → (∀ x, x_id (f x) = x_id x ∧ x_job_id (f x) = x_job_id x) →
  db_ok (with_executions (update_where P f) db).
Proof.
  intros Hok Hf. db_ok_change; destruct (P x); eauto; destruct (Hf x) as [E1 E2];
    rewrite ?E1, ?E2; eauto.
Qed.

Lemma db_ok_delete_dlq db (P : string * DlqRow → Prop) `{!∀ x, Decision (P x)} :
  db_ok db → db_ok (with_dlq (filter P) db).
Proof. intros. db_ok_change. Qed.

(** ** Statements *)

(** A statement that succeeds keeps the database intact. *)
Definition keeps_ok {X} (q : query X) : Prop :=
  ∀ n db x db', db_ok db → q n db = inr (x, db') → db_ok db'.

Lemma require_inr b e u : require b e = inr u ↔ b = true.
Proof. destruct b, u; naive_solver. Qed.

(** Split the checks of a statement off a successful run. *)
Ltac query_inv H :=
  repeat match type of H with
  | bind_sum _ _ = inr _ => apply bind_sum_inr in H as (? & ? & H)
  end;
  repeat match goal with
  | H : require _ _ = inr _ |- _ => apply require_inr in H
  | H : negb _ = true |- _ => apply negb_true_iff in H
  | H : has_key _ _ = true |- _ => apply has_key_true in H
  | H : has_key _ _ = false |- _ => apply has_key_false in H
  | H : some_row _ _ = false |- _ => rewrite some_row_false in H
  end.

Tactic Notation "keeps_start" reference(q) :=
  let n := fresh "n" in let db := fresh "db" in let x := fresh "x" in let db' := fresh "db'" in
  let Hok := fresh "Hok" in let H := fresh "H" in
  intros n db x db' Hok H; unfold q in H; query_inv H; simplify_eq.

(** Close a uniqueness side condition with the statement's own check. *)
Ltac no_such_row Hr :=
  match goal with H : ∀ k r, _ → bool_decide _ = false |- _ => specialize (H _ _ Hr) end;
  by case_bool_decide; naive_solver.

Section statements.
Context {W : World}.

(** Statements that only read. *)
Lemma keeps_ok_read {X} (q : query X) :
  (∀ n db x db', q n db = inr (x, db') → db' = db) → keeps_ok q.
Proof. intros Hq n db x db' Hok H. by rewrite (Hq _ _ _ _ H). Qed.

Lemma keeps_upsert_heartbeat id : keeps_ok (sql_upsert_heartbeat id).
Proof.
  keeps_start sql_upsert_heartbeat. case_match; query_inv H; simplify_eq.
  - by apply db_ok_update_heartbeats.
  - query_inv H. apply db_ok_insert_heartbeat; [done|done|].
    intros k' r' Hr ?. no_such_row Hr.
Qed.

Lemma keeps_insert_heartbeat id : keeps_ok (sql_insert_heartbeat id).
Proof.
  keeps_start sql_insert_heartbeat. apply db_ok_insert_heartbeat; [done|done|].
  intros k' r' Hr ?. no_such_row Hr.
Qed.

Lemma keeps_activate_worker id : keeps_ok (sql_activate_worker id).
Proof. keeps_start sql_activate_worker. by apply db_ok_update_workers. Qed.

Lemma keeps_insert_worker : keeps_ok sql_insert_worker.
Proof. keeps_start sql_insert_worker. by apply db_ok_insert_worker. Qed.

(** Updates of jobs that release the worker or leave it alone. *)
Lemma keeps_update_jobs db P l :
  db_ok db → (∀ j w, j_worker_id (job_assigns l j) = Some w → j_worker_id j = Some w) →
  db_ok (with_jobs (update_where P (job_assigns l)) db).
Proof.
  intros Hok Hw. apply db_ok_update_jobs; [done|apply job_assigns_keys|]. eauto.
Qed.

Lemma keeps_reap : keeps_ok sql_reap.
Proof. keeps_start sql_reap. apply keeps_update_jobs; [done|]. by intros []. Qed.

Lemma keeps_mark_running id a : keeps_ok (sql_mark_running id a).
Proof. keeps_start sql_mark_running. apply keeps_update_jobs; [done|]. by intros []. Qed.

Lemma keeps_insert_execution jid wid a : keeps_ok (sql_insert_execution jid wid a).
Proof. keeps_start sql_insert_execution. by apply db_ok_insert_exec. Qed.

Lemma keeps_insert_log jid l m : keeps_ok (sql_insert_log jid l m).
Proof. keeps_start sql_insert_log. by apply db_ok_insert_log. Qed.

Lemma keeps_complete id : keeps_ok (sql_complete id).
Proof. keeps_start sql_complete. apply keeps_update_jobs; [done|]. by intros []. Qed.

Lemma keeps_dead_letter id m : keeps_ok (sql_dead_letter id m).
Proof. keeps_start sql_dead_letter. apply keeps_update_jobs; [done|]. by intros []. Qed.

Lemma keeps_requeue id m : keeps_ok (sql_requeue id m).
Proof. keeps_start sql_requeue. apply keeps_update_jobs; [done|]. by intros []. Qed.

Lemma keeps_insert_dlq jid qid p r a : keeps_ok (sql_insert_dlq jid qid p r a).
Proof.
  keeps_start sql_insert_dlq. case_match; query_inv H; simplify_eq; [done|].
  query_inv H. apply db_ok_insert_dlq; [done..|].
  intros k' r' Hr ?. no_such_row Hr.
Qed.

Lemma keeps_finish_execution id s d e : keeps_ok (sql_finish_execution id s d e).
Proof. keeps_start sql_finish_execution. by apply db_ok_update_execs. Qed.

Lemma keeps_claim qid wid b : keeps_ok (sql_claim qid wid b).
Proof.
  keeps_start sql_claim. apply db_ok_update_jobs; [done|apply job_assigns_keys|].
  intros [] w HP Hw. simpl in *. simplify_eq. right.
  match goal with H : _ || _ = true |- _ => apply orb_true_iff in H as [Hs|Hk] end;
    [|by apply has_key_true].
  exfalso. unfold selected_by in HP. apply bool_decide_eq_true in Hs, HP.
  rewrite Hs in HP. set_solver.
Qed.

Lemma keeps_insert_org a b : keeps_ok (sql_insert_org a b).
Proof. keeps_start sql_insert_org. by apply db_ok_insert_org. Qed.

Lemma keeps_insert_user a b c d e : keeps_ok (sql_insert_user a b c d e).
Proof. keeps_start sql_insert_user. by apply db_ok_insert_user. Qed.

Lemma keeps_seed_project a b c d : keeps_ok (sql_seed_project a b c d).
Proof. keeps_start sql_seed_project. by apply db_ok_insert_project. Qed.

Lemma keeps_seed_queue a b c d : keeps_ok (sql_seed_queue a b c d).
Proof. keeps_start sql_seed_queue. by apply db_ok_insert_queue. Qed.

Lemma keeps_seed_job a b : keeps_ok (sql_seed_job a b).
Proof. keeps_start sql_seed_job. by apply db_ok_insert_job. Qed.

Lemma keeps_seed_worker : keeps_ok sql_seed_worker.
Proof. keeps_start sql_seed_worker. by apply db_ok_insert_worker. Qed.

Lemma keeps_insert_project a b c d : keeps_ok (sql_insert_project a b c d).
Proof. keeps_start sql_insert_project. by apply db_ok_insert_project. Qed.

Lemma keeps_insert_queue a b c d e : keeps_ok (sql_insert_queue a b c d e).
Proof. keeps_start sql_insert_queue. by apply db_ok_insert_queue. Qed.

Lemma keeps_set_paused b i o : keeps_ok (sql_set_paused b i o).
Proof. keeps_start sql_set_paused. by apply db_ok_update_queues. Qed.

Lemma keeps_update_queue a b c d e : keeps_ok (sql_update_queue a b c d e).
Proof. keeps_start sql_update_queue. by apply db_ok_update_queues. Qed.

Lemma keeps_insert_job a b c d e f g : keeps_ok (sql_insert_job a b c d e f g).
Proof.
  keeps_start sql_insert_job. apply db_ok_insert_job; [done..|].
  intros k' r' key Hr Hq Hk Hkey. simpl in *. rewrite Hkey in *.
  query_inv H. no_such_row Hr.
Qed.

Lemma keeps_delete_dlq i : keeps_ok (sql_delete_dlq i).
Proof. keeps_start sql_delete_dlq. by apply db_ok_delete_dlq. Qed.

Lemma keeps_retry_job i o : keeps_ok (sql_retry_job i o).
Proof. keeps_start sql_retry_job. apply keeps_update_jobs; [done|]. by intros []. Qed.

End statements.
