(* ===== verification/Statements.v ===== *)
(** * What the API asks of its statements

    [ApiStatements I org] is the interface between an invariant and the
    request handlers: one law per statement through which a handler of
    organization [org] changes the database. The handlers are proved to keep
    [I] against this interface; ownership and tenant isolation implement it. *)

From S2P Require Import Prelude JsValue JsJson Database Proc Hoare Http Auth Worker Scheduler.
From S2P Require Import Setup Router Integrity.

Open Scope js_scope.

Section solo.
Context {W : World}.

(** A statement that keeps [I], and a program that does so when it runs
    alone, connection failures included. *)
Definition keeps (I : DB → Prop) {X} (q : query X) : Prop :=
  ∀ n db x db', I db → q n db = inr (x, db') → I db'.

Definition solo (I : DB → Prop) {A} (p : proc A) : Prop :=
  triple (fun _ => I) p (fun _ _ => I) I.

Lemma solo_bind I {A B} (p : proc A) (k : A → proc B) :
  solo I p → (∀ a, solo I (k a)) → solo I (bind p k).
Proof. intros Hp Hk. by eapply triple_bind. Qed.

Lemma solo_catch I {A} (p : proc A) h :
  solo I p → (∀ e, solo I (h e)) → solo I (catch p h).
Proof.
  intros Hp Hh s Hs. rewrite run_catch. specialize (Hp s Hs).
  destruct (run p s) as [[e|a] s']; [|done]. by apply Hh.
Qed.

Lemma solo_sql I {X} (q : query X) : keeps I q → solo I (sql q).
Proof. intros Hq. apply triple_sql; [done|]. split; eauto. Qed.

Lemma solo_read I {X} (q : query X) :
  (∀ n db x db', q n db = inr (x, db') → db' = db) → solo I (sql q).
Proof. intros Hq. apply solo_sql. intros n db x db' HI H. by rewrite (Hq _ _ _ _ H). Qed.

Lemma solo_ret I {A} (a : A) : solo I (ret a).
Proof. by apply triple_ret. Qed.

Lemma solo_lift I {A} (r : thrown + A) : solo I (lift r).
Proof. intros s Hs. simpl. by destruct r. Qed.

Lemma solo_sync I {X} (f : nat → modvars → X * modvars) : solo I (sync f).
Proof. by apply triple_sync. Qed.

Lemma solo_sleep I ms : solo I (sleep ms).
Proof. intros s Hs. done. Qed.

(** The promise is not part of the run. *)
Lemma solo_fork I p : solo I (fork p).
Proof. intros s Hs. done. Qed.

Lemma solo_for_each I {A B} (f : B → A → proc B) l b :
  (∀ b a, a ∈ l → solo I (f b a)) → solo I (for_each f l b).
Proof.
  revert b. induction l as [|a l IH]; intros b Hf; simpl; [apply solo_ret|].
  apply solo_bind; [apply Hf; set_solver|]. intros b'. apply IH. set_solver.
Qed.

End solo.

Ltac solo_walk :=
  repeat (intros; cbv zeta; lazymatch goal with
    | |- solo _ (bind _ _) => apply solo_bind
    | |- solo _ (catch _ _) => apply solo_catch
    | |- solo _ (for_each _ _ _) => apply solo_for_each
    | |- solo _ (ret _) => apply solo_ret
    | |- solo _ (lift _) => apply solo_lift
    | |- solo _ (sync _) => apply solo_sync
    | |- solo _ (sleep _) => apply solo_sleep
    | |- solo _ (fork _) => apply solo_fork
    | |- solo _ (match _ with _ => _ end) => case_match
    | |- solo _ (sql _) =>
        first [assumption | solve [auto] | apply solo_sql; solve [eauto with statements]
              | apply solo_read; intros ? ? ? ? Hq; cbv delta [sql_user_by_email sql_list_projects
                  sql_list_queues sql_find_project sql_select_queue sql_queue_depth
                  sql_queue_stats sql_job_by_key sql_list_jobs sql_select_job
                  sql_job_executions sql_job_logs sql_list_workers sql_list_dlq
                  sql_find_worker sql_active_queues sql_budget] in Hq;
                cbv beta zeta in Hq; query_inv Hq; by simplify_eq]
    | |- _ => first [assumption | solve [auto]]
    end).

Create HintDb statements.

Class ApiStatements {W : World} (I : DB → Prop) (org : string) : Prop := {
  api_insert_project name slug descr : keeps I (sql_insert_project org name slug descr);
  api_insert_queue project name slug prio limit :
    keeps I (sql_insert_queue project name slug prio limit);
  api_set_paused b queue : keeps I (sql_set_paused b queue org);
  api_update_queue queue name prio limit : keeps I (sql_update_queue queue org name prio limit);
  api_insert_job queue prio payload key ma delay cron :
    keeps I (sql_insert_job queue prio payload key ma delay cron);
  api_delete_dlq job : keeps I (sql_delete_dlq job);
  api_retry_job job : keeps I (sql_retry_job job org);
}.

#[export] Hint Resolve api_insert_project api_insert_queue api_set_paused api_update_queue
  api_insert_job api_delete_dlq api_retry_job : statements.

Section handlers.
Context {W : World} {J : Jose} (I : DB → Prop).

Lemma solo_getSql : solo I getSql.
Proof. apply solo_lift. Qed.

Lemma solo_scheduleWorkerTick : solo I scheduleWorkerTick.
Proof. unfold scheduleWorkerTick. solo_walk. Qed.

Lemma solo_login req : solo I (login req).
Proof.
  pose proof solo_getSql.
  unfold login, resolveDemoUser, body_of, get, respond, signToken. solo_walk.
Qed.

Lemma solo_claimsFromRequest req : solo I (claimsFromRequest req).
Proof. unfold claimsFromRequest, verifyToken. solo_walk. Qed.

Context (org : string) `{!ApiStatements I org}.

Lemma solo_enqueue_job req i : solo I (enqueue_job req i org).
Proof.
  pose proof solo_scheduleWorkerTick.
  unfold enqueue_job, insert_and_schedule, body_of, get, respond, map_job. solo_walk.
Qed.

Lemma solo_retry_job i : solo I (retry_job i org).
Proof.
  pose proof solo_scheduleWorkerTick. unfold retry_job, respond, map_job. solo_walk.
Qed.

Lemma solo_queue_routes req i s h : queue_routes req i s org = Some h → solo I h.
Proof.
  unfold queue_routes. intros H. pose proof solo_enqueue_job.
  repeat case_match; simplify_eq; try done;
    unfold queue_stats, pause_queue, update_queue, body_of, get, respond; solo_walk.
Qed.

Lemma solo_job_routes req i s h : job_routes req i s org = Some h → solo I h.
Proof.
  unfold job_routes. intros H. pose proof solo_retry_job.
  repeat case_match; simplify_eq; try done;
    unfold job_executions_of, job_logs_of, get_job, respond, map_job; solo_walk.
Qed.

(** The pulse route runs a tick. *)
Lemma solo_late_routes req p :
  (p = "worker/pulse" → solo I runWorkerTick) → solo I (late_routes req p org).
Proof.
  intros Htick. unfold late_routes, worker_pulse, runWorkerTickNow, list_jobs, list_workers, list_dlq, respond.
  pose proof solo_scheduleWorkerTick.
  destruct (_ && bool_decide (p = "worker/pulse")) eqn:Ep.
  { apply andb_true_iff in Ep as [_ Ep%bool_decide_eq_true]. specialize (Htick Ep). solo_walk. }
  case_match; [solo_walk|].
  destruct (match_resource "jobs" p) as [[i s]|]; simpl; [|solo_walk].
  destruct (job_routes req i s org) eqn:E; [by eapply solo_job_routes|solo_walk].
Qed.

Lemma solo_routes req p :
  (p = "worker/pulse" → solo I runWorkerTick) → solo I (routes req p org).
Proof.
  intros Htick. unfold routes, list_projects, create_project, list_queues, create_queue, body_of, get, respond.
  do 4 (case_match; [solo_walk|]). pose proof (solo_late_routes req p Htick).
  destruct (match_resource "queues" p) as [[i s]|]; simpl; [|done].
  destruct (queue_routes req i s org) eqn:E; [by eapply solo_queue_routes|done].
Qed.

End handlers.
