(* ===== verification/Programs.v ===== *)
(** * The programs of the server

    [ServerStatements L] asks a law of every statement the server issues, with
    what the source knows of its arguments; every program of the server is
    proved to follow any such law. The integrity of the database and the
    lifecycle of jobs implement the interface. *)

From S2P Require Import Prelude JsValue JsJson Database Proc Hoare Http Auth Worker Scheduler.
From S2P Require Import Setup Router Integrity Statements.

Open Scope js_scope.
Local Open Scope Z_scope.

(** A statement that only reads. *)
Definition reads {X} (q : query X) : Prop := ∀ n db x db', q n db = inr (x, db') → db' = db.

Lemma keeps_reads I {X} (q : query X) : reads q → keeps I q.
Proof. intros Hq n db x db' HI H. by rewrite (Hq _ _ _ _ H). Qed.

Lemma preserves_keeps {W : World} I {X} (q : query X) : keeps I q → preserves I (sql q).
Proof. apply preserves_sql. Qed.

Class ServerStatements {W : World} (L : law) : Prop := {
  law_read X (q : query X) : reads q → obeys L (sql q);
  law_upsert_heartbeat (id : string) : obeys L (sql (sql_upsert_heartbeat id));
  law_insert_heartbeat (id : string) : obeys L (sql (sql_insert_heartbeat id));
  law_activate_worker (id : string) : obeys L (sql (sql_activate_worker id));
  law_insert_worker : obeys L (sql sql_insert_worker);
  law_insert_log (jobId level message : string) :
    obeys L (sql (sql_insert_log jobId level message));
  law_insert_org name slug : obeys L (sql (sql_insert_org name slug));
  law_insert_user org email name role hash :
    obeys L (sql (sql_insert_user org email name role hash));
  law_seed_project org name slug descr : obeys L (sql (sql_seed_project org name slug descr));
  law_seed_queue project name slug limit : obeys L (sql (sql_seed_queue project name slug limit));
  law_seed_job queue payload : obeys L (sql (sql_seed_job queue payload));
  law_seed_worker : obeys L (sql sql_seed_worker);
  law_insert_project org name slug descr : obeys L (sql (sql_insert_project org name slug descr));
  law_insert_queue project name slug prio limit :
    obeys L (sql (sql_insert_queue project name slug prio limit));
  law_set_paused b queue org : obeys L (sql (sql_set_paused b queue org));
  law_update_queue queue org name prio limit :
    obeys L (sql (sql_update_queue queue org name prio limit));
  law_reap : obeys L (sql sql_reap);
  law_complete (id : string) : obeys L (sql (sql_complete id));
  law_dead_letter (id m : string) : obeys L (sql (sql_dead_letter id m));
  law_requeue (id m : string) : obeys L (sql (sql_requeue id m));
  law_finish_execution (id st : string) ms err :
    obeys L (sql (sql_finish_execution id st ms err));
  law_insert_job queue prio payload key ma delay cron :
    obeys L (sql (sql_insert_job queue prio payload key ma delay cron));
  law_delete_dlq job : obeys L (sql (sql_delete_dlq job));
  law_retry_job job org : obeys L (sql (sql_retry_job job org));
  law_mark_running id a : 1 ≤ a → obeys L (sql (sql_mark_running id a));
  law_insert_execution job worker a : 1 ≤ a → obeys L (sql (sql_insert_execution job worker a));
  law_insert_dlq job queue payload reason a :
    1 ≤ a → obeys L (sql (sql_insert_dlq job queue payload reason a));
  law_claim queue worker b :
    follows L (Forall (fun j => 0 ≤ j_attempts j)) (sql (sql_claim queue worker b));
}.

#[export] Hint Resolve
  law_upsert_heartbeat law_insert_heartbeat law_activate_worker law_insert_worker
  law_insert_log law_insert_org law_insert_user law_seed_project law_seed_queue
  law_seed_job law_seed_worker law_insert_project law_insert_queue law_set_paused
  law_update_queue law_reap law_complete law_dead_letter law_requeue law_finish_execution
  law_insert_job law_delete_dlq law_retry_job law_mark_running law_insert_execution
  law_insert_dlq : preserves.

(** Show that a [SELECT] leaves the database as it is. *)
Ltac reads_tac :=
  lazymatch goal with |- reads ?q =>
    let c := lazymatch q with
      | ?f _ _ _ _ _ => f | ?f _ _ _ _ => f | ?f _ _ _ => f | ?f _ _ => f | ?f _ => f | ?f => f
      end in
    let H := fresh in intros ? ? ? ? H; unfold c in H; query_inv H; by simplify_eq
  end.

#[export] Hint Extern 5 (follows _ _ (sql _)) =>
  simple apply law_read; solve [reads_tac] : preserves.

Section programs.
Context {W : World} (L : law) `{!ServerStatements L}.

Lemma obeys_getSql : obeys L getSql.
Proof. unfold getSql. walk. Qed.
#[local] Hint Resolve obeys_getSql : preserves.

Lemma obeys_ensureWorker : obeys L ensureWorker.
Proof. unfold ensureWorker. walk. Qed.

Lemma obeys_perform p : obeys L (perform p).
Proof. unfold perform. walk. Qed.

Lemma obeys_record_failure job a p m : 1 ≤ a → obeys L (record_failure job a p m).
Proof. intros. unfold record_failure. walk. Qed.

Lemma obeys_executeJob job wid : 0 ≤ j_attempts job → obeys L (executeJob job wid).
Proof.
  intros Ha. unfold executeJob, date_now.
  apply preserves_bind; [walk|]. intros payload.
  apply preserves_bind; [apply law_mark_running; lia|]. intros _.
  apply preserves_bind; [apply law_insert_execution; lia|]. intros x.
  pose proof obeys_perform.
  assert (∀ m, obeys L (record_failure job (j_attempts job + 1) payload m)).
  { intros. apply obeys_record_failure. lia. }
  walk.
Qed.

Lemma obeys_process_queue wid n qid : obeys L (process_queue wid n qid).
Proof.
  unfold process_queue. apply preserves_bind; [walk|]. intros row.
  case_match; [walk|]. eapply safe_bind; [apply law_claim|]. intros claimed Hc. simpl.
  apply preserves_for_each. intros b j Hj.
  apply preserves_bind; [|walk]. apply obeys_executeJob.
  rewrite Forall_forall in Hc. by apply Hc.
Qed.

Lemma obeys_runWorkerTick : obeys L runWorkerTick.
Proof.
  unfold runWorkerTick, reaper. pose proof obeys_ensureWorker. pose proof obeys_process_queue. walk.
Qed.

Lemma obeys_scheduleWorkerTick : obeys L scheduleWorkerTick.
Proof.
  unfold scheduleWorkerTick, background_tick. pose proof obeys_runWorkerTick.
  apply preserves_bind; [walk|]. intros []; [|walk]. apply preserves_fork.
  eapply safe_then; [|intros; apply preserves_sync..]. walk.
Qed.

Lemma obeys_runWorkerTickNow : obeys L runWorkerTickNow.
Proof. unfold runWorkerTickNow. pose proof obeys_runWorkerTick. walk. Qed.

Lemma obeys_seedDemo : obeys L seedDemo.
Proof. unfold seedDemo, seed_queue. walk. Qed.

Lemma obeys_resolveDemoUser e : obeys L (resolveDemoUser e).
Proof. unfold resolveDemoUser. walk. Qed.

#[local] Hint Resolve obeys_runWorkerTick obeys_scheduleWorkerTick obeys_runWorkerTickNow
  obeys_seedDemo obeys_resolveDemoUser : preserves.

Context {J : Jose}.

Lemma obeys_claimsFromRequest req : obeys L (claimsFromRequest req).
Proof. unfold claimsFromRequest, verifyToken. walk. Qed.

Lemma obeys_login req : obeys L (login req).
Proof. unfold login, body_of, get, respond, signToken. walk. Qed.

Lemma obeys_enqueue_job req i o : obeys L (enqueue_job req i o).
Proof. unfold enqueue_job, insert_and_schedule, body_of, get, respond, map_job. walk. Qed.

Lemma obeys_queue_routes req i s o h :
  queue_routes req i s o = Some h → obeys L h.
Proof.
  unfold queue_routes. intros H. pose proof obeys_enqueue_job.
  repeat case_match; simplify_eq; try done;
    unfold queue_stats, pause_queue, update_queue, body_of, get, respond; walk.
Qed.

Lemma obeys_job_routes req i s o h :
  job_routes req i s o = Some h → obeys L h.
Proof.
  unfold job_routes. intros H. repeat case_match; simplify_eq; try done;
    unfold job_executions_of, job_logs_of, retry_job, get_job, respond, map_job; walk.
Qed.

Lemma obeys_late_routes req p o : obeys L (late_routes req p o).
Proof.
  unfold late_routes, worker_pulse, list_jobs, list_workers, list_dlq, respond.
  case_match; [walk|]. case_match; [walk|].
  destruct (match_resource "jobs" p) as [[i s]|]; simpl; [|walk].
  destruct (job_routes req i s o) eqn:E; [by eapply obeys_job_routes|walk].
Qed.

Lemma obeys_routes req p o : obeys L (routes req p o).
Proof.
  unfold routes, list_projects, create_project, list_queues, create_queue, body_of, get, respond.
  do 4 (case_match; [walk|]). pose proof obeys_late_routes.
  destruct (match_resource "queues" p) as [[i s]|]; simpl; [|done].
  destruct (queue_routes req i s o) eqn:E; [by eapply obeys_queue_routes|done].
Qed.

Lemma obeys_handleApi req path : obeys L (handleApi req path).
Proof.
  unfold handleApi, requireAuth. pose proof obeys_login. pose proof obeys_claimsFromRequest.
  pose proof obeys_routes. walk.
Qed.

Lemma obeys_cron_worker req : obeys L (cron_worker req).
Proof. unfold cron_worker, respond. walk. Qed.

Lemma obeys_setup_post req fails c : obeys L (setup_post req fails c).1.
Proof. unfold setup_post, respond. repeat case_match; simpl; walk. Qed.

(** ** The whole server *)

(** The programs a server process runs: one per request to the catch-all
    route, to the cron route or to the setup route. The ticks they start join
    the pool by themselves. *)
Inductive server_program : proc unit → Prop :=
| prog_api req path : server_program (dispatch req path ;;! ret tt)
| prog_cron req : server_program (cron_worker req ;;! ret tt)
| prog_setup req fails c : server_program ((setup_post req fails c).1 ;;! ret tt).

Lemma obeys_server_program p : server_program p → obeys L p.
Proof.
  intros [req path|req|req fails c]; (apply preserves_bind; [|walk]).
  - apply obeys_handleApi.
  - apply obeys_cron_worker.
  - apply obeys_setup_post.
Qed.

End programs.
