(* ===== verification/Invariant.v ===== *)
(** * Invariants of the running server

    [sys_ok] joins the integrity of the database with what the server's own
    statements maintain on job rows. It holds in every configuration that any
    interleaving of API requests, worker ticks, cron calls and setup calls can
    reach, with connection failures and crashes at any await. *)

From S2P Require Import Prelude JsValue JsJson Database Proc Hoare Http Auth Worker Scheduler.
From S2P Require Import Setup Router Integrity Statements Programs.

Open Scope js_scope.
Local Open Scope Z_scope.

(** What the statements maintain on a job row: attempts count up from zero,
    the statuses [scheduled] and [failed] are never written, a completed job
    has its completion time, a dead-lettered one its failure time and error. *)
Record row_ok (j : JobRow) : Prop := {
  row_attempts : 0 ≤ j_attempts j;
  row_status : j_status j ≠ Scheduled ∧ j_status j ≠ Failed;
  row_completed : j_status j = Completed → is_Some (j_completed_at j);
  row_dead : j_status j = DeadLetter → is_Some (j_failed_at j) ∧ is_Some (j_error_message j);
}.

Record sys_ok (db : DB) : Prop := {
  sys_db : db_ok db;
  sys_jobs : ∀ k j, jobs db !! k = Some j → row_ok j;
  sys_execs : ∀ k x, job_executions db !! k = Some x → 1 ≤ x_attempt x;
  sys_dlq : ∀ k d, dead_letter_queue db !! k = Some d → 1 ≤ d_attempts_made d;
}.

Lemma sys_ok_empty : sys_ok empty_db.
Proof. split; [split|..]; simpl; intros; by simplify_map_eq. Qed.

(** ** Job updates *)

Definition keeps_row (f : JobRow → JobRow) : Prop := ∀ j, row_ok j → row_ok (f j).

Ltac keeps_row_tac :=
  intros [] [? ? ? ?]; split; simpl in *; try done; try lia; eauto; naive_solver.

Lemma row_reaped now : keeps_row (reaped now).
Proof. keeps_row_tac. Qed.
Lemma row_running a now : 1 ≤ a → keeps_row (set_running a now).
Proof. intros Ha. keeps_row_tac. Qed.
Lemma row_set_completed now : keeps_row (set_completed now).
Proof. keeps_row_tac. Qed.
Lemma row_set_dead_letter m now : keeps_row (set_dead_letter m now).
Proof. keeps_row_tac. Qed.
Lemma row_requeued m now : keeps_row (set_requeued m now).
Proof. keeps_row_tac. Qed.
Lemma row_claimed w now : keeps_row (set_claimed w now).
Proof. keeps_row_tac. Qed.
Lemma row_retried now : keeps_row (set_retried now).
Proof. keeps_row_tac. Qed.

#[local] Hint Resolve row_reaped row_running row_set_completed row_set_dead_letter
  row_requeued row_claimed row_retried : sched.

(** ** Statements *)

Section invariant.
Context {W : World}.

(** The parts of the database that [sys_ok] adds to [db_ok]. *)
Definition same_rows (db db' : DB) : Prop :=
  jobs db' = jobs db ∧ job_executions db' = job_executions db ∧
  dead_letter_queue db' = dead_letter_queue db.

Lemma sys_ok_same db db' : sys_ok db → db_ok db' → same_rows db db' → sys_ok db'.
Proof. intros [] Hok (E1 & E2 & E3). split; rewrite ?E1, ?E2, ?E3; eauto. Qed.

(** A statement that leaves jobs, executions and dead letters alone. *)
Lemma inv_same {X} (q : query X) :
  keeps_ok q → (∀ n db x db', q n db = inr (x, db') → same_rows db db') →
  keeps sys_ok q.
Proof.
  intros Hq Hs. intros n db x db' Hok H.
  eapply sys_ok_same; eauto. eapply Hq; [|done]. apply Hok.
Qed.

(** A statement that updates job rows. *)
Lemma inv_jobs {X} (q : query X) (P : X → Prop) :
  keeps_ok q →
  (∀ n db x db', sys_ok db → q n db = inr (x, db') →
     P x ∧ ∃ p f, db' = with_jobs (update_where p f) db ∧ keeps_row f) →
  keeping sys_ok X q P.
Proof.
  intros Hq Hf. intros n db x db' Hok H.
  destruct (Hf _ _ _ _ Hok H) as (HP & p & f & Hdb & Hrow). split; [|done].
  pose proof (Hq _ _ _ _ (sys_db _ Hok) H) as Hok'. destruct Hok as [? Hj Hx Hd].
  subst db'. destruct db; split; simpl in *; eauto.
  intros k j Hk. apply lookup_update_where_Some in Hk as (r & Hr & ->).
  destruct (p r); eauto.
Qed.

Lemma inv_update {X} (q : query X) :
  keeps_ok q →
  (∀ n db x db', q n db = inr (x, db') →
     ∃ p f, db' = with_jobs (update_where p f) db ∧ keeps_row f) →
  keeps sys_ok q.
Proof.
  intros Hq Hf n db x db' Hok H. eapply (inv_jobs q (fun _ => True)); [done| |done..]. eauto.
Qed.

Tactic Notation "same_rows_tac" reference(q) :=
  intros n db x db' H; unfold q in H; repeat first [case_match | query_inv H];
  simplify_eq/=; by destruct db.

Tactic Notation "update_tac" reference(q) :=
  intros n db x db' H; unfold q in H; query_inv H; simplify_eq/=; eauto with sched.

Lemma inv_upsert_heartbeat id : keeps sys_ok (sql_upsert_heartbeat id).
Proof. apply inv_same; [apply keeps_upsert_heartbeat|]. same_rows_tac sql_upsert_heartbeat. Qed.
Lemma inv_insert_heartbeat id : keeps sys_ok (sql_insert_heartbeat id).
Proof. apply inv_same; [apply keeps_insert_heartbeat|]. same_rows_tac sql_insert_heartbeat. Qed.
Lemma inv_activate_worker id : keeps sys_ok (sql_activate_worker id).
Proof. apply inv_same; [apply keeps_activate_worker|]. same_rows_tac sql_activate_worker. Qed.
Lemma inv_insert_worker : keeps sys_ok sql_insert_worker.
Proof. apply inv_same; [apply keeps_insert_worker|]. same_rows_tac sql_insert_worker. Qed.
Lemma inv_insert_log a b c : keeps sys_ok (sql_insert_log a b c).
Proof. apply inv_same; [apply keeps_insert_log|]. same_rows_tac sql_insert_log. Qed.
Lemma inv_insert_org a b : keeps sys_ok (sql_insert_org a b).
Proof. apply inv_same; [apply keeps_insert_org|]. same_rows_tac sql_insert_org. Qed.
Lemma inv_insert_user a b c d e : keeps sys_ok (sql_insert_user a b c d e).
Proof. apply inv_same; [apply keeps_insert_user|]. same_rows_tac sql_insert_user. Qed.
Lemma inv_seed_project a b c d : keeps sys_ok (sql_seed_project a b c d).
Proof. apply inv_same; [apply keeps_seed_project|]. same_rows_tac sql_seed_project. Qed.
Lemma inv_seed_queue a b c d : keeps sys_ok (sql_seed_queue a b c d).
Proof. apply inv_same; [apply keeps_seed_queue|]. same_rows_tac sql_seed_queue. Qed.
Lemma inv_seed_worker : keeps sys_ok sql_seed_worker.
Proof. apply inv_same; [apply keeps_seed_worker|]. same_rows_tac sql_seed_worker. Qed.
Lemma inv_insert_project a b c d : keeps sys_ok (sql_insert_project a b c d).
Proof. apply inv_same; [apply keeps_insert_project|]. same_rows_tac sql_insert_project. Qed.
Lemma inv_insert_queue a b c d e : keeps sys_ok (sql_insert_queue a b c d e).
Proof. apply inv_same; [apply keeps_insert_queue|]. same_rows_tac sql_insert_queue. Qed.
Lemma inv_set_paused a b c : keeps sys_ok (sql_set_paused a b c).
Proof. apply inv_same; [apply keeps_set_paused|]. same_rows_tac sql_set_paused. Qed.
Lemma inv_update_queue a b c d e : keeps sys_ok (sql_update_queue a b c d e).
Proof. apply inv_same; [apply keeps_update_queue|]. same_rows_tac sql_update_queue. Qed.

Lemma inv_reap : keeps sys_ok sql_reap.
Proof. apply inv_update; [apply keeps_reap|]. update_tac sql_reap. Qed.
Lemma inv_mark_running id a : 1 ≤ a → keeps sys_ok (sql_mark_running id a).
Proof. intros Ha. apply inv_update; [apply keeps_mark_running|]. update_tac sql_mark_running. Qed.
Lemma inv_complete id : keeps sys_ok (sql_complete id).
Proof. apply inv_update; [apply keeps_complete|]. update_tac sql_complete. Qed.
Lemma inv_dead_letter id m : keeps sys_ok (sql_dead_letter id m).
Proof. apply inv_update; [apply keeps_dead_letter|]. update_tac sql_dead_letter. Qed.
Lemma inv_requeue id m : keeps sys_ok (sql_requeue id m).
Proof. apply inv_update; [apply keeps_requeue|]. update_tac sql_requeue. Qed.
Lemma inv_retry_job i o : keeps sys_ok (sql_retry_job i o).
Proof. apply inv_update; [apply keeps_retry_job|]. update_tac sql_retry_job. Qed.

(** Statements that add rows. *)
Lemma sys_ok_insert_job db k r :
  sys_ok db → db_ok (with_jobs <[k := r]> db) → row_ok r → sys_ok (with_jobs <[k := r]> db).
Proof.
  intros [? Hj Hx Hd] Hok Hr. destruct db; split; simpl in *; eauto.
  intros k' j Hk. old_rows; eauto.
Qed.

Lemma inv_seed_job a b : keeps sys_ok (sql_seed_job a b).
Proof.
  intros n db x db' Hok H.
  pose proof (keeps_seed_job _ _ _ _ _ _ (sys_db _ Hok) H) as Hok'.
  unfold sql_seed_job in H. query_inv H. simplify_eq.
  apply sys_ok_insert_job; [done..|]. split; simpl; done.
Qed.

Lemma inv_insert_job a b c d e f g : keeps sys_ok (sql_insert_job a b c d e f g).
Proof.
  intros n db x db' Hok H.
  pose proof (keeps_insert_job _ _ _ _ _ _ _ _ _ _ _ (sys_db _ Hok) H) as Hok'.
  unfold sql_insert_job in H. query_inv H. simplify_eq.
  apply sys_ok_insert_job; [done..|]. split; simpl; done.
Qed.

Lemma inv_insert_execution jid wid a :
  1 ≤ a → keeps sys_ok (sql_insert_execution jid wid a).
Proof.
  intros Ha. intros n db x db' Hok H.
  pose proof (keeps_insert_execution _ _ _ _ _ _ _ (sys_db _ Hok) H) as Hok'.
  unfold sql_insert_execution in H. query_inv H. simplify_eq.
  destruct Hok. destruct db; split; simpl in *; eauto. intros k y Hk. old_rows; eauto.
Qed.

Lemma inv_finish_execution id s d e : keeps sys_ok (sql_finish_execution id s d e).
Proof.
  intros n db x db' Hok H.
  pose proof (keeps_finish_execution _ _ _ _ _ _ _ _ (sys_db _ Hok) H) as Hok'.
  unfold sql_finish_execution in H. query_inv H. simplify_eq.
  destruct Hok. destruct db; split; simpl in *; eauto.
  intros k y Hk. old_rows. repeat case_match; simplify_eq/=; eauto.
Qed.

Lemma inv_insert_dlq jid qid p r a :
  1 ≤ a → keeps sys_ok (sql_insert_dlq jid qid p r a).
Proof.
  intros Ha. intros n db x db' Hok H.
  pose proof (keeps_insert_dlq _ _ _ _ _ _ _ _ _ (sys_db _ Hok) H) as Hok'.
  unfold sql_insert_dlq in H. query_inv H. case_match; query_inv H; simplify_eq; [done|].
  destruct Hok. destruct db; split; simpl in *; eauto. intros k y Hk. old_rows; eauto.
Qed.

Lemma inv_delete_dlq i : keeps sys_ok (sql_delete_dlq i).
Proof.
  intros n db x db' Hok H.
  pose proof (keeps_delete_dlq _ _ _ _ _ (sys_db _ Hok) H) as Hok'.
  unfold sql_delete_dlq in H. query_inv H. simplify_eq.
  destruct Hok. destruct db; split; simpl in *; eauto. intros k y Hk. old_rows; eauto.
Qed.

Context `{!WorldOk W}.

(** The rows a claim returns have attempted at least zero times. *)
Lemma inv_claim qid wid b :
  keeping sys_ok _ (sql_claim qid wid b) (Forall (fun j => 0 ≤ j_attempts j)).
Proof.
  apply inv_jobs; [apply keeps_claim|]. intros n db x db' Hok H.
  unfold sql_claim in H. query_inv H. simplify_eq. split; [|eauto with sched].
  apply Forall_forall. intros j Hj. apply elem_of_updated_rows in Hj as (k & r & Hr & _ & ->).
  apply (sys_jobs _ Hok) in Hr as [Ha _ _ _]. by destruct r.
Qed.

Lemma inv_reads {X} (q : query X) : reads q → keeps sys_ok q.
Proof. apply keeps_reads. Qed.

End invariant.

(** Every statement of the server keeps [sys_ok]. *)
Create HintDb sys.
#[export] Hint Resolve inv_upsert_heartbeat inv_insert_heartbeat inv_activate_worker
  inv_insert_worker inv_insert_log inv_insert_org inv_insert_user inv_seed_project
  inv_seed_queue inv_seed_worker inv_insert_project inv_insert_queue inv_set_paused
  inv_update_queue inv_reap inv_complete inv_dead_letter inv_requeue inv_retry_job
  inv_seed_job inv_insert_job inv_finish_execution inv_delete_dlq inv_mark_running
  inv_insert_execution inv_insert_dlq inv_reads : sys.

Section server.
Context {W : World} `{!WorldOk W} {J : Jose}.

#[export] Instance sys_statements : ServerStatements (keeping sys_ok).
Proof.
  split; intros; first [apply follows_sql, inv_claim | apply preserves_keeps; auto with sys].
Qed.


End server.

