(* ===== verification/Fixtures.v ===== *)
(** * A small database

    One organization with a project, two queues (one of them paused), a worker
    and a few jobs in different states. The theorems are applied to it at
    concrete inputs. *)

From S2P Require Import Prelude JsValue JsJson Database Proc Http Auth DemoWorld Worker Scheduler.
From S2P Require Import Setup Router Integrity Programs Invariant.

Local Open Scope Z_scope.

Definition demo_org : OrgRow := MkOrg "o1" "Demo Corp" "demo" demo_epoch demo_epoch.
Definition demo_user : UserRow :=
  MkUser "u1" "o1" "admin@demo.com" "Demo Admin" "admin" "demo" demo_epoch demo_epoch.
Definition demo_project : ProjectRow :=
  MkProject "p1" "o1" "Platform" "platform" None demo_epoch demo_epoch.
Definition demo_queue : QueueRow :=
  MkQueue "q1" "p1" "Emails" "emails" None 5 (Some 2) false demo_epoch demo_epoch.
Definition demo_paused : QueueRow :=
  MkQueue "q2" "p1" "Reports" "reports" None 5 None true demo_epoch demo_epoch.
Definition demo_worker : WorkerRow :=
  MkWorker "w1" WORKER_NAME WActive None demo_epoch demo_epoch.

Definition sleep_payload : jsval := JObj [("type", JStr "sleep"); ("duration_ms", JInt 200)].
Definition fail_payload : jsval := JObj [("type", JStr "always_fail"); ("message", JStr "boom")].

(** A queued job with a payload, a priority and a number of attempts made. *)
Definition demo_job (id queue : string) (prio attempts : Z) (payload : jsval) : JobRow :=
  MkJob id queue Queued prio payload None (Some demo_epoch) attempts 3 None None None None
        None None None None None demo_epoch demo_epoch.

Definition demo_j1 : JobRow := demo_job "j1" "q1" 5 0 sleep_payload.
(** On its last attempt. *)
Definition demo_j2 : JobRow := demo_job "j2" "q1" 9 2 fail_payload.
(** In the paused queue. *)
Definition demo_j3 : JobRow := demo_job "j3" "q2" 5 0 sleep_payload.
(** Left behind by a worker that died: its lease ends at the epoch. *)
Definition demo_j4 : JobRow :=
  job_assigns [SetStatus Running; SetWorkerId (Some "w1"); SetClaimedAt (Some (demo_epoch - seconds 30));
               SetLeaseExpiresAt (Some demo_epoch)] (demo_job "j4" "q1" 5 1 fail_payload).

(** Exhausted. *)
Definition demo_j5 : JobRow :=
  job_assigns [SetStatus DeadLetter; SetFailedAt (Some demo_epoch); SetErrorMessage (Some "boom")]
    (demo_job "j5" "q1" 5 3 fail_payload).
Definition demo_dlq : DlqRow :=
  MkDlq "d1" "j5" "q1" fail_payload demo_epoch (Some "boom") 3 demo_epoch.

Definition demo_db : DB := {|
  organizations := {["o1" := demo_org]};
  users := {["u1" := demo_user]};
  projects := {["p1" := demo_project]};
  queues := {["q1" := demo_queue; "q2" := demo_paused]};
  workers := {["w1" := demo_worker]};
  worker_heartbeats := ∅;
  jobs := {["j1" := demo_j1; "j2" := demo_j2; "j3" := demo_j3; "j4" := demo_j4; "j5" := demo_j5]};
  job_executions := ∅;
  job_logs := ∅;
  dead_letter_queue := {["d1" := demo_dlq]};
|}.

(** Invert lookups in the tables of the fixture. *)
Ltac fixture_rows :=
  repeat match goal with
  | H : <[_ := _]> _ !! _ = Some _ |- _ =>
      apply lookup_insert_Some in H as [[? ?]|[? H]]
  | H : {[_ := _]} !! _ = Some _ |- _ => apply lookup_singleton_Some in H as [? ?]
  | H : ∅ !! _ = Some _ |- _ => by rewrite lookup_empty in H
  end; subst.

Lemma demo_sys_ok : sys_ok demo_db.
Proof.
  split; [split|..]; unfold demo_db; simpl; intros; fixture_rows; simplify_eq/=;
    try done; try (by eexists); try (split; done).
Qed.

Lemma demo_ok : WorldOk demo.
Proof. by apply demo_world_ok. Qed.

(** A request with a method, a bearer token and a JSON body. *)
Definition demo_request (method : string) (auth : option string) (body : jsval) : Request :=
  MkRequest method auth [] (inr body).

(** The status of a run that answers. *)
Definition answered (out : (thrown + Response) * store) : option Z :=
  match out.1 with inr r => Some (res_status r) | inl _ => None end.

(** The session of the fixture's user, issued at step 0. *)
Definition demo_claims : Claims := MkClaims "u1" "o1" "admin@demo.com" "admin".
Definition demo_auth : option string :=
  Some ("Bearer " +:+ jwt_sign secret (claims_members demo_claims) (epoch 0) (epoch 0 + 86400)).

(** Two clients list the jobs while the cron route runs a tick, with the
    connection failing at step 7. *)
Definition flaky : World :=
  demo_world 1000000 (fun n => if decide (n = 7%nat) then Some (true, JsError "fetch failed") else None)
    demo_vars.

Definition busy_pool : pool :=
  [dispatch (W := flaky) (demo_request "GET" demo_auth JNull) (Some ["jobs"]) ;;! ret tt;
   cron_worker (W := flaky) (demo_request "GET" None JNull) ;;! ret tt]%js.

Definition busy_schedule : list nat := [0; 1; 0; 1; 2; 2; 1; 2; 1; 0; 1; 2; 1; 1]%nat.

