(* ===== verification/Claim.v ===== *)
(** * Claiming jobs

    The claim statement of worker.ts takes the first jobs of the queue in
    priority order, within the budget, and nothing else; the budget keeps the
    queue within its concurrency limit. *)

From S2P Require Import Prelude JsValue JsJson Database Proc Http Auth DemoWorld Worker Setup.
From S2P Require Import Integrity Invariant Fixtures.

Local Open Scope Z_scope.

#[export] Instance claim_order_total : Total claim_order.
Proof.
  intros a b. unfold claim_order, nulls_first_le.
  destruct (j_next_run_at a), (j_next_run_at b); lia.
Qed.

#[export] Instance claim_order_trans : Transitive claim_order.
Proof.
  intros a b c. unfold claim_order, nulls_first_le.
  destruct (j_next_run_at a), (j_next_run_at b), (j_next_run_at c); lia.
Qed.

Section claim.
Context {W : World} `{!WorldOk W}.

(** ** The selection *)

Definition candidates (n : nat) (qid : string) (db : DB) : list JobRow :=
  merge_sort claim_order (select_where n (claimable qid (pg_now n)) (jobs db)).

Lemma elem_of_candidates n qid db j :
  j ∈ candidates n qid db ↔
  claimable qid (pg_now n) j = true ∧ ∃ k, jobs db !! k = Some j.
Proof. unfold candidates. by rewrite merge_sort_Permutation, elem_of_select_where. Qed.

Lemma length_candidates n qid db :
  length (candidates n qid db) = count_where (claimable qid (pg_now n)) (jobs db).
Proof. unfold candidates, count_where. by rewrite merge_sort_Permutation, select_where_perm. Qed.

Lemma NoDup_jobs db : db_ok db → NoDup (rows (jobs db)).
Proof. intros Hok. apply (NoDup_rows j_id). apply Hok. Qed.

Lemma NoDup_candidates n qid db : db_ok db → NoDup (candidates n qid db).
Proof.
  intros Hok. unfold candidates. rewrite merge_sort_Permutation, select_where_perm.
  by apply NoDup_filter_bool, NoDup_jobs.
Qed.

Lemma selection_claimable n qid b db j :
  j ∈ claim_selection n qid b db →
  claimable qid (pg_now n) j = true ∧ ∃ k, jobs db !! k = Some j.
Proof. intros Hj. apply elem_of_candidates. by eapply elem_of_take in Hj as (? & ? & ?);
  eapply list_elem_of_lookup_2. Qed.

(** Rows of the database are told apart by their id, so the [IN] list of the
    update picks exactly the selected rows. *)
Lemma selected_by_selection n qid b db k j :
  db_ok db → jobs db !! k = Some j →
  selected_by (claim_selection n qid b db) j = true ↔ j ∈ claim_selection n qid b db.
Proof.
  intros Hok Hk. unfold selected_by. rewrite bool_decide_eq_true, list_elem_of_fmap. split.
  - intros (j' & Hid & Hj'). destruct (selection_claimable _ _ _ _ _ Hj') as (_ & k' & Hk').
    assert (k = k') as ->.
    { rewrite <- (ok_j_id _ Hok _ _ Hk), <- (ok_j_id _ Hok _ _ Hk'). done. }
    by simplify_eq.
  - eauto.
Qed.

(** ** The claim statement *)

Lemma claim_result n qid wid b db claimed db' :
  sql_claim qid wid b n db = inr (claimed, db') →
  claimed = updated_rows n (selected_by (claim_selection n qid b db))
              (set_claimed wid (pg_now n)) (jobs db) ∧
  db' = with_jobs (update_where (selected_by (claim_selection n qid b db))
              (set_claimed wid (pg_now n))) db.
Proof. unfold sql_claim. intros H. apply bind_sum_inr in H as (? & ? & H). by simplify_eq. Qed.

Lemma elem_of_claimed n qid wid b db claimed db' c :
  db_ok db → sql_claim qid wid b n db = inr (claimed, db') →
  c ∈ claimed ↔ ∃ j, j ∈ claim_selection n qid b db ∧ c = set_claimed wid (pg_now n) j.
Proof.
  intros Hok H. apply claim_result in H as [-> _]. rewrite elem_of_updated_rows. split.
  - intros (k & j & Hk & Hs & ->). exists j. split; [|done].
    by eapply selected_by_selection.
  - intros (j & Hj & ->). destruct (selection_claimable _ _ _ _ _ Hj) as (_ & k & Hk).
    exists k, j. split; [done|]. split; [|done]. by eapply selected_by_selection.
Qed.

Lemma length_claimed n qid wid b db claimed db' :
  db_ok db → sql_claim qid wid b n db = inr (claimed, db') →
  length claimed = (b `min` count_where (claimable qid (pg_now n)) (jobs db))%nat.
Proof.
  intros Hok H. apply claim_result in H as [-> _]. unfold updated_rows.
  rewrite length_fmap, select_where_perm, <- length_candidates.
  transitivity (length (claim_selection n qid b db)); [|apply length_take].
  apply Permutation_length, NoDup_Permutation.
  - by apply NoDup_filter_bool, NoDup_jobs.
  - pose proof (NoDup_candidates n qid db Hok) as Hnd.
    rewrite <- (take_drop b (candidates n qid db)) in Hnd. by apply NoDup_app in Hnd as [? _].
  - intros j. rewrite elem_of_filter_bool, elem_of_rows. split.
    + intros (Hs & k & Hk). by eapply selected_by_selection.
    + intros Hj. destruct (selection_claimable _ _ _ _ _ Hj) as (_ & k & Hk).
      split; [by eapply selected_by_selection|eauto].
Qed.

(** The claim, seen as a specification on the job table: at most [b] jobs,
    all due and queued in the queue, none of lower rank than a job left
    behind, and every other row untouched. *)
Record claim_spec (n : nat) (qid wid : string) (b : nat) (db db' : DB)
    (claimed : list JobRow) : Prop := {
  claim_len : length claimed =
    (b `min` count_where (claimable qid (pg_now n)) (jobs db))%nat;
  claim_due : ∀ c, c ∈ claimed → ∃ j, jobs db !! j_id c = Some j ∧
    claimable qid (pg_now n) j = true ∧ c = set_claimed wid (pg_now n) j;
  claim_first : ∀ c k j, c ∈ claimed → jobs db !! k = Some j →
    claimable qid (pg_now n) j = true → (∀ c', c' ∈ claimed → j_id c' ≠ k) → claim_order c j;
  claim_rows : ∀ c, c ∈ claimed → jobs db' !! j_id c = Some c;
  claim_frame : ∀ k, (∀ c, c ∈ claimed → j_id c ≠ k) → jobs db' !! k = jobs db !! k;
}.

Lemma set_claimed_keys wid now j :
  j_id (set_claimed wid now j) = j_id j ∧ j_priority (set_claimed wid now j) = j_priority j ∧
  j_next_run_at (set_claimed wid now j) = j_next_run_at j.
Proof. by destruct j. Qed.

Lemma jobs_with_jobs f db : jobs (with_jobs f db) = f (jobs db).
Proof. by destruct db. Qed.

(** A claimed row is the row of the table. *)
Lemma claimed_row n qid wid b db claimed db' c :
  db_ok db → sql_claim qid wid b n db = inr (claimed, db') → c ∈ claimed →
  jobs db' !! j_id c = Some c.
Proof.
  intros Hok H Hc. apply (elem_of_claimed _ _ _ _ _ _ _ c Hok H) in Hc as (j & Hj & ->).
  destruct (selection_claimable _ _ _ _ _ Hj) as (_ & k & Hk).
  destruct (set_claimed_keys wid (pg_now n) j) as (-> & _).
  apply claim_result in H as [_ ->].
  rewrite (ok_j_id _ Hok _ _ Hk), jobs_with_jobs, lookup_update_where, Hk.
  simpl. by rewrite (proj2 (selected_by_selection _ _ _ _ _ _ Hok Hk) Hj).
Qed.


(** ** The concurrency limit *)

Lemma set_claimed_in_flight wid now j :
  in_flight (set_claimed wid now j) = true ∧
  j_queue_id (set_claimed wid now j) = j_queue_id j.
Proof. by destruct j. Qed.

Lemma in_flight_after_claim n qid wid b db claimed db' :
  db_ok db → sql_claim qid wid b n db = inr (claimed, db') →
  in_flight_count qid db' = in_flight_count qid db + Z.of_nat (length claimed).
Proof.
  intros Hok H. pose proof (claim_result _ _ _ _ _ _ _ H) as [Hcl ->].
  set (sel := claim_selection n qid b db) in *. unfold in_flight_count.
  rewrite jobs_with_jobs, count_update_where. subst claimed.
  unfold updated_rows, count_where. rewrite length_fmap, select_where_perm, <- Nat2Z.inj_add.
  f_equal. rewrite <- length_filter_or.
  - f_equal. apply filter_bool_ext. intros j Hj. apply elem_of_rows in Hj as [k Hk].
    destruct (selected_by sel j) eqn:Hs; [|by rewrite orb_false_r].
    apply (selected_by_selection _ _ _ _ _ _ Hok Hk), selection_claimable in Hs as [Hc _].
    unfold claimable in Hc. apply andb_true_iff in Hc as [Hc _].
    apply andb_true_iff in Hc as [Hq _]. unfold in_queue in *.
    destruct (set_claimed_in_flight wid (pg_now n) j) as [-> ->]. by rewrite Hq, orb_true_r.
  - intros j Hj Hf. apply elem_of_rows in Hj as [k Hk].
    destruct (selected_by sel j) eqn:Hs; [|done].
    apply (selected_by_selection _ _ _ _ _ _ Hok Hk), selection_claimable in Hs as [Hc _].
    unfold claimable, in_flight in *. destruct (j_status j) eqn:Hst;
      repeat (apply andb_true_iff in Hc as [Hc ?] || apply andb_true_iff in Hf as [Hf ?]);
      repeat case_bool_decide; naive_solver.
Qed.

End claim.

