(* ===== verification/Execution.v ===== *)
(** * Executing a job

    What [executeJob] of worker.ts does to the database on every branch,
    when the connection does not fail: the job row, the execution record, the
    log lines and the dead letter row. *)

From S2P Require Import Prelude JsValue JsJson Database Proc Http Auth DemoWorld Worker Scheduler.
From S2P Require Import Setup Router Integrity Invariant Fixtures Claim.

Open Scope js_scope.
Local Open Scope Z_scope.

Section execution.
Context {W : World} `{!WorldOk W}.

(** ** The outcome of a payload *)

(** What the [try] block computes from a payload, as a function. *)
Definition outcome_of (payload : jsval) : bool * string :=
  match prop payload "type" with
  | inl e => (false, error_message e "execution error")
  | inr ty =>
      if is_str ty "sleep" then (true, "")
      else if is_str ty "always_fail"
      then (false, js_to_string (js_or (field payload "message") (JStr "simulated failure")))
      else (true, "")
  end.

Lemma prop_again v k1 k2 w : prop v k1 = inr w → prop v k2 = inr (field v k2).
Proof. by destruct v. Qed.

(** The [try] block always yields an outcome, touching neither the database
    nor the module variables. *)
Lemma run_perform payload s :
  ∃ n, (st_step s ≤ n ≤ S (st_step s))%nat ∧
  run (perform payload) s =
    (inr (outcome_of payload), MkStore (st_db s) (st_vars s) n (st_bg s)).
Proof.
  unfold perform, outcome_of. rewrite run_catch, run_bind.
  destruct (prop payload "type") as [e|ty] eqn:E; simpl.
  - exists (st_step s). split; [lia|by destruct s].
  - destruct (is_str ty "sleep").
    + rewrite (prop_again _ _ "duration_ms" _ E). rewrite run_bind. simpl.
      eexists. split; [|done]. lia.
    + destruct (is_str ty "always_fail").
      * rewrite (prop_again _ _ "message" _ E). simpl. exists (st_step s). split; [lia|by destruct s].
      * simpl. exists (st_step s). split; [lia|by destruct s].
Qed.

(** ** What the statements need *)

Definition no_faults_at_all : Prop := ∀ n, fault_at n = None.

(** Ids generated from step [n] on are not in use yet. *)
Definition fresh_from (n : nat) (db : DB) : Prop := ∀ m, (n ≤ m)%nat →
  workers db !! pg_uuid m = None ∧ worker_heartbeats db !! pg_uuid m = None ∧
  job_executions db !! pg_uuid m = None ∧ job_logs db !! pg_uuid m = None ∧
  dead_letter_queue db !! pg_uuid m = None.

(** [Date.now()] does not go back, and less than an [INT] of milliseconds
    (24 days) passes while a job runs. *)
Definition clock_ok : Prop :=
  ∀ n m, (n ≤ m ≤ n + 2)%nat → 0 ≤ js_now m - js_now n ≤ int4_max.

(** ** The result of an execution *)

(** The final row of a job: [t] is the time of the last update. *)
Definition final_row (job : JobRow) (payload : jsval) (t1 t : instant) (cur : JobRow) : JobRow :=
  let a := j_attempts job + 1 in
  let running := set_running a t1 cur in
  let '(success, errMsg) := outcome_of payload in
  if success : bool then set_completed t running
  else if bool_decide (j_max_attempts job ≤ a) then set_dead_letter errMsg t running
  else set_requeued errMsg t running.

Definition dead_lettered (job : JobRow) (payload : jsval) : bool :=
  negb (outcome_of payload).1 && bool_decide (j_max_attempts job ≤ j_attempts job + 1).

(** The execution record [executeJob] leaves. *)
Definition final_exec (job : JobRow) (wid : string) (payload : jsval) (xid : string)
    (t0 t : instant) (ms : Z) : ExecRow :=
  let '(success, errMsg) := outcome_of payload in
  MkExec xid (j_id job) (Some wid) (j_attempts job + 1)
    (if success : bool then "completed" else "failed") t0 (Some t)
    (if success : bool then None else Some errMsg) (Some ms) t0 t0.

(** The dead letter row of an exhausted job. *)
Definition dlq_row (job : JobRow) (payload body : jsval) (k : string) (t : instant) : DlqRow :=
  MkDlq k (j_id job) (j_queue_id job) body t (Some (outcome_of payload).2)
        (j_attempts job + 1) t.

(** What an execution from step [n] to step [n'] leaves: [cur] is the job row
    it finds, [body] the stored form of the payload. *)
Record execution_spec (n n' : nat) (job : JobRow) (wid : string) (payload body : jsval)
    (cur : JobRow) (db db' : DB) : Prop := {
  exec_job : ∃ m, (n ≤ m ≤ n')%nat ∧
    jobs db' !! j_id job = Some (final_row job payload (pg_now n) (pg_now m) cur);
  exec_frame : ∀ k, k ≠ j_id job → jobs db' !! k = jobs db !! k;
  exec_record : ∃ xid t0 t ms, job_executions db !! xid = None ∧ 0 ≤ ms ∧
    job_executions db' = <[xid := final_exec job wid payload xid t0 t ms]> (job_executions db);
  exec_logs : ∃ l1 l2 t1 t2, job_logs db !! l1 = None ∧ job_logs db !! l2 = None ∧ l1 ≠ l2 ∧
    job_logs db' =
      <[l2 := MkLog l2 (j_id job) (if (outcome_of payload).1 then "info" else "error")
                (if (outcome_of payload).1 then "Job completed" else (outcome_of payload).2)
                None t2]>
      (<[l1 := MkLog l1 (j_id job) "info" "Job started" None t1]> (job_logs db));
  exec_dlq : if dead_lettered job payload &&
      negb (some_row (fun d => bool_decide (d_job_id d = j_id job)) (dead_letter_queue db))
    then ∃ k t, dead_letter_queue db !! k = None ∧
      dead_letter_queue db' = <[k := dlq_row job payload body k t]> (dead_letter_queue db)
    else dead_letter_queue db' = dead_letter_queue db;
  exec_tables : organizations db' = organizations db ∧ users db' = users db ∧
    projects db' = projects db ∧ queues db' = queues db ∧ workers db' = workers db ∧
    worker_heartbeats db' = worker_heartbeats db;
}.

(** ** The statements in turn *)

(** One statement of a run without connection failures. *)
Lemma run_stmt {X B} (q : query X) (k : X → proc B) db v n bg x db' :
  no_faults_at_all → q n db = inr (x, db') →
  run (bind (sql q) k) (MkStore db v n bg) = run (k x) (MkStore db' v (S n) bg).
Proof. intros Hf Hq. by apply run_sql_ok; [apply Hf|]. Qed.

(** A statement that throws. *)
Lemma run_stmt_throws {X B} (q : query X) (k : X → proc B) db v n bg e :
  no_faults_at_all → q n db = inl e →
  run (bind (sql q) k) (MkStore db v n bg) = (inl e, MkStore db v (S n) bg).
Proof.
  intros Hf Hq. rewrite run_bind, run_sql. unfold exec_query. cbn [st_step st_db st_vars st_bg].
  by rewrite (Hf n), Hq.
Qed.

Lemma run_last {X} (q : query X) db v n bg x db' :
  no_faults_at_all → q n db = inr (x, db') →
  run (sql q) (MkStore db v n bg) = (inr x, MkStore db' v (S n) bg).
Proof. intros Hf Hq. rewrite run_sql. unfold exec_query. simpl. by rewrite Hf, Hq. Qed.

Lemma has_key_Some {R} (m : gmap string R) k r : m !! k = Some r → has_key m k = true.
Proof. unfold has_key. by intros ->. Qed.
Lemma has_key_None {R} (m : gmap string R) k : m !! k = None → has_key m k = false.
Proof. unfold has_key. by intros ->. Qed.

Lemma jobs_by_id f db id k :
  db_ok db →
  jobs (with_jobs (update_where (by_id id) f) db) !! k =
  if decide (k = id) then f <$> jobs db !! k else jobs db !! k.
Proof.
  intros Hok. rewrite jobs_with_jobs, lookup_update_where.
  destruct (jobs db !! k) as [j|] eqn:Hk; simpl; [|by case_decide].
  unfold by_id. rewrite (ok_j_id _ Hok _ _ Hk). by do 2 case_decide.
Qed.

(** Everything [executeJob] does before the [try] block. *)
Definition started_exec (job : JobRow) (wid : string) (n : nat) : ExecRow :=
  MkExec (pg_uuid (S n)) (j_id job) (Some wid) (j_attempts job + 1) "running" (pg_now (S n))
         None None None (pg_now (S n)) (pg_now (S n)).

Definition started_log (job : JobRow) (n : nat) : LogRow :=
  MkLog (pg_uuid (S (S n))) (j_id job) "info" "Job started" None (pg_now (S (S n))).

Definition after_start (job : JobRow) (wid : string) (n : nat) (db : DB) : DB :=
  with_logs <[pg_uuid (S (S n)) := started_log job n]>
    (with_executions <[pg_uuid (S n) := started_exec job wid n]>
      (with_jobs (update_where (by_id (j_id job))
                    (set_running (j_attempts job + 1) (pg_now n))) db)).

(** The rest of [executeJob], from the outcome of the [try] block. *)
Definition finish_job (job : JobRow) (payload : jsval) (exec : string)
    (out : bool * string) (duration : Z) : proc unit :=
  let '(success, errMsg) := out in
  if success : bool then
    sql (sql_complete (j_id job)) ;;!
    sql (sql_finish_execution exec "completed" duration None) ;;!
    sql (sql_insert_log (j_id job) "info" "Job completed")
  else
    record_failure job (j_attempts job + 1) payload errMsg ;;!
    sql (sql_finish_execution exec "failed" duration (Some errMsg)) ;;!
    sql (sql_insert_log (j_id job) "error" errMsg).

(** What the execution of [job] by worker [wid] needs to get through. *)
Record can_execute (job : JobRow) (wid : string) (payload body cur : _) (n : nat) (db : DB) :
    Prop := {
  ce_payload : parse_payload (j_payload job) = inr payload;
  ce_body : json_value payload = Some body;
  ce_attempt : int4_min ≤ j_attempts job + 1 ≤ int4_max;
  ce_job : jobs db !! j_id job = Some cur;
  ce_queue : is_Some (queues db !! j_queue_id job);
  ce_worker : is_Some (workers db !! wid);
  ce_fresh : fresh_from n db;
  ce_ok : db_ok db;
}.

Lemma int4_ok_true z : int4_min ≤ z ≤ int4_max → int4_ok z = true.
Proof. intros. unfold int4_ok. by rewrite bool_decide_eq_true. Qed.

Lemma run_start job wid payload body cur v n bg db :
  no_faults_at_all → can_execute job wid payload body cur n db →
  ∃ m, (n + 4 ≤ m ≤ n + 5)%nat ∧
  run (executeJob job wid) (MkStore db v n bg) =
  run (finish_job job payload (pg_uuid (S n)) (outcome_of payload)
         (js_now m - js_now (S (S (S n)))))
      (MkStore (after_start job wid n db) v (S m) bg).
Proof.
  intros Hf [Hp Hb Ha Hj Hq [w Hw] Hfr Hok]. unfold executeJob. rewrite Hp, run_lift_bind.
  apply int4_ok_true in Ha. erewrite run_stmt; [cbv beta|done|unfold sql_mark_running; rewrite Ha; done].
  destruct (Hfr (S n) ltac:(lia)) as (_ & _ & Hx & _).
  destruct (Hfr (S (S n)) ltac:(lia)) as (_ & _ & _ & Hl & _).
  destruct db as [o u p q ws h j x l d]; simpl in Hj, Hq, Hw, Hx, Hl.
  assert (is_Some (update_where (by_id (j_id job))
    (set_running (j_attempts job + 1) (pg_now n)) j !! j_id job)) as [cur' Hj'].
  { apply is_Some_update_where. eauto. }
  erewrite run_stmt; [cbv beta|done|].
  2:{ unfold sql_insert_execution. simpl. rewrite Ha, (has_key_None _ _ Hx),
        (has_key_Some _ _ _ Hj'), (has_key_Some _ _ _ Hw). done. }
  erewrite run_stmt; [cbv beta|done|].
  2:{ unfold sql_insert_log. simpl. rewrite (has_key_None _ _ Hl), (has_key_Some _ _ _ Hj'). done. }
  unfold date_now at 1. rewrite run_sync_bind. cbv beta iota. rewrite run_bind.
  edestruct (run_perform payload) as (m & Hm & ->). simpl in Hm.
  exists m. split; [lia|]. destruct (outcome_of payload) as [[] e]; cbv beta iota;
    unfold date_now; by rewrite run_sync_bind.
Qed.

(** What the tail of [executeJob] leaves of a database: the final update of
    the job row, the execution record and the log line. *)
Definition after_finish (job : JobRow) (exec status level msg : string) (duration : Z)
    (err : option string) (f : JobRow → JobRow) (k : nat) (db : DB) : DB :=
  with_logs <[pg_uuid (S k) := MkLog (pg_uuid (S k)) (j_id job) level msg None (pg_now (S k))]>
    (with_executions (update_where (fun x => bool_decide (x_id x = exec))
        (set_finished status duration err (pg_now k)))
      (with_jobs (update_where (by_id (j_id job)) f) db)).

Lemma run_record job exec status level msg duration err f v k bg db :
  no_faults_at_all → int4_min ≤ duration ≤ int4_max → is_Some (jobs db !! j_id job) →
  fresh_from k db →
  run (sql (sql_finish_execution exec status duration err) ;;!
       sql (sql_insert_log (j_id job) level msg))
      (MkStore (with_jobs (update_where (by_id (j_id job)) f) db) v k bg) =
  (inr tt, MkStore (after_finish job exec status level msg duration err f k db) v (S (S k)) bg).
Proof.
  intros Hf Hd [cur Hj] Hfr. destruct (Hfr (S k) ltac:(lia)) as (_ & _ & _ & Hl & _).
  apply int4_ok_true in Hd.
  erewrite run_stmt; [cbv beta|done|unfold sql_finish_execution; rewrite Hd; done].
  destruct db as [o u p q ws h j x l d]; simpl in Hj, Hl.
  assert (is_Some (update_where (by_id (j_id job)) f j !! j_id job)) as [cur' Hj'].
  { apply is_Some_update_where. eauto. }
  erewrite run_last; [|done|].
  2:{ unfold sql_insert_log. simpl. rewrite (has_key_None _ _ Hl), (has_key_Some _ _ _ Hj'). done. }
  done.
Qed.

(** The dead letter table after the insert with [ON CONFLICT DO NOTHING]. *)
Definition after_dlq (job : JobRow) (payload body : jsval) (k : nat) (db : DB) : DB :=
  if some_row (fun d => bool_decide (d_job_id d = j_id job)) (dead_letter_queue db) then db
  else with_dlq <[pg_uuid k := dlq_row job payload body (pg_uuid k) (pg_now k)]> db.

Lemma insert_dlq_ok job wid payload body cur n db k :
  can_execute job wid payload body cur n db → (n ≤ k)%nat →
  sql_insert_dlq (j_id job) (j_queue_id job) payload (outcome_of payload).2 (j_attempts job + 1)
    k db = inr (tt, after_dlq job payload body k db).
Proof.
  intros [_ Hb Ha Hj [q Hq] _ Hfr _] Hk. unfold sql_insert_dlq, after_dlq.
  rewrite Hb, (int4_ok_true _ Ha). simpl. case_match; [done|].
  destruct (Hfr k Hk) as (_ & _ & _ & _ & Hd).
  rewrite (has_key_None _ _ Hd), (has_key_Some _ _ _ Hj), (has_key_Some _ _ _ Hq). done.
Qed.

(** The database and the step at the end of [finish_job]. *)
Definition finished (job : JobRow) (payload body : jsval) (exec : string) (duration : Z)
    (k : nat) (db : DB) : nat * DB :=
  let '(success, e) := outcome_of payload in
  if success : bool then
    (k + 3, after_finish job exec "completed" "info" "Job completed" duration None
              (set_completed (pg_now k)) (S k) db)%nat
  else if bool_decide (j_max_attempts job ≤ j_attempts job + 1) then
    (k + 4, after_finish job exec "failed" "error" e duration (Some e)
              (set_dead_letter e (pg_now k)) (S (S k)) (after_dlq job payload body (S k) db))%nat
  else
    (k + 3, after_finish job exec "failed" "error" e duration (Some e)
              (set_requeued e (pg_now k)) (S k) db)%nat.

Lemma fresh_from_le n m db : fresh_from n db → (n ≤ m)%nat → fresh_from m db.
Proof. intros H Hnm k Hk. apply H. lia. Qed.

Lemma can_execute_update job wid payload body cur n db f k :
  can_execute job wid payload body cur n db → keeps_job_keys f →
  (∀ j, j_worker_id (f j) = j_worker_id j ∨ j_worker_id (f j) = None) → (n ≤ k)%nat →
  can_execute job wid payload body (f cur) k
    (with_jobs (update_where (by_id (j_id job)) f) db).
Proof.
  intros [] Hf Hw Hk. split; try done.
  - rewrite jobs_by_id, decide_True, ce_job0 by done. done.
  - by destruct db.
  - by destruct db.
  - destruct db. eapply (fresh_from_le n); [done|lia].
  - apply db_ok_update_jobs; [done..|]. intros j w _ H. destruct (Hw j); [left|]; congruence.
Qed.

Lemma after_dlq_jobs job payload body k f db :
  after_dlq job payload body k (with_jobs f db) = with_jobs f (after_dlq job payload body k db).
Proof. destruct db. unfold after_dlq. simpl. by case_match. Qed.

Lemma fresh_with_jobs n f db : fresh_from n db → fresh_from n (with_jobs f db).
Proof. by destruct db. Qed.

Lemma fresh_after_dlq n k job payload body db :
  fresh_from n db → (k < n)%nat → fresh_from n (after_dlq job payload body k db).
Proof.
  intros H Hk m Hm. unfold after_dlq. case_match; [by apply H|].
  destruct (H m Hm) as (? & ? & ? & ? & ?). destruct db; simpl in *. split_and!; try done.
  rewrite lookup_insert_ne; [done|]. intros E. apply pg_uuid_inj in E. lia.
Qed.

Lemma jobs_after_dlq job payload body k db :
  jobs (after_dlq job payload body k db) = jobs db.
Proof. unfold after_dlq. case_match; by destruct db. Qed.

Lemma run_finish job wid payload body cur exec duration v k bg db :
  no_faults_at_all → can_execute job wid payload body cur k db →
  int4_min ≤ duration ≤ int4_max →
  run (finish_job job payload exec (outcome_of payload) duration) (MkStore db v k bg) =
  let '(k', db') := finished job payload body exec duration k db in
  (inr tt, MkStore db' v k' bg).
Proof.
  intros Hf Hc Hd. pose proof Hc as [_ _ _ Hj _ _ Hfr _].
  assert (is_Some (jobs db !! j_id job)) as Hj' by eauto.
  unfold finished, finish_job, record_failure.
  pose proof (insert_dlq_ok job wid payload body) as Hdlq.
  destruct (outcome_of payload) as [[] e] eqn:Eo; simpl in Hdlq.
  - erewrite run_stmt; [cbv beta|done|done]. rewrite run_record; try done.
    + do 2 f_equal. lia.
    + eapply fresh_from_le; [done|lia].
  - destruct (bool_decide _) eqn:Em.
    + rewrite run_bind. erewrite run_stmt; [cbv beta|done|done].
      erewrite run_last; [|done|].
      2:{ eapply Hdlq; [eapply can_execute_update; [done| | |]|].
          - apply job_assigns_keys.
          - intros []. simpl. auto.
          - reflexivity.
          - lia. }
      rewrite after_dlq_jobs, run_record; try done.
      * do 2 f_equal. lia.
      * by rewrite jobs_after_dlq.
      * apply fresh_after_dlq; [|lia]. eapply fresh_from_le; [done|lia].
    + rewrite run_bind. erewrite run_last; [cbv beta|done|done]. rewrite run_record; try done.
      * do 2 f_equal. lia.
      * eapply fresh_from_le; [done|lia].
Qed.

Lemma fresh_insert_exec n k r db :
  fresh_from n db → (k < n)%nat → fresh_from n (with_executions <[pg_uuid k := r]> db).
Proof.
  intros H Hk m Hm. destruct (H m Hm) as (? & ? & ? & ? & ?). destruct db; simpl in *.
  split_and!; try done. rewrite lookup_insert_ne; [done|]. intros E. apply pg_uuid_inj in E. lia.
Qed.

Lemma fresh_insert_log n k r db :
  fresh_from n db → (k < n)%nat → fresh_from n (with_logs <[pg_uuid k := r]> db).
Proof.
  intros H Hk m Hm. destruct (H m Hm) as (? & ? & ? & ? & ?). destruct db; simpl in *.
  split_and!; try done. rewrite lookup_insert_ne; [done|]. intros E. apply pg_uuid_inj in E. lia.
Qed.

Lemma fresh_update_exec n P f db :
  fresh_from n db → fresh_from n (with_executions (update_where P f) db).
Proof.
  intros H m Hm. destruct (H m Hm) as (? & ? & Hx & ? & ?). destruct db; simpl in *.
  split_and!; try done. by rewrite lookup_update_where, Hx.
Qed.

Lemma can_execute_start job wid payload body cur n m db :
  can_execute job wid payload body cur n db → (n + 3 ≤ m)%nat →
  can_execute job wid payload body (set_running (j_attempts job + 1) (pg_now n) cur) m
    (after_start job wid n db).
Proof.
  intros Hc Hm. unfold after_start.
  apply (can_execute_update _ _ _ _ _ _ _ (set_running (j_attempts job + 1) (pg_now n)) n) in Hc;
    [|apply job_assigns_keys|intros []; simpl; auto|done].
  set (db1 := with_jobs _ db) in *. clearbody db1. destruct Hc.
  split; try done; try by destruct db1.
  - apply fresh_insert_log; [|lia]. apply fresh_insert_exec; [|lia].
    eapply fresh_from_le; [done|lia].
  - apply db_ok_insert_log; [apply db_ok_insert_exec; simpl; eauto|].
    destruct db1; simpl in *; eauto.
Qed.

Lemma executions_with_executions f db : job_executions (with_executions f db) = f (job_executions db).
Proof. by destruct db. Qed.

(** The execution record: inserted as running, then closed. *)
Lemma final_exec_record job wid payload n status t ms err x :
  x !! pg_uuid (S n) = None → (∀ k r, x !! k = Some r → x_id r = k) →
  set_finished status ms err t (started_exec job wid n) =
    final_exec job wid payload (pg_uuid (S n)) (pg_now (S n)) t ms →
  update_where (fun y => bool_decide (x_id y = pg_uuid (S n))) (set_finished status ms err t)
    (<[pg_uuid (S n) := started_exec job wid n]> x) =
  <[pg_uuid (S n) := final_exec job wid payload (pg_uuid (S n)) (pg_now (S n)) t ms]> x.
Proof.
  intros Hx Hid E. unfold update_where. rewrite fmap_insert. simpl.
  rewrite bool_decide_true by done. rewrite E. f_equal.
  apply update_where_none. intros k r Hk. apply bool_decide_eq_false.
  rewrite (Hid _ _ Hk). congruence.
Qed.

(** Either way of ending an execution meets the specification. *)
Lemma finish_spec n t n' k job wid payload body cur db dl status level msg ms err f :
  can_execute job wid payload body cur n db → (n ≤ t ≤ n')%nat → (n + 2 < S k)%nat → 0 ≤ ms →
  f (set_running (j_attempts job + 1) (pg_now n) cur) =
    final_row job payload (pg_now n) (pg_now t) cur →
  set_finished status ms err (pg_now k) (started_exec job wid n) =
    final_exec job wid payload (pg_uuid (S n)) (pg_now (S n)) (pg_now k) ms →
  level = (if (outcome_of payload).1 then "info" else "error") →
  msg = (if (outcome_of payload).1 then "Job completed" else (outcome_of payload).2) →
  (if dead_lettered job payload &&
      negb (some_row (fun d => bool_decide (d_job_id d = j_id job)) (dead_letter_queue db))
    then ∃ i t, dead_letter_queue db !! i = None ∧
      dl (dead_letter_queue db) = <[i := dlq_row job payload body i t]> (dead_letter_queue db)
    else dl (dead_letter_queue db) = dead_letter_queue db) →
  execution_spec n n' job wid payload body cur db
    (after_finish job (pg_uuid (S n)) status level msg ms err f k
       (with_dlq dl (after_start job wid n db))).
Proof.
  intros [_ _ _ Hj _ _ Hfr Hok] Ht Hk Hms Hf Hx -> -> Hd.
  destruct (Hfr (S n) ltac:(lia)) as (_ & _ & Hx1 & _).
  destruct (Hfr (S (S n)) ltac:(lia)) as (_ & _ & _ & Hl1 & _).
  destruct (Hfr (S k) ltac:(lia)) as (_ & _ & _ & Hl2 & _).
  pose proof (ok_x_id _ Hok) as Hxid. pose proof (ok_j_id _ Hok) as Hjid.
  destruct db as [o u p q ws h j x l d]; unfold after_finish, after_start; simpl in *.
  split; simpl.
  - exists t. split; [done|]. pose proof (Hjid _ _ Hj) as Hcur.
    rewrite !lookup_update_where, Hj. simpl. unfold by_id.
    rewrite (bool_decide_true (j_id cur = j_id job)) by done.
    rewrite bool_decide_true; [by rewrite Hf|]. by destruct cur.
  - intros i Hi. rewrite !lookup_update_where. destruct (j !! i) as [r|] eqn:E; simpl; [|done].
    unfold by_id. rewrite (bool_decide_false (j_id r = j_id job)) by (by rewrite (Hjid _ _ E)).
    rewrite bool_decide_false; [done|]. by rewrite (Hjid _ _ E).
  - exists (pg_uuid (S n)), (pg_now (S n)), (pg_now k), ms. split; [done|]. split; [done|].
    by apply final_exec_record.
  - exists (pg_uuid (S (S n))), (pg_uuid (S k)), (pg_now (S (S n))), (pg_now (S k)).
    split_and!; try done. intros E. apply pg_uuid_inj in E. lia.
  - done.
  - done.
Qed.

Lemma with_dlq_id db : with_dlq id db = db.
Proof. by destruct db. Qed.

Lemma after_dlq_with job payload body k db :
  after_dlq job payload body k db =
  with_dlq (fun d => if some_row (fun r => bool_decide (d_job_id r = j_id job)) d then d
                     else <[pg_uuid k := dlq_row job payload body (pg_uuid k) (pg_now k)]> d) db.
Proof. unfold after_dlq. destruct db. simpl. by case_match. Qed.

Lemma dlq_after_start job wid n db :
  dead_letter_queue (after_start job wid n db) = dead_letter_queue db.
Proof. by destruct db. Qed.

Lemma finished_spec job wid payload body cur n m db ms :
  can_execute job wid payload body cur n db → (n + 4 ≤ m)%nat → 0 ≤ ms →
  let f := finished job payload body (pg_uuid (S n)) ms (S m) (after_start job wid n db) in
  execution_spec n f.1 job wid payload body cur db f.2.
Proof.
  intros Hc Hm Hms. cbv zeta. unfold finished.
  destruct (outcome_of payload) as [[] e] eqn:Eo;
    [|destruct (bool_decide (j_max_attempts job ≤ j_attempts job + 1)) eqn:Em]; simpl.
  - rewrite <- (with_dlq_id (after_start _ _ _ _)). apply (finish_spec n (S m)); try done; try lia.
    1-4: unfold final_row, final_exec; by rewrite Eo.
    unfold dead_lettered. by rewrite Eo.
  - rewrite after_dlq_with. apply (finish_spec n (S m)); try done; try lia.
    1-4: unfold final_row, final_exec; cbv zeta; rewrite ?Eo; cbv beta iota; rewrite ?Em; done.
    unfold dead_lettered. rewrite Eo, Em. simpl. destruct (some_row _ _); simpl; [done|].
    eexists _, _. split; [|done]. pose proof Hc as [_ _ _ _ _ _ Hfr _].
    destruct (Hfr (S (S m)) ltac:(lia)) as (_ & _ & _ & _ & ?). done.
  - rewrite <- (with_dlq_id (after_start _ _ _ _)). apply (finish_spec n (S m)); try done; try lia.
    1-4: unfold final_row, final_exec; cbv zeta; rewrite ?Eo; cbv beta iota; rewrite ?Em; done.
    unfold dead_lettered. by rewrite Eo, Em.
Qed.

Lemma fresh_after_finish job exec status level msg ms err f k db n :
  fresh_from n db → (S k < n)%nat →
  fresh_from n (after_finish job exec status level msg ms err f k db).
Proof.
  intros H Hk. unfold after_finish. apply fresh_insert_log; [|lia].
  by apply fresh_update_exec, fresh_with_jobs.
Qed.

Lemma fresh_finished job payload body exec ms k db :
  fresh_from k db →
  fresh_from (finished job payload body exec ms k db).1
             (finished job payload body exec ms k db).2.
Proof.
  intros H. unfold finished.
  destruct (outcome_of payload) as [[] e]; [|destruct (bool_decide _)]; simpl;
    apply fresh_after_finish; try lia; try (apply fresh_after_dlq; [|lia]);
    eapply fresh_from_le; (done || lia).
Qed.

Lemma finished_step job payload body exec ms k db :
  (k ≤ (finished job payload body exec ms k db).1)%nat.
Proof.
  unfold finished. destruct (outcome_of payload) as [[] e]; [|destruct (bool_decide _)]; simpl; lia.
Qed.

(** [executeJob] returns, leaves what the specification says, and the ids of
    later steps are still unused. *)
Lemma executeJob_run job wid payload body cur v n bg db :
  no_faults_at_all → clock_ok → can_execute job wid payload body cur n db →
  ∃ n' db', run (executeJob job wid) (MkStore db v n bg) = (inr tt, MkStore db' v n' bg) ∧
    (n ≤ n')%nat ∧ fresh_from n' db' ∧ execution_spec n n' job wid payload body cur db db'.
Proof.
  intros Hf Hclk Hc. destruct (run_start _ _ _ _ _ v _ bg _ Hf Hc) as (m & Hm & ->).
  pose proof (Hclk (S (S (S n))) m ltac:(lia)) as Hms.
  pose proof (can_execute_start _ _ _ _ _ _ (S m) _ Hc ltac:(lia)) as Hc'.
  rewrite (run_finish _ _ _ _ _ _ _ _ _ _ _ Hf Hc') by (unfold int4_min, int4_max in *; lia).
  set (ms := js_now m - js_now (S (S (S n)))) in *.
  pose proof (finished_spec _ _ _ _ _ _ m _ ms Hc ltac:(lia) ltac:(lia)) as Hspec.
  pose proof (fresh_finished job payload body (pg_uuid (S n)) ms _ _ (ce_fresh _ _ _ _ _ _ _ Hc')).
  pose proof (finished_step job payload body (pg_uuid (S n)) ms (S m) (after_start job wid n db)).
  destruct (finished _ _ _ _ _ _ _) as [k' db'] eqn:E. simpl in *.
  exists k', db'. split_and!; try done. lia.
Qed.


End execution.

(** ** Instances on the fixture *)

Lemma demo_no_faults : @no_faults_at_all demo.
Proof. done. Qed.

Lemma demo_clock : @clock_ok demo.
Proof.
  intros n m Hnm. simpl. unfold int4_max. split; [|].
  - apply Z.le_0_sub, Z.div_le_mono; lia.
  - assert (demo_epoch + Z.of_nat m * 1000000 ≤ demo_epoch + Z.of_nat n * 1000000 + 2000 * 1000) as H
      by lia.
    apply (Z.div_le_mono _ _ 1000 ltac:(lia)) in H. rewrite Z.div_add in H; lia.
Qed.

Lemma demo_fresh n : @fresh_from demo n demo_db.
Proof.
  intros m _. by split_and!.
Qed.

