(* ===== verification/TickLogic.v ===== *)
(** * Reasoning about a tick

    [TickInvariant] is the interface between an invariant and the statements
    of a worker tick that runs alone, under failures of the connection; a tick
    is proved to keep any invariant that implements it. *)

From S2P Require Import Prelude JsValue JsJson Database Proc Hoare Http Auth Worker Scheduler.
From S2P Require Import Setup Router Integrity Statements Programs Invariant Fixtures Claim.
From S2P Require Import Execution.

Open Scope js_scope.
Local Open Scope Z_scope.

(** ** Statements on other tables *)

(** A statement that changes neither jobs nor queues. *)
Definition aside {X} (q : query X) : Prop :=
  ∀ n db x db', q n db = inr (x, db') → jobs db' = jobs db ∧ queues db' = queues db.

Tactic Notation "aside_tac" reference(q) :=
  let d := fresh in let d' := fresh in let H := fresh in
  intros ? d ? d' H; unfold q in H; repeat (case_match || query_inv H); simplify_eq/=;
  first [done | by destruct d | by destruct d'].

Section aside.
Context {W : World}.
Lemma aside_find_worker : aside sql_find_worker.
Proof. aside_tac sql_find_worker. Qed.
Lemma aside_upsert_heartbeat i : aside (sql_upsert_heartbeat i).
Proof. aside_tac sql_upsert_heartbeat. Qed.
Lemma aside_insert_heartbeat i : aside (sql_insert_heartbeat i).
Proof. aside_tac sql_insert_heartbeat. Qed.
Lemma aside_activate_worker i : aside (sql_activate_worker i).
Proof. aside_tac sql_activate_worker. Qed.
Lemma aside_insert_worker : aside sql_insert_worker.
Proof. aside_tac sql_insert_worker. Qed.
Lemma aside_insert_execution j w a : aside (sql_insert_execution j w a).
Proof. aside_tac sql_insert_execution. Qed.
Lemma aside_finish_execution i s d e : aside (sql_finish_execution i s d e).
Proof. aside_tac sql_finish_execution. Qed.
Lemma aside_insert_log j l m : aside (sql_insert_log j l m).
Proof. aside_tac sql_insert_log. Qed.
Lemma aside_insert_dlq j q p r a : aside (sql_insert_dlq j q p r a).
Proof. aside_tac sql_insert_dlq. Qed.
End aside.

(** ** Invariants of a tick that runs alone *)

Definition owned (j : JobRow) : Prop :=
  match j_status j with
  | Claimed | Running => is_Some (j_worker_id j) ∧ is_Some (j_lease_expires_at j)
  | _ => j_worker_id j = None ∧ j_lease_expires_at j = None
  end.

(** The job goes back to nobody. *)
Definition releases (f : JobRow → JobRow) : Prop :=
  ∀ j, owned (f j) ∧ in_flight (f j) = false ∧ j_queue_id (f j) = j_queue_id j.

(** The three ways to end an execution of row [j]. *)
Inductive ends (now : instant) (j : JobRow) : (JobRow → JobRow) → Prop :=
| ends_completed : ends now j (set_completed now)
| ends_requeued m : j_attempts j < j_max_attempts j → ends now j (set_requeued m now)
| ends_dead_letter m : j_max_attempts j ≤ j_attempts j → ends now j (set_dead_letter m now).

Lemma ends_releases now j f : ends now j f → releases f.
Proof. by intros [] []. Qed.

(** What an invariant has to say about the statements of a tick, when each
    one finds the database as the previous one left it. *)
Class TickInvariant {W : World} (I : DB → Prop) : Prop := {
  ti_ok db : I db → db_ok db;
  ti_other db db' : I db → db_ok db' → jobs db' = jobs db → queues db' = queues db → I db';
  ti_running n db job :
    let f := set_running (j_attempts job + 1) (pg_now n) in
    I db → jobs db !! j_id job = Some job → j_status job = Claimed →
    db_ok (with_jobs (update_where (by_id (j_id job)) f) db) →
    I (with_jobs (update_where (by_id (j_id job)) f) db);
  ti_release n db id j f :
    I db → jobs db !! id = Some j → j_status j = Running → ends (pg_now n) j f →
    db_ok (with_jobs (update_where (by_id id) f) db) →
    I (with_jobs (update_where (by_id id) f) db);
  ti_reap n db db' : I db → db_ok db' → sql_reap n db = inr (tt, db') → I db';
  ti_claim n qid wid b db claimed db' :
    I db → db_ok db' →
    (∀ q, queues db !! qid = Some q →
       b = Z.max (default 5 (q_concurrency_limit q) - in_flight_count qid db) 0) →
    is_Some (queues db !! qid) →
    sql_claim qid wid (Z.to_nat b) n db = inr (claimed, db') → I db';
}.

(** The jobs of [l] are claimed, and their rows are as the claim left them. *)
Definition flying (l : list JobRow) (db : DB) : Prop :=
  ∀ job, job ∈ l → jobs db !! j_id job = Some job ∧ j_status job = Claimed.

(** The job is running its next attempt. *)
Definition under_way (job : JobRow) (db : DB) : Prop :=
  ∃ now, jobs db !! j_id job = Some (set_running (j_attempts job + 1) now job).

Section tick.
Context {W : World} `{!WorldOk W} (I : DB → Prop) `{!TickInvariant I}.

Definition I_flying (l : list JobRow) (db : DB) : Prop := I db ∧ flying l db.
Definition I_running (job : JobRow) (l : list JobRow) (db : DB) : Prop :=
  I db ∧ under_way job db ∧ flying l db.

(** An update of one job leaves the claimed jobs under other ids. *)
Lemma flying_by_id l id f db :
  db_ok db → id ∉ j_id <$> l → flying l db →
  flying l (with_jobs (update_where (by_id id) f) db).
Proof.
  intros Hok Hid Hfl job Hj. rewrite jobs_by_id by done.
  case_decide as E; [|by apply Hfl]. destruct Hid. rewrite <- E. by apply list_elem_of_fmap_2.
Qed.

Lemma triple_mark_running job l :
  j_id job ∉ j_id <$> l →
  triple (fun _ => I_flying (job :: l)) (sql (sql_mark_running (j_id job) (j_attempts job + 1)))
    (fun _ _ => I_running job l) I.
Proof.
  intros Hid. apply triple_sql; [by intros ? ? [? _]|]. intros n db x db' [HI Hfl] H.
  assert (I_running job l db') as Ho'; [|split; [done|apply Ho']].
  pose proof (ti_ok _ HI) as Hdb. pose proof (keeps_mark_running _ _ _ _ _ _ Hdb H) as Hok.
  unfold sql_mark_running in H. query_inv H. simplify_eq/=.
  destruct (Hfl job ltac:(set_solver)) as [Hj Hst]. split; [by apply ti_running|]. split.
  - exists (pg_now n). rewrite jobs_by_id, decide_True by done. by rewrite Hj.
  - apply flying_by_id; [done..|]. intros j' Hj'. apply Hfl. set_solver.
Qed.

Lemma triple_release (q : query unit) job l :
  keeps_ok q →
  (∀ n db x db' now, q n db = inr (x, db') →
     ∃ f, db' = with_jobs (update_where (by_id (j_id job)) f) db ∧
       ends (pg_now n) (set_running (j_attempts job + 1) now job) f) →
  j_id job ∉ j_id <$> l →
  triple (fun _ => I_running job l) (sql q) (fun _ _ => I_flying l) I.
Proof.
  intros Hq Hf Hid. apply triple_sql; [by intros ? ? [? _]|].
  intros n db x db' (HI & [now Hj] & Hfl) H.
  assert (I_flying l db') as Ho'; [|split; [done|apply Ho']].
  pose proof (Hq _ _ _ _ (ti_ok _ HI) H) as Hok.
  destruct (Hf _ _ _ _ now H) as (f & -> & Hrel). split.
  - eapply ti_release; [done|exact Hj| |exact Hrel|done]. by destruct job.
  - apply flying_by_id; [by apply ti_ok|done..].
Qed.

(** What is known of the jobs survives a statement on other tables. *)
Lemma triple_jobs_kept {X} (q : query X) (R : gmap string JobRow → Prop) :
  keeps_ok q → aside q →
  triple (fun _ db => I db ∧ R (jobs db)) (sql q) (fun _ _ db => I db ∧ R (jobs db)) I.
Proof.
  intros Hq Hj. apply triple_sql; [by intros ? ? [? _]|]. intros n db x db' [HI HR] H.
  destruct (Hj _ _ _ _ H) as [E1 E2].
  assert (I db') as HI'. { eapply ti_other; [done| |done..]. eapply Hq; [by apply ti_ok|done]. }
  by rewrite E1.
Qed.

Lemma triple_other {X} (q : query X) l :
  keeps_ok q → aside q → triple (fun _ => I_flying l) (sql q) (fun _ _ => I_flying l) I.
Proof. apply (triple_jobs_kept q (fun m => ∀ job, job ∈ l → m !! j_id job = Some job ∧ _)). Qed.

Lemma triple_running_other {X} (q : query X) job l :
  keeps_ok q → aside q →
  triple (fun _ => I_running job l) (sql q) (fun _ _ => I_running job l) I.
Proof.
  apply (triple_jobs_kept q (fun m => (∃ now, m !! j_id job = Some (set_running _ now job)) ∧
    ∀ job, job ∈ l → m !! j_id job = Some job ∧ _)).
Qed.

Lemma solo_other {X} (q : query X) : keeps_ok q → aside q → solo I (sql q).
Proof.
  intros Hq Hj. apply solo_sql. intros n db x db' HI H. destruct (Hj _ _ _ _ H) as [E1 E2].
  eapply ti_other; [done| |done..]. eapply Hq; [by apply ti_ok|done].
Qed.

(** [executeJob] on a claimed job, with the jobs [l] still waiting. *)
Lemma triple_perform job l payload :
  triple (fun _ => I_running job l) (perform payload) (fun _ _ => I_running job l) I.
Proof.
  intros s Hs. destruct (run_perform payload s) as (n & _ & ->). done.
Qed.

Lemma triple_finish l id exec st ms err level msg :
  triple (fun _ => I_flying l)
    (sql (sql_finish_execution exec st ms err) ;;! sql (sql_insert_log id level msg))
    (fun _ _ => I_flying l) I.
Proof.
  eapply triple_bind; [|intros []]; apply triple_other; auto using keeps_finish_execution,
    aside_finish_execution, keeps_insert_log, aside_insert_log.
Qed.

Lemma triple_record_failure job l payload m :
  j_id job ∉ j_id <$> l →
  triple (fun _ => I_running job l) (record_failure job (j_attempts job + 1) payload m)
    (fun _ _ => I_flying l) I.
Proof.
  intros Hid. unfold record_failure. case_bool_decide as Hm.
  - eapply triple_bind.
    + apply triple_release; [apply keeps_dead_letter| |done]. intros n db x db' now H.
      unfold sql_dead_letter in H. simplify_eq. eexists. split; [done|].
      constructor. by destruct job.
    + intros []. apply triple_other; [apply keeps_insert_dlq|apply aside_insert_dlq].
  - apply triple_release; [apply keeps_requeue| |done]. intros n db x db' now H.
    unfold sql_requeue in H. simplify_eq. eexists. split; [done|].
    constructor. destruct job; simpl in *. lia.
Qed.

Lemma triple_executeJob job l wid :
  j_id job ∉ j_id <$> l →
  triple (fun _ => I_flying (job :: l)) (executeJob job wid) (fun _ _ => I_flying l) I.
Proof.
  intros Hid. unfold executeJob, date_now. cbv zeta.
  eapply triple_bind; [apply triple_lift; by intros ? ? [? _]|]. intros payload.
  eapply triple_bind.
  { eapply triple_conseq; [by apply (triple_mark_running job l)|..]; try done.
    by intros n db [_ ?]. }
  intros []. eapply triple_bind;
    [apply triple_running_other; [apply keeps_insert_execution|apply aside_insert_execution]|].
  intros exec. eapply triple_bind;
    [apply triple_running_other; [apply keeps_insert_log|apply aside_insert_log]|].
  intros []. eapply triple_bind; [by apply (triple_sync _ _ (fun _ _ => I_running job l))|].
  intros start. eapply triple_bind; [apply triple_perform|]. intros [success msg].
  eapply triple_bind; [by apply (triple_sync _ _ (fun _ _ => I_running job l))|].
  intros stop. destruct success.
  - eapply (triple_bind _ _ (fun _ _ => I_flying l)); [|intros []; apply triple_finish].
    apply triple_release; [apply keeps_complete| |done]. intros n db x db' now H.
    unfold sql_complete in H. simplify_eq. eexists. split; [done|constructor].
  - eapply triple_bind; [by apply triple_record_failure|intros []; apply triple_finish].
Qed.

(** The claim statement puts the rows it returns in flight, under distinct
    ids. *)
Lemma claimed_ids_distinct n qid wid b db claimed db' :
  db_ok db → sql_claim qid wid b n db = inr (claimed, db') → NoDup (j_id <$> claimed).
Proof.
  intros Hok H. apply claim_result in H as [-> _]. unfold updated_rows.
  rewrite <- list_fmap_compose.
  assert ((j_id ∘ set_claimed wid (pg_now n)) <$>
    select_where n (selected_by (claim_selection n qid b db)) (jobs db) =
    j_id <$> select_where n (selected_by (claim_selection n qid b db)) (jobs db)) as ->.
  { apply list_fmap_ext. intros i j _. by destruct (set_claimed_keys wid (pg_now n) j). }
  rewrite select_where_perm. apply NoDup_filter_keys, Hok.
Qed.

Lemma claimed_flying n qid wid b db claimed db' :
  db_ok db → sql_claim qid wid b n db = inr (claimed, db') → flying claimed db'.
Proof.
  intros Hok H c Hc. split; [by eapply claimed_row|].
  apply (elem_of_claimed _ _ _ _ _ _ _ c Hok H) in Hc as ([] & _ & ->). done.
Qed.

(** The budget that the claim is given. *)
Definition budget_of (qid : string) (b : option Z) (db : DB) : Prop :=
  b = (fun q => Z.max (default 5 (q_concurrency_limit q) - in_flight_count qid db) 0)
        <$> queues db !! qid.

Lemma triple_claim qid wid b :
  0 < default 0 b →
  triple (fun _ db => I db ∧ budget_of qid b db) (sql (sql_claim qid wid (Z.to_nat (default 0 b))))
    (fun claimed _ db => NoDup (j_id <$> claimed) ∧ I_flying claimed db) I.
Proof.
  intros Hb. apply triple_sql; [by intros ? ? [? _]|]. intros n db claimed db' [HI Hbud] H.
  pose proof (ti_ok _ HI) as Hok. pose proof (keeps_claim _ _ _ _ _ _ _ Hok H) as Hok'.
  unfold budget_of in Hbud. destruct (queues db !! qid) as [q|] eqn:Hq; [|by subst b].
  assert (I db') as HI'.
  { eapply ti_claim; [done|done| | |exact H]; [|eauto]. intros q' Hq'. by simplify_eq/=. }
  split; [|done]. split; [exact (claimed_ids_distinct _ _ _ _ _ _ _ Hok H)|]. split; [done|].
  exact (claimed_flying _ _ _ _ _ _ _ Hok H).
Qed.

Lemma solo_process_queue wid n qid : solo I (process_queue wid n qid).
Proof.
  unfold process_queue. eapply triple_bind.
  { apply (triple_sql _ _ (fun b _ db => I db ∧ budget_of qid b db)); [done|].
    intros m db b db' HI H. unfold sql_budget in H. simplify_eq. done. }
  intros b. cbv zeta. case_bool_decide as Hb.
  { apply triple_ret. by intros ? ? [? _]. }
  eapply triple_bind; [apply triple_claim; lia|]. intros claimed.
  set (J := fun (_ : nat) l (_ : nat) db => NoDup (j_id <$> l) ∧ I_flying l db).
  eapply triple_conseq; [apply (triple_for_each _ J I)|..]; try done.
  - intros m job l. unfold J. csimpl. intros s [[Hj Hnd]%NoDup_cons Ho].
    pose proof (triple_executeJob job l wid Hj s Ho) as H. rewrite run_bind.
    by destruct (run (executeJob job wid) s) as [[e|[]] s'].
  - intros _ m db [_ [? _]]. done.
Qed.

Lemma solo_ensureWorker : solo I ensureWorker.
Proof.
  unfold ensureWorker.
  apply solo_bind; [apply solo_read; intros ? ? ? ? H; unfold sql_find_worker in H; congruence|].
  intros [|id ?].
  - apply solo_bind; [|intros id; apply solo_bind; [|intros; apply solo_ret]];
      apply solo_other; auto using keeps_insert_worker, aside_insert_worker,
        keeps_insert_heartbeat, aside_insert_heartbeat.
  - apply solo_bind; [|intros; apply solo_bind; [|intros; apply solo_ret]];
      apply solo_other; auto using keeps_upsert_heartbeat, aside_upsert_heartbeat,
        keeps_activate_worker, aside_activate_worker.
Qed.

Lemma solo_runWorkerTick : solo I runWorkerTick.
Proof.
  unfold runWorkerTick. apply solo_bind; [apply solo_getSql|]. intros _.
  apply solo_bind.
  { apply solo_sql. intros n db [] db' HI H. eapply ti_reap; [done| |done].
    eapply keeps_reap; [by apply ti_ok|done]. }
  intros _. apply solo_bind; [apply solo_ensureWorker|]. intros wid.
  apply solo_bind; [solo_walk|]. intros qs. apply solo_for_each. intros. apply solo_process_queue.
Qed.

Lemma solo_background_tick : solo I background_tick.
Proof.
  unfold background_tick. intros s Hs. rewrite run_then.
  assert (solo I (catch (runWorkerTick ;;! ret tt) (fun _ => ret tt))) as H.
  { pose proof solo_runWorkerTick. solo_walk. }
  specialize (H s Hs). by destruct (run _ s) as [[] ?].
Qed.

End tick.

(** ** The server, one program at a time *)

(** What runs on the server: requests, and the ticks they start. *)
Definition server_task {W : World} {J : Jose} (p : proc unit) : Prop :=
  server_program p ∨ p = background_tick.

(** One after the other. *)
Definition run_serially {W : World} (ps : list (proc unit)) (s : store) : store :=
  foldl (fun s p => (run p s).2) s ps.

(** An invariant of ticks, of the request handlers and of the setup call. *)
Class SerialInvariant {W : World} (I : DB → Prop) : Prop := {
  #[global] si_tick :: TickInvariant I;
  #[global] si_api org :: ApiStatements I org;
  si_insert_org name slug : keeps I (sql_insert_org name slug);
  si_insert_user org email name role hash : keeps I (sql_insert_user org email name role hash);
  si_seed_project org name slug descr : keeps I (sql_seed_project org name slug descr);
  si_seed_queue project name slug limit : keeps I (sql_seed_queue project name slug limit);
  si_seed_job queue payload : keeps I (sql_seed_job queue payload);
  si_seed_worker : keeps I sql_seed_worker;
}.

#[export] Hint Resolve si_insert_org si_insert_user si_seed_project si_seed_queue si_seed_job
  si_seed_worker : statements.

Section serial.
Context {W : World} `{!WorldOk W} {J : Jose} (I : DB → Prop) `{!SerialInvariant I}.

Lemma solo_seedDemo : solo I seedDemo.
Proof.
  unfold seedDemo, seed_queue. apply solo_bind; [apply solo_getSql|]. intros _.
  apply solo_bind; [apply solo_read; intros ? ? ? ? Hq; unfold sql_demo_org in Hq; congruence|].
  solo_walk.
Qed.

Lemma solo_handleApi req path : solo I (handleApi req path).
Proof.
  unfold handleApi, requireAuth. apply solo_catch; [|intros; apply solo_ret]. case_match.
  - apply solo_login.
  - apply solo_bind; [apply solo_claimsFromRequest|]. intros [c|]; [|apply solo_ret].
    apply solo_bind; [apply solo_getSql|]. intros _. apply solo_routes; [apply _|].
    intros _. by apply solo_runWorkerTick; apply _.
Qed.

Lemma solo_server_task p : server_task p → solo I p.
Proof.
  intros [[req path|req|req fails c]| ->]; [..|apply solo_background_tick, _];
    (apply solo_bind; [|intros; apply solo_ret]).
  - apply solo_handleApi.
  - unfold cron_worker, respond. pose proof (solo_runWorkerTick I). solo_walk.
  - unfold setup_post, respond. pose proof solo_seedDemo. repeat case_match; simpl; solo_walk.
Qed.

Lemma serial_keeps ps s :
  Forall server_task ps → I (st_db s) → I (st_db (run_serially ps s)).
Proof.
  intros Hps. revert s. induction Hps as [|p ps Hp _ IH]; intros s Hs; [done|].
  apply IH. pose proof (solo_server_task p Hp s Hs) as H. by destruct (run p s) as [[] ?].
Qed.

End serial.
