(* ===== verification/Sessions.v ===== *)
(** * Requests and sessions

    The top level of [handleApi]: every request is answered, only requests
    with a valid session reach the database, and the token that the login
    route hands out opens a session for a day. *)

From S2P Require Import Prelude JsValue JsJson Database Proc Hoare Http Auth DemoWorld Worker.
From S2P Require Import Scheduler Setup Router Integrity Statements Invariant Fixtures.

Open Scope js_scope.
Local Open Scope Z_scope.

Section sessions.
Context {W : World} {J : Jose}.

(** The token a request carries and the session it stands for at step [n]. *)
Definition bearer (req : Request) : option string :=
  auth ← req_authorization req;
  if startsWith auth "Bearer " then Some (slice_from auth 7) else None.

Definition session_at (n : nat) (req : Request) : option Claims :=
  token ← bearer req; verify_at n token.

Definition is_login (req : Request) (path : list string) : bool :=
  method_is "POST" req && bool_decide (join "/" path = "auth/login").

(** The store after the token check, which is one synchronous block. *)
Definition checked (req : Request) (s : store) : store :=
  match bearer req with
  | Some _ => MkStore (st_db s) (st_vars s) (S (st_step s)) (st_bg s)
  | None => s
  end.

Lemma checked_step req s : (st_step s ≤ st_step (checked req s) ≤ S (st_step s))%nat.
Proof. unfold checked. case_match; simpl; lia. Qed.

Lemma run_requireAuth req s :
  run (requireAuth req) s = (inr (session_at (st_step s) req), checked req s).
Proof.
  unfold requireAuth, claimsFromRequest, session_at, checked, bearer.
  destruct (req_authorization req) as [a|]; simpl; [|by destruct s].
  by destruct (startsWith a "Bearer ").
Qed.

(** The request handler behind the session check. *)
Definition serve (req : Request) (path : list string) (c : Claims) : proc Response :=
  catch (getSql ;;! routes req (join "/" path) (c_org_id c)) (fun e => ret (api_error e)).

Lemma run_handleApi req path s :
  is_login req path = false →
  run (handleApi req path) s =
  match session_at (st_step s) req with
  | None => (inr unauthorized, checked req s)
  | Some c => run (serve req path c) (checked req s)
  end.
Proof.
  intros Hl. unfold handleApi, serve. unfold is_login in Hl. rewrite Hl.
  rewrite run_catch, run_bind, run_requireAuth.
  destruct (session_at _ _); [by rewrite run_catch|done].
Qed.

Lemma checked_db req s :
  st_db (checked req s) = st_db s ∧ st_vars (checked req s) = st_vars s ∧
  st_bg (checked req s) = st_bg s.
Proof. unfold checked. by destruct (bearer req). Qed.

(** C18: A request without a valid session, other than the login itself, is
    answered 401; it touches neither the database nor the variables of the
    server and starts no worker tick. *)
Theorem unauthenticated_rejected req path s :
  is_login req path = false → session_at (st_step s) req = None →
  ∃ s', run (handleApi req path) s = (inr unauthorized, s') ∧
    st_db s' = st_db s ∧ st_vars s' = st_vars s ∧ st_bg s' = st_bg s.
Proof.
  intros Hl Hs. rewrite run_handleApi, Hs by done. eexists. split; [done|]. apply checked_db.
Qed.

(** ** Every request is answered *)

(** The responses of the API: a body exactly when there is content. *)
Definition api_response (r : Response) : Prop :=
  res_status r ∈ [200; 201; 204; 401; 404; 422; 500; 503] ∧
  (res_body r = None ↔ res_status r = 204).

Lemma api_respond v st r :
  json v st = inr r → st ∈ [200; 201; 401; 404; 422; 500; 503] → api_response r.
Proof.
  unfold json. destruct (json_value v); intros H Hst; simplify_eq/=. split; simpl.
  - rewrite !elem_of_cons in *. naive_solver.
  - split; [done|]. intros ->. rewrite !elem_of_cons in Hst. set_solver.
Qed.

Lemma api_error_response m st c :
  st ∈ [200; 201; 401; 404; 422; 500; 503] → api_response (error m st c).
Proof. intros. by eapply (api_respond (JObj [("error", JStr m); ("code", JStr c)])). Qed.

(** Handlers, with any result of their statements. *)
Abbreviation answers p := (safe (fun _ => True) api_response p).

Lemma answers_respond v st :
  st ∈ [200; 201; 401; 404; 422; 500; 503] → answers (respond v st).
Proof. intros Hst. constructor. destruct (json v st) eqn:E; [done|]. by eapply api_respond. Qed.

Lemma answers_error m st c :
  st ∈ [200; 201; 401; 404; 422; 500; 503] → answers (ret (error m st c)).
Proof. intros. by apply safe_ret, api_error_response. Qed.

Lemma answers_no_content : answers (ret no_content).
Proof. apply safe_ret. split; simpl; [|done]. rewrite !elem_of_cons. auto. Qed.

(** A program whose result does not matter here. *)
Lemma any_preserves {A} (p : proc A) : preserves (fun _ => True) p.
Proof.
  induction p as [A r|A X q c IH|A X f c IH|A ms c IH|A b IHb c IH].
  - constructor. by destruct r.
  - by eapply (safe_op _ _ _ _ _ (fun _ => True)).
  - by constructor.
  - by constructor.
  - by constructor.
Qed.

Lemma answers_bind {A} (p : proc A) k : (∀ a, answers (k a)) → answers (bind p k).
Proof. intros Hk. eapply safe_bind; [apply any_preserves|auto]. Qed.

Ltac answer :=
  repeat (intros; cbv zeta; lazymatch goal with
    | |- safe _ _ (bind _ _) => apply answers_bind
    | |- safe _ _ (match _ with _ => _ end) => case_match
    | |- safe _ _ (respond _ _) => apply answers_respond; set_solver
    | |- safe _ _ (ret (error _ _ _)) => apply answers_error; set_solver
    | |- safe _ _ (ret not_found) => apply answers_error; set_solver
    | |- safe _ _ (ret unauthorized) => apply answers_error; set_solver
    | |- safe _ _ (ret no_content) => apply answers_no_content
    | |- _ => solve [auto]
    end).

Lemma answers_login req : answers (login req).
Proof. unfold login. answer. Qed.

Lemma answers_queue_routes req i s o h : queue_routes req i s o = Some h → answers h.
Proof.
  unfold queue_routes. intros H. repeat case_match; simplify_eq; try done;
    unfold queue_stats, pause_queue, update_queue, enqueue_job, insert_and_schedule; answer.
Qed.

Lemma answers_job_routes req i s o h : job_routes req i s o = Some h → answers h.
Proof.
  unfold job_routes. intros H. repeat case_match; simplify_eq; try done;
    unfold job_executions_of, job_logs_of, retry_job, get_job; answer.
Qed.

Lemma answers_late_routes req p o : answers (late_routes req p o).
Proof.
  unfold late_routes, worker_pulse, list_jobs, list_workers, list_dlq.
  case_match; [answer|]. case_match; [answer|].
  destruct (match_resource "jobs" p) as [[i s]|]; simpl; [|answer].
  destruct (job_routes req i s o) eqn:E; [by eapply answers_job_routes|answer].
Qed.

Lemma answers_routes req p o : answers (routes req p o).
Proof.
  unfold routes, list_projects, create_project, list_queues, create_queue.
  pose proof (answers_late_routes req p o). do 4 (case_match; [answer|]).
  destruct (match_resource "queues" p) as [[i s]|]; simpl; [|done].
  destruct (queue_routes req i s o) eqn:E; [by eapply answers_queue_routes|done].
Qed.

Lemma answers_api_error e : answers (ret (api_error e)).
Proof. unfold api_error. apply safe_ret. case_match; apply api_error_response; set_solver. Qed.

Lemma answers_handleApi req path : answers (handleApi req path).
Proof.
  unfold handleApi. apply safe_catch; [|apply answers_api_error].
  pose proof answers_login. pose proof answers_routes. answer.
Qed.

(** C19: [handleApi] answers every request: whatever the body, the path, the
    stored rows and the failures of the connection, no exception leaves it,
    and the response has one of the statuses of the API and a JSON body unless
    it is 204. *)
Theorem handleApi_answers req path s :
  ∃ r s', run (handleApi req path) s = (inr r, s') ∧ api_response r.
Proof.
  destruct (run (handleApi req path) s) as [[e|r] s'] eqn:E.
  - exfalso. unfold handleApi in E. rewrite run_catch in E. by case_match; case_match.
  - exists r, s'. split; [done|].
    eapply safe_result; [apply answers_handleApi| |exact E]. done.
Qed.

(** Without a configured database connection string every authenticated
    request is answered 503, and nothing changes. *)
Theorem unconfigured_unavailable req path c s :
  process_env "DATABASE_URL" = None → process_env "POSTGRES_URL" = None →
  is_login req path = false → session_at (st_step s) req = Some c →
  ∃ r s', run (handleApi req path) s = (inr r, s') ∧ res_status r = 503 ∧
    st_db s' = st_db s ∧ st_bg s' = st_bg s.
Proof.
  intros Hd Hp Hl Hs. rewrite run_handleApi, Hs by done. unfold serve.
  rewrite run_catch, run_bind. unfold getSql, getUrl, env_or. rewrite Hd, Hp. simpl.
  destruct (checked_db req s) as (? & ? & ?). eauto 10.
Qed.

(** ** The session of a login *)

Definition with_token (tok method : string) (search : list (string * string))
    (body : thrown + jsval) : Request :=
  MkRequest method (Some ("Bearer " +:+ tok)) search body.

Definition claims_of (u : UserRow) : Claims :=
  MkClaims (usr_id u) (usr_org_id u) (usr_email u) (usr_role u).

Definition requested_email (req : Request) : string :=
  match req_json req with
  | inr body => trim (js_to_string (js_or (field body "email") (JStr "")))
  | inl _ => ""
  end.

Lemma session_with_token tok m method search body :
  session_at m (with_token tok method search body) = verify_at m tok.
Proof.
  unfold session_at, bearer, with_token. simpl.
  destruct (bearer_prefix tok) as [H1 H2]. unfold startsWith, slice_from in *. simpl in *.
  by rewrite H1, H2.
Qed.

(** The user a login resolves to. *)
Definition login_user (req : Request) (db : DB) (u : UserRow) : Prop :=
  (∃ k, users db !! k = Some u) ∧
  (usr_email u = requested_email req ∨
   demoAuthEnabled = true ∧ usr_email u = "admin@demo.com").

Lemma users_by_email `{!WorldOk W} email n db u :
  u ∈ take 1 (select_where n (fun u => bool_decide (usr_email u = email)) (users db)) →
  (∃ k, users db !! k = Some u) ∧ usr_email u = email.
Proof.
  intros H. eapply elem_of_take in H as (i & H & _).
  apply list_elem_of_lookup_2, elem_of_select_where in H as [He ?].
  by apply bool_decide_eq_true in He.
Qed.

Lemma triple_user_by_email `{!WorldOk W} db0 n0 email :
  triple (fun n db => db = db0 ∧ (n0 ≤ n)%nat) (sql (sql_user_by_email email))
    (fun us n db => (db = db0 ∧ (n0 ≤ n)%nat) ∧
       ∀ u, u ∈ us → (∃ k, users db0 !! k = Some u) ∧ usr_email u = email)
    (fun _ => True).
Proof.
  apply triple_sql; [done|]. unfold sql_user_by_email. intros n db x db' [-> Hn] Hq.
  simplify_eq. split; [|done]. split; [split; [done|lia]|]. intros u. apply users_by_email.
Qed.

(** What a successful login promises of the store it started from. *)
Definition login_post (req : Request) (db0 : DB) (n0 : nat) (r : Response) (n : nat) : Prop :=
  res_status r = 200 → ∃ tok u k, login_user req db0 u ∧ (n0 ≤ k < n)%nat ∧
    tok = jwt_sign secret (claims_members (claims_of u)) (epoch k) (epoch k + 86400) ∧
    field (default JUndef (res_body r)) "token" = JStr tok.

Lemma triple_resolve `{!WorldOk W} db0 n0 email :
  triple (fun n db => db = db0 ∧ (n0 ≤ n)%nat)
    (if demoAuthEnabled then resolveDemoUser email
     else let! rows := sql (sql_user_by_email email) in ret (head rows))
    (fun u n db => (db = db0 ∧ (n0 ≤ n)%nat) ∧
       ∀ u', u = Some u' → (∃ k, users db0 !! k = Some u') ∧
         (usr_email u' = email ∨ demoAuthEnabled = true ∧ usr_email u' = "admin@demo.com"))
    (fun _ => True).
Proof.
  destruct demoAuthEnabled eqn:Ed.
  - unfold resolveDemoUser, getSql. eapply triple_bind; [by apply triple_lift|]. intros [].
    eapply triple_bind.
    { eapply triple_conseq; [apply triple_user_by_email|..]; try done. by intros n db [_ ?]. }
    intros [|u us]; simpl.
    + eapply triple_bind.
      { eapply triple_conseq; [apply triple_user_by_email|..]; try done. by intros n db [? _]. }
      intros fb. apply triple_ret. intros n db [Hd Hu]. split; [done|].
      intros u' Hu'. destruct (Hu u') as [? ?]; [|auto].
      destruct fb; simplify_eq/=. set_solver.
    + apply triple_ret. intros n db [Hd Hu]. split; [done|]. intros u' Hu'.
      destruct (Hu u') as [? ?]; [set_solver|auto].
  - eapply triple_bind; [apply triple_user_by_email|]. intros us. apply triple_ret.
    intros n db [Hd Hu]. split; [done|]. intros u' Hu'. destruct (Hu u') as [? ?]; [|auto].
    destruct us; simplify_eq/=. set_solver.
Qed.

Lemma triple_login `{!WorldOk W} req db0 n0 :
  triple (fun n db => db = db0 ∧ (n0 ≤ n)%nat) (login req)
    (fun r n _ => login_post req db0 n0 r n) (fun _ => True).
Proof.
  unfold login, body_of, get, getSql, signToken, respond.
  eapply triple_bind; [by apply triple_lift|]. intros body.
  eapply triple_bind; [by apply triple_lift|]. intros e.
  eapply triple_bind; [by apply triple_lift|]. intros pw. cbv zeta.
  case_bool_decide; [by apply triple_ret|].
  eapply triple_bind; [by apply triple_lift|]. intros [].
  intros s (_ & _ & He & Hb & Hs). revert s Hs.
  assert (requested_email req = trim (js_to_string (js_or e (JStr "")))) as <-.
  { unfold requested_email. rewrite Hb. destruct body; simplify_eq/=; done. }
  change (triple (fun n db => db = db0 ∧ (n0 ≤ n)%nat)
    (let! user := (if demoAuthEnabled then resolveDemoUser (requested_email req)
       else let! rows := sql (sql_user_by_email (requested_email req)) in ret (head rows)) in
     match user with
     | None => ret (error "invalid credentials" 401 "UNAUTHORIZED")
     | Some u =>
       let! token := sync (fun n v => (jwt_sign secret (claims_members (claims_of u)) (epoch n)
                                         (epoch n + 86400), v)) in
       lift (json (JObj [("token", JStr token);
                       ("user", JObj [("id", JStr (usr_id u)); ("org_id", JStr (usr_org_id u));
                          ("email", JStr (usr_email u)); ("name", JStr (usr_name u));
                          ("role", JStr (usr_role u)); ("password_hash", JUndef)])]) 200)
     end) (fun r n _ => login_post req db0 n0 r n) (fun _ => True)).
  eapply triple_bind; [apply triple_resolve|]. intros [u|]; [|by apply triple_ret].
  eapply triple_bind; [apply (triple_sync _ _ (fun t n _ => login_user req db0 u ∧ ∃ k,
    (n0 ≤ k < n)%nat ∧
    t = jwt_sign secret (claims_members (claims_of u)) (epoch k) (epoch k + 86400)))|].
  - intros n v db [[-> Hn] Hu]. split; [by apply Hu|]. exists n. split; [lia|done].
  - intros t s (Hu & k & Hk & ->). simpl. intros _. eauto 10.
Qed.

(** The token of a successful login, as the verification sees it. *)
Lemma login_token `{!WorldOk W, !JoseOk J} req s r s' :
  run (login req) s = (inr r, s') → res_status r = 200 →
  ∃ tok u k, login_user req (st_db s) u ∧ (st_step s ≤ k < st_step s')%nat ∧
    field (default JUndef (res_body r)) "token" = JStr tok ∧ tok ≠ "" ∧
    ∀ m, (epoch m < epoch k + 86400 → verify_at m tok = Some (claims_of u)) ∧
         (epoch k + 86400 ≤ epoch m → verify_at m tok = None).
Proof.
  intros Hr Hst. pose proof (triple_login req (st_db s) (st_step s) s) as H. rewrite Hr in H.
  destruct (H ltac:(done) Hst) as (tok & u & k & Hu & Hk & -> & Ht).
  eexists _, u, k. do 3 (split; [done|]). split; [apply jwt_sign_compact|].
  intros m. split; intros Hm.
  - by apply verify_sign_claims.
  - unfold verify_at. by destruct (jwt_verify_expired secret (claims_members (claims_of u))
      (epoch k) _ _ Hm) as [e ->].
Qed.

(** A login that answers 200 hands out a token which, sent as a bearer
    token, opens a session with the id, organization, email and role of the
    user it resolved to (the one with the email of the request, or the demo
    administrator when demo authentication is on), for the 24 hours after it
    was issued and not later. *)
Theorem login_session `{!WorldOk W, !JoseOk J} req s r s' :
  run (login req) s = (inr r, s') → res_status r = 200 →
  ∃ tok u k, login_user req (st_db s) u ∧ (st_step s ≤ k < st_step s')%nat ∧
    field (default JUndef (res_body r)) "token" = JStr tok ∧
    ∀ m method search body,
      (epoch m < epoch k + 86400 →
         session_at m (with_token tok method search body) = Some (claims_of u)) ∧
      (epoch k + 86400 ≤ epoch m →
         session_at m (with_token tok method search body) = None).
Proof.
  intros Hr Hst. destruct (login_token req s r s' Hr Hst) as (tok & u & k & ? & ? & ? & _ & H).
  exists tok, u, k. do 3 (split; [done|]). intros m method search body.
  rewrite session_with_token. apply H.
Qed.

End sessions.

(** ** Instances *)

Definition demo_store : store := MkStore demo_db initial_vars 0 [].

Definition demo_login : Request :=
  demo_request "POST" None
    (JObj [("email", JStr "admin@demo.com"); ("password", JStr "demo")]).

Lemma login_session_witness :
  match run (login demo_login) demo_store with
  | (inr r, s') => ∃ tok u k, login_user demo_login demo_db u ∧ (0 ≤ k < st_step s')%nat ∧
      field (default JUndef (res_body r)) "token" = JStr tok ∧
      ∀ m method search body,
        (epoch m < epoch k + 86400 →
           session_at m (with_token tok method search body) = Some (claims_of u)) ∧
        (epoch k + 86400 ≤ epoch m →
           session_at m (with_token tok method search body) = None)
  | _ => False
  end.
Proof.
  assert (answered (run (login demo_login) demo_store) = Some 200) as H
    by (vm_compute; reflexivity).
  destruct (run (login demo_login) demo_store) as [[e|r] s'] eqn:E; [discriminate|].
  apply (@login_session demo demo_jose demo_ok demo_jose_ok _ _ _ _ E).
  unfold answered in H. simpl in H. congruence.
Defined.

Lemma unauthenticated_rejected_witness :
  ∃ s', run (handleApi (demo_request "GET" (Some "Bearer 0101") JNull) ["jobs"]) demo_store =
      (inr unauthorized, s') ∧
    st_db s' = demo_db ∧ st_vars s' = initial_vars ∧ st_bg s' = [].
Proof. apply (unauthenticated_rejected _ ["jobs"] demo_store); vm_compute; reflexivity. Defined.

(** A deployment without a database. *)
Definition bare : World := demo_world 1000000 no_faults [].

Lemma unconfigured_unavailable_witness :
  ∃ r s', run (W := bare) (handleApi (W := bare) (demo_request "GET" demo_auth JNull) ["queues"])
      demo_store = (inr r, s') ∧ res_status r = 503 ∧
    st_db s' = demo_db ∧ st_bg s' = [].
Proof.
  apply (unconfigured_unavailable (W := bare) _ ["queues"] demo_claims demo_store);
    vm_compute; reflexivity.
Defined.
