(* ===== verification/Tenancy.v ===== *)
(** * Tenant isolation

    A request authenticated for one organization leaves the projects, queues
    and jobs of every other organization as they are; what the API lists
    belongs to the organization. The dead letter queue is the exception. *)

From S2P Require Import Prelude JsValue JsJson Database Proc Hoare Http Auth DemoWorld Worker.
From S2P Require Import Scheduler Setup Router Integrity Statements Invariant Fixtures Sessions.

Open Scope js_scope.

(** The rows of [db0] that do not belong to organization [o] are in [db]
    unchanged; organizations, users and projects are never updated. *)
Record foreign_rows (o : string) (db0 db : DB) : Prop := {
  for_orgs : organizations db = organizations db0;
  for_users : users db = users db0;
  for_projects : projects db0 ⊆ projects db;
  for_queues : ∀ k q, queues db0 !! k = Some q → queue_in_org db0 o q = false →
    queues db !! k = Some q;
  for_jobs : ∀ k j, jobs db0 !! k = Some j → job_in_org db0 o j = false →
    jobs db !! k = Some j;
}.

Lemma foreign_rows_refl o db : foreign_rows o db db.
Proof. by split. Qed.

Section tenancy.
Context {W : World} `{!WorldOk W} {J : Jose}.
Context (o : string) (db0 : DB) (Hok : db_ok db0).

(** Membership of a foreign row is read off the same in the current
    database. *)
Lemma foreign_queue db k q :
  foreign_rows o db0 db → queues db0 !! k = Some q → queue_in_org db0 o q = false →
  queue_in_org db o q = false.
Proof.
  intros Hf Hq Ho. destruct (ok_q_prj _ Hok _ _ Hq) as [p Hp].
  unfold queue_in_org in *. rewrite Hp in Ho.
  by rewrite (lookup_weaken _ _ _ _ Hp (for_projects _ _ _ Hf)).
Qed.

Lemma foreign_job db k j :
  foreign_rows o db0 db → jobs db0 !! k = Some j → job_in_org db0 o j = false →
  job_in_org db o j = false.
Proof.
  intros Hf Hj Ho. destruct (ok_j_q _ Hok _ _ Hj) as [q Hq]. unfold job_in_org in *.
  rewrite Hq in Ho. rewrite (for_queues _ _ _ Hf _ _ Hq Ho). by eapply foreign_queue.
Qed.

(** Updates restricted to the organization, and inserts under a new key. *)
Lemma foreign_update_queues db P f :
  foreign_rows o db0 db → (∀ q, queue_in_org db o q = false → P q = false) →
  foreign_rows o db0 (with_queues (update_where P f) db).
Proof.
  intros Hf HP. pose proof (foreign_queue db) as Hfq.
  destruct db; destruct Hf as [? ? ? Hq ?] eqn:E; split; simpl in *; try done.
  intros k q Hk Ho. rewrite lookup_update_where, (Hq _ _ Hk Ho). simpl.
  rewrite HP; [done|]. by eapply Hfq.
Qed.

Lemma foreign_update_jobs db P f :
  foreign_rows o db0 db → (∀ j, job_in_org db o j = false → P j = false) →
  foreign_rows o db0 (with_jobs (update_where P f) db).
Proof.
  intros Hf HP. pose proof (foreign_job db) as Hfj.
  destruct db; destruct Hf as [? ? ? ? Hj] eqn:E; split; simpl in *; try done.
  intros k j Hk Ho. rewrite lookup_update_where, (Hj _ _ Hk Ho). simpl.
  rewrite HP; [done|]. by eapply Hfj.
Qed.

Lemma foreign_insert_queue db k r :
  foreign_rows o db0 db → queues db !! k = None →
  foreign_rows o db0 (with_queues <[k := r]> db).
Proof.
  intros [? ? ? Hq ?] Hk. destruct db; split; simpl in *; try done.
  intros k' q Hk' Ho. rewrite lookup_insert_ne; [eauto|]. intros ->.
  rewrite (Hq _ _ Hk' Ho) in Hk. done.
Qed.

Lemma foreign_insert_job db k r :
  foreign_rows o db0 db → jobs db !! k = None →
  foreign_rows o db0 (with_jobs <[k := r]> db).
Proof.
  intros [? ? ? ? Hj] Hk. destruct db; split; simpl in *; try done.
  intros k' j Hk' Ho. rewrite lookup_insert_ne; [eauto|]. intros ->.
  rewrite (Hj _ _ Hk' Ho) in Hk. done.
Qed.

Context (org : string) (Horg : uuid_param (JStr org) = inr (Some o)).

Lemma uuid_arg_org x : uuid_arg (JStr org) = inr x → x = Some o.
Proof. unfold uuid_arg. rewrite Horg. simpl. congruence. Qed.

Tactic Notation "api_stmt" reference(q) :=
  intros n db x db' Hf H; unfold q in H; query_inv H; simplify_eq/=;
  repeat match goal with H : uuid_arg (JStr org) = inr _ |- _ => apply uuid_arg_org in H as -> end.

#[export] Instance foreign_statements : ApiStatements (foreign_rows o db0) org.
Proof.
  split; intros.
  - api_stmt sql_insert_project. destruct Hf. destruct db; split; simpl in *; try done.
    apply insert_subseteq_r; [|done]. by eapply lookup_weaken_None.
  - api_stmt sql_insert_queue. by apply foreign_insert_queue.
  - api_stmt sql_set_paused. apply foreign_update_queues; [done|].
    intros q Hq. unfold org_queue. by rewrite Hq, andb_false_r.
  - api_stmt sql_update_queue. apply foreign_update_queues; [done|].
    intros q Hq. unfold org_queue. by rewrite Hq, andb_false_r.
  - api_stmt sql_insert_job. by apply foreign_insert_job.
  - api_stmt sql_delete_dlq. by destruct Hf, db; split.
  - api_stmt sql_retry_job. apply foreign_update_jobs; [done|].
    intros j Hj. unfold org_job. by rewrite Hj, andb_false_r.
Qed.

End tenancy.

Section isolation.
Context {W : World} `{!WorldOk W} {J : Jose}.


(** ** The job list *)

(** A job that a list request asks for. *)
Definition listed (db : DB) (o status : string) (i : option string) (j : JobRow) : Prop :=
  (∃ k, jobs db !! k = Some j) ∧ job_in_org db o j = true ∧
  (status = "" ∨ job_status_text (j_status j) = status) ∧
  (∀ q, i = Some q → j_queue_id j = q).

(** The newest hundred of them. *)
Record job_page (db : DB) (o status : string) (i : option string) (page : list JobRow) : Prop := {
  page_size : (length page ≤ 100)%nat;
  page_order : StronglySorted (desc_by j_created_at) page;
  page_members : ∀ j, j ∈ page → listed db o status i j;
  page_full : ∀ j, listed db o status i j → j ∉ page →
    length page = 100%nat ∧ ∀ j', j' ∈ page → (j_created_at j ≤ j_created_at j')%Z;
}.

Lemma list_jobs_page n db o org status qid i page db' :
  uuid_param (JStr org) = inr (Some o) → uuid_param (js_opt JStr qid) = inr i →
  sql_list_jobs org status qid n db = inr (page, db') → job_page db o status i page ∧ db' = db.
Proof.
  intros Ho Hi H. unfold sql_list_jobs, uuid_arg in H. rewrite Ho, Hi in H. simpl in H.
  simplify_eq. split; [|done].
  assert (∀ j, j ∈ select_where n (λ j, job_in_org db' o j &&
      (bool_decide (status = "") || bool_decide (job_status_text (j_status j) = status)) &&
      match i with Some i => bool_decide (j_queue_id j = i) | None => true end) (jobs db') ↔
    listed db' o status i j) as Hl.
  { intros j. rewrite elem_of_select_where, !andb_true_iff, orb_true_iff, !bool_decide_eq_true.
    unfold listed. destruct i as [q|]; rewrite ?bool_decide_eq_true; naive_solver. }
  split.
  - rewrite length_order_limit by apply _. lia.
  - apply order_limit_sorted; apply _.
  - intros j Hj. apply Hl. by eapply elem_of_order_limit.
  - intros j Hj Hn. apply Hl in Hj.
    by apply (order_limit_left_out (desc_by j_created_at) 100 _ _ Hj) in Hn.
Qed.

(** C17: A list of jobs that is answered 200 is the newest hundred jobs of the
    organization that match the status and queue of the query, newest first:
    no job of another organization appears, and a matching job is left out
    only when a hundred jobs at least as new are shown. Each item is the API
    form of its row. *)
Theorem list_jobs_correct req org o i s r s' :
  uuid_param (JStr org) = inr (Some o) →
  uuid_param (js_opt JStr (search_param req "queue_id")) = inr i →
  run (list_jobs req org) s = (inr r, s') → res_status r = 200%Z →
  ∃ page items body, job_page (st_db s) o (default "" (search_param req "status")) i page ∧
    map_sum (fun j => mapJob (job_to_js j)) page = inr items ∧
    json_value (js_page items) = Some body ∧ res_body r = Some body ∧ st_db s' = st_db s.
Proof.
  intros Ho Hi Hr Hst. set (db0 := st_db s).
  assert (triple (fun _ db => db = db0) (list_jobs req org)
    (fun r _ db => ∃ page items body,
       job_page db0 o (default "" (search_param req "status")) i page ∧
       map_sum (fun j => mapJob (job_to_js j)) page = inr items ∧
       json_value (js_page items) = Some body ∧ res_body r = Some body ∧ db = db0)
    (fun _ => True)) as H; [|specialize (H s eq_refl); by rewrite Hr in H].
  unfold list_jobs, respond. eapply triple_bind.
  { apply (triple_conseq _ _ _ _ _ _ _ (solo_scheduleWorkerTick (fun db => db = db0))
      (fun _ _ H => H) (fun _ _ _ H => H)). done. }
  intros []. cbv zeta. eapply triple_bind; [apply (triple_sql _ _ (fun page _ db =>
    job_page db0 o (default "" (search_param req "status")) i page ∧ db = db0)); [done|]|].
  { intros n db page db' -> Hq. split; [|done]. by eapply list_jobs_page. }
  intros page. eapply triple_bind; [by apply triple_lift|]. intros items s1 (Hm & Hp & Hdb).
  simpl. unfold json. destruct (json_value (js_page items)) as [b|] eqn:E; [|done]. eauto 10.
Qed.

End isolation.

(** ** Instances *)

(** A user of another organization tries to pause the fixture's queue. *)
Definition intruder : Claims := MkClaims "u2" "o2" "eve@example.com" "admin".
Definition intruder_auth : option string :=
  Some ("Bearer " +:+ jwt_sign secret (claims_members intruder) (epoch 0) (epoch 0 + 86400)).


Lemma list_jobs_correct_witness :
  match run (list_jobs (demo_request "GET" None JNull) "o1") demo_store with
  | (inr r, s') => ∃ page items body, job_page demo_db "o1" "" None page ∧
      map_sum (fun j => mapJob (job_to_js j)) page = inr items ∧
      json_value (js_page items) = Some body ∧ res_body r = Some body ∧ st_db s' = demo_db
  | _ => False
  end.
Proof.
  assert (answered (run (list_jobs (demo_request "GET" None JNull) "o1") demo_store) = Some 200%Z)
    as H by (vm_compute; reflexivity).
  destruct (run (list_jobs _ "o1") demo_store) as [[e|r] s'] eqn:E; [discriminate|].
  apply (@list_jobs_correct demo demo_ok (demo_request "GET" None JNull) "o1" "o1" None
           demo_store r s' eq_refl eq_refl E).
  unfold answered in H. simpl in H. congruence.
Defined.
