(* ===== verification/JobsApi.v ===== *)
(** * Submitting and retrying jobs

    What the enqueue and retry routes do to the database and to the tick
    scheduler, on every branch, and the statistics of a queue. *)

From Stdlib Require Import QArith Qcanon.
From S2P Require Import Prelude JsValue JsJson Database Proc Hoare Http Auth DemoWorld Worker.
From S2P Require Import Scheduler Setup Router Integrity Statements Invariant Fixtures Claim.
From S2P Require Import Execution Sessions.

Open Scope js_scope.
Local Open Scope Z_scope.

Section jobs_api.
Context {W : World} `{!WorldOk W} {J : Jose}.

(** The store after [scheduleWorkerTick]: one step, and a tick in the
    background when the guard lets it through. *)
Definition scheduled (s : store) : store :=
  let '(start, v) := schedule_guard (st_step s) (st_vars s) in
  MkStore (st_db s) v (S (st_step s)) (st_bg s ++ if start : bool then [background_tick] else []).

Lemma run_scheduleWorkerTick s : run scheduleWorkerTick s = (inr tt, scheduled s).
Proof.
  unfold scheduleWorkerTick, scheduled. rewrite run_sync_bind.
  destruct (schedule_guard _ _) as [[] v]; simpl; [done|]. by rewrite app_nil_r.
Qed.

Lemma scheduled_db s : st_db (scheduled s) = st_db s.
Proof. unfold scheduled. by destruct (schedule_guard _ _) as [[] ?]. Qed.

(** ** Retry *)

Definition without_dlq (id : string) (db : DB) : DB :=
  with_dlq (filter (fun kd => eq_arg (Some id) (d_job_id kd.2) = false)) db.

Context (Hf : no_faults_at_all).

Lemma org_job_id db id o j k :
  db_ok db → jobs db !! k = Some j → org_job db (Some id) (Some o) j = true →
  k = id ∧ job_in_org db o j = true.
Proof.
  intros Hok Hk. unfold org_job, eq_arg. rewrite andb_true_iff, bool_decide_eq_true.
  intros [H ?]. split; [|done]. rewrite <- (ok_j_id _ Hok _ _ Hk). congruence.
Qed.

(** The rows that the retry statement returns: the job if it is one of the
    organization. *)
Lemma retried_rows n f db id o :
  db_ok db →
  updated_rows n (org_job db (Some id) (Some o)) f (jobs db) =
  match jobs db !! id with
  | Some j => if job_in_org db o j then [f j] else []
  | None => []
  end.
Proof.
  intros Hok. unfold updated_rows. rewrite (select_by_key j_id n _ _ id).
  - destruct (jobs db !! id) as [j|] eqn:Hj; [|done]. unfold org_job, eq_arg.
    rewrite (ok_j_id _ Hok _ _ Hj), bool_decide_true by done. by destruct (job_in_org db o j).
  - apply Hok.
  - intros j. unfold org_job, eq_arg. rewrite andb_true_iff, bool_decide_eq_true.
    intros [H _]. congruence.
Qed.

Definition retry_result (id o : string) (s : store) : (thrown + Response) * store :=
  let db1 := without_dlq id (st_db s) in
  let now := pg_now (S (st_step s)) in
  let db2 := with_jobs (update_where (org_job db1 (Some id) (Some o)) (set_retried now)) db1 in
  let s2 := MkStore db2 (st_vars s) (S (S (st_step s))) (st_bg s) in
  match jobs (st_db s) !! id with
  | Some j => if job_in_org (st_db s) o j
      then (try! v := mapJob (job_to_js (set_retried now j)) in json v 200, scheduled s2)
      else (inr not_found, s2)
  | None => (inr not_found, s2)
  end.

Lemma db_ok_without_dlq id db : db_ok db → db_ok (without_dlq id db).
Proof. unfold without_dlq. intros Hok. by apply db_ok_delete_dlq. Qed.

Lemma run_retry_job id org o s :
  db_ok (st_db s) → uuid_param (JStr id) = inr (Some id) →
  uuid_param (JStr org) = inr (Some o) →
  run (retry_job id org) s = retry_result id o s.
Proof.
  intros Hok Hi Ho. destruct s as [db v n bg]; simpl in Hok. unfold retry_job.
  erewrite run_stmt; [cbv beta|done|by unfold sql_delete_dlq, uuid_arg; rewrite Hi].
  erewrite run_stmt; [cbv beta|done|by unfold sql_retry_job, uuid_arg; rewrite Hi, Ho].
  change (with_dlq _ db) with (without_dlq id db).
  rewrite retried_rows by (by apply db_ok_without_dlq). unfold retry_result. simpl.
  assert (jobs (without_dlq id db) = jobs db) as -> by (by destruct db).
  assert (∀ j, job_in_org (without_dlq id db) o j = job_in_org db o j) as E by (by destruct db).
  destruct (jobs db !! id) as [j|]; [|done]. rewrite E.
  destruct (job_in_org db o j); [|done]. rewrite run_bind, run_scheduleWorkerTick.
  unfold map_job, respond. rewrite run_bind.
  by destruct (mapJob _) as [e|jv].
Qed.

Lemma json_object l st : ∃ v, json (JObj l) st = inr (MkResponse st (Some v)).
Proof. unfold json. simpl. eauto. Qed.

Lemma mapJob_object j p :
  parse_payload (j_payload j) = inr p → ∃ l, mapJob (job_to_js j) = inr (JObj l).
Proof.
  intros Hp. destruct (proj2 (mapJob_ok j)) as [v Hv]; [eauto|]. unfold mapJob in *.
  destruct (parse_payload _); simplify_eq/=; eauto.
Qed.

Lemma dlq_without id db k d :
  dead_letter_queue (without_dlq id db) !! k = Some d ↔
  dead_letter_queue db !! k = Some d ∧ d_job_id d ≠ id.
Proof.
  unfold without_dlq. destruct db; simpl. rewrite map_lookup_filter_Some. simpl. unfold eq_arg.
  rewrite bool_decide_eq_false. naive_solver.
Qed.

Lemma set_retried_row now j :
  j_id (set_retried now j) = j_id j ∧ j_queue_id (set_retried now j) = j_queue_id j ∧
  j_payload (set_retried now j) = j_payload j.
Proof. by destruct j. Qed.

Lemma retried_claimable now now' j :
  now ≤ now' → claimable (j_queue_id j) now' (set_retried now j) = true.
Proof.
  intros H. destruct j. unfold claimable, in_queue, due. simpl. by rewrite !bool_decide_true.
Qed.

Lemma update_retried f db id o j :
  db_ok db → jobs db !! id = Some j → job_in_org db o j = true →
  update_where (org_job db (Some id) (Some o)) f (jobs db) = <[id := f j]> (jobs db).
Proof.
  intros Hok Hj Ho. apply map_eq. intros k. rewrite lookup_update_where.
  destruct (decide (k = id)) as [->|Hne].
  - rewrite Hj, lookup_insert_eq. simpl. unfold org_job, eq_arg.
    rewrite Ho, (ok_j_id _ Hok _ _ Hj). by rewrite bool_decide_true.
  - rewrite lookup_insert_ne by done. destruct (jobs db !! k) as [r|] eqn:Hk; simpl; [|done].
    destruct (org_job _ _ _ r) eqn:E; [|done].
    by destruct (org_job_id _ _ _ _ _ Hok Hk E) as [-> _].
Qed.

(** What a retry of a job of the organization answers and leaves. *)
Lemma run_retry_requeues id org o j p s :
  db_ok (st_db s) → uuid_param (JStr id) = inr (Some id) →
  uuid_param (JStr org) = inr (Some o) →
  jobs (st_db s) !! id = Some j → job_in_org (st_db s) o j = true →
  parse_payload (j_payload j) = inr p →
  ∃ v s', run (retry_job id org) s = (inr (MkResponse 200 (Some v)), s') ∧
    jobs (st_db s') = <[id := set_retried (pg_now (S (st_step s))) j]> (jobs (st_db s)) ∧
    queues (st_db s') = queues (st_db s) ∧
    (∀ k d, dead_letter_queue (st_db s') !! k = Some d ↔
            dead_letter_queue (st_db s) !! k = Some d ∧ d_job_id d ≠ id).
Proof.
  intros Hok Hi Ho Hj Hin Hp. rewrite (run_retry_job _ _ _ _ Hok Hi Ho).
  unfold retry_result. rewrite Hj, Hin. set (now := pg_now (S (st_step s))).
  destruct (mapJob_object (set_retried now j) p) as [l ->].
  { destruct (set_retried_row now j) as (_ & _ & ->). done. }
  simpl. destruct (json_object l 200) as [v ->].
  eexists v, _. split; [done|]. rewrite scheduled_db. simpl. rewrite jobs_with_jobs. split_and!.
  - pose proof (update_retried (set_retried now) (without_dlq id (st_db s)) id o j) as E.
    destruct (st_db s); apply E; try done. by apply db_ok_without_dlq.
  - by destruct (st_db s).
  - intros k d. rewrite <- dlq_without. by destruct (st_db s).
Qed.


(** Retrying a job of another organization is answered 404, but the dead
    letter rows of that job are deleted all the same: the deletion comes
    before the ownership check and is not restricted to the organization. *)
Theorem retry_deletes_foreign_dead_letter id org o j s :
  db_ok (st_db s) → uuid_param (JStr id) = inr (Some id) →
  uuid_param (JStr org) = inr (Some o) →
  jobs (st_db s) !! id = Some j → job_in_org (st_db s) o j = false →
  ∃ s', run (retry_job id org) s = (inr not_found, s') ∧
    jobs (st_db s') = jobs (st_db s) ∧
    (∀ k d, dead_letter_queue (st_db s') !! k = Some d ↔
            dead_letter_queue (st_db s) !! k = Some d ∧ d_job_id d ≠ id).
Proof.
  intros Hok Hi Ho Hj Hin. rewrite (run_retry_job _ _ _ _ Hok Hi Ho).
  unfold retry_result. rewrite Hj, Hin. eexists. split; [done|]. simpl. split.
  - rewrite jobs_with_jobs. destruct (st_db s) as [o' u p q w h jb x l d] eqn:Es; simpl.
    apply update_where_none. intros k r Hk. destruct (org_job _ _ _ r) eqn:E; [|done].
    destruct (org_job_id (MkDB o' u p q w h jb x l d) id o r k Hok Hk E) as [-> Hr].
    simpl in Hj. congruence.
  - intros k d. rewrite <- dlq_without. by destruct (st_db s).
Qed.

(** ** Enqueue *)

Lemma select_queue_rows n db id o :
  db_ok db →
  select_where n (org_queue db (Some id) (Some o)) (queues db) =
  match queues db !! id with
  | Some q => if queue_in_org db o q then [q] else []
  | None => []
  end.
Proof.
  intros Hok. rewrite (select_by_key q_id n _ _ id).
  - destruct (queues db !! id) as [q|] eqn:Hq; [|done]. unfold org_queue, eq_arg.
    rewrite (ok_q_id _ Hok _ _ Hq), bool_decide_true by done. done.
  - apply Hok.
  - intros q. unfold org_queue, eq_arg. rewrite andb_true_iff, bool_decide_eq_true.
    intros [H _]. congruence.
Qed.

(** An update of a queue of the organization changes that row only. *)
Lemma update_org_queue f db id o q :
  db_ok db → queues db !! id = Some q → queue_in_org db o q = true →
  update_where (org_queue db (Some id) (Some o)) f (queues db) = <[id := f q]> (queues db).
Proof.
  intros Hok Hq Horg. apply map_eq. intros k. rewrite lookup_update_where.
  unfold org_queue, eq_arg. destruct (decide (k = id)) as [->|Hk].
  - rewrite lookup_insert_eq, Hq. simpl.
    by rewrite (ok_q_id _ Hok _ _ Hq), bool_decide_true, Horg.
  - rewrite lookup_insert_ne by done. destruct (queues db !! k) as [r|] eqn:E; [|done]. simpl.
    by rewrite (ok_q_id _ Hok _ _ E), bool_decide_false by congruence.
Qed.

(** The row that a submission asks for, from its body and its queue. *)
Record submission (qid : string) (body : jsval) (q : QueueRow) (pr ma off : Z)
    (stored : jsval) (key : option string) : Prop := {
  sub_queue : uuid_param (JStr qid) = inr (Some qid);
  sub_priority : int4_param (nullish (nullish (field body "priority")
                   (JInt (q_priority_default q))) (JInt 5)) = inr (Some pr);
  sub_payload : json_value (field body "payload") = Some stored;
  sub_readable : ∃ p, parse_payload stored = inr p;
  sub_attempts : int4_param (nullish (field body "max_attempts") (JInt 3)) = inr (Some ma);
  sub_delay : let d := num_or (js_to_num (field body "delay_seconds")) (num_of_Z 0) in
    if num_ltb (num_of_Z 0) d then seconds_param d = inr off else off = 0;
  sub_key : text_param (nullish (field body "idempotency_key") JNull) = key;
  sub_key_used : truthy (field body "idempotency_key") = true → is_Some key;
  sub_body : ∃ v, prop body "idempotency_key" = inr v;
}.

Definition new_job (n : nat) (qid : string) (pr ma off : Z) (stored : jsval)
    (key cron : option string) : JobRow :=
  MkJob (pg_uuid n) qid Queued pr stored key (Some (pg_now n + off)) 0 ma
    None None None None None None None cron None (pg_now n) (pg_now n).

Lemma insert_job_ok qid body q pr ma off stored key cron n db :
  submission qid body q pr ma off stored key →
  jobs db !! pg_uuid n = None → is_Some (queues db !! qid) →
  (∀ i j k, jobs db !! i = Some j → j_queue_id j = qid → key = Some k →
     j_idempotency_key j ≠ Some k) →
  sql_insert_job qid
    (nullish (nullish (field body "priority") (JInt (q_priority_default q))) (JInt 5))
    (field body "payload") (nullish (field body "idempotency_key") JNull)
    (nullish (field body "max_attempts") (JInt 3))
    (let d := num_or (js_to_num (field body "delay_seconds")) (num_of_Z 0) in
     if num_ltb (num_of_Z 0) d then Some d else None) cron n db =
  inr (new_job n qid pr ma off stored key (text_param cron),
       with_jobs <[pg_uuid n := new_job n qid pr ma off stored key (text_param cron)]> db).
Proof.
  intros [Hq Hp Hpl _ Hm Hd Hk _ _] Hn [qr Hqr] Hun. cbv zeta in Hd.
  assert (match key with
          | Some k => negb (some_row (fun j => bool_decide (j_queue_id j = qid ∧
              j_idempotency_key j = Some k)) (jobs db))
          | None => true end = true) as Hun'.
  { destruct key as [k|]; [|done]. apply negb_true_iff, some_row_false. intros i j Hj.
    apply bool_decide_eq_false. intros [? ?]. by eapply Hun. }
  unfold sql_insert_job, uuid_required, int4_required, uuid_arg.
  rewrite Hq, Hp, Hpl, Hm, Hk. cbn [bind_sum throw_pg from_option_sum].
  rewrite Hun', (has_key_None _ _ Hn), (has_key_Some _ _ _ Hqr).
  cbv zeta. destruct (num_ltb _ _); rewrite Hd; done.
Qed.

Lemma nullish_truthy v w : truthy v = true → nullish v w = v.
Proof. by destruct v. Qed.

(** The job that already holds a key. *)
Lemma job_by_key_rows n qid key k db :
  db_ok db → uuid_param (JStr qid) = inr (Some qid) → text_param key = Some k →
  ∃ l, sql_job_by_key qid key n db = inr (l, db) ∧
    ∀ i j, jobs db !! i = Some j → j_queue_id j = qid → j_idempotency_key j = Some k → l = [j].
Proof.
  intros Hok Hq Hk. unfold sql_job_by_key, uuid_arg. rewrite Hq, Hk. simpl. eexists. split; [done|].
  intros i j Hj Hjq Hjk. set (l := select_where _ _ _).
  assert (∀ r, r ∈ l ↔ r = j) as Hl.
  { intros r. unfold l. rewrite elem_of_select_where, andb_true_iff. unfold eq_arg.
    rewrite !bool_decide_eq_true. split.
    - intros ([Hrq Hrk] & i' & Hr). assert (i' = i) as ->; [|congruence].
      eapply (ok_idem _ Hok); eauto. congruence.
    - intros ->. split; [|eauto]. split; congruence. }
  destruct l as [|r l]; [exfalso; by eapply not_elem_of_nil, (Hl j)|].
  rewrite (proj1 (Hl r)) by set_solver. done.
Qed.

Lemma job_by_key_none n qid key k db :
  uuid_param (JStr qid) = inr (Some qid) → text_param key = Some k →
  (∀ i j, jobs db !! i = Some j → j_queue_id j = qid → j_idempotency_key j ≠ Some k) →
  sql_job_by_key qid key n db = inr ([], db).
Proof.
  intros Hq Hk Hun. unfold sql_job_by_key, uuid_arg. rewrite Hq, Hk. simpl. do 2 f_equal.
  set (l := select_where _ _ _). destruct l as [|r l'] eqn:E; [done|]. exfalso.
  assert (r ∈ l) as Hr by (rewrite E; set_solver). unfold l in Hr.
  apply elem_of_select_where in Hr as [Hp [i Hi]]. unfold eq_arg in Hp.
  apply andb_true_iff in Hp as [H1%bool_decide_eq_true H2%bool_decide_eq_true].
  eapply Hun; [done| |done]. congruence.
Qed.

(** The queue lookup that opens the route. *)
Lemma run_enqueue_start req qid org o body q v s :
  req_json req = inr body → db_ok (st_db s) → prop body "idempotency_key" = inr v →
  uuid_param (JStr qid) = inr (Some qid) → uuid_param (JStr org) = inr (Some o) →
  queues (st_db s) !! qid = Some q → queue_in_org (st_db s) o q = true →
  run (enqueue_job req qid org) s =
  run (let! existing := (if truthy v then sql (sql_job_by_key qid v) else ret []) in
       match existing with
       | j :: _ => let! job := map_job j in respond job 200
       | [] =>
         let delaySec := num_or (js_to_num (field body "delay_seconds")) (num_of_Z 0) in
         insert_and_schedule qid body q
           (if num_ltb (num_of_Z 0) delaySec then Some delaySec else None)
       end) (MkStore (st_db s) (st_vars s) (S (st_step s)) (st_bg s)).
Proof.
  intros Hb Hok Hp Hi Ho Hq Hin. destruct s as [db vs n bg]; simpl in Hok, Hq, Hin.
  unfold enqueue_job, body_of. rewrite Hb, run_lift_bind.
  erewrite run_stmt; [cbv beta|done|].
  2:{ unfold sql_select_queue, uuid_arg. rewrite Hi, Ho. cbn [bind_sum throw_pg].
      rewrite (select_queue_rows _ _ _ _ Hok), Hq, Hin. done. }
  unfold get. by rewrite Hp, run_lift_bind.
Qed.

(** Where a submission is made. *)
Record submit_at (qid org o : string) (q : QueueRow) (db : DB) : Prop := {
  at_ok : db_ok db;
  at_org : uuid_param (JStr org) = inr (Some o);
  at_queue : queues db !! qid = Some q;
  at_in_org : queue_in_org db o q = true;
}.

Definition key_free (qid : string) (key : option string) (db : DB) : Prop :=
  ∀ i j k, jobs db !! i = Some j → j_queue_id j = qid → key = Some k →
    j_idempotency_key j ≠ Some k.

Definition cron_of (body : jsval) : option string :=
  text_param (nullish (field body "cron_expr") JNull).

Lemma run_insert_and_schedule qid body q pr ma off stored key s :
  submission qid body q pr ma off stored key → jobs (st_db s) !! pg_uuid (st_step s) = None →
  is_Some (queues (st_db s) !! qid) → key_free qid key (st_db s) →
  let row := new_job (st_step s) qid pr ma off stored key (cron_of body) in
  run (insert_and_schedule qid body q
         (let d := num_or (js_to_num (field body "delay_seconds")) (num_of_Z 0) in
          if num_ltb (num_of_Z 0) d then Some d else None)) s =
  (try! v := mapJob (job_to_js row) in json v 201,
   scheduled (MkStore (with_jobs <[pg_uuid (st_step s) := row]> (st_db s)) (st_vars s)
                (S (st_step s)) (st_bg s))).
Proof.
  intros Hsub Hn Hq Hfree. destruct s as [db vs n bg]; simpl in Hn, Hq, Hfree. cbv zeta.
  unfold insert_and_schedule. cbv zeta.
  erewrite run_stmt; [cbv beta|done|by apply (insert_job_ok _ _ _ _ _ _ _ _ _ _ _ Hsub)].
  rewrite run_bind, run_scheduleWorkerTick. unfold map_job, respond. rewrite run_bind.
  simpl. fold (cron_of body). by destruct (mapJob _).
Qed.

Lemma prop_field body k v : prop body k = inr v → v = field body k.
Proof. destruct body; intros; simplify_eq/=; done. Qed.

(** The branch without an existing job: one or two statements, then the
    insert. *)
Lemma run_enqueue_new req qid org o body q pr ma off stored key s :
  req_json req = inr body → submit_at qid org o q (st_db s) →
  submission qid body q pr ma off stored key → key_free qid key (st_db s) →
  ∃ n, (st_step s < n)%nat ∧
  run (enqueue_job req qid org) s =
  run (insert_and_schedule qid body q
         (let d := num_or (js_to_num (field body "delay_seconds")) (num_of_Z 0) in
          if num_ltb (num_of_Z 0) d then Some d else None))
      (MkStore (st_db s) (st_vars s) n (st_bg s)).
Proof.
  intros Hb [Hok Ho Hq Hin] Hsub Hfree. pose proof Hsub as [Hi _ _ _ _ _ Hk Hku [v Hv]].
  rewrite (run_enqueue_start _ _ _ _ _ _ _ _ Hb Hok Hv Hi Ho Hq Hin).
  apply prop_field in Hv as ->. destruct (truthy _) eqn:Ht.
  - destruct (Hku eq_refl) as [k Hk']. rewrite (nullish_truthy _ _ Ht) in Hk.
    erewrite run_stmt; [cbv beta|done|].
    2:{ eapply job_by_key_none; [done|by rewrite Hk|]. intros i j Hj Hjq. by eapply Hfree. }
    eexists. split; [|done]. lia.
  - rewrite run_bind. eexists. split; [|done]. lia.
Qed.

(** C14: A submission to a queue of the organization whose idempotency key is
    new is answered 201 and adds exactly one job: queued, with no attempts,
    the priority, attempt limit, key and payload of the request or their
    defaults, due after the requested delay. A worker tick starts in the
    background when the scheduler's guard allows it. *)
Theorem enqueue_creates req qid org o body q pr ma off stored key s :
  req_json req = inr body → submit_at qid org o q (st_db s) →
  submission qid body q pr ma off stored key → key_free qid key (st_db s) →
  (∀ n, (st_step s < n)%nat → jobs (st_db s) !! pg_uuid n = None) →
  ∃ r s' n, run (enqueue_job req qid org) s = (inr r, s') ∧ res_status r = 201 ∧
    (st_step s < n)%nat ∧
    st_db s' = with_jobs <[pg_uuid n := new_job n qid pr ma off stored key (cron_of body)]> (st_db s) ∧
    st_bg s' = st_bg s ++
      (if (schedule_guard (S n) (st_vars s)).1 then [background_tick] else []).
Proof.
  intros Hb Hat Hsub Hfree Hfresh.
  destruct (run_enqueue_new _ _ _ _ _ _ _ _ _ _ _ _ Hb Hat Hsub Hfree) as (n & Hn & ->).
  rewrite (run_insert_and_schedule _ _ _ _ _ _ _ _ _ Hsub); simpl;
    [|auto|destruct Hat; eauto|done].
  destruct (sub_readable _ _ _ _ _ _ _ _ Hsub) as [p Hp].
  destruct (mapJob_object (new_job n qid pr ma off stored key (cron_of body)) p Hp) as [l ->].
  simpl. destruct (json_object l 201) as [v ->]. eexists _, _, n. split; [done|].
  rewrite scheduled_db. split_and!; try done. unfold scheduled. simpl.
  by destruct (schedule_guard _ _).
Qed.

Lemma run_enqueue_existing req qid org o body q pr ma off stored key k i j s :
  req_json req = inr body → submit_at qid org o q (st_db s) →
  submission qid body q pr ma off stored key →
  truthy (field body "idempotency_key") = true → key = Some k →
  jobs (st_db s) !! i = Some j → j_queue_id j = qid → j_idempotency_key j = Some k →
  run (enqueue_job req qid org) s =
  (try! v := mapJob (job_to_js j) in json v 200,
   MkStore (st_db s) (st_vars s) (S (S (st_step s))) (st_bg s)).
Proof.
  intros Hb [Hok Ho Hq Hin] [Hi _ _ _ _ _ Hk _ [v Hv]] Ht -> Hj Hjq Hjk.
  rewrite (run_enqueue_start _ _ _ _ _ _ _ _ Hb Hok Hv Hi Ho Hq Hin).
  apply prop_field in Hv as ->. rewrite Ht. rewrite (nullish_truthy _ _ Ht) in Hk.
  destruct (job_by_key_rows (S (st_step s)) qid _ _ _ Hok Hi Hk) as (l & Hl & Hlj).
  erewrite run_stmt; [cbv beta|done|exact Hl]. rewrite (Hlj _ _ Hj Hjq Hjk).
  unfold map_job, respond. rewrite run_bind. simpl. by destruct (mapJob _).
Qed.

Lemma submit_at_insert qid org o q db n pr ma off stored key cron :
  submit_at qid org o q db → key_free qid key db →
  submit_at qid org o q
    (with_jobs <[pg_uuid n := new_job n qid pr ma off stored key cron]> db).
Proof.
  intros [Hok Ho Hq Hin] Hfree. split; try done; try by destruct db.
  apply db_ok_insert_job; try done.
  simpl. intros k' r' key' Hr' Hrq Hrk ->. by eapply Hfree.
Qed.

(** C15: Submitting the same request with an idempotency key twice creates one
    job: the second submission is answered 200 with the body of the first,
    changes nothing in the database and starts no tick. *)
Theorem enqueue_idempotent req qid org o body q pr ma off stored key s :
  req_json req = inr body → submit_at qid org o q (st_db s) →
  submission qid body q pr ma off stored key → key_free qid key (st_db s) →
  truthy (field body "idempotency_key") = true →
  (∀ n, (st_step s < n)%nat → jobs (st_db s) !! pg_uuid n = None) →
  ∃ r1 s1 r2 s2, run (enqueue_job req qid org) s = (inr r1, s1) ∧ res_status r1 = 201 ∧
    run (enqueue_job req qid org) s1 = (inr r2, s2) ∧ res_status r2 = 200 ∧
    res_body r2 = res_body r1 ∧ st_db s2 = st_db s1 ∧ st_bg s2 = st_bg s1.
Proof.
  intros Hb Hat Hsub Hfree Ht Hfresh.
  destruct (run_enqueue_new _ _ _ _ _ _ _ _ _ _ _ _ Hb Hat Hsub Hfree) as (n & Hn & ->).
  rewrite (run_insert_and_schedule _ _ _ _ _ _ _ _ _ Hsub); simpl;
    [|auto|destruct Hat; eauto|done].
  set (row := new_job n qid pr ma off stored key (cron_of body)).
  set (s1 := scheduled _). destruct (sub_key_used _ _ _ _ _ _ _ _ Hsub Ht) as [k Hk].
  assert (run (enqueue_job req qid org) s1 = (try! v := mapJob (job_to_js row) in json v 200,
    MkStore (st_db s1) (st_vars s1) (S (S (st_step s1))) (st_bg s1))) as Hrun.
  { eapply (run_enqueue_existing _ _ _ _ _ _ _ _ _ _ _ _ (pg_uuid n)); try done;
      unfold s1; rewrite scheduled_db.
    - by apply submit_at_insert.
    - simpl. rewrite jobs_with_jobs. by rewrite lookup_insert_eq. }
  destruct (sub_readable _ _ _ _ _ _ _ _ Hsub) as [p Hp].
  destruct (mapJob_object row p Hp) as [l Hl]. rewrite Hl in *. simpl in *.
  destruct (json_object l 201) as [v1 E1], (json_object l 200) as [v2 E2]. rewrite E1.
  rewrite E2 in Hrun. eexists _, s1, _, _. split_and!; try done.
  simpl. unfold json in *. destruct (json_value (JObj l)); congruence.
Qed.

(** ** Queue statistics *)

Lemma success_rate_bounds completed failed :
  0 ≤ completed → 0 ≤ failed →
  (0 <= success_rate completed failed)%Qc ∧ (success_rate completed failed <= 1)%Qc ∧
  (failed = 0 → success_rate completed failed = 1%Qc) ∧
  (completed = 0 → failed ≠ 0 → success_rate completed failed = 0%Qc).
Proof.
  intros Hc Hfl. unfold success_rate. case_bool_decide as Ht.
  { split_and!; [done..|]. intros. lia. }
  assert (0 < Qc_of_Z (completed + failed))%Qc as Hpos.
  { rewrite <- Z2Qc_inj_0, <- Z2Qc_inj_lt. lia. }
  assert (Qc_of_Z (completed + failed) ≠ 0%Qc) as Hne by (intros E; by rewrite E in Hpos).
  assert (∀ z, 0 ≤ z ≤ completed + failed →
    (0 <= Qc_of_Z z / Qc_of_Z (completed + failed))%Qc ∧
    (Qc_of_Z z / Qc_of_Z (completed + failed) <= 1)%Qc) as Hz.
  { intros z [Hz1 Hz2]. rewrite Z2Qc_inj_le, Z2Qc_inj_0 in Hz1. rewrite Z2Qc_inj_le in Hz2.
    split; apply (Qcmult_lt_0_le_reg_r _ _ _ Hpos);
      rewrite Qcmult_assoc || idtac; unfold Qcdiv.
    all: rewrite <- ?Qcmult_assoc, ?(Qcmult_comm (/ _)), ?Qcmult_inv_r, ?Qcmult_1_r, ?Qcmult_0_l,
           ?Qcmult_1_l by done; done. }
  destruct (Hz completed ltac:(lia)) as [? ?]. split_and!; [done..| |].
  - intros ->. rewrite Z.add_0_r in *. unfold Qcdiv. by apply Qcmult_inv_r.
  - intros -> _. rewrite Z2Qc_inj_0. unfold Qcdiv. by rewrite Qcmult_0_l.
Qed.

(** The statistics of a queue are consistent: counts are not negative,
    the completions of the last hour are among those of the last day, which
    are all the completions reported; the success rate is between 0 and 1, is
    1 when nothing failed and 0 when something finished and nothing
    completed. *)
Lemma queue_stats_consistent qid n db st db' :
  sql_queue_stats qid n db = inr (st, db') →
  db' = db ∧ 0 ≤ s_tp1h st ≤ s_tp24h st ∧ s_tp24h st = s_completed st ∧ 0 ≤ s_failed st ∧
  let rate := success_rate (s_completed st) (s_failed st) in
  (0 <= rate)%Qc ∧ (rate <= 1)%Qc ∧ (s_failed st = 0 → rate = 1%Qc) ∧
  (s_completed st = 0 → s_failed st ≠ 0 → rate = 0%Qc).
Proof.
  unfold sql_queue_stats. intros H. apply bind_sum_inr in H as (i & _ & H). cbv zeta in H.
  apply (inj inr) in H. injection H as <- <-. split; [done|].
  cbn [s_tp1h s_tp24h s_completed s_failed].
  set (rs := List.filter _ (rows (job_executions db))).
  assert (length (List.filter (fun x => exec_is "completed" x &&
      finished_since (pg_now n - 24 * hour) x) rs) =
    length (List.filter (exec_is "completed") rs)) as E.
  { f_equal. apply filter_bool_ext. intros x Hx. unfold rs in Hx.
    apply elem_of_filter_bool in Hx as [Hx _]. apply andb_true_iff in Hx as [_ ->].
    by rewrite andb_true_r. }
  split; [split; [lia|]|split; [by rewrite E|split; [lia|]]].
  - apply Nat2Z.inj_le, length_filter_impl. intros x Hx. rewrite !andb_true_iff.
    intros [? Hh]. split; [done|]. unfold finished_since in *.
    destruct (x_finished_at x); [|done]. rewrite bool_decide_eq_true in *.
    unfold hour, seconds in *. lia.
  - apply success_rate_bounds; lia.
Qed.

End jobs_api.

(** ** Instances *)


Lemma retry_deletes_foreign_dead_letter_witness :
  ∃ s', run (retry_job "j5" "o2") demo_store = (inr not_found, s') ∧
    jobs (st_db s') = jobs demo_db ∧
    (∀ k d, dead_letter_queue (st_db s') !! k = Some d ↔
            dead_letter_queue demo_db !! k = Some d ∧ d_job_id d ≠ "j5").
Proof.
  apply (@retry_deletes_foreign_dead_letter demo demo_ok demo_no_faults "j5" "o2" "o2" demo_j5
           demo_store); try reflexivity. apply demo_sys_ok.
Defined.

(** A delayed job with an idempotency key. *)
Definition demo_submit : jsval :=
  JObj [("payload", sleep_payload); ("delay_seconds", JInt 60); ("idempotency_key", JStr "order-17")].

Lemma demo_submit_at : submit_at (W := demo) "q1" "o1" "o1" demo_queue demo_db.
Proof. split; try reflexivity. apply demo_sys_ok. Qed.

Lemma demo_submission :
  submission (W := demo) "q1" demo_submit demo_queue 5 3 60000000 sleep_payload (Some "order-17").
Proof. split; try done; by eexists. Qed.

Lemma demo_key_free : key_free "q1" (Some "order-17") demo_db.
Proof.
  intros i j k Hi _ [= <-]. unfold demo_db in Hi. simpl in Hi. fixture_rows; done.
Qed.

Lemma demo_new_ids n : (0 < n)%nat → jobs demo_db !! pg_uuid (World := demo) n = None.
Proof. done. Qed.

Lemma enqueue_creates_witness :
  ∃ r s' n, run (enqueue_job (demo_request "POST" None demo_submit) "q1" "o1") demo_store =
      (inr r, s') ∧ res_status r = 201 ∧ (st_step demo_store < n)%nat ∧
    st_db s' = with_jobs <[pg_uuid n := new_job n "q1" 5 3 60000000 sleep_payload
                             (Some "order-17") (cron_of demo_submit)]> (st_db demo_store) ∧
    st_bg s' = st_bg demo_store ++
      (if (schedule_guard (S n) (st_vars demo_store)).1 then [background_tick] else []).
Proof.
  apply (@enqueue_creates demo demo_ok demo_no_faults
           (demo_request "POST" None demo_submit) "q1" "o1" "o1" demo_submit demo_queue
           5 3 60000000 sleep_payload (Some "order-17") demo_store eq_refl
           demo_submit_at demo_submission demo_key_free demo_new_ids).
Defined.

Lemma enqueue_idempotent_witness :
  let submit := enqueue_job (demo_request "POST" None demo_submit) "q1" "o1" in
  ∃ r1 s1 r2 s2, run submit demo_store = (inr r1, s1) ∧ res_status r1 = 201 ∧
    run submit s1 = (inr r2, s2) ∧ res_status r2 = 200 ∧
    res_body r2 = res_body r1 ∧ st_db s2 = st_db s1 ∧ st_bg s2 = st_bg s1.
Proof.
  apply (@enqueue_idempotent demo demo_ok demo_no_faults
           (demo_request "POST" None demo_submit) "q1" "o1" "o1" demo_submit demo_queue
           5 3 60000000 sleep_payload (Some "order-17") demo_store eq_refl
           demo_submit_at demo_submission demo_key_free eq_refl demo_new_ids).
Defined.

