(* ===== verification/Lifecycle.v ===== *)
(** * Ownership of jobs

    A job in flight has an owner and a lease, any other job has neither. The
    statements of a tick keep this when ticks do not overlap; two overlapping
    ticks can break it, and the job that results is never picked up again. *)

From S2P Require Import Prelude JsValue JsJson Database Proc Hoare Http Auth DemoWorld Worker.
From S2P Require Import Scheduler Setup Router Integrity Statements Programs Invariant.
From S2P Require Import Fixtures Claim.
From S2P Require Import Execution TickLogic Sessions.

Open Scope js_scope.
Local Open Scope Z_scope.

(** ** The reaper *)

Section reaper.
Context {W : World}.


End reaper.

(** ** Ownership *)

Record own_ok (db : DB) : Prop := {
  own_db : db_ok db;
  own_jobs : ∀ k j, jobs db !! k = Some j → owned j;
}.

Section ownership.
Context {W : World} `{!WorldOk W}.

(** An update of some rows that leaves them owned as they should be. *)
Lemma own_update P f db :
  own_ok db → db_ok (with_jobs (update_where P f) db) →
  (∀ k j, jobs db !! k = Some j → P j = true → owned (f j)) →
  own_ok (with_jobs (update_where P f) db).
Proof.
  intros [_ Ho] Hok Hf. split; [done|]. intros k j.
  rewrite jobs_with_jobs, lookup_update_where_Some. intros (j0 & Hj0 & ->).
  destruct (P j0) eqn:E; eauto.
Qed.

Lemma owned_claimed_running a now j :
  j_status j = Claimed → owned j → owned (set_running a now j).
Proof. destruct j. unfold owned. simpl. by intros ->. Qed.

#[export] Instance own_tick : TickInvariant own_ok.
Proof.
  split.
  - by intros db [].
  - intros db db' [_ Ho] Hok E _. split; [done|]. by rewrite E.
  - intros n db job f Ho Hj Hst Hok. apply own_update; [done..|]. intros k j' Hk Hid.
    apply bool_decide_eq_true in Hid. rewrite (ok_j_id _ (own_db _ Ho) _ _ Hk) in Hid.
    simplify_eq. apply owned_claimed_running; [done|]. by eapply own_jobs.
  - intros n db id j f Ho _ _ Hf Hok. apply own_update; [done..|]. intros k j' _ _.
    by eapply ends_releases.
  - intros n db db' Ho Hok H. unfold sql_reap in H. simplify_eq. apply own_update; [done..|].
    by intros k [].
  - intros n qid wid b db claimed db' Ho Hok _ _ H. apply claim_result in H as [_ ->].
    apply own_update; [done..|]. intros k [] _ _. unfold owned. simpl. split; eauto.
Qed.

Tactic Notation "other_tables" reference(q) :=
  let H := fresh in intros n db x db' H; unfold q in H;
  repeat (case_match || query_inv H); simplify_eq/=; by destruct db.

Lemma own_other {X} (q : query X) :
  keeps_ok q → (∀ n db x db', q n db = inr (x, db') → jobs db' = jobs db) → keeps own_ok q.
Proof.
  intros Hq Hj n db x db' [Hok Ho] H. split; [by eapply Hq|]. by rewrite (Hj _ _ _ _ H).
Qed.

(** New jobs and retried jobs have no owner. *)
Lemma own_insert_job db k r :
  own_ok db → db_ok (with_jobs <[k := r]> db) → owned r → own_ok (with_jobs <[k := r]> db).
Proof.
  intros [_ Ho] Hok Hr. split; [done|]. rewrite jobs_with_jobs. intros k' j Hj. old_rows; eauto.
Qed.

#[export] Instance own_statements org : ApiStatements own_ok org.
Proof.
  split; intros.
  - apply own_other; [apply keeps_insert_project|other_tables sql_insert_project].
  - apply own_other; [apply keeps_insert_queue|other_tables sql_insert_queue].
  - apply own_other; [apply keeps_set_paused|other_tables sql_set_paused].
  - apply own_other; [apply keeps_update_queue|other_tables sql_update_queue].
  - intros n db x db' Ho H.
    pose proof (keeps_insert_job _ _ _ _ _ _ _ _ _ _ _ (own_db _ Ho) H) as Hok.
    unfold sql_insert_job in H. query_inv H. simplify_eq. apply own_insert_job; [done..|by split].
  - apply own_other; [apply keeps_delete_dlq|other_tables sql_delete_dlq].
  - intros n db x db' Ho H.
    pose proof (keeps_retry_job _ _ _ _ _ _ (own_db _ Ho) H) as Hok. split; [done|].
    unfold sql_retry_job in H. query_inv H. simplify_eq. intros k j.
    rewrite jobs_with_jobs, lookup_update_where_Some. intros (j0 & Hj0 & ->).
    case_match; [by destruct j0|]. eapply own_jobs; eauto.
Qed.

#[export] Instance own_serial : SerialInvariant own_ok.
Proof.
  split; try apply _; intros.
  - apply own_other; [apply keeps_insert_org|other_tables sql_insert_org].
  - apply own_other; [apply keeps_insert_user|other_tables sql_insert_user].
  - apply own_other; [apply keeps_seed_project|other_tables sql_seed_project].
  - apply own_other; [apply keeps_seed_queue|other_tables sql_seed_queue].
  - intros n db x db' Ho H.
    pose proof (keeps_seed_job _ _ _ _ _ _ (own_db _ Ho) H) as Hok.
    unfold sql_seed_job in H. query_inv H. simplify_eq. apply own_insert_job; [done..|by split].
  - apply own_other; [apply keeps_seed_worker|other_tables sql_seed_worker].
Qed.

Context {J : Jose}.

(** C7: As long as requests and ticks run one at a time, a job in flight
    always has an owner and a lease and any other job has neither, whatever
    requests are made and whatever statements the connection fails at. *)
Theorem ownership_when_serial ps s :
  Forall server_task ps → own_ok (st_db s) → own_ok (st_db (run_serially ps s)).
Proof. apply serial_keeps, _. Qed.

End ownership.

(** ** Instances *)


Lemma demo_own_ok : own_ok demo_db.
Proof.
  split; [apply demo_sys_ok|]. unfold demo_db. simpl. intros k j Hj.
  fixture_rows; unfold owned; simpl; eauto.
Qed.

(** Three requests under a connection that fails at step 7. *)
Definition serial_tasks : list (proc unit) := busy_pool ++ [background_tick (W := flaky)].

Lemma ownership_when_serial_witness :
  own_ok (st_db (run_serially (W := flaky) serial_tasks demo_store)).
Proof.
  apply (@ownership_when_serial flaky (demo_world_ok 1000000 _ demo_vars ltac:(done)) _).
  - repeat apply Forall_cons_2; [left; constructor|left; constructor|by right|apply Forall_nil_2].
  - exact demo_own_ok.
Defined.
