(* ===== verification/Interference.v ===== *)
(** * What worker ticks leave alone

    Properties of every interleaving of any number of ticks: rows of paused
    queues, and the job that two overlapping ticks can leave behind. *)

From S2P Require Import Prelude JsValue JsJson Database Proc Hoare Http Auth DemoWorld Worker.
From S2P Require Import Scheduler Setup Router Integrity Statements Programs Invariant.
From S2P Require Import Fixtures Claim.
From S2P Require Import Execution TickLogic Sessions Lifecycle.

Open Scope js_scope.
Local Open Scope Z_scope.

(** ** Protected rows *)

(** The rows under the ids [S] stay within [T], and the queues [blocked] are
    paused. *)
Record protected (S : string → Prop) (T : string → JobRow → Prop) (blocked : string → Prop)
    (db : DB) : Prop := {
  pr_db : db_ok db;
  pr_rows : ∀ k, S k → ∃ j, jobs db !! k = Some j ∧ T k j;
  pr_paused : ∀ k q, queues db !! k = Some q → blocked k → q_paused q = true;
}.

Section protected.
Context {W : World} `{!WorldOk W}.
Context (S : string → Prop) (T : string → JobRow → Prop) (blocked : string → Prop).

(** Reaping keeps [T], and claiming cannot apply to it. *)
Context (Hreap : ∀ k j now, T k j → in_flight j = true → lease_expired now j = true →
  T k (reaped now j)).
Context (Hclaim : ∀ k j, T k j → j_status j = Queued → blocked (j_queue_id j)).

Abbreviation P := (protected S T blocked).

Lemma protect_other {X} (q : query X) :
  keeps_ok q → aside q → preserves P (sql q).
Proof.
  intros Hq Hj. apply preserves_sql. intros n db x db' [] H.
  destruct (Hj _ _ _ _ H) as [E1 E2]. split; [by eapply Hq|rewrite E1|rewrite E2]; done.
Qed.

Lemma protect_reap : preserves P (sql sql_reap).
Proof.
  apply preserves_sql. intros n db x db' [Hok Hr Hp] H.
  pose proof (keeps_reap _ _ _ _ Hok H). unfold sql_reap in H. simplify_eq.
  split; [done| |by destruct db]. intros k Hk. destruct (Hr k Hk) as (j & Hj & Ht).
  rewrite jobs_with_jobs, lookup_update_where, Hj. simpl. eexists. split; [done|].
  case_match eqn:E; [|done]. apply andb_true_iff in E as [? ?]. eauto.
Qed.

(** An update of one job that is not protected. *)
Lemma protect_by_id (q : query unit) id :
  keeps_ok q → ¬ S id →
  (∀ n db x db', q n db = inr (x, db') →
     ∃ f, db' = with_jobs (update_where (by_id id) f) db) →
  preserves P (sql q).
Proof.
  intros Hq Hid Hf. apply preserves_sql. intros n db x db' [Hok Hr Hp] H.
  pose proof (Hq _ _ _ _ Hok H). destruct (Hf _ _ _ _ H) as [f ->].
  split; [done| |by destruct db]. intros k Hk. rewrite jobs_by_id by done.
  case_decide; [by subst|]. eauto.
Qed.

Tactic Notation "one_job" reference(q) :=
  let H := fresh in intros ? ? ? ? H; unfold q in H; query_inv H; simplify_eq; eauto.

Lemma protect_claim qid wid b :
  ¬ blocked qid → safe P (fun claimed => ∀ c, c ∈ claimed → ¬ S (j_id c)) (sql (sql_claim qid wid b)).
Proof.
  intros Hq. apply safe_sql. intros n db claimed db' [Hok Hr Hp] H.
  assert (∀ k j, jobs db !! k = Some j → j ∈ claim_selection n qid b db → ¬ S k) as Hns.
  { intros k j Hk Hj HS. destruct (Hr k HS) as (j' & Hj' & Ht). simplify_eq.
    destruct (selection_claimable _ _ _ _ _ Hj) as (Hc & _). unfold claimable, in_queue in Hc.
    rewrite !andb_true_iff, !bool_decide_eq_true in Hc. destruct Hc as [[Hjq Hst] _].
    apply Hq. rewrite <- Hjq. eauto. }
  pose proof (keeps_claim _ _ _ _ _ _ _ Hok H) as Hok'. split.
  - split; [done| |].
    + apply claim_result in H as [_ ->]. intros k Hk. destruct (Hr k Hk) as (j & Hj & Ht).
      rewrite jobs_with_jobs, lookup_update_where, Hj. simpl.
      destruct (selected_by _ j) eqn:E; [|eauto]. exfalso.
      apply (selected_by_selection _ _ _ _ _ _ Hok Hj) in E. by eapply Hns.
    + apply claim_result in H as [_ ->]. by destruct db.
  - intros c Hc. apply (elem_of_claimed _ _ _ _ _ _ _ _ Hok H) in Hc as (j & Hj & ->).
    destruct (selection_claimable _ _ _ _ _ Hj) as (_ & k & Hk).
    destruct (set_claimed_keys wid (pg_now n) j) as (-> & _).
    rewrite (ok_j_id _ Hok _ _ Hk). by eapply Hns.
Qed.

Lemma protect_active_queues :
  safe P (fun qs => ∀ q, q ∈ qs → ¬ blocked q) (sql sql_active_queues).
Proof.
  apply safe_sql. intros n db qs db' Hp H. unfold sql_active_queues in H. simplify_eq.
  split; [done|]. intros q Hq Hb. apply list_elem_of_fmap in Hq as (r & -> & Hr).
  apply elem_of_select_where in Hr as [Hnp [k Hk]]. apply negb_true_iff in Hnp.
  rewrite (ok_q_id _ (pr_db _ _ _ _ Hp) _ _ Hk) in Hb.
  rewrite (pr_paused _ _ _ _ Hp _ _ Hk Hb) in Hnp. done.
Qed.

Lemma protect_executeJob job wid : ¬ S (j_id job) → preserves P (executeJob job wid).
Proof.
  intros Hid. unfold executeJob, date_now, record_failure, perform.
  pose proof (protect_by_id _ (j_id job) (keeps_complete (j_id job)) Hid
    ltac:(one_job sql_complete)) as H1.
  assert (∀ a, preserves P (sql (sql_mark_running (j_id job) a))) as H2.
  { intros. eapply protect_by_id; [apply keeps_mark_running|done|one_job sql_mark_running]. }
  assert (∀ m, preserves P (sql (sql_dead_letter (j_id job) m))) as H3.
  { intros. eapply protect_by_id; [apply keeps_dead_letter|done|one_job sql_dead_letter]. }
  assert (∀ m, preserves P (sql (sql_requeue (j_id job) m))) as H4.
  { intros. eapply protect_by_id; [apply keeps_requeue|done|one_job sql_requeue]. }
  assert (∀ x a, preserves P (sql (sql_insert_execution (j_id job) x a))) as H5.
  { intros. apply protect_other; [apply keeps_insert_execution|apply aside_insert_execution]. }
  assert (∀ x a, preserves P (sql (sql_insert_log (j_id job) x a))) as H6.
  { intros. apply protect_other; [apply keeps_insert_log|apply aside_insert_log]. }
  assert (∀ i s d e, preserves P (sql (sql_finish_execution i s d e))) as H7.
  { intros. apply protect_other; [apply keeps_finish_execution|apply aside_finish_execution]. }
  assert (∀ q p r a, preserves P (sql (sql_insert_dlq (j_id job) q p r a))) as H8.
  { intros. apply protect_other; [apply keeps_insert_dlq|apply aside_insert_dlq]. }
  walk.
Qed.

Lemma protect_ensureWorker : preserves P ensureWorker.
Proof.
  unfold ensureWorker.
  assert (∀ i, preserves P (sql (sql_upsert_heartbeat i))) as H1.
  { intros. apply protect_other; [apply keeps_upsert_heartbeat|apply aside_upsert_heartbeat]. }
  assert (∀ i, preserves P (sql (sql_insert_heartbeat i))) as H2.
  { intros. apply protect_other; [apply keeps_insert_heartbeat|apply aside_insert_heartbeat]. }
  assert (∀ i, preserves P (sql (sql_activate_worker i))) as H3.
  { intros. apply protect_other; [apply keeps_activate_worker|apply aside_activate_worker]. }
  assert (preserves P (sql sql_insert_worker)) as H4.
  { apply protect_other; [apply keeps_insert_worker|apply aside_insert_worker]. }
  assert (preserves P (sql sql_find_worker)) as H5.
  { apply preserves_sql. intros n db x db' Hp H. unfold sql_find_worker in H. congruence. }
  walk.
Qed.

Lemma protect_tick : preserves P runWorkerTick.
Proof.
  unfold runWorkerTick, getSql, reaper. pose proof protect_reap. pose proof protect_ensureWorker.
  apply preserves_bind; [walk|]. intros _. apply preserves_bind; [walk|]. intros _.
  apply preserves_bind; [walk|]. intros wid.
  eapply safe_bind; [apply protect_active_queues|]. intros qs Hqs. simpl in Hqs.
  apply preserves_for_each. intros n q Hq. unfold process_queue.
  apply preserves_bind.
  { apply preserves_sql. intros m db x db' Hp Hq'. unfold sql_budget in Hq'. congruence. }
  intros row. cbv zeta. case_match; [walk|].
  eapply safe_bind; [by apply protect_claim, Hqs|]. intros claimed Hc. simpl in Hc.
  apply preserves_for_each. intros b j Hj. apply preserves_bind; [|walk].
  by apply protect_executeJob, Hc.
Qed.

End protected.

Section ticks.
Context {W : World} `{!WorldOk W}.

(** A tick of the background scheduler or of the cron route. *)
Inductive worker_task : proc unit → Prop :=
| task_background : worker_task background_tick
| task_cron req : worker_task (cron_worker req ;;! ret tt).

Lemma preserves_task I p : preserves I runWorkerTick → worker_task p → preserves I p.
Proof.
  intros Ht [|req].
  - unfold background_tick. eapply safe_then; [|intros; apply preserves_sync..]. walk.
  - unfold cron_worker, respond. walk.
Qed.

Lemma ticks_keep I ps v n db c :
  preserves I runWorkerTick → Forall worker_task ps → I db →
  reachable (ps, MkStore db v n []) c → I (st_db c.2).
Proof.
  intros Ht Hps Hdb Hc. apply (reachable_ok (keeping I) I) in Hc as (_ & _ & ?); [done|done|].
  split; [|done]. eapply Forall_impl; [done|]. intros p. by apply preserves_task.
Qed.

(** ** Pausing *)


(** ** Abandoned jobs *)

(** C35: A job that is marked in flight but has no lease is stuck: no
    interleaving of any number of worker ticks ever changes its row, so it is
    neither requeued, nor run, nor dead-lettered. *)
Theorem unleased_job_stuck ps v n db c k j :
  Forall worker_task ps → db_ok db → reachable (ps, MkStore db v n []) c →
  jobs db !! k = Some j → in_flight j = true → j_lease_expires_at j = None →
  jobs (st_db c.2) !! k = Some j.
Proof.
  intros Hps Hok Hc Hk Hf Hl.
  assert (protected (eq k) (fun _ j' => j' = j) (fun _ => False) (st_db c.2)) as [_ Hr _].
  { eapply ticks_keep; [|done| |done].
    - apply protect_tick.
      + intros i ? now -> _ He. unfold lease_expired in He. by rewrite Hl in He.
      + intros i ? -> Hst. unfold in_flight in Hf. rewrite Hst in Hf.
        by apply bool_decide_eq_true in Hf as [].
    - split; [done| |done]. intros i <-. eauto. }
  by destruct (Hr k eq_refl) as (j' & Hj' & ->).
Qed.

(** ** Concurrency limits *)

(** The jobs in flight of each queue are within a bound, which is at least the
    limit of the queue. *)
Record within (B : string → Z) (db : DB) : Prop := {
  wi_ok : db_ok db;
  wi_count : ∀ q, in_flight_count q db ≤ B q;
  wi_limit : ∀ k r, queues db !! k = Some r → default 5 (q_concurrency_limit r) ≤ B k;
}.

(** An update after which no new row of queue [q] is in flight. *)
Lemma in_flight_count_update q P f db :
  (∀ k j, jobs db !! k = Some j → P j = true →
     in_queue q (f j) = true → in_flight (f j) = true →
     in_queue q j = true ∧ in_flight j = true) →
  in_flight_count q (with_jobs (update_where P f) db) ≤ in_flight_count q db.
Proof.
  intros H. unfold in_flight_count. rewrite jobs_with_jobs, count_update_where.
  apply Nat2Z.inj_le, length_filter_impl. intros j [k Hk]%elem_of_rows.
  destruct (P j) eqn:E; [|done]. rewrite !andb_true_iff. intros [? ?]. eauto.
Qed.

Lemma within_update B P f db :
  within B db → db_ok (with_jobs (update_where P f) db) →
  (∀ q k j, jobs db !! k = Some j → P j = true →
     in_queue q (f j) = true → in_flight (f j) = true →
     in_queue q j = true ∧ in_flight j = true) →
  within B (with_jobs (update_where P f) db).
Proof.
  intros [_ Hc Hl] Hok Hf. split; [done| |by destruct db].
  intros q. etransitivity; [apply in_flight_count_update, Hf|apply Hc].
Qed.

Lemma within_claim B n qid wid b db claimed db' :
  within B db → db_ok db' →
  (∀ q, queues db !! qid = Some q →
     b = Z.max (default 5 (q_concurrency_limit q) - in_flight_count qid db) 0) →
  is_Some (queues db !! qid) →
  sql_claim qid wid (Z.to_nat b) n db = inr (claimed, db') → within B db'.
Proof.
  intros [Hok Hc Hl] Hok' Hb [r Hr] H. specialize (Hb r Hr).
  split; [done| |apply claim_result in H as [_ ->]; by destruct db].
  intros q. destruct (decide (q = qid)) as [->|Hne].
  - pose proof (length_claimed _ _ _ _ _ _ _ Hok H) as Hlen.
    rewrite (in_flight_after_claim _ _ _ _ _ _ _ Hok H).
    specialize (Hc qid). specialize (Hl qid r Hr). lia.
  - etransitivity; [|apply Hc]. apply claim_result in H as [_ ->].
    apply in_flight_count_update. intros k j Hk Hs Hq _.
    apply (selected_by_selection _ _ _ _ _ _ Hok Hk), selection_claimable in Hs as [Hcl _].
    unfold claimable, in_queue in *. rewrite !andb_true_iff, !bool_decide_eq_true in *.
    destruct (set_claimed_in_flight wid (pg_now n) j) as [_ E]. rewrite E in Hq. naive_solver.
Qed.

#[export] Instance within_tick B : TickInvariant (within B).
Proof.
  split.
  - by intros db [].
  - intros db db' [_ Hc Hl] Hok E1 E2. split; [done| |by rewrite E2].
    intros q. unfold in_flight_count. rewrite E1. apply Hc.
  - intros n db job f Hw Hj Hst Hok. apply within_update; [done..|].
    intros q k j' Hk Hid Hq _. apply bool_decide_eq_true in Hid.
    rewrite (ok_j_id _ (wi_ok _ _ Hw) _ _ Hk) in Hid. simplify_eq.
    split; [by destruct job|]. unfold in_flight. rewrite Hst. done.
  - intros n db id j f Hw _ _ Hf Hok. apply within_update; [done..|]. intros q k j' _ _ _ Hfl.
    destruct (ends_releases _ _ _ Hf j') as (_ & E & _). congruence.
  - intros n db db' Hw Hok H. unfold sql_reap in H. simplify_eq. apply within_update; [done..|].
    by intros q k [].
  - apply within_claim.
Qed.

Lemma solo_worker_task I p : TickInvariant I → worker_task p → solo I p.
Proof.
  intros HI [|req]; [by apply solo_background_tick|].
  unfold cron_worker, respond. pose proof (solo_runWorkerTick I). solo_walk.
Qed.

(** C8: Ticks that run one at a time never take a queue beyond its
    concurrency limit (5 when it has none), whatever statements the connection
    fails at; a queue that was beyond it to begin with is not taken further. *)
Theorem concurrency_limit_when_serial ps s q r :
  Forall worker_task ps → db_ok (st_db s) → queues (st_db s) !! q = Some r →
  in_flight_count q (st_db (run_serially ps s)) ≤
    Z.max (default 5 (q_concurrency_limit r)) (in_flight_count q (st_db s)).
Proof.
  intros Hps Hok Hq.
  set (B := fun k => Z.max (match queues (st_db s) !! k with
                            | Some r => default 5 (q_concurrency_limit r) | None => 0 end)
                           (in_flight_count k (st_db s))).
  assert (within B (st_db (run_serially ps s))) as [_ Hc _].
  { assert (within B (st_db s)) as Hw.
    { split; [done| |]; intros k; unfold B; [lia|]. intros r' ->. lia. }
    clearbody B. clear Hq Hok. revert s Hw. induction Hps as [|p ps Hp _ IH]; intros s Hw; [done|].
    apply IH. pose proof (solo_worker_task (within B) p (within_tick B) Hp s Hw) as H.
    by destruct (run p s) as [[] ?]. }
  specialize (Hc q). unfold B in Hc. by rewrite Hq in Hc.
Qed.

End ticks.

(** ** Overlapping ticks *)

(** A slow connection: 31 seconds from one statement to the next, longer than
    a lease. *)
Definition slow : World := demo_world 31000000 no_faults demo_vars.

Definition cron_call : proc unit := cron_worker (W := slow) (demo_request "GET" None JNull) ;;! ret tt.

(** The first call claims the jobs of the queue (seven statements); the
    second one's reaper takes them back; the first one goes on to mark its
    first job as running. Then both are cut off. *)
Definition overlap_schedule : list nat := [0; 0; 0; 0; 0; 0; 0; 1; 0]%nat.

Definition overlap_pool : pool := [cron_call; cron_call].

Definition overlap_end : pool * store :=
  pool_run (W := slow) overlap_schedule (overlap_pool, demo_store).

(** Ownership does not survive overlapping ticks: the updates of
    [executeJob] do not check that the job is still claimed by this worker.
    Two cron calls that overlap longer than a lease can leave a job running
    with no owner and no lease. *)
Theorem overlap_breaks_ownership :
  ∃ c, reachable (W := slow) (overlap_pool, demo_store) c ∧ own_ok (st_db demo_store) ∧
    ∃ k j, jobs (st_db c.2) !! k = Some j ∧ j_status j = Running ∧
      j_worker_id j = None ∧ j_lease_expires_at j = None.
Proof.
  exists overlap_end. split; [apply (pool_run_reachable (W := slow))|].
  split; [apply demo_own_ok|].
  exists "j2". 
  eexists. split; [vm_compute; reflexivity|]. done.
Qed.

(** Both calls read the budget of the queue before either of them claims. *)
Definition race_schedule : list nat :=
  [0; 0; 0; 0; 0; 1; 1; 1; 1; 1; 0; 1; 0; 1]%nat.

Definition race_pool : pool :=
  [cron_worker (W := demo) (demo_request "GET" None JNull) ;;! ret tt;
   cron_worker (W := demo) (demo_request "GET" None JNull) ;;! ret tt].

(** The budget is read in one statement and spent in another, so two
    overlapping ticks can take a queue with limit 2 and one job in flight to
    three jobs in flight. *)
Theorem overlap_exceeds_limit :
  ∃ c, reachable (W := demo) (race_pool, demo_store) c ∧
    q_concurrency_limit <$> queues (st_db c.2) !! "q1" = Some (Some 2) ∧
    in_flight_count "q1" demo_db = 1 ∧ in_flight_count "q1" (st_db c.2) = 3.
Proof.
  exists (pool_run (W := demo) race_schedule (race_pool, demo_store)).
  split; [apply (pool_run_reachable (W := demo))|]. vm_compute. done.
Qed.

(** ** Instances *)


(** A job left running without a lease. *)
Definition stuck_job : JobRow := set_running 1 demo_epoch demo_j1.
Definition stuck_db : DB := with_jobs <["j1" := stuck_job]> demo_db.

Lemma stuck_db_ok : db_ok stuck_db.
Proof.
  split; unfold stuck_db, demo_db; simpl; intros; fixture_rows; simplify_eq/=;
    try done; try (by eexists).
Qed.

Lemma unleased_job_stuck_witness :
  jobs (st_db (pool_run (W := slow) [0; 0; 0; 0; 0; 0; 0; 1; 0; 1; 1; 1]%nat
          (overlap_pool, MkStore stuck_db initial_vars 0 [])).2) !! "j1" = Some stuck_job.
Proof.
  eapply (@unleased_job_stuck slow (demo_world_ok 31000000 _ demo_vars ltac:(done)) overlap_pool
           initial_vars 0 stuck_db);
    [repeat constructor|apply stuck_db_ok|apply (pool_run_reachable (W := slow))|done|done|done].
Defined.

Lemma concurrency_limit_when_serial_witness :
  in_flight_count "q1" (st_db (run_serially (W := demo) race_pool demo_store)) ≤
    Z.max (default 5 (q_concurrency_limit demo_queue)) (in_flight_count "q1" demo_db).
Proof.
  apply (@concurrency_limit_when_serial demo demo_ok race_pool demo_store "q1" demo_queue);
    [repeat constructor|apply demo_sys_ok|done].
Defined.
