(* ===== verification/Machine.v ===== *)
(** * The lifecycle of a job

    The README draws the life of a job: queued, claimed, running, then
    completed, back to the queue while attempts are left, or dead-lettered;
    the reaper takes a job whose lease has expired back to the queue. [life]
    and [life_next] are that diagram as an abstract machine. The server is
    shown to refine it: statement by statement in every interleaving, where
    the transitions of [executeJob] are not fenced by the state of the job,
    and with every guard of the diagram when its programs run one at a time. *)

From S2P Require Import Prelude JsValue JsJson Database Proc Hoare Http Auth DemoWorld Worker.
From S2P Require Import Scheduler Setup Router Integrity Statements Programs Invariant.
From S2P Require Import Fixtures Claim Execution TickLogic Sessions Lifecycle Interference.

Open Scope js_scope.
Local Open Scope Z_scope.

(** ** The abstract machine *)

(** The part of a job that changes during its life. *)
Record life := Life {
  lf_status : job_status; lf_attempts : Z; lf_owner : option string;
  lf_claimed : option instant; lf_lease : option instant; lf_due : option instant;
  lf_completed : option instant; lf_failed : option instant; lf_error : option string }.

(** The arrows of the diagram, and the retry that an operator asks for. *)
Inductive transition :=
| TClaim (worker : string) | TStart (attempt : Z) | TComplete | TRetry (error : string)
| TGiveUp (error : string) | TReap | TReopen.

(** A guard of the diagram that only the fenced machine has. *)
Definition fence (fenced : bool) (P : Prop) `{!Decision P} : bool := negb fenced || bool_decide P.

(** The job that a transition leads to, where it is allowed; [m] is the limit
    on its attempts. *)
Definition life_next (fenced : bool) (now : instant) (m : Z) (t : transition) (l : life) :
    option life :=
  let '(Life s a o c e d f x r) := l in
  match t with
  | TClaim w =>
      if bool_decide (s = Queued) && bool_decide (nulls_first_le d (Some now))
      then Some (Life Claimed a (Some w) (Some now) (Some (now + seconds 30)) d f x r) else None
  | TStart n =>
      if fence fenced (s = Claimed ∧ n = a + 1) && bool_decide (1 ≤ n)
      then Some (Life Running n o c e d f x r) else None
  | TComplete =>
      if fence fenced (s = Running)
      then Some (Life Completed a None c None d (Some now) x None) else None
  | TRetry r =>
      if fence fenced (s = Running ∧ a < m)
      then Some (Life Queued a None None None (Some (now + seconds 5)) f (Some now) (Some r))
      else None
  | TGiveUp r =>
      if fence fenced (s = Running ∧ m ≤ a)
      then Some (Life DeadLetter a None c None d f (Some now) (Some r)) else None
  | TReap =>
      if bool_decide (s = Claimed ∨ s = Running) &&
         match e with Some t => bool_decide (t < now) | None => false end
      then Some (Life Queued a None None None d f x r) else None
  | TReopen => Some (Life Queued 0 None None None (Some now) f None None)
  end.

(** What a job in each state has. *)
Definition life_ok (m : Z) (l : life) : Prop :=
  match lf_status l with
  | Queued => 0 ≤ lf_attempts l ∧ lf_owner l = None ∧ lf_lease l = None
  | Claimed => 0 ≤ lf_attempts l ∧ is_Some (lf_owner l) ∧ is_Some (lf_lease l)
  | Running => 1 ≤ lf_attempts l ∧ is_Some (lf_owner l) ∧ is_Some (lf_lease l)
  | Completed => 1 ≤ lf_attempts l ∧ lf_owner l = None ∧ is_Some (lf_completed l)
  | DeadLetter => 1 ≤ lf_attempts l ∧ m ≤ lf_attempts l ∧ lf_owner l = None ∧ is_Some (lf_error l)
  | Scheduled | Failed => False
  end.

(** The diagram leads from such jobs to such jobs. *)
Lemma life_next_ok now m t l l' :
  life_next true now m t l = Some l' → life_ok m l → life_ok m l'.
Proof.
  destruct l as [s a o c e d f x r]. unfold life_ok. destruct t; simpl; intros H Hl;
    repeat case_match; simplify_eq/=; repeat split; eauto; try lia; try done;
    rewrite ?andb_true_iff, ?bool_decide_eq_true in *; naive_solver lia.
Qed.

(** ** Job rows as states of the machine *)

Definition life_of (j : JobRow) : life :=
  Life (j_status j) (j_attempts j) (j_worker_id j) (j_claimed_at j) (j_lease_expires_at j)
       (j_next_run_at j) (j_completed_at j) (j_failed_at j) (j_error_message j).

(** What a job is: never changed after it was enqueued. *)
Definition frozen (j j' : JobRow) : Prop :=
  j_id j' = j_id j ∧ j_queue_id j' = j_queue_id j ∧ j_priority j' = j_priority j ∧
  j_payload j' = j_payload j ∧ j_idempotency_key j' = j_idempotency_key j ∧
  j_max_attempts j' = j_max_attempts j ∧ j_retry_policy_id j' = j_retry_policy_id j ∧
  j_cron_expr j' = j_cron_expr j ∧ j_batch_id j' = j_batch_id j ∧
  j_created_at j' = j_created_at j.

(** A row moves along one transition. *)
Definition job_move (fenced : bool) (now : instant) (j j' : JobRow) : Prop :=
  frozen j j' ∧ j_updated_at j' = now ∧
  ∃ t, life_next fenced now (j_max_attempts j) t (life_of j) = Some (life_of j').

(** A new row. *)
Definition born (now : instant) (k : string) (j : JobRow) : Prop :=
  j_id j = k ∧ j_created_at j = now ∧ ∃ due, life_of j = Life Queued 0 None None None due None None None.

(** The jobs table moves: each row stays or takes one transition, none
    disappears, new ones are queued. *)
Definition jobs_move (fenced : bool) (now : instant) (m m' : gmap string JobRow) : Prop :=
  ∀ k, match m !! k, m' !! k with
       | Some j, Some j' => j' = j ∨ job_move fenced now j j'
       | None, Some j' => born now k j'
       | Some _, None => False
       | None, None => True
       end.

Lemma jobs_move_refl fenced now m : jobs_move fenced now m m.
Proof. intros k. destruct (m !! k); auto. Qed.

Lemma jobs_move_update fenced now (P : JobRow → bool) f m :
  (∀ k j, m !! k = Some j → P j = true → job_move fenced now j (f j)) →
  jobs_move fenced now m (update_where P f m).
Proof.
  intros Hf k. rewrite lookup_update_where. destruct (m !! k) as [j|] eqn:E; [|done].
  simpl. destruct (P j) eqn:EP; eauto.
Qed.

Lemma jobs_move_insert fenced now k j m :
  m !! k = None → born now k j → jobs_move fenced now m (<[k := j]> m).
Proof.
  intros Hk Hj i. destruct (decide (i = k)) as [->|Hne].
  - by rewrite Hk, lookup_insert_eq.
  - rewrite lookup_insert_ne by done. apply jobs_move_refl.
Qed.

(** *** The updates of the server *)

Ltac job_move_tac t :=
  intros; repeat match goal with j : JobRow |- _ => destruct j end; split; [done|];
  split; [done|]; exists t; unfold life_of; cbn in *.

Lemma move_claimed fenced w now j :
  j_status j = Queued → due now j = true → job_move fenced now j (set_claimed w now j).
Proof.
  job_move_tac (TClaim w). subst. unfold due in *. cbn in *. case_match; [|done].
  simpl. by rewrite H0.
Qed.

Lemma move_reaped fenced now j :
  in_flight j = true → lease_expired now j = true → job_move fenced now j (reaped now j).
Proof.
  job_move_tac TReap. unfold in_flight, lease_expired in *. cbn in *.
  by case_match; [rewrite H, H0|].
Qed.

Lemma move_retried fenced now j : job_move fenced now j (set_retried now j).
Proof. by job_move_tac TReopen. Qed.

Lemma move_running a now j : 1 ≤ a → job_move false now j (set_running a now j).
Proof. job_move_tac (TStart a). by rewrite bool_decide_true. Qed.

Lemma move_set_completed now j : job_move false now j (set_completed now j).
Proof. by job_move_tac TComplete. Qed.
Lemma move_set_dead_letter m now j : job_move false now j (set_dead_letter m now j).
Proof. by job_move_tac (TGiveUp m). Qed.
Lemma move_set_requeued m now j : job_move false now j (set_requeued m now j).
Proof. by job_move_tac (TRetry m). Qed.

(** With the guards of the diagram. *)
Lemma move_started now j :
  j_status j = Claimed → 0 ≤ j_attempts j →
  job_move true now j (set_running (j_attempts j + 1) now j).
Proof.
  destruct j as [? ? s ? ? ? ? a]. simpl. intros -> Ha. job_move_tac (TStart (a + 1)).
  rewrite !bool_decide_true by (auto with lia). done.
Qed.

Lemma move_ended now j f :
  j_status j = Running → ends now j f → job_move true now j (f j).
Proof.
  intros Hst [|m Ha|m Ha]; [|clear f..].
  - job_move_tac TComplete. by subst.
  - job_move_tac (TRetry m). subst. by rewrite bool_decide_true.
  - job_move_tac (TGiveUp m). subst. by rewrite bool_decide_true.
Qed.

Create HintDb machine.
#[local] Hint Resolve move_claimed move_reaped move_retried move_running move_set_completed
  move_set_dead_letter move_set_requeued : machine.

(** Attempts never become negative. *)
Lemma life_next_attempts fenced now m t l l' :
  life_next fenced now m t l = Some l' → 0 ≤ lf_attempts l → 0 ≤ lf_attempts l'.
Proof.
  destruct l. destruct t; simpl; intros H; repeat case_match; simplify_eq; simpl; try done.
  rewrite andb_true_iff, !bool_decide_eq_true in *. lia.
Qed.

Lemma jobs_move_attempts fenced now m m' :
  jobs_move fenced now m m' → (∀ k j, m !! k = Some j → 0 ≤ j_attempts j) →
  ∀ k j, m' !! k = Some j → 0 ≤ j_attempts j.
Proof.
  intros Hm Ha k j' Hk. specialize (Hm k). rewrite Hk in Hm.
  destruct (m !! k) as [j|] eqn:E.
  - destruct Hm as [->|(_ & _ & t & Ht)]; [eauto|]. eapply life_next_attempts in Ht; [done|].
    by eapply Ha.
  - destruct Hm as (_ & _ & due & [= _ -> _]). done.
Qed.

(** ** Every interleaving *)

(** The history of a job only grows: executions keep what they were started
    with, log lines stay as they were written. *)
Definition same_run (x x' : ExecRow) : Prop :=
  x_id x' = x_id x ∧ x_job_id x' = x_job_id x ∧ x_worker_id x' = x_worker_id x ∧
  x_attempt x' = x_attempt x ∧ x_started_at x' = x_started_at x.

Definition history_grows (db db' : DB) : Prop :=
  (∀ k x, job_executions db !! k = Some x →
     ∃ x', job_executions db' !! k = Some x' ∧ same_run x x') ∧
  job_logs db ⊆ job_logs db'.

#[global] Instance history_grows_preorder : PreOrder history_grows.
Proof.
  split.
  - intros db. split; [|done]. intros k x Hx. exists x. by repeat split.
  - intros db1 db2 db3 [Hx1 Hl1] [Hx2 Hl2]. split; [|by transitivity (job_logs db2)].
    intros k x Hx. destruct (Hx1 _ _ Hx) as (x2 & H2 & E2).
    destruct (Hx2 _ _ H2) as (x3 & H3 & E3). exists x3. split; [done|].
    unfold same_run in *. intuition congruence.
Qed.

Lemma history_same db db' :
  job_executions db' = job_executions db → job_logs db' = job_logs db → history_grows db db'.
Proof. intros E1 E2. split; [|by rewrite E2]. rewrite E1. intros k x Hx. exists x. by repeat split. Qed.

Section interleaved.
Context {W : World} `{!WorldOk W}.

Definition server_move (n : nat) (db db' : DB) : Prop :=
  jobs_move false (pg_now n) (jobs db) (jobs db') ∧ history_grows db db'.

Lemma follows_move {X} (q : query X) P :
  keeping sys_ok X q P →
  (∀ n db x db', sys_ok db → q n db = inr (x, db') → server_move n db db') →
  follows (guaranteeing sys_ok server_move) P (sql q).
Proof. intros. by apply follows_sql. Qed.

Lemma obeys_move {X} (q : query X) :
  keeps sys_ok q →
  (∀ n db x db', sys_ok db → q n db = inr (x, db') → server_move n db db') →
  obeys (guaranteeing sys_ok server_move) (sql q).
Proof. intros Hq. apply follows_move. intros n db x db' Hok H. split; [by eapply Hq|done]. Qed.

(** A statement on the other tables. *)
Lemma move_aside n db db' :
  jobs db' = jobs db → job_executions db' = job_executions db → job_logs db' = job_logs db →
  server_move n db db'.
Proof. intros E1 E2 E3. split; [|by apply history_same]. rewrite E1. apply jobs_move_refl. Qed.

(** A statement on the jobs table. *)
Lemma move_jobs n f db :
  jobs_move false (pg_now n) (jobs db) (f (jobs db)) → server_move n db (with_jobs f db).
Proof. intros H. destruct db. split; [done|]. by apply history_same. Qed.

Lemma move_update n (P : JobRow → bool) f db :
  (∀ k j, jobs db !! k = Some j → P j = true → job_move false (pg_now n) j (f j)) →
  server_move n db (with_jobs (update_where P f) db).
Proof. intros. by apply move_jobs, jobs_move_update. Qed.

Lemma move_insert n k j db :
  jobs db !! k = None → born (pg_now n) k j → server_move n db (with_jobs <[k := j]> db).
Proof. intros. by apply move_jobs, jobs_move_insert. Qed.

(** A row that the claim selects is queued and due. *)
Lemma selected_move fenced qid wid b n db k j :
  db_ok db → jobs db !! k = Some j → selected_by (claim_selection n qid b db) j = true →
  job_move fenced (pg_now n) j (set_claimed wid (pg_now n) j).
Proof.
  intros Hok Hk Hs. apply (selected_by_selection _ _ _ _ _ _ Hok Hk), selection_claimable in Hs
    as [Hc _].
  unfold claimable in Hc. rewrite !andb_true_iff, !bool_decide_eq_true in Hc.
  destruct Hc as [[_ Hst] Hd]. auto with machine.
Qed.

Lemma move_claim qid wid b n db claimed db' :
  sys_ok db → sql_claim qid wid b n db = inr (claimed, db') → server_move n db db'.
Proof.
  intros Hok H. apply claim_result in H as [_ ->]. apply move_update. intros k j Hk Hs.
  eapply selected_move; [apply Hok|done..].
Qed.

Lemma move_reap n db db' : sql_reap n db = inr (tt, db') → server_move n db db'.
Proof.
  unfold sql_reap. intros H. simplify_eq. apply move_update. intros k j _ [? ?]%andb_true_iff.
  auto with machine.
Qed.

Lemma move_insert_execution jid wid a n db x db' :
  sql_insert_execution jid wid a n db = inr (x, db') → server_move n db db'.
Proof.
  unfold sql_insert_execution. intros H. query_inv H. simplify_eq.
  destruct db; split; [apply jobs_move_refl|]. split; [|done]. simpl. intros k y Hk.
  exists y. split; [|by repeat split]. rewrite lookup_insert_ne; [done|]. intros <-.
  unfold has_key in *. simpl in *. by simplify_option_eq.
Qed.

Lemma move_finish_execution id st ms err n db x db' :
  sql_finish_execution id st ms err n db = inr (x, db') → server_move n db db'.
Proof.
  unfold sql_finish_execution. intros H. query_inv H. simplify_eq.
  destruct db; split; [apply jobs_move_refl|]. split; [|done]. simpl. intros k y Hk.
  rewrite lookup_update_where, Hk. simpl. eexists. split; [done|]. case_match; by repeat split.
Qed.

Lemma move_insert_log jid level m n db x db' :
  sql_insert_log jid level m n db = inr (x, db') → server_move n db db'.
Proof.
  unfold sql_insert_log. intros H. query_inv H. simplify_eq.
  destruct db; split; [apply jobs_move_refl|]. split; [|by apply insert_subseteq].
  intros k y Hk. exists y. by repeat split.
Qed.

Tactic Notation "moves_aside" reference(q) :=
  let H := fresh in intros n db x db' _ H; unfold q in H; repeat (case_match || query_inv H);
  simplify_eq/=; first [by apply move_aside | destruct db; by apply move_aside].

Tactic Notation "moves_update" reference(q) :=
  let H := fresh in intros n db x db' _ H; unfold q in H; query_inv H; simplify_eq;
  apply move_update; auto with machine.

Tactic Notation "moves_insert" reference(q) :=
  let H := fresh in intros n db x db' _ H; unfold q in H; query_inv H; simplify_eq;
  apply move_insert; [done|]; split; [done|]; split; [done|]; by eexists.

#[local] Hint Resolve move_reap move_insert_execution move_finish_execution move_insert_log : machine.

(** Every statement of the server moves jobs along the machine. *)
#[export] Instance move_statements : ServerStatements (guaranteeing sys_ok server_move).
Proof.
  split; intros;
    first [apply follows_move; [apply inv_claim|intros; by eapply move_claim]
          |apply obeys_move; [by auto with sys|]].
  - intros n db x db' _ Hq. rewrite (H _ _ _ _ Hq). by apply move_aside.
  - moves_aside sql_upsert_heartbeat.
  - moves_aside sql_insert_heartbeat.
  - moves_aside sql_activate_worker.
  - moves_aside sql_insert_worker.
  - intros. by eapply move_insert_log.
  - moves_aside sql_insert_org.
  - moves_aside sql_insert_user.
  - moves_aside sql_seed_project.
  - moves_aside sql_seed_queue.
  - moves_insert sql_seed_job.
  - moves_aside sql_seed_worker.
  - moves_aside sql_insert_project.
  - moves_aside sql_insert_queue.
  - moves_aside sql_set_paused.
  - moves_aside sql_update_queue.
  - intros n db [] db' _. apply move_reap.
  - moves_update sql_complete.
  - moves_update sql_dead_letter.
  - moves_update sql_requeue.
  - intros. by eapply move_finish_execution.
  - moves_insert sql_insert_job.
  - moves_aside sql_delete_dlq.
  - moves_update sql_retry_job.
  - moves_update sql_mark_running.
  - intros. by eapply move_insert_execution.
  - moves_aside sql_insert_dlq.
Qed.

Context {J : Jose}.

Lemma server_pool ps v n db c :
  Forall server_program ps → sys_ok db → reachable (ps, MkStore db v n []) c →
  pool_ok (guaranteeing sys_ok server_move) sys_ok c.
Proof.
  intros Hps Hdb. apply reachable_ok; [by intros X q P [? _]|]. split; [|done].
  eapply Forall_impl; [done|]. intros p. apply obeys_server_program, _.
Qed.

(** C3: In every interleaving of requests, ticks, cron and setup calls, with
    failures of the connection at any statement, each step of the server moves
    the jobs table along the lifecycle: a row stays as it is or takes exactly
    one transition, at the time of the statement, and keeps its queue, payload,
    priority, key and attempt limit; only queued jobs that are due are claimed,
    for 30 seconds, and only jobs whose lease has expired are taken back; no
    job is deleted, and new jobs start queued with no attempt. *)
Theorem lifecycle_refined ps v n db c i :
  Forall server_program ps → sys_ok db → reachable (ps, MkStore db v n []) c →
  jobs_move false (pg_now (st_step c.2)) (jobs (st_db c.2)) (jobs (st_db (pool_step i c).2)).
Proof.
  intros Hps Hdb Hc. destruct (pool_step_guarantee sys_ok server_move i c) as [->|[H _]];
    [by eapply server_pool|apply jobs_move_refl|done].
Qed.

(** C10: The record of what the server did is append-only: in every
    interleaving, an execution once recorded keeps its job, worker, attempt and
    start, and a log line once written is there unchanged ever after. *)
Theorem history_append_only ps v n db c :
  Forall server_program ps → sys_ok db → reachable (ps, MkStore db v n []) c →
  history_grows db (st_db c.2).
Proof.
  intros Hps Hdb Hc. induction Hc as [|c i Hc IH]; [done|]. transitivity (st_db c.2); [done|].
  destruct (pool_step_guarantee sys_ok server_move i c) as [->|[_ H]];
    [by eapply server_pool|done|done].
Qed.

End interleaved.

(** ** One program at a time *)

Section serial.
Context {W : World} `{!WorldOk W}.

(** A step of the machine with every guard of the diagram, at some time of the
    database's clock; that it is the time of the statement is part of
    the theorem on interleavings, which covers these runs too. *)
Definition diagram_step (m m' : gmap string JobRow) : Prop :=
  ∃ n, jobs_move true (pg_now n) m m'.

(** The database can be reached along the diagram. *)
Record on_diagram (m0 : gmap string JobRow) (db : DB) : Prop := {
  od_db : db_ok db;
  od_attempts : ∀ k j, jobs db !! k = Some j → 0 ≤ j_attempts j;
  od_path : rtc diagram_step m0 (jobs db);
}.

Lemma on_diagram_move m0 db n f :
  on_diagram m0 db → db_ok (with_jobs f db) →
  jobs_move true (pg_now n) (jobs db) (f (jobs db)) → on_diagram m0 (with_jobs f db).
Proof.
  intros [_ Ha Hp] Hok Hm. split; [done|..]; rewrite jobs_with_jobs.
  - by eapply jobs_move_attempts.
  - eapply rtc_r; [done|]. by exists n.
Qed.

Lemma on_diagram_update m0 db n (P : JobRow → bool) f :
  on_diagram m0 db → db_ok (with_jobs (update_where P f) db) →
  (∀ k j, jobs db !! k = Some j → P j = true → job_move true (pg_now n) j (f j)) →
  on_diagram m0 (with_jobs (update_where P f) db).
Proof. intros Hd Hok Hf. by apply (on_diagram_move _ _ n), jobs_move_update. Qed.

Lemma on_diagram_insert m0 db n k j :
  on_diagram m0 db → db_ok (with_jobs <[k := j]> db) → jobs db !! k = None →
  born (pg_now n) k j → on_diagram m0 (with_jobs <[k := j]> db).
Proof. intros. by apply (on_diagram_move _ _ n), jobs_move_insert. Qed.

Lemma on_diagram_other m0 {X} (q : query X) :
  keeps_ok q → (∀ n db x db', q n db = inr (x, db') → jobs db' = jobs db) →
  keeps (on_diagram m0) q.
Proof.
  intros Hq Hj n db x db' [Hok Ha Hp] H. split; [by eapply Hq|..]; by rewrite (Hj _ _ _ _ H).
Qed.

#[local] Hint Resolve move_started move_ended : machine.

#[export] Instance diagram_tick m0 : TickInvariant (on_diagram m0).
Proof.
  split.
  - by intros db [].
  - intros db db' [_ Ha Hp] Hok E _. split; [done|..]; by rewrite E.
  - intros n db job f Hd Hj Hst Hok. apply (on_diagram_update _ _ n); [done..|].
    intros k j Hk Hid. apply bool_decide_eq_true in Hid.
    rewrite (ok_j_id _ (od_db _ _ Hd) _ _ Hk) in Hid. subst k. rewrite Hj in Hk.
    injection Hk as <-. apply move_started; [done|]. by eapply od_attempts.
  - intros n db id j f Hd Hj Hst Hf Hok. apply (on_diagram_update _ _ n); [done..|].
    intros k j' Hk Hid. apply bool_decide_eq_true in Hid.
    rewrite (ok_j_id _ (od_db _ _ Hd) _ _ Hk) in Hid. simplify_eq. auto with machine.
  - intros n db db' Hd Hok H. unfold sql_reap in H. simplify_eq.
    apply (on_diagram_update _ _ n); [done..|]. intros k j _ [? ?]%andb_true_iff.
    auto with machine.
  - intros n qid wid b db claimed db' Hd Hok _ _ H. pose proof (od_db _ _ Hd) as Hdb.
    apply claim_result in H as [_ ->].
    apply (on_diagram_update _ _ n); [done..|]. intros k j Hk Hs. by eapply selected_move.
Qed.

Tactic Notation "diagram_insert" reference(q) constr(Hkeep) :=
  let H := fresh in intros n db x db' Hd H; pose proof (Hkeep _ _ _ _ (od_db _ _ Hd) H);
  unfold q in H; query_inv H; simplify_eq;
  eapply on_diagram_insert; [done..|]; split; [done|]; split; [done|]; by eexists.

Tactic Notation "same_jobs" reference(q) :=
  let H := fresh in intros n db x db' H; unfold q in H;
  repeat (case_match || query_inv H); simplify_eq/=; by destruct db.

#[export] Instance diagram_api m0 org : ApiStatements (on_diagram m0) org.
Proof.
  split; intros.
  - apply on_diagram_other; [apply keeps_insert_project|same_jobs sql_insert_project].
  - apply on_diagram_other; [apply keeps_insert_queue|same_jobs sql_insert_queue].
  - apply on_diagram_other; [apply keeps_set_paused|same_jobs sql_set_paused].
  - apply on_diagram_other; [apply keeps_update_queue|same_jobs sql_update_queue].
  - diagram_insert sql_insert_job (keeps_insert_job queue prio payload key ma delay cron).
  - apply on_diagram_other; [apply keeps_delete_dlq|same_jobs sql_delete_dlq].
  - intros n db x db' Hd H. pose proof (keeps_retry_job _ _ _ _ _ _ (od_db _ _ Hd) H).
    unfold sql_retry_job in H. query_inv H. simplify_eq.
    apply (on_diagram_update _ _ n); auto with machine.
Qed.

#[export] Instance diagram_serial m0 : SerialInvariant (on_diagram m0).
Proof.
  split; try apply _; intros.
  - apply on_diagram_other; [apply keeps_insert_org|same_jobs sql_insert_org].
  - apply on_diagram_other; [apply keeps_insert_user|same_jobs sql_insert_user].
  - apply on_diagram_other; [apply keeps_seed_project|same_jobs sql_seed_project].
  - apply on_diagram_other; [apply keeps_seed_queue|same_jobs sql_seed_queue].
  - diagram_insert sql_seed_job (keeps_seed_job queue payload).
  - apply on_diagram_other; [apply keeps_seed_worker|same_jobs sql_seed_worker].
Qed.

(** What the diagram keeps of every job. *)
Definition lives_ok (m : gmap string JobRow) : Prop :=
  ∀ k j, m !! k = Some j → life_ok (j_max_attempts j) (life_of j).

Lemma jobs_move_ok now m m' : jobs_move true now m m' → lives_ok m → lives_ok m'.
Proof.
  intros Hm Hok k j' Hk. specialize (Hm k). rewrite Hk in Hm.
  destruct (m !! k) as [j|] eqn:E.
  - destruct Hm as [->|(Hfr & _ & t & Ht)]; [eauto|].
    destruct Hfr as (_ & _ & _ & _ & _ & -> & _). eapply life_next_ok; [done|eauto].
  - by destruct Hm as (_ & _ & due & ->).
Qed.

Lemma diagram_ok m m' : rtc diagram_step m m' → lives_ok m → lives_ok m'.
Proof. induction 1 as [|m1 m2 m3 [n Hm] _ IH]; eauto using jobs_move_ok. Qed.

Context {J : Jose}.


End serial.

(** ** Instances *)

(** The busy server after its first step; in the second one the cron call's
    reaper takes [j4] back. *)
Definition busy_start : pool * store := (busy_pool, MkStore demo_db initial_vars 0 []).
Definition busy_at : pool * store := pool_run (W := flaky) [0%nat] busy_start.

Lemma lifecycle_refined_witness :
  j_status <$> jobs (st_db busy_at.2) !! "j4" = Some Running ∧
  j_status <$> jobs (st_db (pool_step (W := flaky) 1 busy_at).2) !! "j4" = Some Queued ∧
  jobs_move false (pg_now (World := flaky) (st_step busy_at.2)) (jobs (st_db busy_at.2))
    (jobs (st_db (pool_step (W := flaky) 1 busy_at).2)).
Proof.
  split; [vm_compute; reflexivity|]. split; [vm_compute; reflexivity|].
  eapply (@lifecycle_refined flaky (demo_world_ok 1000000 _ demo_vars ltac:(done)) _ busy_pool).
  - repeat constructor.
  - exact demo_sys_ok.
  - apply (pool_run_reachable (W := flaky)).
Defined.

(** The fixture with the first attempt of [j4] on record. *)
Definition recorded_db : DB :=
  with_logs <["l1" := MkLog "l1" "j4" "info" "Job started" None demo_epoch]>
    (with_executions <["x1" := MkExec "x1" "j4" (Some "w1") 1 "running" demo_epoch None None None
                                 demo_epoch demo_epoch]> demo_db).

Lemma recorded_sys_ok : sys_ok recorded_db.
Proof.
  split; [split|..]; unfold recorded_db, demo_db; simpl; intros; fixture_rows; simplify_eq/=;
    try done; try (by eexists); try (split; done).
Qed.

Lemma history_append_only_witness :
  history_grows recorded_db
    (st_db (pool_run (W := flaky) (busy_schedule ++ replicate 20 1%nat)
              (busy_pool, MkStore recorded_db initial_vars 0 [])).2).
Proof.
  eapply (@history_append_only flaky (demo_world_ok 1000000 _ demo_vars ltac:(done)) _ busy_pool).
  - repeat constructor.
  - exact recorded_sys_ok.
  - apply (pool_run_reachable (W := flaky)).
Defined.

Lemma demo_lives_ok : lives_ok (jobs demo_db).
Proof.
  intros k j. unfold demo_db. simpl. intros Hj. fixture_rows; unfold life_ok; simpl;
    repeat split; eauto; lia.
Qed.


(** ** Crashes *)

(** Cron calls that are cut off, one after the other, when they have marked
    their first job as running. *)
Definition crash_pool (calls : nat) : pool := replicate calls cron_call.
Definition crash_schedule (calls : nat) : list nat :=
  mjoin ((fun i => replicate 8 i) <$> seq 0 calls).

(** The reaper does not look at the attempts of a job: a job whose runs are cut
    off is claimed and started again beyond its limit, and never becomes a dead
    letter. Here [j2], allowed three attempts, is running its sixth. *)
Theorem crashes_exceed_attempts :
  ∃ c, reachable (W := slow) (crash_pool 4, demo_store) c ∧ sys_ok (st_db demo_store) ∧
    (fun j => (j_status j, j_max_attempts j, j_attempts j)) <$> jobs (st_db c.2) !! "j2" =
      Some (Running, 3, 6) ∧
    dead_letter_queue (st_db c.2) = dead_letter_queue demo_db.
Proof.
  exists (pool_run (W := slow) (crash_schedule 4) (crash_pool 4, demo_store)).
  split; [apply (pool_run_reachable (W := slow))|]. split; [exact demo_sys_ok|].
  split; vm_compute; reflexivity.
Qed.
