(* ===== verification/Tick.v ===== *)
(** * A tick gets through

    When the connection does not fail and the payloads can be read, a worker
    tick returns the number of jobs it executed and leaves nothing in flight
    that was not in flight when it started. One unreadable payload is enough
    to stop every tick. *)

From S2P Require Import Prelude JsValue JsJson Database Proc Hoare Http Auth DemoWorld Worker.
From S2P Require Import Scheduler Setup Router Integrity Statements Programs Invariant.
From S2P Require Import Fixtures Claim.
From S2P Require Import Execution TickLogic Sessions.

Open Scope js_scope.
Local Open Scope Z_scope.

(** ** Total correctness *)

Section total.
Context {W : World}.

Definition total {A} (P : nat → DB → Prop) (p : proc A) (Q : A → nat → DB → Prop) : Prop :=
  ∀ s, P (st_step s) (st_db s) →
  ∃ a s', run p s = (inr a, s') ∧ Q a (st_step s') (st_db s').

Lemma total_bind {A B} P (p : proc A) Q (k : A → proc B) R :
  total P p Q → (∀ a, total (Q a) (k a) R) → total P (bind p k) R.
Proof.
  intros Hp Hk s Hs. destruct (Hp s Hs) as (a & s' & E & Ha). rewrite run_bind, E. by apply Hk.
Qed.

Lemma total_pre {A} (P P' : nat → DB → Prop) (p : proc A) Q :
  total P' p Q → (∀ n db, P n db → P' n db) → total P p Q.
Proof. intros Hp HP s Hs. by apply Hp, HP. Qed.

Lemma total_ret {A} (P : nat → DB → Prop) (a : A) Q :
  (∀ n db, P n db → Q a n db) → total P (ret a) Q.
Proof. intros H s Hs. eexists _, _. split; [done|]. auto. Qed.

Lemma total_sql {X} (P : nat → DB → Prop) (q : query X) Q :
  no_faults_at_all →
  (∀ n db, P n db → ∃ x db', q n db = inr (x, db') ∧ Q x (S n) db') → total P (sql q) Q.
Proof.
  intros Hf Hq s Hs. destruct (Hq _ _ Hs) as (x & db' & E & Hx). rewrite run_sql.
  unfold exec_query. rewrite Hf, E. eexists _, _. split; [done|]. done.
Qed.

Lemma total_for_each {A B} (f : B → A → proc B) (I : B → list A → nat → DB → Prop) l b :
  (∀ b a l, total (I b (a :: l)) (f b a) (fun b' => I b' l)) →
  total (I b l) (for_each f l b) (fun b' => I b' []).
Proof.
  intros Hf. revert b. induction l as [|a l IH]; intros b; simpl; [by apply total_ret|].
  eapply total_bind; [apply Hf|]. intros b'. apply IH.
Qed.

End total.

(** ** What a tick needs *)

(** A payload that the worker can read and store again. *)
Definition readable (v : jsval) : Prop :=
  ∃ p b, parse_payload v = inr p ∧ json_value p = Some b.

Section tick.
Context {W : World} `{!WorldOk W}.
Context (Hf : no_faults_at_all) (Hclk : clock_ok).

(** The database within a tick: [db1] is the one the reaper left, [c] the
    number of executions recorded so far, [k] an upper bound of the attempts
    that may still be added to a job, [wid] the worker once it is known, [K] the jobs claimed and not yet
    executed. *)
Record ready (db1 : DB) (wid : option string) (c : nat) (k : Z) (K : list string) (n : nat) (db : DB) :
    Prop := {
  rd_ok : sys_ok db;
  rd_fresh : fresh_from n db;
  rd_readable : ∀ i j, jobs db !! i = Some j → readable (j_payload j);
  rd_attempts : ∀ i j, jobs db !! i = Some j → j_attempts j ≤ int4_max - k;
  rd_worker : ∀ w, wid = Some w → is_Some (workers db !! w);
  rd_settled : ∀ i j, jobs db !! i = Some j → in_flight j = true →
    i ∈ K ∨ jobs db1 !! i = Some j;
  rd_count : size (job_executions db) = c;
  rd_queues : queues db = queues db1;
}.

(** A claimed row that waits for its execution. *)
Record waiting (k : Z) (db : DB) (job : JobRow) : Prop := {
  wa_readable : readable (j_payload job);
  wa_attempts : 0 ≤ j_attempts job < int4_max - k;
  wa_queue : is_Some (queues db !! j_queue_id job);
  wa_row : is_Some (jobs db !! j_id job);
}.

Lemma final_row_facts job payload t1 t cur :
  j_payload (final_row job payload t1 t cur) = j_payload cur ∧
  j_attempts (final_row job payload t1 t cur) = j_attempts job + 1 ∧
  in_flight (final_row job payload t1 t cur) = false.
Proof.
  unfold final_row. destruct (outcome_of payload) as [[] e]; [|destruct (bool_decide _)];
    by destruct cur.
Qed.

(** A job row after [executeJob] is the final row of its job, or unchanged. *)
Lemma execution_rows n n' job wid payload body cur db db' i j :
  execution_spec n n' job wid payload body cur db db' → jobs db' !! i = Some j →
  (i = j_id job ∧ ∃ t1 m, (m ≤ n')%nat ∧ j = final_row job payload t1 (pg_now m) cur) ∨
  (i ≠ j_id job ∧ jobs db !! i = Some j).
Proof.
  intros [(m & [_ Hm] & Hj) Hfr _ _ _ _] Hi. destruct (decide (i = j_id job)) as [->|Hne].
  - left. split; [done|]. rewrite Hj in Hi. simplify_eq. eauto.
  - right. by rewrite <- Hfr.
Qed.

Lemma ready_execute db1 wo wid c k K n db db' n' job payload body cur :
  ready db1 wo c k (j_id job :: K) n db → waiting k db job →
  jobs db !! j_id job = Some cur → sys_ok db' → fresh_from n' db' →
  execution_spec n n' job wid payload body cur db db' →
  ready db1 wo (S c) k K n' db'.
Proof.
  intros [_ _ Hrd Hat Hw Hst Hc Hqs] [_ Ha _ _] Hcur Hok Hfr Hx.
  pose proof (fun i j => execution_rows _ _ _ _ _ _ _ _ _ i j Hx) as Hrow. split; try done.
  - intros i j Hj. destruct (Hrow i j Hj) as [(-> & t1 & m & _ & ->)|[_ Hj']]; [|eauto].
    destruct (final_row_facts job payload t1 (pg_now m) cur) as (-> & _). eauto.
  - intros i j Hj. destruct (Hrow i j Hj) as [(-> & t1 & m & _ & ->)|[_ Hj']]; [|eauto].
    destruct (final_row_facts job payload t1 (pg_now m) cur) as (_ & -> & _). lia.
  - destruct (exec_tables _ _ _ _ _ _ _ _ _ Hx) as (_ & _ & _ & _ & -> & _). done.
  - intros i j Hj Hfl. destruct (Hrow i j Hj) as [(-> & t1 & m & _ & ->)|[Hne Hj']].
    + destruct (final_row_facts job payload t1 (pg_now m) cur) as (_ & _ & E). congruence.
    + destruct (Hst i j Hj' Hfl) as [?|?]; [|auto]. left. set_solver.
  - destruct (exec_record _ _ _ _ _ _ _ _ _ Hx) as (xid & t0 & t & ms & Hnone & _ & ->).
    rewrite map_size_insert_None by done. by rewrite Hc.
  - by destruct (exec_tables _ _ _ _ _ _ _ _ _ Hx) as (_ & _ & _ & -> & _).
Qed.

Lemma waiting_execute n n' k job0 wid payload body cur db db' job :
  execution_spec n n' job0 wid payload body cur db db' → waiting k db job → waiting k db' job.
Proof.
  intros Hx [? ? Hq [r Hr]]. split; try done.
  - destruct (exec_tables _ _ _ _ _ _ _ _ _ Hx) as (_ & _ & _ & -> & _). done.
  - destruct (decide (j_id job = j_id job0)) as [E|Hne].
    + destruct (exec_job _ _ _ _ _ _ _ _ _ Hx) as (m & _ & Hj). rewrite E. eauto.
    + rewrite (exec_frame _ _ _ _ _ _ _ _ _ Hx) by done. eauto.
Qed.

Lemma total_executeJob db1 wid c k K job l :
  0 ≤ k →
  total (fun n db => ready db1 (Some wid) c k (j_id job :: K) n db ∧ Forall (waiting k db) (job :: l))
    (executeJob job wid)
    (fun _ n db => ready db1 (Some wid) (S c) k K n db ∧ Forall (waiting k db) l).
Proof.
  intros Hk0 [db v n bg] [Hr Hw]. simpl in Hr, Hw. inversion_clear Hw as [|? ? Hj Hl].
  destruct Hj as [(p & b & Hp & Hb) Ha Hq [cur Hcur]] eqn:E. clear E.
  destruct (executeJob_run job wid p b cur v n bg db Hf Hclk) as (n' & db' & Hrun & _ & Hfr & Hx).
  { split; try done; try by apply Hr. unfold int4_min in *. lia. }
  pose proof (safe_run sys_ok _ _ (MkStore db v n bg)
    (obeys_executeJob (keeping sys_ok) job wid (proj1 Ha)) (rd_ok _ _ _ _ _ _ _ Hr)) as Hok'.
  rewrite Hrun in *. simpl in Hok'. eexists _, _. split; [done|]. simpl. split.
  - eapply ready_execute; eauto.
  - eapply Forall_impl; [exact Hl|]. intros job'. by eapply waiting_execute.
Qed.

(** ** The claim *)

Lemma total_claim db1 wid c k qid b :
  total (ready db1 (Some wid) c (k + 1) []) (sql (sql_claim qid wid b))
    (fun claimed n db => ready db1 (Some wid) c k (j_id <$> claimed) n db ∧
       Forall (waiting k db) claimed).
Proof.
  apply total_sql; [done|]. intros n db [Hok Hfr Hrd Hat Hw Hst Hc Hqs].
  destruct (Hw wid eq_refl) as [w Hwid].
  assert (∃ claimed db', sql_claim qid wid b n db = inr (claimed, db')) as (claimed & db' & Hq).
  { unfold sql_claim. rewrite (has_key_Some _ _ _ Hwid), orb_true_r. simpl. eauto. }
  pose proof (sys_db _ Hok) as Hdb.
  pose proof (proj1 (inv_claim qid wid b _ _ _ _ Hok Hq)) as Hok'.
  pose proof (fun x => elem_of_claimed _ _ _ _ _ _ _ x Hdb Hq) as Hin.
  pose proof (claim_result _ _ _ _ _ _ _ Hq) as [_ Edb].
  assert (∀ i j', jobs db' !! i = Some j' → ∃ j, jobs db !! i = Some j ∧
    (j' = j ∨ (j ∈ claim_selection n qid b db ∧ j' = set_claimed wid (pg_now n) j))) as Hrow.
  { intros i j'. rewrite Edb, jobs_with_jobs, lookup_update_where_Some.
    intros (j & Hj & ->). exists j. split; [done|]. destruct (selected_by _ j) eqn:E; [|auto].
    right. split; [|done]. by apply (selected_by_selection _ _ _ _ _ _ Hdb Hj). }
  exists claimed, db'. split; [done|]. split; [split; try done|].
  - rewrite Edb. apply fresh_with_jobs. eapply fresh_from_le; [done|lia].
  - intros i j' (j & Hj & [->|[_ ->]])%Hrow; [eauto|]. destruct j; simpl in *. by eapply (Hrd _ _ Hj).
  - intros i j' (j & Hj & [->|[_ ->]])%Hrow; specialize (Hat _ _ Hj); [lia|].
    destruct j; simpl in *. lia.
  - rewrite Edb. by destruct db.
  - intros i j' (j & Hj & [->|[Hs ->]])%Hrow Hfl.
    + destruct (Hst _ _ Hj Hfl) as [?|?]; [set_solver|by right].
    + left. apply list_elem_of_fmap. eexists. split; [|by apply Hin; eauto].
      destruct (set_claimed_keys wid (pg_now n) j) as (-> & _). symmetry. by apply Hdb.
  - rewrite <- Hc, Edb. by destruct db.
  - rewrite <- Hqs, Edb. by destruct db.
  - apply Forall_forall. intros x (j & Hj & ->)%Hin.
    destruct (selection_claimable _ _ _ _ _ Hj) as (_ & i & Hi).
    pose proof (Hat _ _ Hi). pose proof (row_attempts _ (sys_jobs _ Hok _ _ Hi)).
    pose proof (Hrd _ _ Hi). pose proof (ok_j_q _ Hdb _ _ Hi).
    pose proof (ok_j_id _ Hdb _ _ Hi) as E.
    assert (is_Some (jobs db' !! i)) as Hi'.
    { rewrite Edb, jobs_with_jobs. apply is_Some_update_where. eauto. }
    assert (queues db' = queues db) as Eq by (rewrite Edb; by destruct db).
    split; rewrite ?Eq; destruct j; simpl in *; try done; [lia|by subst].
Qed.

Lemma total_process_queue db1 wid k p c qid :
  0 ≤ k →
  total (ready db1 (Some wid) (c + p) (k + 1) []) (process_queue wid p qid)
    (fun p' => ready db1 (Some wid) (c + p') k []).
Proof.
  intros Hk. unfold process_queue. eapply total_bind.
  { apply (total_sql _ _ (fun _ => ready db1 (Some wid) (c + p) (k + 1) [])); [done|].
    intros n db Hr. eexists _, _. split; [done|]. destruct Hr; split; try done.
    eapply fresh_from_le; [done|lia]. }
  intros row. cbv zeta. case_bool_decide as Hb.
  { apply total_ret. intros n db []. split; try done. intros i j Hj.
    specialize (rd_attempts0 i j Hj). lia. }
  eapply total_bind; [apply total_claim|]. intros claimed.
  set (I := fun p' l n db => ready db1 (Some wid) (c + p') k (j_id <$> l) n db ∧
                             Forall (waiting k db) l).
  assert (total (I p claimed)
    (for_each (fun processed job => executeJob job wid ;;! ret (S processed)) claimed p)
    (fun p' => I p' [])) as H.
  { apply total_for_each. intros p' job l. unfold I. csimpl.
    eapply total_bind; [by apply total_executeJob|]. intros []. apply total_ret.
    intros n db [? ?]. by rewrite Nat.add_succ_r. }
  intros s Hs. destruct (H s Hs) as (a & s' & E & Ha). exists a, s'. split; [done|]. apply Ha.
Qed.

(** ** The whole tick *)

Lemma ready_aside db1 wid wid' c k n db db' :
  ready db1 wid c k [] n db → sys_ok db' → fresh_from (S n) db' →
  jobs db' = jobs db → job_executions db' = job_executions db →
  queues db' = queues db → (∀ w, wid' = Some w → is_Some (workers db' !! w)) →
  ready db1 wid' c k [] (S n) db'.
Proof. intros [] Hok Hfr E1 E2 E3 Hw. split; rewrite ?E1, ?E2, ?E3; done. Qed.

Lemma fresh_workers n f db :
  fresh_from n db → (∀ m, (n < m)%nat → f (workers db) !! pg_uuid m = None) →
  fresh_from (S n) (with_workers f db).
Proof.
  intros H Hw m Hm. destruct (H m ltac:(lia)) as (? & ? & ? & ? & ?).
  specialize (Hw m Hm). destruct db; simpl in *. done.
Qed.

Lemma fresh_heartbeats n f db :
  fresh_from n db → (∀ m, (n < m)%nat → f (worker_heartbeats db) !! pg_uuid m = None) →
  fresh_from (S n) (with_heartbeats f db).
Proof.
  intros H Hw m Hm. destruct (H m ltac:(lia)) as (? & ? & ? & ? & ?).
  specialize (Hw m Hm). destruct db; simpl in *. done.
Qed.

Lemma insert_fresh {R} (t : gmap string R) n m r :
  (n < m)%nat → t !! pg_uuid m = None → <[pg_uuid n := r]> t !! pg_uuid m = None.
Proof.
  intros Hm Ht. rewrite lookup_insert_ne; [done|]. intros E. apply pg_uuid_inj in E. lia.
Qed.

Lemma update_fresh {R} (t : gmap string R) P f k :
  t !! k = None → update_where P f t !! k = None.
Proof. intros Ht. by rewrite lookup_update_where, Ht. Qed.

Lemma total_upsert_heartbeat db1 wid c k :
  total (ready db1 (Some wid) c k []) (sql (sql_upsert_heartbeat wid))
    (fun _ => ready db1 (Some wid) c k []).
Proof.
  apply total_sql; [done|]. intros n db Hr. destruct (rd_worker _ _ _ _ _ _ _ Hr _ eq_refl) as [w Hw].
  pose proof (rd_fresh _ _ _ _ _ _ _ Hr) as Hfr.
  assert (∃ f, sql_upsert_heartbeat wid n db = inr (tt, with_heartbeats f db) ∧
    ∀ m, (n < m)%nat → f (worker_heartbeats db) !! pg_uuid m = None) as (f & Hq & Hfresh).
  { unfold sql_upsert_heartbeat. case_match.
    - eexists. split; [done|]. intros m Hm. apply update_fresh.
      by destruct (Hfr m ltac:(lia)) as (_ & ? & _).
    - destruct (Hfr n ltac:(lia)) as (_ & Hh & _).
      rewrite (has_key_None _ _ Hh), (has_key_Some _ _ _ Hw). eexists. split; [done|].
      intros m Hm. apply insert_fresh; [done|]. by destruct (Hfr m ltac:(lia)) as (_ & ? & _). }
  eexists _, _. split; [exact Hq|]. eapply ready_aside; [done| |by apply fresh_heartbeats|..];
    [|by destruct db..|intros ? [= <-]; destruct db; simpl in *; eauto].
  exact (inv_upsert_heartbeat wid _ _ _ _ (rd_ok _ _ _ _ _ _ _ Hr) Hq).
Qed.

Lemma total_insert_heartbeat db1 wid c k :
  total (fun n db => ready db1 (Some wid) c k [] n db ∧
           ∀ i h, worker_heartbeats db !! i = Some h → hb_worker_id h ≠ wid)
    (sql (sql_insert_heartbeat wid)) (fun _ => ready db1 (Some wid) c k []).
Proof.
  apply total_sql; [done|]. intros n db [Hr Hnew].
  destruct (rd_worker _ _ _ _ _ _ _ Hr _ eq_refl) as [w Hw].
  pose proof (rd_fresh _ _ _ _ _ _ _ Hr) as Hfr. destruct (Hfr n ltac:(lia)) as (_ & Hh & _).
  assert (some_row (fun h => bool_decide (hb_worker_id h = wid)) (worker_heartbeats db) = false)
    as Hsr.
  { apply some_row_false. intros i h Hi. apply bool_decide_eq_false. eauto. }
  eassert (sql_insert_heartbeat wid n db = inr (tt, _)) as Hq.
  { unfold sql_insert_heartbeat.
    by rewrite (has_key_None _ _ Hh), Hsr, (has_key_Some _ _ _ Hw). }
  eexists _, _. split; [exact Hq|]. eapply ready_aside; [done| |apply fresh_heartbeats; [done|]|..];
    [| |by destruct db..|intros ? [= <-]; destruct db; simpl in *; eauto].
  - exact (inv_insert_heartbeat wid _ _ _ _ (rd_ok _ _ _ _ _ _ _ Hr) Hq).
  - intros m Hm. apply insert_fresh; [done|]. by destruct (Hfr m ltac:(lia)) as (_ & ? & _).
Qed.

Lemma total_activate_worker db1 wid c k :
  total (ready db1 (Some wid) c k []) (sql (sql_activate_worker wid))
    (fun _ => ready db1 (Some wid) c k []).
Proof.
  apply total_sql; [done|]. intros n db Hr. eexists _, _. split; [done|].
  destruct (rd_worker _ _ _ _ _ _ _ Hr _ eq_refl) as [w Hw].
  eapply ready_aside; [done| |apply fresh_workers; [apply Hr|]|..];
    [| |by destruct db..|].
  - eapply (inv_activate_worker wid n db tt _ (rd_ok _ _ _ _ _ _ _ Hr) _).
    Unshelve. done.
  - intros m Hm. apply update_fresh.
    by destruct (rd_fresh _ _ _ _ _ _ _ Hr m ltac:(lia)) as (? & _).
  - intros ? [= <-]. destruct db; simpl in *. apply is_Some_update_where. eauto.
Qed.

Lemma total_insert_worker db1 c k :
  total (ready db1 None c k []) (sql sql_insert_worker)
    (fun wid n db => ready db1 (Some wid) c k [] n db ∧
       ∀ i h, worker_heartbeats db !! i = Some h → hb_worker_id h ≠ wid).
Proof.
  apply total_sql; [done|]. intros n db Hr. pose proof (rd_fresh _ _ _ _ _ _ _ Hr) as Hfr.
  destruct (Hfr n ltac:(lia)) as (Hw & _). eassert (sql_insert_worker n db = inr (_, _)) as Hq.
  { unfold sql_insert_worker. by rewrite (has_key_None _ _ Hw). }
  eexists _, _. split; [exact Hq|]. split.
  - eapply ready_aside; [done| |apply fresh_workers; [done|]|..]; [| |by destruct db..|].
    + exact (inv_insert_worker _ _ _ _ (rd_ok _ _ _ _ _ _ _ Hr) Hq).
    + intros m Hm. apply insert_fresh; [done|]. by destruct (Hfr m ltac:(lia)) as (? & _).
    + intros ? [= <-]. destruct db; simpl. rewrite lookup_insert_eq. eauto.
  - pose proof (ok_hb_w _ (sys_db _ (rd_ok _ _ _ _ _ _ _ Hr))) as Hhb.
    intros i h Hi E. destruct db; simpl in *.
    destruct (Hhb i h Hi) as [w Hw']. congruence.
Qed.

Lemma total_read {X} (q : query X) P :
  (∀ n db, P n db → P (S n) db) → (∀ n db, ∃ x, q n db = inr (x, db)) →
  total P (sql q) (fun x n db => P n db ∧ ∃ m, q m db = inr (x, db)).
Proof.
  intros HP Hq. apply total_sql; [done|]. intros n db H. destruct (Hq n db) as [x E].
  eexists _, _. split; [done|]. eauto.
Qed.

Lemma ready_step db1 wid c k K n db :
  ready db1 wid c k K n db → ready db1 wid c k K (S n) db.
Proof. intros []. split; try done. eapply fresh_from_le; [done|lia]. Qed.

Lemma total_ensureWorker db1 c k :
  total (ready db1 None c k []) ensureWorker (fun wid => ready db1 (Some wid) c k []).
Proof.
  unfold ensureWorker. eapply total_bind.
  { apply total_read; [apply ready_step|]. intros n db. eexists. done. }
  intros [|id l].
  - eapply total_pre; [|by intros n db [Hr _]; exact Hr].
    eapply total_bind; [apply total_insert_worker|]. intros wid.
    eapply total_bind; [apply total_insert_heartbeat|]. intros []. by apply total_ret.
  - eapply (total_pre _ (ready db1 (Some id) c k [])).
    { eapply total_bind; [apply total_upsert_heartbeat|]. intros [].
      eapply total_bind; [apply total_activate_worker|]. intros []. by apply total_ret. }
    intros n db [[] [m Hm]]. split; try done. intros ? [= <-].
    unfold sql_find_worker in Hm. injection Hm as Hm.
    assert (id ∈ take 1 (w_id <$> select_where m
      (fun w => bool_decide (w_name w = WORKER_NAME)) (workers db))) as Hin
      by (rewrite Hm; set_solver).
    eapply elem_of_take in Hin as (i & Hin & _). apply list_elem_of_lookup_2 in Hin.
    apply list_elem_of_fmap in Hin as (w & -> & Hw).
    apply elem_of_select_where in Hw as (_ & i' & Hi).
    rewrite (ok_w_id _ (sys_db _ rd_ok0) _ _ Hi). eauto.
Qed.

(** A database that ticks can start from, when at most [k] attempts may still
    be added to a job; a single tick adds at most one per queue. *)
Record ready_for (k : Z) (n : nat) (db : DB) : Prop := {
  tr_ok : sys_ok db;
  tr_fresh : fresh_from n db;
  tr_readable : ∀ i j, jobs db !! i = Some j → readable (j_payload j);
  tr_attempts : ∀ i j, jobs db !! i = Some j → j_attempts j ≤ int4_max - k;
}.

Definition tick_ready (n : nat) (db : DB) : Prop := ready_for (Z.of_nat (size (queues db))) n db.

(** What the reaper leaves. *)
Definition reaped_db (n : nat) (db : DB) : DB :=
  with_jobs (update_where (fun j => in_flight j && lease_expired (pg_now n) j) (reaped (pg_now n))) db.

Lemma length_select_le {R} n (P : R → bool) t : (length (select_where n P t) ≤ size t)%nat.
Proof.
  rewrite select_where_perm. etransitivity; [apply length_filter_bool_le|].
  unfold rows. by rewrite length_fmap, length_map_to_list.
Qed.

Lemma total_reaper n0 db0 k :
  ready_for k n0 db0 →
  total (fun n db => n = n0 ∧ db = db0) reaper
    (fun _ n db => n = S n0 ∧ db = reaped_db n0 db0 ∧
       ready (reaped_db n0 db0) None (size (job_executions db0)) k [] n db).
Proof.
  intros Ht. apply total_sql; [done|]. intros n db [-> ->].
  eexists _, _. split; [done|]. split; [done|]. split; [done|]. set (db1 := reaped_db n0 db0).
  assert (sys_ok db1) as Hok.
  { exact (inv_reap n0 db0 tt db1 (tr_ok _ _ _ Ht) eq_refl). }
  assert (∀ i j', jobs db1 !! i = Some j' → ∃ j, jobs db0 !! i = Some j ∧
    j_payload j' = j_payload j ∧ j_attempts j' = j_attempts j) as Hrow.
  { intros i j'. unfold db1, reaped_db. rewrite jobs_with_jobs, lookup_update_where_Some.
    intros (j & Hj & ->). exists j. split; [done|]. case_match; [by destruct j|done]. }
  split; try done.
  - apply fresh_with_jobs. eapply fresh_from_le; [apply Ht|lia].
  - intros i j' (j & Hj & -> & _)%Hrow. by eapply tr_readable.
  - intros i j' (j & Hj & _ & ->)%Hrow. by eapply tr_attempts.
  - auto.
  - unfold db1, reaped_db. by destruct db0.
Qed.

Lemma ready_slack db1 wid c k k' K n db : k' ≤ k → ready db1 wid c k K n db → ready db1 wid c k' K n db.
Proof.
  intros Hk []. split; try done. intros i j Hj. specialize (rd_attempts0 i j Hj). lia.
Qed.

Lemma total_queues db1 wid c qs k k' :
  0 ≤ k' → Z.of_nat (length qs) + k' ≤ k →
  total (ready db1 (Some wid) c k []) (for_each (process_queue wid) qs O)
    (fun p => ready db1 (Some wid) (c + p) k' []).
Proof.
  intros Hk' Hk.
  assert (∀ p l, total (ready db1 (Some wid) (c + p) (Z.of_nat (length l) + k') [])
    (for_each (process_queue wid) l p) (fun p' => ready db1 (Some wid) (c + p') k' [])) as H.
  { intros p l. apply (total_for_each _
      (fun p l => ready db1 (Some wid) (c + p) (Z.of_nat (length l) + k') [])).
    intros p' q l'. replace (Z.of_nat (length (q :: l')) + k') with (Z.of_nat (length l') + k' + 1)
      by (simpl; lia). apply total_process_queue. lia. }
  intros s Hs. apply H. rewrite Nat.add_0_r. by eapply ready_slack.
Qed.

(** The queues a tick serves. *)
Lemma active_queues_le n db qs db' :
  sql_active_queues n db = inr (qs, db') → (length qs ≤ size (queues db))%nat.
Proof.
  unfold sql_active_queues. intros [= <- _]. rewrite length_fmap. apply length_select_le.
Qed.

Lemma total_tick n0 db0 :
  (∃ url, getUrl = inr url) → tick_ready n0 db0 →
  total (fun n db => n = n0 ∧ db = db0) runWorkerTick
    (fun p _ db => size (job_executions db) = (size (job_executions db0) + p)%nat ∧
       ∀ i j, jobs db !! i = Some j → in_flight j = true → jobs db0 !! i = Some j).
Proof.
  intros [url Hurl] Ht. unfold runWorkerTick.
  eapply (total_bind _ _ (fun _ n db => n = n0 ∧ db = db0)).
  { intros s Hs. rewrite getSql_url by eauto. eexists _, _. split; [done|]. done. }
  intros []. eapply total_bind; [by apply total_reaper|]. intros [].
  eapply total_pre; [|intros n db (_ & _ & H); exact H].
  eapply total_bind; [apply total_ensureWorker|]. intros wid.
  eapply total_bind; [apply total_read; [intros; by apply ready_step|intros; by eexists]|].
  intros qs s [Hr [m Hm]].
  destruct (total_queues (reaped_db n0 db0) wid (size (job_executions db0)) qs
              (Z.of_nat (size (queues db0))) 0) with (s := s) as (p & s' & E & Hr'); [done| |exact Hr|].
  { apply active_queues_le in Hm. rewrite (rd_queues _ _ _ _ _ _ _ Hr) in Hm. unfold reaped_db in Hm.
    destruct db0. simpl in *. lia. }
  exists p, s'. split; [done|]. split; [apply Hr'|].
  intros i j Hj Hfl. destruct (rd_settled _ _ _ _ _ _ _ Hr' i j Hj Hfl) as [?|Hj1]; [set_solver|].
  unfold reaped_db in Hj1. rewrite jobs_with_jobs, lookup_update_where_Some in Hj1.
  destruct Hj1 as (j0 & Hj0 & ->). destruct (in_flight j0 && _); [by destruct j0|done].
Qed.


End tick.

(** ** Poison *)

Section poison.
Context {W : World} {J : Jose}.

(** Executing a job whose payload is a string that is not JSON throws before
    the first statement: no execution or log is recorded and no attempt is
    counted. *)
Lemma poison_job_throws job wid s e :
  parse_payload (j_payload job) = inl e → run (executeJob job wid) s = (inl e, s).
Proof. intros H. unfold executeJob. by rewrite H. Qed.

Lemma poison_batch_throws wid l p job e s :
  job ∈ l → parse_payload (j_payload job) = inl e →
  ∃ e' s', run (for_each (fun processed job => executeJob job wid ;;! ret (S processed)) l p) s =
    (inl e', s').
Proof.
  intros Hin He. revert p s. induction l as [|j l IH]; intros p s; [set_solver|]. simpl.
  rewrite !run_bind. apply elem_of_cons in Hin as [<-|Hin].
  - rewrite (poison_job_throws _ _ _ _ He). eauto.
  - destruct (run (executeJob j wid) s) as [[e'|[]] s']; [eauto|]. by apply IH.
Qed.


(** One such job in the page makes the whole list of jobs fail: the
    request is answered with an error although every other row is fine. *)
Theorem poison_job_breaks_list req org o i page s s1 j e :
  run scheduleWorkerTick s = (inr tt, s1) → fault_at (st_step s1) = None →
  uuid_param (JStr org) = inr (Some o) →
  uuid_param (js_opt JStr (search_param req "queue_id")) = inr i →
  sql_list_jobs org (default "" (search_param req "status")) (search_param req "queue_id")
    (st_step s1) (st_db s1) = inr (page, st_db s1) →
  j ∈ page → parse_payload (j_payload j) = inl e →
  ∃ e' s', run (list_jobs req org) s = (inl e', s').
Proof.
  intros Hs Hf Ho Hi Hq Hj He. unfold list_jobs. rewrite run_bind, Hs. cbv zeta.
  erewrite run_sql_ok by done.
  assert (∃ e', map_sum (fun j => mapJob (job_to_js j)) page = inl e') as [e' He'].
  { clear Hq. induction page as [|j' page IH]; [set_solver|].
    apply elem_of_cons in Hj as [<-|Hj]; simpl.
    - rewrite (mapJob_throws _ _ He). simpl. eauto.
    - destruct (IH Hj) as [e' ->]. destruct (mapJob _); simpl; eauto. }
  rewrite run_bind, He'. simpl. eauto.
Qed.

End poison.

(** ** Instances *)

Lemma demo_tick_ready : tick_ready (W := demo) 0 demo_db.
Proof.
  split.
  - apply demo_sys_ok.
  - apply demo_fresh.
  - unfold demo_db. simpl. intros i j Hj. fixture_rows; by eexists _, _.
  - unfold demo_db. simpl. intros i j Hj. fixture_rows; vm_compute; done.
Qed.


(** A job submitted with the payload ["abc"]. *)
Definition poison_job : JobRow := demo_job "j0" "q1" 10 0 (JStr "abc").
Definition poison_db : DB := with_jobs <["j0" := poison_job]> demo_db.
Definition poison_store : store := MkStore poison_db initial_vars 0 [].


Lemma poison_job_breaks_list_witness :
  ∃ e' s', run (list_jobs (demo_request "GET" None JNull) "o1") poison_store = (inl e', s').
Proof.
  eapply (poison_job_breaks_list (demo_request "GET" None JNull) "o1" "o1" None _ poison_store
            _ poison_job); try reflexivity.
  vm_compute. repeat (apply list_elem_of_here || apply list_elem_of_further).
Defined.
