(* ===== verification/Liveness.v ===== *)
(** * Jobs get done

    Every attempt the worker makes uses up a unit of work: a job that is not
    settled has as many units as attempts are left to it. Ticks that run one
    after the other, far enough apart for retries to become due, therefore
    settle every job of a queue that is served, each the way its payload
    decides. *)

From S2P Require Import Prelude JsValue JsJson Database Proc Hoare Http Auth DemoWorld Worker.
From S2P Require Import Scheduler Setup Router Integrity Statements Invariant Fixtures Claim.
From S2P Require Import Execution TickLogic Sessions Tick.

Open Scope js_scope.
Local Open Scope Z_scope.

(** ** Work *)

Definition unsettled (j : JobRow) : bool := bool_decide (j_status j = Queued) || in_flight j.

(** Attempts that may still be made of a job. *)
Definition remaining (j : JobRow) : nat :=
  if unsettled j then (1 `max` Z.to_nat (j_max_attempts j - j_attempts j))%nat else 0%nat.

Definition work (db : DB) : nat := sum_list_with remaining (rows (jobs db)).

Lemma sum_rows_insert {R} (f : R → nat) (t : gmap string R) i r r' :
  t !! i = Some r →
  (sum_list_with f (rows (<[i := r']> t)) + f r = sum_list_with f (rows t) + f r')%nat.
Proof.
  intros Hi. unfold rows. rewrite <- (insert_delete_id t i r Hi) at 2.
  rewrite <- insert_delete_eq. rewrite !map_to_list_insert by apply lookup_delete_eq.
  csimpl. lia.
Qed.

Lemma work_insert db db' i r r' :
  jobs db !! i = Some r → jobs db' = <[i := r']> (jobs db) →
  (work db' + remaining r = work db + remaining r')%nat.
Proof. intros Hi E. unfold work. rewrite E. by apply sum_rows_insert. Qed.

Lemma work_update P f db :
  (∀ i j, jobs db !! i = Some j → P j = true → remaining (f j) = remaining j) →
  work (with_jobs (update_where P f) db) = work db.
Proof.
  intros H. unfold work. rewrite jobs_with_jobs, rows_update_where.
  assert (∀ j, j ∈ rows (jobs db) → P j = true → remaining (f j) = remaining j) as Hr.
  { intros j [i Hi]%elem_of_rows. by eapply H. }
  clear H. induction (rows (jobs db)) as [|j l IH]; [done|]. csimpl. rewrite IH by set_solver. f_equal.
  destruct (P j) eqn:E; [apply Hr; set_solver|done].
Qed.

Lemma work_zero db i j : work db = 0%nat → jobs db !! i = Some j → unsettled j = false.
Proof.
  intros H Hj. assert (j ∈ rows (jobs db)) as Hin by (apply elem_of_rows; eauto).
  unfold work in H. apply (sum_list_elem remaining) in Hin. unfold remaining in Hin at 1.
  destruct (unsettled j); [lia|done].
Qed.

Lemma unsettled_status j :
  unsettled j = match j_status j with Queued | Claimed | Running => true | _ => false end.
Proof. unfold unsettled, in_flight. by destruct (j_status j). Qed.

Lemma unsettled_eq j j' : j_status j = j_status j' → unsettled j = unsettled j'.
Proof. intros E. by rewrite !unsettled_status, E. Qed.

(** ** The pace of a tick *)

Section pace.
Context {W : World} `{!WorldOk W}.

(** An attempt uses up work. *)
Lemma remaining_final job payload t1 t :
  unsettled job = true → (remaining (final_row job payload t1 t job) < remaining job)%nat.
Proof.
  intros Hu. unfold remaining. rewrite Hu, unsettled_status. unfold final_row.
  destruct (outcome_of payload) as [[] e]; [destruct job; cbn; lia|].
  case_bool_decide as Hm; [destruct job; cbn; lia|]. destruct job. cbn in *. lia.
Qed.

(** No job is added or moved, a settled one stays as it is, and one that was
    not settled settles the way its payload decides. *)
Definition settles (db0 db : DB) : Prop :=
  ∀ i j, jobs db !! i = Some j → ∃ j0, jobs db0 !! i = Some j0 ∧
    j_payload j = j_payload j0 ∧ j_queue_id j = j_queue_id j0 ∧
    (unsettled j0 = false → j_status j = j_status j0) ∧
    ∀ p, unsettled j0 = true → parse_payload (j_payload j0) = inr p →
      (j_status j = Completed → (outcome_of p).1 = true) ∧
      (j_status j = DeadLetter → (outcome_of p).1 = false).

(** [db0] is the database before the ticks, [w0] the sum of its work and of the
    executions recorded then, [J1] the job table as the reaper of this tick
    left it, [c0] the number of executions then, [l] the jobs that are claimed
    and wait, [p] the number of jobs processed since. *)
Record pace (db0 : DB) (w0 c0 : nat) (J1 : gmap string JobRow) (l : list JobRow) (p n : nat)
    (db : DB) : Prop := {
  pc_work : (work db + (c0 + p) ≤ w0)%nat;
  pc_soon : ∀ i j t, jobs db !! i = Some j → j_next_run_at j = Some t → t ≤ pg_now n + seconds 5;
  pc_settles : settles db0 db;
  pc_dom : dom (jobs db) = dom (jobs db0);
  pc_held : Forall (fun job => jobs db !! j_id job = Some job ∧ unsettled job = true) l;
  pc_distinct : NoDup (j_id <$> l);
  pc_quiet : p = 0%nat → l = [] → jobs db = J1;
}.

(** Rows that a job keeps when it is not executed. *)
Definition idle_change (f : JobRow → JobRow) : Prop := ∀ j,
  j_payload (f j) = j_payload j ∧ j_queue_id (f j) = j_queue_id j ∧
  j_next_run_at (f j) = j_next_run_at j ∧
  (unsettled j = true → unsettled (f j) = true ∧ remaining (f j) = remaining j).

Lemma idle_claimed wid now : idle_change (set_claimed wid now).
Proof.
  intros j. do 3 (split; [by destruct j|]). unfold remaining. rewrite !unsettled_status.
  destruct j as [? ? st]. destruct st; done.
Qed.

Lemma idle_reaped now : idle_change (reaped now).
Proof.
  intros j. do 3 (split; [by destruct j|]). unfold remaining. rewrite !unsettled_status.
  destruct j as [? ? st]. destruct st; done.
Qed.

Lemma settles_update P f db0 db :
  settles db0 db → idle_change f →
  (∀ i j, jobs db !! i = Some j → P j = true → unsettled j = true) →
  settles db0 (with_jobs (update_where P f) db).
Proof.
  intros Hs Hf HP i j'. rewrite jobs_with_jobs, lookup_update_where_Some. intros (j & Hj & ->).
  destruct (Hs i j Hj) as (j0 & Hj0 & Hp & Hq & Hst & Ho). exists j0. split; [done|].
  destruct (P j) eqn:E; [|done]. destruct (Hf j) as (-> & -> & _ & Hu).
  do 2 (split; [done|]). pose proof (HP i j Hj E) as Hj'. destruct (Hu Hj') as [Hu' _]. split.
  - intros Hj0'. specialize (Hst Hj0'). apply unsettled_eq in Hst. congruence.
  - rewrite unsettled_status in Hu'. intros p _ _. by destruct (j_status (f j)).
Qed.

Lemma pace_later db0 w0 c0 J1 l p n n' db db' :
  jobs db' = jobs db → (n ≤ n')%nat → pace db0 w0 c0 J1 l p n db → pace db0 w0 c0 J1 l p n' db'.
Proof.
  intros E Hn [Hw Hs Hse Hd Hh Hdi Hq]. split; unfold work, settles in *; rewrite ?E; try done.
  intros i j t Hj Ht. specialize (Hs i j t Hj Ht). pose proof (pg_now_mono n n' Hn). lia.
Qed.

Lemma pace_claim db0 w0 c0 J1 p n db qid wid b claimed db' :
  db_ok db → sql_claim qid wid b n db = inr (claimed, db') →
  pace db0 w0 c0 J1 [] p n db → pace db0 w0 c0 J1 claimed p (S n) db'.
Proof.
  intros Hok H [Hw Hs Hse Hd _ _ Hq]. pose proof (claim_result _ _ _ _ _ _ _ H) as [_ Edb].
  set (sel := selected_by (claim_selection n qid b db)) in *.
  assert (∀ i j, jobs db !! i = Some j → sel j = true → unsettled j = true) as Hsel.
  { intros i j Hj Hj'. apply (selected_by_selection _ _ _ _ _ _ Hok Hj), selection_claimable in Hj'.
    destruct Hj' as [Hc _]. unfold claimable in Hc. unfold unsettled.
    apply andb_true_iff in Hc as [[_ ->]%andb_true_iff _]. done. }
  assert (∀ i j', jobs db' !! i = Some j' → ∃ j, jobs db !! i = Some j ∧
    j_next_run_at j' = j_next_run_at j) as Hrow.
  { intros i j'. rewrite Edb, jobs_with_jobs, lookup_update_where_Some. intros (j & Hj & ->).
    exists j. split; [done|]. case_match; [apply idle_claimed|done]. }
  split.
  - rewrite Edb, work_update; [done|]. intros i j Hj Hj'. by apply idle_claimed, (Hsel i).
  - intros i j' t (j & Hj & ->)%Hrow Ht. specialize (Hs i j t Hj Ht).
    pose proof (pg_now_mono n (S n) ltac:(lia)). lia.
  - rewrite Edb. by apply settles_update; [|apply idle_claimed|].
  - by rewrite Edb, jobs_with_jobs, dom_update_where.
  - apply Forall_forall. intros c Hc. split; [by eapply claimed_row|].
    apply (elem_of_claimed _ _ _ _ _ _ _ c Hok H) in Hc as (j & Hj & ->).
    destruct (selection_claimable _ _ _ _ _ Hj) as (_ & i & Hi).
    apply idle_claimed, (Hsel i j Hi). by apply (selected_by_selection _ _ _ _ _ _ Hok Hi).
  - by eapply claimed_ids_distinct.
  - intros Hp Hc. rewrite <- (Hq Hp eq_refl), Edb, jobs_with_jobs. apply update_where_none.
    intros i j Hj. destruct (sel j) eqn:E; [|done]. exfalso.
    apply (selected_by_selection _ _ _ _ _ _ Hok Hj) in E.
    assert (set_claimed wid (pg_now n) j ∈ claimed) as Hin
      by (apply (elem_of_claimed _ _ _ _ _ _ _ _ Hok H); eauto).
    rewrite Hc in Hin. set_solver.
Qed.

(** What an attempt leaves of the row of its job. *)
Lemma final_row_settles job p t1 t :
  j_payload (final_row job p t1 t job) = j_payload job ∧
  j_queue_id (final_row job p t1 t job) = j_queue_id job ∧
  (j_status (final_row job p t1 t job) = Completed → (outcome_of p).1 = true) ∧
  (j_status (final_row job p t1 t job) = DeadLetter → (outcome_of p).1 = false) ∧
  (j_next_run_at (final_row job p t1 t job) = j_next_run_at job ∨
   j_next_run_at (final_row job p t1 t job) = Some (t + seconds 5)).
Proof.
  unfold final_row. destruct (outcome_of p) as [[] e]; [|case_bool_decide];
    destruct job; cbn; split_and!; auto; done.
Qed.

Lemma pace_execute db0 w0 c0 J1 l p n n' db db' job wid payload body :
  parse_payload (j_payload job) = inr payload → (n ≤ n')%nat →
  execution_spec n n' job wid payload body job db db' →
  pace db0 w0 c0 J1 (job :: l) p n db → pace db0 w0 c0 J1 l (S p) n' db'.
Proof.
  intros Hp Hn Hx [Hw Hs Hse Hd Hh Hdi _]. apply Forall_cons in Hh as [[Hj Hu] Hh].
  csimpl in Hdi. apply NoDup_cons in Hdi as [Hni Hdi].
  destruct (exec_job _ _ _ _ _ _ _ _ _ Hx) as (m & [_ Hm] & Hj').
  set (fin := final_row job payload (pg_now n) (pg_now m) job) in *.
  assert (jobs db' = <[j_id job := fin]> (jobs db)) as E.
  { apply map_eq. intros i. destruct (decide (i = j_id job)) as [->|Hne].
    - by rewrite lookup_insert_eq.
    - rewrite lookup_insert_ne by done. by apply (exec_frame _ _ _ _ _ _ _ _ _ Hx). }
  destruct (final_row_settles job payload (pg_now n) (pg_now m)) as (Fp & Fq & Fc & Fd & Ft).
  fold fin in Fp, Fq, Fc, Fd, Ft. split; try done.
  - pose proof (work_insert db db' _ job fin Hj E) as H1.
    assert (remaining fin < remaining job)%nat as H2 by (by apply remaining_final).
    lia.
  - intros i j t. rewrite E, lookup_insert_Some. pose proof (pg_now_mono n n' Hn).
    pose proof (pg_now_mono m n' Hm). intros [[<- <-]|[_ Hi]] Ht; [|specialize (Hs i j t Hi Ht); lia].
    destruct Ft as [Ft|Ft]; rewrite Ft in Ht; [specialize (Hs _ _ t Hj Ht)|simplify_eq]; lia.
  - intros i j. rewrite E, lookup_insert_Some. intros [[<- <-]|[_ Hi]]; [|by apply Hse].
    destruct (Hse _ _ Hj) as (j0 & Hj0 & Ep & Eq & Est & _). exists j0. split; [done|].
    split; [congruence|]. split; [congruence|]. split.
    { intros Hj0'. specialize (Est Hj0'). apply unsettled_eq in Est. congruence. }
    intros p' _ Hp'. rewrite <- Ep, Hp in Hp'.
    simplify_eq. auto.
  - rewrite E, dom_insert_lookup_L; [done|eauto].
  - rewrite Forall_forall in Hh |- *. intros c Hc. rewrite E, lookup_insert_ne; [by apply Hh|].
    intros Ec. apply Hni. rewrite Ec. apply list_elem_of_fmap. eauto.
Qed.
End pace.

(** ** A tick in step *)

Section tick.
Context {W : World} `{!WorldOk W}.
Context (Hf : no_faults_at_all) (Hclk : clock_ok).

(** A fact that does not depend on the store. *)
Lemma total_frame {A} P (p : proc A) Q (F : Prop) :
  total P p Q → total (fun n db => P n db ∧ F) p (fun a n db => Q a n db ∧ F).
Proof. intros H s [Hs HF]. destruct (H s Hs) as (a & s' & E & Ha). eauto. Qed.

(** What is fixed within a tick: the database before the ticks, the one the
    reaper left with nothing in flight, and the counts. *)
Context (db0 db1 : DB) (w0 c0 n1 : nat).
Context (Hidle : ∀ i j, jobs db1 !! i = Some j → in_flight j = false).

Definition inside (wid : string) (k : Z) (l : list JobRow) (p n : nat) (db : DB) : Prop :=
  ready db1 (Some wid) (c0 + p) k (j_id <$> l) n db ∧ Forall (waiting k db) l ∧
  pace db0 w0 c0 (jobs db1) l p n db ∧ (n1 ≤ n)%nat.

(** A queue with something to do when the tick starts. *)
Definition servable (q : QueueRow) : Prop := q_paused q = false ∧ 0 < default 5 (q_concurrency_limit q).
Definition busy (qid : string) : Prop := ∃ q i j,
  queues db1 !! qid = Some q ∧ servable q ∧
  jobs db1 !! i = Some j ∧ claimable qid (pg_now n1) j = true.

Lemma total_execute_inside wid k job l p :
  0 ≤ k →
  total (inside wid k (job :: l) p) (executeJob job wid)
    (fun _ => inside wid k l (S p)).
Proof.
  intros Hk s (Hr & Hw & Hp & Hn).
  pose proof (pc_held _ _ _ _ _ _ _ _ Hp) as Hh. apply Forall_cons in Hh as [[Hj _] _].
  pose proof Hw as Hw'. apply Forall_cons in Hw' as [[(payload & body & Hpp & Hb) Ha Hq _] _].
  destruct s as [db v n bg]. cbn [st_step st_db] in *.
  destruct (executeJob_run job wid payload body job v n bg db Hf Hclk) as (n' & db' & E & Hn' & _ & Hx).
  { split; try done; try by apply Hr. unfold int4_min in *. lia. }
  destruct (total_executeJob Hf Hclk db1 wid (c0 + p) k (j_id <$> l) job l Hk (MkStore db v n bg))
    as (a & s' & E' & Hr' & Hw'); [done|].
  rewrite E in E'. simplify_eq. eexists _, _. split; [done|]. cbn [st_step st_db] in *.
  split; [by rewrite Nat.add_succ_r|]. split; [done|]. split; [by eapply pace_execute|lia].
Qed.

Lemma claimable_later qid n n' j :
  (n ≤ n')%nat → claimable qid (pg_now n) j = true → claimable qid (pg_now n') j = true.
Proof.
  intros Hn. pose proof (pg_now_mono n n' Hn). unfold claimable, due. rewrite !andb_true_iff.
  intros [? Hd]. split; [done|]. destruct (j_next_run_at j); [|done].
  rewrite bool_decide_eq_true in *. lia.
Qed.

(** With nothing in flight the budget of a served queue is its limit. *)
Lemma total_budget_inside wid k p qid :
  total (inside wid k [] p) (sql (sql_budget qid))
    (fun row n db => inside wid k [] p n db ∧
       (p = 0%nat → busy qid → ∃ b, row = Some b ∧ 0 < b)).
Proof.
  apply total_sql; [done|]. intros n db (Hr & Hw & Hp & Hn). eexists _, _. split; [done|]. split.
  - split; [|split; [done|split; [eapply pace_later; [done| |done]; lia|lia]]].
    destruct Hr; split; try done. eapply fresh_from_le; [done|lia].
  - intros Hp0 (q & i & j & Hq & [_ Hl] & _). rewrite (rd_queues _ _ _ _ _ _ _ Hr), Hq.
    eexists. split; [done|]. unfold in_flight_count.
    rewrite (pc_quiet _ _ _ _ _ _ _ _ Hp Hp0 eq_refl).
    replace (count_where _ (jobs db1)) with 0%nat; [lia|]. symmetry. unfold count_where.
    rewrite (filter_bool_ext _ (fun _ => false)); [by induction (rows (jobs db1))|].
    intros r [i' Hi]%elem_of_rows. by rewrite (Hidle i' r Hi), andb_false_r.
Qed.

Lemma total_claim_inside wid k p qid b :
  total (inside wid (k + 1) [] p) (sql (sql_claim qid wid b))
    (fun claimed n db => inside wid k claimed p n db ∧
       (p = 0%nat → busy qid → (0 < b)%nat → claimed ≠ [])).
Proof.
  intros s (Hr & _ & Hp & Hn). pose proof (sys_db _ (rd_ok _ _ _ _ _ _ _ Hr)) as Hok.
  destruct (total_claim Hf Hclk db1 wid (c0 + p) k qid b s Hr) as (claimed & s' & E & Hr' & Hw').
  pose proof E as Hq. rewrite run_sql in Hq. unfold exec_query in Hq. rewrite Hf in Hq.
  destruct (sql_claim qid wid b (st_step s) (st_db s)) as [e|[x db']] eqn:Ec; simplify_eq/=.
  exists claimed, (MkStore db' (st_vars s) (S (st_step s)) (st_bg s)). split; [done|]. split.
  - split; [done|]. split; [done|]. split; [by eapply pace_claim|]. simpl. lia.
  - intros Hp0 (q & i & j & _ & _ & Hj & Hc) Hb ->.
    pose proof (length_claimed _ _ _ _ _ _ _ Hok Ec) as Hl. simpl in Hl.
    rewrite <- (pc_quiet _ _ _ _ _ _ _ _ Hp Hp0 eq_refl) in Hj.
    assert (0 < count_where (claimable qid (pg_now (st_step s))) (jobs (st_db s)))%nat; [|lia].
    assert (j ∈ List.filter (claimable qid (pg_now (st_step s))) (rows (jobs (st_db s)))) as Hin.
    { apply elem_of_filter_bool. split; [by eapply claimable_later|]. apply elem_of_rows. eauto. }
    unfold count_where. destruct (List.filter _ _); [set_solver|simpl; lia].
Qed.

Lemma total_queue_inside wid k p qid :
  0 ≤ k →
  total (inside wid (k + 1) [] p) (process_queue wid p qid)
    (fun p' n db => inside wid k [] p' n db ∧ (p' = 0%nat → p = 0%nat ∧ ~ busy qid)).
Proof.
  intros Hk. unfold process_queue. eapply total_bind; [apply total_budget_inside|].
  intros row. cbv zeta. case_bool_decide as Hb.
  { apply total_ret. intros n db [(Hr & _ & Hp & Hn) Hbusy]. split.
    - split; [eapply ready_slack; [|exact Hr]; lia|]. by split.
    - intros ->. split; [done|]. intros Hq. destruct (Hbusy eq_refl Hq) as (b & -> & ?). simpl in Hb. lia. }
  eapply total_bind; [eapply total_pre; [apply total_claim_inside|by intros n db [H _]]|].
  intros claimed s [Hin Hne].
  pose (I := fun (p' : nat) l n db => inside wid k l p' n db ∧ (p' + length l = p + length claimed)%nat).
  destruct (total_for_each (fun processed job => executeJob job wid ;;! ret (S processed)) I claimed p)
    with (s := s) as (p' & s' & E & Hin' & Hl); [|by split|].
  { intros p' job l. unfold I. eapply total_bind.
    - by apply total_frame, (total_execute_inside wid k job l p').
    - intros []. apply total_ret. intros n db [? ?]. split; [done|]. simpl in *. lia. }
  exists p', s'. split; [done|]. split; [done|]. intros ->. simpl in Hl.
  assert (p = 0%nat ∧ claimed = []) as [-> ->] by (destruct claimed; simpl in Hl; [split; [lia|done]|lia]).
  split; [done|]. intros Hq. apply Hne; [done|done| |done]. lia.
Qed.

Lemma total_queues_inside wid k k' qs :
  0 ≤ k' → Z.of_nat (length qs) + k' ≤ k →
  total (inside wid k [] 0) (for_each (process_queue wid) qs O)
    (fun p n db => inside wid k' [] p n db ∧ ∀ qid, qid ∈ qs → busy qid → p ≠ 0%nat).
Proof.
  intros Hk' Hk s (Hr & _ & Hp & Hn).
  pose (I := fun (p : nat) l n db => inside wid (Z.of_nat (length l) + k') [] p n db ∧
    (p = 0%nat → ∀ qid, qid ∈ qs → busy qid → qid ∈ (l : list string))).
  destruct (total_for_each (process_queue wid) I qs 0%nat) with (s := s)
    as (p & s' & E & (Hr' & _ & Hp' & Hn') & Hq).
  - intros p qid l. unfold I. intros s1 [Hin Hl].
    destruct (total_queue_inside wid (Z.of_nat (length l) + k') p qid) with (s := s1)
      as (p' & s1' & E & Hin' & Hz); [lia| |].
    { by replace (Z.of_nat (length l) + k' + 1) with (Z.of_nat (length (qid :: l)) + k')
        by (simpl; lia). }
    exists p', s1'. split; [done|]. split; [done|]. intros Hp0 q Hq Hb. destruct (Hz Hp0) as [Hpz Hnb].
    specialize (Hl Hpz q Hq Hb). apply elem_of_cons in Hl as [->|?]; [by destruct Hnb|done].
  - split; [|done]. split; [|by split]. eapply ready_slack; [|exact Hr]. lia.
  - exists p, s'. split; [done|]. split; [by split|]. intros qid Hin Hb ->.
    by apply (Hq eq_refl qid Hin), not_elem_of_nil in Hb.
Qed.

(** The queues that are served. *)
Lemma total_active_inside wid k :
  total (inside wid k [] 0) (sql sql_active_queues)
    (fun qs n db => inside wid k [] 0 n db ∧ (length qs ≤ size (queues db1))%nat ∧
       ∀ qid, busy qid → qid ∈ qs).
Proof.
  apply total_sql; [done|]. intros n db (Hr & Hw & Hp & Hn). eexists _, _. split; [done|]. split.
  { split; [|split; [done|split; [eapply pace_later; [done| |done]; lia|lia]]].
    destruct Hr; split; try done. eapply fresh_from_le; [done|lia]. }
  pose proof (rd_queues _ _ _ _ _ _ _ Hr) as Eq. split.
  - rewrite length_fmap, Eq. apply length_select_le.
  - intros qid (q & i & j & Hq & [Hpa _] & _). rewrite <- Eq in Hq.
    apply list_elem_of_fmap. exists q. split.
    + symmetry. apply (ok_q_id _ (sys_db _ (rd_ok _ _ _ _ _ _ _ Hr)) _ _ Hq).
    + apply elem_of_select_where. rewrite Hpa. eauto.
Qed.
End tick.

(** ** Rounds *)

Section rounds.
Context {W : World} `{!WorldOk W}.

Lemma total_triple {A} P P' (p : proc A) Q Q' E :
  total P p Q → triple P' p Q' E →
  total (fun n db => P n db ∧ P' n db) p (fun a n db => Q a n db ∧ Q' a n db).
Proof.
  intros H H' s [Hs Hs']. destruct (H s Hs) as (a & s' & Er & Ha).
  specialize (H' s Hs'). rewrite Er in H'. eauto.
Qed.

(** Registering the worker leaves the jobs alone. *)
Lemma triple_aside {X} (q : query X) J m :
  aside q → triple (fun n db => jobs db = J ∧ (m ≤ n)%nat) (sql q)
              (fun _ n db => jobs db = J ∧ (m ≤ n)%nat) (fun _ => True).
Proof.
  intros Ha. apply triple_sql; [done|]. intros n db x db' [<- Hn] Hq.
  destruct (Ha _ _ _ _ Hq) as [-> _]. split; [|done]. split; [done|lia].
Qed.

Lemma triple_ensureWorker J m :
  triple (fun n db => jobs db = J ∧ (m ≤ n)%nat) ensureWorker
    (fun _ n db => jobs db = J ∧ (m ≤ n)%nat) (fun _ => True).
Proof.
  unfold ensureWorker. eapply triple_bind; [apply triple_aside, aside_find_worker|].
  intros [|id l].
  - eapply triple_bind; [apply triple_aside, aside_insert_worker|]. intros w.
    eapply triple_bind; [apply triple_aside, aside_insert_heartbeat|]. intros [].
    by apply triple_ret.
  - eapply triple_bind; [apply triple_aside, aside_upsert_heartbeat|]. intros [].
    eapply triple_bind; [apply triple_aside, aside_activate_worker|]. intros [].
    by apply triple_ret.
Qed.

Context (Hf : no_faults_at_all) (Hclk : clock_ok) (Hurl : ∃ url, getUrl = inr url).

(** Between ticks: nothing is in flight and every job is due within five
    seconds, or was due before. *)
Record between (db0 : DB) (k : Z) (n : nat) (db : DB) : Prop := {
  bt_ready : ready_for k n db;
  bt_idle : ∀ i j, jobs db !! i = Some j → in_flight j = false;
  bt_soon : ∀ i j t, jobs db !! i = Some j → j_next_run_at j = Some t → t ≤ pg_now n + seconds 5;
  bt_settles : settles db0 db;
  bt_dom : dom (jobs db) = dom (jobs db0);
}.

(** Some queue that is served has a job that is due. *)
Definition has_work (n : nat) (db : DB) : Prop := ∃ qid q i j,
  queues db !! qid = Some q ∧ servable q ∧ jobs db !! i = Some j ∧
  claimable qid (pg_now n) j = true.

Lemma reaped_idle n db :
  (∀ i j, jobs db !! i = Some j → in_flight j = false) → jobs (reaped_db n db) = jobs db.
Proof.
  intros Hi. unfold reaped_db. rewrite jobs_with_jobs. apply update_where_none.
  intros i j Hj. by rewrite (Hi i j Hj).
Qed.

Lemma total_round db0 k n0 db :
  0 ≤ k → between db0 (k + Z.of_nat (size (queues db))) n0 db →
  total (fun n d => n = n0 ∧ d = db) runWorkerTick
    (fun p n d => between db0 k n d ∧ queues d = queues db ∧ (work d + p ≤ work db)%nat ∧
       (has_work n0 db → p ≠ 0%nat) ∧ size (job_executions d) = (size (job_executions db) + p)%nat).
Proof.
  intros Hk [Hr Hidle Hsoon Hset Hdom]. pose proof (reaped_idle n0 db Hidle) as Ej.
  set (db1 := reaped_db n0 db) in *. set (c0 := size (job_executions db)).
  assert (queues db1 = queues db) as Eq by (by destruct db).
  assert (∀ i j, jobs db1 !! i = Some j → in_flight j = false) as Hidle1 by (by rewrite Ej).
  unfold runWorkerTick. eapply (total_bind _ _ (fun _ n d => n = n0 ∧ d = db)).
  { intros s Hs. rewrite getSql_url by done. eexists _, _. split; [done|]. done. }
  intros []. eapply total_bind; [by apply (total_reaper Hf)|]. intros [].
  eapply total_bind.
  { eapply total_pre.
    - apply (total_triple _ _ _ _ _ _ (total_ensureWorker Hf Hclk db1 c0 (k + Z.of_nat (size (queues db))))
               (triple_ensureWorker (jobs db1) (S n0))).
    - intros n d (-> & -> & H). split; [exact H|]. split; [done|lia]. }
  intros wid. eapply total_bind.
  { eapply total_pre; [apply (total_active_inside Hf db0 db1 (work db + c0) c0 (S n0) wid)|].
    intros n d [H1 [H2 H3]]. split; [by rewrite Nat.add_0_r|]. split; [done|]. split; [|done].
    split; try done; rewrite ?H2, ?Ej; try done.
    - unfold work. rewrite H2, Ej. fold (work db). lia.
    - intros i j t Hj Ht. specialize (Hsoon i j t Hj Ht).
      pose proof (pg_now_mono n0 n ltac:(lia)). lia.
    - intros i j. rewrite H2, Ej. apply Hset.
    - constructor. }
  intros qs s (Hin & Hlen & Hall).
  destruct (total_queues_inside Hf Hclk db0 db1 (work db + c0) c0 (S n0) Hidle1 wid
              (k + Z.of_nat (size (queues db))) k qs Hk) with (s := s)
    as (p & s' & E & (Hr' & _ & Hp' & _) & Hne); [rewrite Eq in Hlen; lia|done|].
  exists p, s'. split; [done|]. split_and!.
  - split; [split; apply Hr'| |apply Hp'..].
    intros i j Hj. destruct (in_flight j) eqn:Ef; [|done].
    destruct (rd_settled _ _ _ _ _ _ _ Hr' i j Hj Ef) as [?|Hj1]; [set_solver|].
    by rewrite <- (Hidle1 i j Hj1), Ef.
  - rewrite <- Eq. apply Hr'.
  - pose proof (pc_work _ _ _ _ _ _ _ _ Hp'). lia.
  - intros (qid & q & i & j & Hq & Hs & Hj & Hc).
    assert (busy db1 (S n0) qid) as Hb.
    { exists q, i, j. rewrite Eq, Ej. do 3 (split; [done|]). eapply claimable_later; [|done]. lia. }
    eapply Hne; [|exact Hb]. by apply Hall.
  - apply Hr'.
Qed.

(** Ticks one after the other, each after [gap] steps of the clock. *)
Definition wait (gap : nat) (s : store) : store :=
  MkStore (st_db s) (st_vars s) (gap + st_step s) (st_bg s).

Fixpoint rounds (r gap : nat) (s : store) : thrown + store :=
  match r with
  | O => inr s
  | S r =>
      match run runWorkerTick (wait gap s) with
      | (inl e, _) => inl e
      | (inr _, s') => rounds r gap s'
      end
  end.

(** Nothing is left to do in the queues that are served. *)
Definition drained (db : DB) : Prop := ∀ i j q, jobs db !! i = Some j →
  queues db !! j_queue_id j = Some q → servable q → unsettled j = false.

Lemma settles_refl db : settles db db.
Proof.
  intros i j Hj. exists j. do 4 (split; [done|]). intros p Hu _. rewrite unsettled_status in Hu.
  by destruct (j_status j).
Qed.

Lemma between_wait db0 k n n' db : (n ≤ n')%nat → between db0 k n db → between db0 k n' db.
Proof.
  intros Hn [[Hok Hfr Hrd Hat] Hi Hs Hse Hd]. split; try done.
  - split; try done. by eapply fresh_from_le.
  - intros i j t Hj Ht. specialize (Hs i j t Hj Ht). pose proof (pg_now_mono n n' Hn). lia.
Qed.

(** A tick keeps drained queues drained, and has something to do in others. *)
Lemma drained_keeps db db' :
  settles db db' → queues db' = queues db → drained db → drained db'.
Proof.
  intros Hs Eq Hd i j q Hj Hq Hsv. destruct (Hs i j Hj) as (j0 & Hj0 & _ & Eqq & Est & _).
  assert (unsettled j0 = false) as Hu by (eapply Hd; [done| |done]; by rewrite <- Eqq, <- Eq).
  by rewrite (unsettled_eq j j0 (Est Hu)).
Qed.

#[local] Instance servable_dec q : Decision (servable q).
Proof. unfold servable. apply _. Defined.

Lemma drained_or_work db0 k n n' db :
  between db0 k n db → pg_now n + seconds 5 ≤ pg_now n' → drained db ∨ has_work n' db.
Proof.
  intros [Hr Hi Hs _ _] Hn.
  pose (P := fun (i : string) j => match queues db !! j_queue_id j with
                                   | Some q => servable q → unsettled j = false | None => True end).
  assert (∀ i j, Decision (P i j)) as Hdec by (intros i j; unfold P; case_match; apply _).
  destruct (decide (map_Forall P (jobs db))) as [HP|HP].
  - left. intros i j q Hj Hq Hsv. specialize (HP i j Hj). unfold P in HP. rewrite Hq in HP. auto.
  - right. apply map_not_Forall in HP as (i & j & Hj & HP); [|done]. unfold P in HP.
    destruct (queues db !! j_queue_id j) as [q|] eqn:Hq; [|done].
    assert (servable q) as Hsv by (destruct (decide (servable q)); [done|by destruct HP]).
    exists (j_queue_id j), q, i, j. do 3 (split; [done|]).
    assert (unsettled j = true) as Hu by (destruct (unsettled j); [done|by destruct HP]).
    unfold unsettled in Hu. rewrite (Hi i j Hj), orb_false_r in Hu.
    unfold claimable, in_queue, due. rewrite Hu, bool_decide_true by done. cbn [andb].
    destruct (j_next_run_at j) as [t|] eqn:Ht; [|done]. apply bool_decide_eq_true.
    specialize (Hs i j t Hj Ht). lia.
Qed.

Lemma rounds_drain db0 gap r s :
  (∀ n, pg_now n + seconds 5 ≤ pg_now (gap + n)) →
  between db0 (Z.of_nat (r * size (queues (st_db s)))) (st_step s) (st_db s) →
  (work (st_db s) ≤ r)%nat ∨ drained (st_db s) →
  ∃ s', rounds r gap s = inr s' ∧ between db0 0 (st_step s') (st_db s') ∧
    queues (st_db s') = queues (st_db s) ∧ drained (st_db s') ∧
    (size (job_executions (st_db s')) + work (st_db s') ≤
     size (job_executions (st_db s)) + work (st_db s))%nat.
Proof.
  intros Hgap. revert s. induction r as [|r IH]; intros s Hb Hw.
  { exists s. do 3 (split; [done|]). split; [|lia]. destruct Hw as [Hw|?]; [|done].
    intros i j q Hj _ _. eapply work_zero; [|done]. lia. }
  set (Q := size (queues (st_db s))) in *.
  assert (between db0 (Z.of_nat (r * Q) + Z.of_nat Q) (gap + st_step s) (st_db s)) as Hb'.
  { replace (Z.of_nat (r * Q) + Z.of_nat Q) with (Z.of_nat (S r * Q)) by lia.
    eapply between_wait; [|done]. lia. }
  destruct (total_round db0 (Z.of_nat (r * Q)) (gap + st_step s) (st_db s) ltac:(lia) Hb' (wait gap s))
    as (p & s' & E & Hb1 & Eq & Hwork & Hprog & Hx); [done|].
  assert (settles (st_db s) (st_db s')) as Hs'.
  { destruct (total_round (st_db s) (Z.of_nat (r * Q)) (gap + st_step s) (st_db s) ltac:(lia))
      with (s := wait gap s) as (p2 & s2 & E2 & Hb2 & _); [|done|].
    - destruct Hb'. split; try done. apply settles_refl.
    - rewrite E in E2. simplify_eq. apply Hb2. }
  destruct (IH s') as (s'' & Er & Hb'' & Eq' & Hd & Hx').
  - by rewrite Eq.
  - destruct Hw as [Hw|Hd]; [|right; by eapply drained_keeps].
    destruct (drained_or_work _ _ _ _ _ Hb (Hgap (st_step s))) as [Hd|Hh];
      [right; by eapply drained_keeps|left]. specialize (Hprog Hh). lia.
  - exists s''. cbn [rounds]. rewrite E. split; [done|]. split; [done|]. split; [congruence|].
    split; [done|]. lia.
Qed.

End rounds.

(** ** An example *)

(** The fixture with nothing in flight: four unsettled jobs, one of them in
    the paused queue. *)
Definition calm_db : DB :=
  with_jobs (fun _ => {["j1" := demo_j1; "j2" := demo_j2; "j3" := demo_j3;
                        "j4" := demo_job "j4" "q1" 5 1 fail_payload; "j5" := demo_j5]}) demo_db.
Definition calm_store : store := MkStore calm_db initial_vars 0 [].

Example calm_work : work calm_db = 9%nat.
Proof. by vm_compute. Qed.

Lemma calm_ready : ready_for (W := demo) 18 0 calm_db.
Proof.
  split.
  - unfold calm_db. split; [split|..]; unfold demo_db; simpl; intros; fixture_rows; simplify_eq/=;
      try done; try (by eexists); try (split; done).
  - exact (demo_fresh 0).
  - unfold calm_db, demo_db. simpl. intros i j Hj. fixture_rows; by eexists _, _.
  - unfold calm_db, demo_db. simpl. intros i j Hj. fixture_rows; vm_compute; done.
Qed.

