(* ===== verification/Throttle.v ===== *)
(** * The tick scheduler at work

    However requests interleave, at most one scheduled tick is under way at a
    time: [inFlight] acts as a token that a request takes when it starts a
    tick, hands over to it, and the tick gives back when it ends. *)

From S2P Require Import Prelude JsValue JsJson Database Proc Hoare Http Auth DemoWorld Worker.
From S2P Require Import Scheduler Setup Router Integrity Statements Programs Invariant.
From S2P Require Import Fixtures Sessions.

Open Scope js_scope.

Definition tokens (v : modvars) : nat := if inFlight v then 1 else 0.

(** [holds h p]: program [p] owns [h] tokens. A synchronous block may take or
    give back tokens only in step with [inFlight]; a promise that is started
    gets its tokens from the program that starts it; a program that ends owns
    none. *)
Fixpoint holds {A : Type} (h : nat) (p : proc A) : Prop :=
  match p with
  | Done _ => h = 0
  | Sql _ k => ∀ r, holds h (k r)
  | Sync f k => ∀ n v, h ≤ tokens v →
      ∃ h', holds h' (k (f n v).1) ∧ tokens (f n v).2 + h = tokens v + h'
  | Sleep _ k => holds h k
  | Fork b k => ∃ hb hk, h = hb + hk ∧ holds hb b ∧ holds hk k
  end.

Section tokens.
Context {W : World} {J : Jose}.

Lemma holds_then {A B} h h' (p : proc A) (k : thrown + A → proc B) :
  holds h p → (∀ r, holds h' (k r)) → holds (h + h') (proc_then p k).
Proof.
  revert h. induction p as [A r|A X q c IH|A X f c IH|A ms c IH|A b IHb c IH];
    intros h Hp Hk; simpl in *.
  - by subst h.
  - intros r. by apply IH.
  - intros n v Hv. destruct (Hp n v ltac:(lia)) as (h1 & H1 & E). exists (h1 + h').
    split; [by apply IH|lia].
  - by apply IH.
  - destruct Hp as (hb & hk & -> & Hb & Hc). exists hb, (hk + h').
    split; [lia|]. split; [done|]. by apply IH.
Qed.

Lemma holds_bind {A B} (p : proc A) (k : A → proc B) :
  holds 0 p → (∀ a, holds 0 (k a)) → holds 0 (bind p k).
Proof. intros Hp Hk. apply (holds_then 0 0); [done|]. by intros []. Qed.

Lemma holds_catch {A} (p : proc A) h :
  holds 0 p → (∀ e, holds 0 (h e)) → holds 0 (catch p h).
Proof. intros Hp Hk. apply (holds_then 0 0); [done|]. by intros []. Qed.

Lemma holds_for_each {A B} (f : B → A → proc B) l b :
  (∀ b a, holds 0 (f b a)) → holds 0 (for_each f l b).
Proof.
  intros Hf. revert b. induction l as [|a l IH]; intros b; simpl; [done|]. by apply holds_bind.
Qed.

Lemma holds_sync {X} (f : nat → modvars → X * modvars) :
  (∀ n v, tokens (f n v).2 = tokens v) → holds 0 (sync f).
Proof. intros H n v _. exists 0. split; [done|]. rewrite H. lia. Qed.

Ltac hold :=
  repeat (intros; cbv zeta; lazymatch goal with
    | |- holds 0 (bind _ _) => apply holds_bind
    | |- holds 0 (catch _ _) => apply holds_catch
    | |- holds 0 (for_each _ _ _) => apply holds_for_each
    | |- holds 0 (sync _) => apply holds_sync
    | |- holds 0 (match _ with _ => _ end) => case_match
    | |- _ => solve [auto | done]
    end).

(** ** The programs *)

Lemma holds_runWorkerTick : holds 0 runWorkerTick.
Proof.
  unfold runWorkerTick, getSql, reaper, ensureWorker, process_queue, executeJob, perform,
    date_now, record_failure. hold.
Qed.

(** A tick that is under way: what is left of [background_tick] once
    [runWorkerTick] has got to [t]. *)
Definition ticking (t : proc unit) : proc unit :=
  proc_then t (fun _ => sync clear_in_flight).

Lemma holds_ticking t : holds 0 t → holds 1 (ticking t).
Proof.
  intros Ht. apply (holds_then 0 1); [done|]. intros _ n v Hv. exists 0. split; [done|].
  unfold tokens in *. simpl. destruct (inFlight v); lia.
Qed.

Lemma holds_background_tick : holds 1 background_tick.
Proof. apply holds_ticking. pose proof holds_runWorkerTick. hold. Qed.

Lemma holds_scheduleWorkerTick : holds 0 scheduleWorkerTick.
Proof.
  intros n v _. unfold schedule_guard. destruct (inFlight v) eqn:E; simpl.
  - exists 0. split; [done|]. lia.
  - case_bool_decide; simpl; [exists 0; split; [done|lia]|].
    exists 1. split; [exists 1, 0; split_and!; [lia|apply holds_background_tick|done]|].
    unfold tokens. rewrite E. simpl. lia.
Qed.

Lemma holds_handleApi req path : holds 0 (handleApi req path).
Proof.
  pose proof holds_runWorkerTick. pose proof holds_scheduleWorkerTick.
  unfold handleApi, requireAuth, claimsFromRequest, verifyToken, login, resolveDemoUser,
    signToken, getSql, body_of, get, respond. apply holds_catch; [|done].
  case_match; [hold|]. apply holds_bind; [hold|]. intros [c|]; [|done].
  apply holds_bind; [done|]. intros _.
  unfold routes, list_projects, create_project, list_queues, create_queue, body_of, get, respond.
  do 4 (case_match; [hold|]).
  assert (∀ i s h, job_routes req i s (c_org_id c) = Some h → holds 0 h) as Hj.
  { unfold job_routes, job_executions_of, job_logs_of, retry_job, get_job, respond, map_job.
    intros i s h Hh. repeat case_match; simplify_eq; hold. }
  assert (∀ p, holds 0 (late_routes req p (c_org_id c))) as Hl.
  { intros p. unfold late_routes, worker_pulse, runWorkerTickNow, list_jobs, list_workers,
      list_dlq, respond. case_match; [hold|]. case_match; [hold|].
    destruct (match_resource "jobs" p) as [[i s]|]; simpl; [|hold].
    destruct (job_routes req i s _) eqn:E; [by eapply Hj|hold]. }
  destruct (match_resource "queues" _) as [[i s]|]; simpl; [|done].
  destruct (queue_routes req i s _) eqn:E; [|done]. revert E.
  unfold queue_routes, queue_stats, pause_queue, update_queue, enqueue_job, insert_and_schedule,
    map_job, body_of, get, respond. intros E. repeat case_match; simplify_eq; hold.
Qed.

Lemma holds_server_program p : server_program p → holds 0 p.
Proof.
  pose proof holds_runWorkerTick. pose proof holds_handleApi.
  intros [req path|req|req fails c].
  - unfold dispatch. hold.
  - unfold cron_worker, respond. hold.
  - unfold setup_post, respond, seedDemo, seed_queue, getSql. apply holds_bind; [|done].
    repeat case_match; simpl; hold.
Qed.

(** ** The pool *)

(** The tokens of the programs add up to [inFlight]. *)
Definition pool_tokens (c : pool * store) : Prop :=
  st_bg c.2 = [] ∧ ∃ hs, Forall2 (fun h p => holds h p) hs c.1 ∧
    sum_list hs = tokens (st_vars c.2).

Lemma sum_list_insert (hs : list nat) i h h' :
  hs !! i = Some h → sum_list (<[i := h']> hs) + h = sum_list hs + h'.
Proof.
  revert i. induction hs as [|x hs IH]; intros [|i] Hi; simplify_eq/=; [lia|].
  specialize (IH i Hi). lia.
Qed.

Lemma pool_tokens_step i c : pool_tokens c → pool_tokens (pool_step i c).
Proof.
  destruct c as [ps s]. intros (Hbg & hs & Hps & Hsum). simpl in *.
  unfold pool_step. destruct (ps !! i) as [p|] eqn:Hi; [|by split; eauto].
  destruct (Forall2_lookup_r _ _ _ _ _ Hps Hi) as (h & Hh & Hp).
  assert (h ≤ tokens (st_vars s)) as Hle.
  { pose proof (sum_list_insert hs i h 0 Hh). lia. }
  destruct p as [r|X q k|X f k|ms k|b k]; simpl in *.
  - rewrite Hbg, app_nil_r. split; [done|]. exists hs. split; [|done].
    rewrite <- (list_insert_id hs i h) by done. by apply Forall2_insert.
  - destruct (exec_query _ _ _) as [r db']. rewrite Hbg, app_nil_r. split; [done|].
    exists (<[i := h]> hs). rewrite (list_insert_id hs) by done. split; [|done].
    rewrite <- (list_insert_id hs i h) by done. by apply Forall2_insert.
  - destruct (Hp (st_step s) (st_vars s) Hle) as (h' & Hk & E).
    destruct (f _ _) as [x v']. simpl in *. rewrite Hbg, app_nil_r. split; [done|].
    exists (<[i := h']> hs). split; [by apply Forall2_insert|]. simpl.
    pose proof (sum_list_insert hs i h h' Hh). lia.
  - rewrite Hbg, app_nil_r. split; [done|]. exists hs. split; [|done].
    rewrite <- (list_insert_id hs i h) by done. by apply Forall2_insert.
  - destruct Hp as (hb & hk & -> & Hb & Hk). rewrite Hbg. split; [done|].
    exists (<[i := hk]> hs ++ [hb]). split; [|simpl].
    + apply Forall2_app; [by apply Forall2_insert|by repeat constructor].
    + rewrite sum_list_with_app. simpl. pose proof (sum_list_insert hs i _ hk Hh).
      unfold sum_list in *. lia.
Qed.

Lemma reachable_tokens c c' : pool_tokens c → reachable c c' → pool_tokens c'.
Proof. intros Hc. induction 1; eauto using pool_tokens_step. Qed.

(** A tick that is under way owns a token, however far it has got. *)
Lemma then_clear_holds {A} (t : proc A) h :
  holds h (proc_then t (fun _ => sync clear_in_flight)) → 1 ≤ h.
Proof.
  revert h. induction t as [A r|A X q c IH|A X f c IH|A ms c IH|A b IHb c IH]; intros h Ht; simpl in *.
  - destruct (decide (h ≤ 1)); [|lia].
    destruct (Ht 0 (MkVars true 0%Z) ltac:(done)) as (h' & Hd & E). simpl in *.
    unfold tokens in E. simpl in E. lia.
  - apply (IH (inl NotAnError)), Ht.
  - destruct (decide (h ≤ 1)); [|lia].
    destruct (Ht 0 (MkVars true 0%Z) ltac:(done)) as (h' & Hk & E). apply IH in Hk.
    assert (tokens (f 0 (MkVars true 0%Z)).2 ≤ 1) by (unfold tokens; case_match; lia).
    change (tokens (MkVars true 0%Z)) with 1 in E. lia.
  - eauto.
  - destruct Ht as (hb & hk & -> & _ & Hk). apply IH in Hk. lia.
Qed.

(** C20: At most one scheduled worker tick is under way at any time in a
    server process, however its requests interleave and wherever statements
    fail; while one is, [inFlight] is set, so no request can start another. *)
Theorem one_scheduled_tick ps v n db c :
  Forall server_program ps → inFlight v = false → reachable (ps, MkStore db v n []) c →
  (∀ i j t t', c.1 !! i = Some (ticking t) → c.1 !! j = Some (ticking t') → i = j) ∧
  (∀ i t, c.1 !! i = Some (ticking t) → inFlight (st_vars c.2) = true).
Proof.
  intros Hps Hv Hc. assert (pool_tokens c) as (_ & hs & Hh & Hsum).
  { eapply reachable_tokens; [|done]. split; [done|]. exists (replicate (length ps) 0). simpl.
    assert (∀ m, sum_list (replicate m 0) = 0) as Hz by (induction m; simpl; done).
    split; [|rewrite Hz; unfold tokens; by rewrite Hv].
    clear Hc. induction Hps; simpl; constructor; [by apply holds_server_program|done]. }
  assert (∀ i t, c.1 !! i = Some (ticking t) → ∃ h, hs !! i = Some h ∧ 1 ≤ h) as Ht.
  { intros i t Hi. destruct (Forall2_lookup_r _ _ _ _ _ Hh Hi) as (h & Hih & Hp).
    exists h. split; [done|]. by eapply then_clear_holds. }
  assert (tokens (st_vars c.2) ≤ 1) as Hle by (unfold tokens; case_match; lia).
  split.
  - intros i j t t' Hi Hj. destruct (Ht _ _ Hi) as (h & Hih & H1), (Ht _ _ Hj) as (h' & Hjh & H2).
    destruct (decide (i = j)) as [|Hne]; [done|]. exfalso.
    pose proof (sum_list_insert hs i h 0 Hih) as E1.
    assert (<[i := 0]> hs !! j = Some h') as Hj0 by (by rewrite list_lookup_insert_ne).
    pose proof (sum_list_insert _ j h' 0 Hj0) as E2. lia.
  - intros i t Hi. destruct (Ht _ _ Hi) as (h & Hih & H1).
    pose proof (sum_list_insert hs i h 0 Hih) as E. clear Ht Hle. unfold tokens in Hsum.
    destruct (inFlight (st_vars c.2)); [done|]. lia.
Qed.

End tokens.

(** ** Instances *)

Lemma one_scheduled_tick_witness :
  let c := pool_run (W := flaky) busy_schedule (busy_pool, demo_store) in
  (∀ i j t t', c.1 !! i = Some (ticking t) → c.1 !! j = Some (ticking t') → i = j) ∧
  (∀ i t, c.1 !! i = Some (ticking t) → inFlight (st_vars c.2) = true).
Proof.
  intros c. apply (@one_scheduled_tick flaky demo_jose busy_pool initial_vars 0 demo_db c);
    [repeat constructor|done|apply pool_run_reachable].
Defined.
