(* ===== verification/SetupProps.v ===== *)
(** * Setting up a deployment

    The schema can be created again after any partial run; the demo data is
    inserted once, and a deployment set up from nothing serves its first
    tick. *)

From S2P Require Import Prelude JsValue JsJson Database Proc Hoare Http Auth DemoWorld Worker.
From S2P Require Import Scheduler Setup Router Integrity Statements Invariant Fixtures Execution.
From S2P Require Import Sessions.

Open Scope js_scope.
Local Open Scope Z_scope.

(** ** Schema *)

Definition no_ddl_fault : nat → option thrown := fun _ => None.

Definition full_catalog : catalog := (run_ddl no_ddl_fault 0 STATEMENTS empty_catalog).2.

(** A run that fails has executed a prefix of its statements. *)
Lemma run_ddl_prefix fails n l c :
  ∃ k r, (k ≤ length l)%nat ∧ run_ddl fails n l c = (r, (run_ddl no_ddl_fault n (take k l) c).2).
Proof.
  revert n c. induction l as [|s l IH]; intros n c; simpl; [by exists 0%nat, (inr tt)|].
  destruct (fails n) as [e|]; [by exists 0%nat, (inl e); split; [lia|]|].
  destruct (exec_ddl s c) as [e|c'] eqn:E.
  - exists 0%nat, (inl e). split; [lia|done].
  - destruct (IH (S n) c') as (k & r & Hk & ->). exists (S k), r. split; [lia|].
    simpl. by rewrite E.
Qed.

(** Every prefix can be completed. *)
Lemma prefixes_complete :
  Forall (fun k => run_ddl no_ddl_fault 0 STATEMENTS
                     (run_ddl no_ddl_fault 0 (take k STATEMENTS) empty_catalog).2 =
                   (inr tt, full_catalog)) (seq 0 (S (length STATEMENTS))).
Proof. repeat constructor; vm_compute; reflexivity. Qed.


Definition columns (t : string) : option (list string) :=
  (fun t => col_name <$> tbl_cols t) <$> cat_tables full_catalog !! t.

Definition keys (v : jsval) : option (list string) :=
  match v with JObj l => Some l.*1 | _ => None end.

(** The schema has ten tables, with the columns that the rows of the
    server have: the columns of projects, queues, jobs, executions and logs
    are the members of the row objects that are sent, those of the other
    tables are as listed. The job states are those of the server, in their
    order, and a unique index backs the idempotency keys. *)
Theorem schema_complete :
  size (cat_tables full_catalog) = 10%nat ∧
  (∀ p, columns "projects" = keys (project_to_js p)) ∧
  (∀ q, columns "queues" = keys (queue_to_js q)) ∧
  (∀ j, columns "jobs" = keys (job_to_js j)) ∧
  (∀ x, columns "job_executions" = keys (exec_to_js x)) ∧
  (∀ l, columns "job_logs" = keys (log_to_js l)) ∧
  (columns <$> ["organizations"; "users"; "workers"; "worker_heartbeats"; "dead_letter_queue"]) =
    [Some ["id"; "name"; "slug"; "created_at"; "updated_at"];
     Some ["id"; "org_id"; "email"; "name"; "role"; "password_hash"; "created_at"; "updated_at"];
     Some ["id"; "name"; "status"; "meta"; "created_at"; "updated_at"];
     Some ["id"; "worker_id"; "last_seen_at"; "metadata"; "created_at"; "updated_at"];
     Some ["id"; "job_id"; "original_queue_id"; "payload"; "failed_at"; "reason";
           "attempts_made"; "created_at"]] ∧
  cat_enums full_catalog !! "job_status" =
    Some (job_status_text <$> [Queued; Scheduled; Claimed; Running; Completed; Failed; DeadLetter]) ∧
  (fun i => (idx_table i, idx_cols i, idx_unique i, idx_where i))
      <$> cat_indexes full_catalog !! "idx_jobs_idempotency" =
    Some ("jobs", ["queue_id"; "idempotency_key"], true, Some "idempotency_key IS NOT NULL").
Proof. split_and!; intros; vm_compute; reflexivity. Qed.

(** ** Seed *)

(** Seeding is decided by the demo organization alone: once it exists, the
    seed route reports that nothing was seeded and changes nothing, even when
    an earlier seed was cut short after the organization was inserted. *)
Theorem seed_once {W : World} `{!WorldOk W} s k o :
  (∃ url, getUrl = inr url) → fault_at (st_step s) = None →
  organizations (st_db s) !! k = Some o → org_slug o = "demo" →
  run seedDemo s =
    (inr [("seeded", JBool false)], MkStore (st_db s) (st_vars s) (S (st_step s)) (st_bg s)).
Proof.
  intros Hurl Hf Hk Ho. unfold seedDemo. rewrite run_bind, getSql_url by done.
  erewrite run_sql_ok by done. rewrite bool_decide_true; [done|]. intros E.
  assert (o ∈ select_where (st_step s) (fun o => bool_decide (org_slug o = "demo"))
                (organizations (st_db s))) as Hin.
  { apply elem_of_select_where. rewrite bool_decide_eq_true. eauto. }
  destruct (select_where _ _ _) as [|o' l]; [set_solver|done].
Qed.

(** ** From nothing to the first tick *)

Definition setup_request : Request := demo_request "POST" None JNull.

Definition fresh_store : store := MkStore empty_db initial_vars 0 [].

Definition deployed : store := (run (setup_post setup_request no_ddl_fault empty_catalog).1 fresh_store).2.

Definition statuses (db : DB) : list job_status := j_status <$> rows (jobs db).

(** A deployment from nothing works: the setup route answers 200 and
    leaves one organization, user and project, three queues, nine queued jobs
    and one worker; calling it again changes nothing; one tick of the cron
    route then completes all nine jobs with nine execution records. *)
Theorem first_deployment :
  answered (run (setup_post setup_request no_ddl_fault empty_catalog).1 fresh_store) = Some 200 ∧
  (let db := st_db deployed in
   size (organizations db) = 1%nat ∧ size (users db) = 1%nat ∧ size (projects db) = 1%nat ∧
   size (queues db) = 3%nat ∧ size (workers db) = 1%nat ∧
   statuses db = replicate 9 Queued) ∧
  st_db (run (setup_post setup_request no_ddl_fault full_catalog).1 deployed).2 = st_db deployed ∧
  answered (run (cron_worker (demo_request "GET" None JNull)) deployed) = Some 200 ∧
  (let db := st_db (run (cron_worker (demo_request "GET" None JNull)) deployed).2 in
   statuses db = replicate 9 Completed ∧ size (job_executions db) = 9%nat).
Proof. vm_compute. split_and!; reflexivity. Qed.

(** ** Instances *)


Lemma seed_once_witness :
  run seedDemo demo_store = (inr [("seeded", JBool false)], MkStore demo_db initial_vars 1 []).
Proof.
  apply (@seed_once demo demo_ok demo_store "o1" demo_org); try reflexivity. by eexists.
Defined.
