(* ===== verification/Format.v ===== *)
(** * Display helpers ([dashboard/src/lib/format.ts], [components/ui/CopyId.tsx])

    Labels of times, jobs, queues and durations, and slugs of names. Numbers
    that a quotient or product makes fractional are rounded to doubles before
    they are printed, as JavaScript does. *)

From Stdlib Require Import Ascii QArith Qcanon.
From S2P Require Import Prelude JsValue.

Local Open Scope Z_scope.

(** ** Relative times *)

Definition show (z : Z) : string := num_to_string (num_of_Z z).

(** [formatRelativeTime(ts)] at the time [now]; [t] is
    [new Date(ts).getTime()], absent for [NaN]. A comparison with [NaN] is
    false, so that case falls through to the last line. *)
Definition formatRelativeTime (now : Z) (t : option Z) : string :=
  match t with
  | None => "NaNd ago"
  | Some t =>
      let secs := (now - t) `div` 1000 in
      if bool_decide (secs < 5) then "just now"
      else if bool_decide (secs < 60) then show secs +:+ "s ago"
      else
        let mins := secs `div` 60 in
        if bool_decide (mins < 60) then show mins +:+ "m ago"
        else
          let hrs := mins `div` 60 in
          if bool_decide (hrs < 24) then show hrs +:+ "h ago"
          else show (hrs `div` 24) +:+ "d ago"
  end.

(** The label that a tick of [RelativeTime] sets. *)
Definition RelativeTime_label (now : Z) (t : option Z) : string :=
  match t with
  | None => "NaNd ago"
  | Some t =>
      let secs := (now - t) `div` 1000 in
      if bool_decide (secs < 5) then "just now"
      else if bool_decide (secs < 60) then show secs +:+ "s ago"
      else if bool_decide (secs < 3600) then show (secs `div` 60) +:+ "m ago"
      else if bool_decide (secs < 86400) then show (secs `div` 3600) +:+ "h ago"
      else show (secs `div` 86400) +:+ "d ago"
  end.

(** C39: The two implementations of relative times in the console agree: the
    component that refreshes every second shows the label that
    [formatRelativeTime] computes, at every instant and for every timestamp,
    future and unparsable ones included. *)
Theorem relative_time_agrees now t : formatRelativeTime now t = RelativeTime_label now t.
Proof.
  destruct t as [t|]; [|done]. unfold formatRelativeTime, RelativeTime_label. cbv zeta.
  generalize ((now - t) `div` 1000) as secs. intros secs.
  destruct (decide (secs < 60)) as [Hs|Hs].
  { rewrite (bool_decide_true (secs < 60)) by done. done. }
  rewrite (bool_decide_false (secs < 5)), (bool_decide_false (secs < 60)) by lia.
  rewrite !Z.div_div by lia.
  assert (secs `div` 60 < 60 ↔ secs < 3600) as Em.
  { split; intros H; [|apply Z.div_lt_upper_bound; lia].
    apply Z.nle_gt. intros Hle. apply (Z.div_le_mono _ _ 60) in Hle; [|lia].
    change (3600 `div` 60) with 60 in Hle. lia. }
  assert (secs `div` (60 * 60) < 24 ↔ secs < 86400) as Eh.
  { split; intros H; [|apply Z.div_lt_upper_bound; lia].
    apply Z.nle_gt. intros Hle. apply (Z.div_le_mono _ _ (60 * 60)) in Hle; [|lia].
    change (86400 `div` (60 * 60)) with 24 in Hle. lia. }
  by rewrite (bool_decide_ext _ _ Em), (bool_decide_ext _ _ Eh).
Qed.

(** ** Names *)

Definition typeof_object (v : jsval) : bool :=
  match v with JNull | JDate _ | JArr _ | JObj _ => true | _ => false end.

Definition as_string (v : jsval) : option string :=
  match v with JStr s => Some s | _ => None end.

(** A string that passes [s &&]. *)
Definition non_empty (o : option string) : option string :=
  s ← o; if bool_decide (s = "") then None else Some s.

(** [jobDisplayName(job, fallback)]; a job without a key and without a typed
    payload shows the fallback. *)
Definition jobDisplayName (job : jsval) (fallback : string) : string :=
  if truthy (field job "idempotency_key") then js_to_string (field job "idempotency_key")
  else
    let payload := field job "payload" in
    if truthy payload && typeof_object payload then
      let type := non_empty (as_string (field payload "type")) in
      let message := non_empty (as_string (field payload "message")) in
      let duration := match field payload "duration_ms" with JNum a => Some a | _ => None end in
      match type, message with
      | Some ty, Some m => ty +:+ " — " +:+ m
      | Some ty, None =>
          if truthy (field job "cron_expr") then ty +:+ " (recurring)"
          else match duration with
               | Some d => ty +:+ " (" +:+ num_to_string d +:+ "ms)"
               | None => ty
               end
      | None, _ => fallback
      end
    else fallback.

(** [list.find((x) => x.id === id)?.name ?? d]. *)
Definition name_by_id (id : string) (l : list (string * string)) (d : string) : string :=
  match List.find (fun x => bool_decide (x.1 = id)) l with Some x => x.2 | None => d end.

Definition queueName (queueId : string) (queues : list (string * string)) : string :=
  name_by_id queueId queues "Unknown queue".

Definition workerName (workerId : string) (workers : list (string * string)) : string :=
  name_by_id workerId workers "Unknown worker".

Definition truncateId (id : string) (len : nat) : string :=
  if bool_decide (len < String.length id)%nat then slice_to id len +:+ "…" else id.

(** ** Slugs *)

Definition dash : ascii := "-"%char.
Definition is_dash (c : ascii) : bool := bool_decide (c = dash).

(** [.replace(/[^a-z0-9]+/g, "-")]: [run] tells that the previous character
    was replaced. *)
Fixpoint replace_runs (run : bool) (l : chars) : chars :=
  match l with
  | [] => []
  | c :: l => if is_alnum c then c :: replace_runs false l
              else if run then replace_runs true l else dash :: replace_runs true l
  end.

(** [.replace(/^-+|-+$/g, "")]. *)
Definition strip_dashes (l : chars) : chars :=
  reverse (drop_while is_dash (reverse (drop_while is_dash l))).

Definition slugifyName (name : string) : string :=
  of_chars (strip_dashes (replace_runs false (to_chars (toLowerCase (trim name))))).

(** The [pattern] of the slug inputs, [[a-z0-9]+(?:-[a-z0-9]+)*]: [need] tells
    that an alphanumeric character must follow. *)
Fixpoint slug_chars (need : bool) (l : chars) : bool :=
  match l with
  | [] => negb need
  | c :: l => if is_alnum c then slug_chars false l
              else is_dash c && negb need && slug_chars true l
  end.

Definition slug_pattern (s : string) : bool := slug_chars true (to_chars s).

(** *** What a slug is *)

Definition slug_char (c : ascii) : bool := is_alnum c || is_dash c.

(** No two dashes in a row. *)
Definition no_double_dash (l : list ascii) : Prop :=
  ∀ i, l !! i = Some dash → l !! S i ≠ Some dash.

Lemma alnum_not_dash c : is_alnum c = true → is_dash c = false.
Proof.
  unfold is_dash. case_bool_decide as H; [|done]. subst c. done.
Qed.

Lemma no_double_dash_tail c l : no_double_dash (c :: l) → no_double_dash l.
Proof. intros H i Hi. exact (H (S i) Hi). Qed.

Lemma no_double_dash_take n l : no_double_dash l → no_double_dash (take n l).
Proof.
  intros H i (Hi & ?)%lookup_take_Some (Hs & ?)%lookup_take_Some. exact (H i Hi Hs).
Qed.

Lemma no_double_dash_drop n l : no_double_dash l → no_double_dash (drop n l).
Proof.
  intros H i Hi Hs. rewrite lookup_drop in Hi. rewrite lookup_drop, Nat.add_succ_r in Hs.
  exact (H _ Hi Hs).
Qed.

(** Characters of a slug, dashes single and inside: that is the pattern. *)
Lemma slug_chars_intro need l :
  Forall (fun c => slug_char c = true) l → no_double_dash l →
  (need = true → ∃ c, head l = Some c ∧ is_dash c = false) →
  last l ≠ Some dash → slug_chars need l = true.
Proof.
  revert need. induction l as [|c l IH]; intros need Hall Hdd Hneed Hlast; simpl.
  { destruct need; [|done]. by destruct (Hneed eq_refl) as (? & ? & _). }
  apply Forall_cons in Hall as [Hc Hall].
  pose proof (no_double_dash_tail _ _ Hdd) as Hdd'.
  assert (last l ≠ Some dash) as Hl.
  { intros H. apply Hlast. rewrite last_cons, H. done. }
  destruct (is_alnum c) eqn:Ea; [apply IH; done|].
  assert (is_dash c = true) as Hd by (unfold slug_char in Hc; by rewrite Ea in Hc).
  rewrite Hd. destruct need.
  { destruct (Hneed eq_refl) as (? & [= <-] & ?). congruence. }
  simpl. apply IH; [done|done| |done]. intros _.
  unfold is_dash in Hd. apply bool_decide_eq_true in Hd as ->.
  destruct l as [|d l]; [done|]. exists d. split; [done|].
  unfold is_dash. apply bool_decide_eq_false. intros ->. by apply (Hdd 0%nat).
Qed.

(** [drop_while] drops a prefix and stops before a character that fails. *)
Lemma drop_while_spec {A} (P : A → bool) l :
  ∃ n, drop_while P l = drop n l ∧ ∀ c, head (drop n l) = Some c → P c = false.
Proof.
  induction l as [|a l (n & IH & Hh)]; simpl; [by exists 0%nat|].
  destruct (P a) eqn:E; [by exists (S n)|]. exists 0%nat. split; [done|]. by intros c [= <-].
Qed.

Lemma strip_dashes_spec l :
  ∃ a b, strip_dashes l = take a (drop b l) ∧
  (∀ c, head (strip_dashes l) = Some c → is_dash c = false) ∧
  last (strip_dashes l) ≠ Some dash.
Proof.
  unfold strip_dashes. destruct (drop_while_spec is_dash l) as (b & Eb & Hb). rewrite Eb.
  destruct (drop_while_spec is_dash (reverse (drop b l))) as (a & Ea & Ha). rewrite Ea.
  assert (reverse (drop a (reverse (drop b l))) = take (length (drop b l) - a) (drop b l)) as Er.
  { by rewrite drop_reverse, reverse_involutive. }
  exists (length (drop b l) - a)%nat, b. split; [done|]. split.
  - rewrite Er. intros c Hc. apply Hb.
    revert Hc. generalize (length (drop b l) - a)%nat as k. by destruct (drop b l), k.
  - rewrite last_reverse. intros H. specialize (Ha _ H). done.
Qed.

(** The runs of other characters leave single dashes behind. *)
Lemma replace_runs_spec run l :
  Forall (fun c => slug_char c = true) (replace_runs run l) ∧
  no_double_dash (replace_runs run l) ∧
  (run = true → head (replace_runs run l) ≠ Some dash).
Proof.
  revert run. induction l as [|c l IH]; intros run; simpl; [by repeat split|].
  destruct (is_alnum c) eqn:Ea; [|destruct run].
  - destruct (IH false) as (Hf & Hd & _). split; [|split].
    + constructor; [|done]. unfold slug_char. by rewrite Ea.
    + intros [|i] Hi; [|exact (Hd i Hi)]. simplify_eq/=.
    + intros _ [= ->]. done.
  - apply IH.
  - destruct (IH true) as (Hf & Hd & Hh). split; [by constructor|]. split; [|done].
    intros [|i] Hi; [|exact (Hd i Hi)]. simpl.
    rewrite <- head_lookup. by apply Hh.
Qed.

Lemma slug_chars_fixed need l :
  slug_chars need l = true → replace_runs need l = l ∧
  Forall (fun c => slug_char c = true) l ∧ last l ≠ Some dash ∧
  (need = true → ∃ c, head l = Some c ∧ is_alnum c = true).
Proof.
  revert need. induction l as [|c l IH]; intros need H; simpl in *.
  { destruct need; [done|]. by repeat split. }
  destruct (is_alnum c) eqn:Ea.
  - destruct (IH false H) as (-> & Hf & Hl & _). split; [done|]. split.
    { constructor; [|done]. unfold slug_char. by rewrite Ea. }
    split; [|by eauto]. rewrite last_cons. destruct (last l); [done|]. by intros [= ->].
  - apply andb_true_iff in H as [[Hd Hn]%andb_true_iff H]. destruct need; [done|].
    destruct (IH true H) as (-> & Hf & Hl & Hh). destruct (Hh eq_refl) as (d & Hd' & _).
    unfold is_dash in Hd. apply bool_decide_eq_true in Hd as ->.
    split; [done|]. split; [by constructor|]. split; [|done].
    rewrite last_cons. destruct l; [done|]. by destruct (last (a :: l)) eqn:E;
      [|apply last_None in E].
Qed.

(** Characters of a slug are neither spaces nor upper case. *)
Lemma slug_char_fixed c :
  slug_char c = true → lower_char c = c ∧ Ascii.is_space c = false.
Proof. destruct c as [[] [] [] [] [] [] [] []]; vm_compute; done. Qed.

Lemma drop_while_head {A} (P : A → bool) l :
  (∀ c, head l = Some c → P c = false) → drop_while P l = l.
Proof. destruct l as [|a l]; simpl; [done|]. intros H. by rewrite (H a). Qed.

Lemma drop_both_ends (P : ascii → bool) l :
  (∀ c, head l = Some c → P c = false) → (∀ c, last l = Some c → P c = false) →
  reverse (drop_while P (reverse (drop_while P l))) = l.
Proof.
  intros Hh Hl. rewrite (drop_while_head P l) by done.
  rewrite drop_while_head by (intros c; rewrite head_reverse; apply Hl).
  apply reverse_involutive.
Qed.

Lemma slugify_fixes s : slug_pattern s = true → slugifyName s = s.
Proof.
  unfold slug_pattern, slugifyName, toLowerCase, trim, trim_chars. intros H.
  destruct (slug_chars_fixed _ _ H) as (Hr & Hf & Hl & Hh).
  destruct (Hh eq_refl) as (c & Hc & Ha).
  rewrite !to_of_chars, drop_both_ends.
  - assert (lower_char <$> to_chars s = to_chars s) as ->.
    { clear -Hf. induction Hf as [|c l Hc _ IH]; csimpl; [done|].
      rewrite IH. by rewrite (proj1 (slug_char_fixed c Hc)). }
    assert (replace_runs false (to_chars s) = to_chars s) as ->.
    { destruct (to_chars s) as [|d l]; [done|]. simplify_eq/=. by rewrite Ha in *. }
    unfold strip_dashes. rewrite drop_both_ends; [apply of_to_chars|..].
    + intros d Hd. simplify_eq. by apply alnum_not_dash.
    + intros d Hd. unfold is_dash. apply bool_decide_eq_false. congruence.
  - intros d Hd%head_Some_elem_of. rewrite Forall_forall in Hf. by apply slug_char_fixed, Hf.
  - intros d Hd%last_Some_elem_of. rewrite Forall_forall in Hf. by apply slug_char_fixed, Hf.
Qed.

Lemma slugify_valid name : slugifyName name = "" ∨ slug_pattern (slugifyName name) = true.
Proof.
  unfold slugifyName, slug_pattern. rewrite to_of_chars.
  set (r := replace_runs false _).
  assert (Forall (fun c => slug_char c = true) r ∧ no_double_dash r) as [Hf Hd]
    by (split; apply replace_runs_spec).
  destruct (strip_dashes_spec r) as (a & b & E & Hh & Hl).
  destruct (strip_dashes r) as [|c l] eqn:Er; [by left|right].
  apply slug_chars_intro; [| | |done].
  - rewrite E. by apply Forall_take, Forall_drop.
  - rewrite E. by apply no_double_dash_take, no_double_dash_drop.
  - intros _. exists c. split; [done|]. by apply Hh.
Qed.

(** Slugs suggested by the forms pass their own validation: whatever name
    is typed, [slugifyName] gives the empty string or a slug that matches the
    [pattern] of the slug input; every string that matches the pattern is its
    own slug, so slugifying twice changes nothing. *)
Theorem slugify_correct name :
  (slugifyName name = "" ∨ slug_pattern (slugifyName name) = true) ∧
  (∀ s, slug_pattern s = true → slugifyName s = s) ∧
  slugifyName (slugifyName name) = slugifyName name.
Proof.
  split; [apply slugify_valid|]. split; [apply slugify_fixes|].
  destruct (slugify_valid name) as [->|H]; [done|by apply slugify_fixes].
Qed.

(** ** Durations and rates *)

(** Nearest integer of [n / d], ties to even. *)
Definition round_even (n d : Z) : Z :=
  let q := n `div` d in
  let r := n `mod` d in
  if bool_decide (2 * r < d) then q
  else if bool_decide (d < 2 * r) then q + 1
  else if Z.even q then q else q + 1.

(** Nearest double of a rational in the normal range. *)
Definition to_double (x : Qc) : Qc :=
  let n := Z.abs (Qnum x) in
  let d := Zpos (Qden x) in
  if bool_decide (n = 0) then 0%Qc
  else
    let e0 := Z.log2 n - Z.log2 d - 52 in
    let scaled e := if bool_decide (0 ≤ e) then (n, d * 2 ^ e) else (n * 2 ^ (- e), d) in
    let e := let '(a, b) := scaled e0 in if bool_decide (a < b * 2 ^ 52) then e0 - 1 else e0 in
    let '(a, b) := scaled e in
    let m := Z.sgn (Qnum x) * round_even a b in
    if bool_decide (0 ≤ e) then Qc_of_Z (m * 2 ^ e)
    else (Qc_of_Z m / Qc_of_Z (2 ^ (- e)))%Qc.

(** [x.toFixed(f)] for [|x| < 10^21]: nearest, ties upwards in magnitude. *)
Definition toFixed (x : Qc) (f : nat) : string :=
  let n := (2 * Z.abs (Qnum x) * pow10 f + Zpos (Qden x)) `div` (2 * Zpos (Qden x)) in
  let digits := pad_left (S f) (pretty n) in
  let k := (String.length digits - f)%nat in
  (if bool_decide (Qnum x < 0) then "-" else "") +:+
  slice_to digits k +:+ (if bool_decide (f = O) then "" else "." +:+ slice_from digits k).

Definition formatDuration (ms : option Qc) : string :=
  match ms with
  | None => "—"
  | Some ms =>
      if bool_decide (ms < Qc_of_Z 1000)%Qc then num_to_string (Fin ms) +:+ "ms"
      else toFixed (to_double (ms / Qc_of_Z 1000)) 2 +:+ "s"
  end.

Definition formatPercent (rate : Qc) : string :=
  toFixed (to_double (rate * Qc_of_Z 100)) 1 +:+ "%".

Example formatDuration_examples :
  (fun z => formatDuration (Some (Qc_of_Z z))) <$> [0; 999; 1000; 1500; 1005; 61234] =
  ["0ms"; "999ms"; "1.00s"; "1.50s"; "1.00s"; "61.23s"].
Proof. by vm_compute. Qed.

Example formatPercent_examples :
  formatPercent 1 = "100.0%" ∧ formatPercent (Qc_of_Z 2 / Qc_of_Z 3) = "66.7%" ∧
  formatPercent 0 = "0.0%".
Proof. by vm_compute. Qed.
