(* ===== verification/Widgets.v ===== *)
(** * Small components with timers

    [CopyId] and [RelativeTime] of [components/ui/CopyId.tsx]: what they show
    while the timers that they start run. *)

From S2P Require Import Prelude JsValue Format.

Local Open Scope Z_scope.

(** ** [CopyId] *)

(** The mark, and the deadlines of the pending timers, the earliest first. *)
Record CopyState := MkCopy { cp_copied : bool; cp_timers : list Z }.

Definition initial_copy : CopyState := MkCopy false [].

(** The clipboard accepts the id at some time or rejects the write, which
    nothing catches; the earliest pending timer fires. *)
Inductive copy_event := CopyDone (now : Z) | CopyRejected | CopyTimeout.

Definition copy_step (st : CopyState) (e : copy_event) : CopyState :=
  match e with
  | CopyDone now => MkCopy true (cp_timers st ++ [now + 1500])
  | CopyRejected => st
  | CopyTimeout => match cp_timers st with [] => st | _ :: ts => MkCopy false ts end
  end.

(** The text of the button, and whether the check mark follows it. *)
Definition CopyId (id : string) (display : option string) (st : CopyState) : string * bool :=
  (default id display, cp_copied st).

Definition copy_run (es : list copy_event) : CopyState := foldl copy_step initial_copy es.

Lemma copy_run_snoc es e : copy_run (es ++ [e]) = copy_step (copy_run es) e.
Proof. unfold copy_run. by rewrite foldl_app. Qed.

Lemma copy_pending es : cp_copied (copy_run es) = true → cp_timers (copy_run es) ≠ [].
Proof.
  induction es as [|e es IH] using rev_ind; [done|]. rewrite copy_run_snoc.
  destruct e; simpl; [by destruct (cp_timers _)|done|].
  destruct (cp_timers (copy_run es)) eqn:E; [|done]. intros H. exfalso. by apply IH.
Qed.

(** The check mark goes away by itself: however often the id is copied, and
    whether or not the clipboard accepts it, a timer is pending while the mark
    is shown, and when the pending timers have fired it is not shown. *)
Theorem copy_mark_clears es id display :
  let st := copy_run es in
  ((CopyId id display st).2 = true → cp_timers st ≠ []) ∧
  (CopyId id display (copy_run (es ++ replicate (length (cp_timers st)) CopyTimeout))).2 = false.
Proof.
  cbv zeta. split; [apply copy_pending|]. unfold CopyId. cbn [snd].
  remember (length (cp_timers (copy_run es))) as n eqn:Hn. revert es Hn.
  induction n as [|n IH]; intros es Hn.
  - rewrite app_nil_r. destruct (cp_copied (copy_run es)) eqn:E; [|done].
    apply copy_pending in E. by destruct (cp_timers (copy_run es)).
  - cbn [replicate]. rewrite cons_middle, app_assoc. apply IH. rewrite copy_run_snoc. simpl.
    destruct (cp_timers (copy_run es)); simpl in *; [done|]. lia.
Qed.

(** A second copy does not renew the timer of the first: here its mark is
    shown for 500 ms instead of 1500. *)
Example copy_mark_cut_short :
  cp_timers (copy_run [CopyDone 0; CopyDone 1000]) = [1500; 2500] ∧
  cp_copied (copy_run [CopyDone 0; CopyDone 1000; CopyTimeout]) = false.
Proof. done. Qed.

(** ** [RelativeTime] *)

(** The timestamp it is given (parsed), its label, and whether its interval
    runs. *)
Record TimeState := MkTime { rt_ts : option Z; rt_label : string; rt_interval : bool }.

(** The effect: tick at once, then every second. *)
Definition time_effect (ts : option Z) (now : Z) : TimeState :=
  MkTime ts (RelativeTime_label now ts) true.

(** A tick of the interval, a new timestamp (the old interval is cleared and
    the effect runs again), and the component going away. *)
Inductive time_event := TimeTick (now : Z) | TimeProps (ts : option Z) (now : Z) | TimeGone.

Definition time_step (st : TimeState) (e : time_event) : TimeState :=
  match e with
  | TimeTick now =>
      if rt_interval st then MkTime (rt_ts st) (RelativeTime_label now (rt_ts st)) true else st
  | TimeProps ts now => time_effect ts now
  | TimeGone => MkTime (rt_ts st) (rt_label st) false
  end.

(** [{label || "—"}]. *)
Definition RelativeTime (st : TimeState) : string :=
  if bool_decide (rt_label st = "") then "—" else rt_label st.

(** The times of the events, each at most a second and the delay [d] of a
    timer after the one before, up to [now]. *)
Fixpoint timely (d last : Z) (es : list time_event) (now : Z) : Prop :=
  match es with
  | [] => last ≤ now ≤ last + 1000 + d
  | TimeTick t :: es | TimeProps _ t :: es => last ≤ t ≤ last + 1000 + d ∧ timely d t es now
  | TimeGone :: _ => False
  end.

Lemma label_not_empty now ts : RelativeTime_label now ts ≠ "".
Proof.
  unfold RelativeTime_label. destruct ts; [|done]. cbv zeta.
  assert (∀ a b, b ≠ "" → a +:+ b ≠ "") as Happ by (by intros [] []).
  repeat case_bool_decide; try done; by apply Happ.
Qed.

(** While the component is shown and its timers are at most [d] ms late, its
    label is never more than a second and [d] old: it is the label of a moment
    that recent, for the timestamp that the component has now. *)
Theorem relative_time_fresh d ts t0 es now :
  timely d t0 es now →
  let st := foldl time_step (time_effect ts t0) es in
  ∃ t, now - 1000 - d ≤ t ≤ now ∧ RelativeTime st = RelativeTime_label t (rt_ts st).
Proof.
  cbv zeta. revert ts t0. induction es as [|[t|ts' t|] es IH]; intros ts t0; simpl.
  - intros H. exists t0. split; [lia|]. unfold RelativeTime. simpl.
    by rewrite bool_decide_false by apply label_not_empty.
  - intros [_ H]. by apply IH.
  - intros [_ H]. by apply IH.
  - done.
Qed.
