(* ===== verification/ApiTypes.v ===== *)
(** * The interfaces of the API ([dashboard/src/lib/types.ts])

    The TypeScript interfaces the console reads responses with, as checkable
    shapes of JSON values, and how the objects the server sends fit them. *)

From S2P Require Import Prelude JsValue JsJson JsonText Database Proc Http Auth Worker Setup Router.

Local Open Scope Z_scope.

(** Types of the members; [KObject] is [Record<string, unknown>]. *)
Inductive kind := KString | KNumber | KBoolean | KObject.

(** A member: its name, its type and whether it is optional. *)
Record member := Member { m_name : string; m_kind : kind; m_optional : bool }.

Definition req (k : kind) (n : string) : member := Member n k false.
Definition opt (k : kind) (n : string) : member := Member n k true.

Definition Queue : list member :=
  [req KString "id"; req KString "project_id"; req KString "name"; req KString "slug";
   opt KString "retry_policy_id"; req KNumber "priority_default";
   opt KNumber "concurrency_limit"; req KBoolean "is_paused"; req KString "created_at";
   req KString "updated_at"].

Definition QueueStats : list member :=
  [req KString "queue_id"; req KString "queue_name"; req KNumber "depth";
   req KNumber "throughput_1h"; req KNumber "throughput_24h"; req KNumber "success_rate";
   req KNumber "avg_latency_ms"; req KNumber "p95_latency_ms"].

Definition Job : list member :=
  [req KString "id"; req KString "queue_id"; req KString "status"; req KNumber "priority";
   req KObject "payload"; opt KString "idempotency_key"; opt KString "next_run_at";
   req KNumber "attempts"; req KNumber "max_attempts"; opt KString "retry_policy_id";
   opt KString "worker_id"; opt KString "claimed_at"; opt KString "lease_expires_at";
   opt KString "completed_at"; opt KString "failed_at"; opt KString "error_message";
   opt KString "cron_expr"; opt KString "batch_id"; req KString "created_at";
   req KString "updated_at"].

Definition JobExecution : list member :=
  [req KString "id"; req KString "job_id"; req KString "worker_id"; req KNumber "attempt";
   req KString "status"; req KString "started_at"; opt KString "finished_at";
   opt KString "error"; opt KNumber "duration_ms"].

Definition JobLog : list member :=
  [req KString "id"; req KString "job_id"; req KString "level"; req KString "message";
   opt KObject "metadata"; req KString "created_at"].

Definition WorkerInfo : list member :=
  [req KString "id"; req KString "name"; req KString "status"; opt KString "last_seen_at";
   req KNumber "jobs_in_flight"; req KString "created_at"; req KString "updated_at"].

Definition DLQItem : list member :=
  [req KString "id"; req KString "job_id"; req KString "original_queue_id";
   req KString "queue_name"; req KObject "payload"; req KString "failed_at";
   opt KString "reason"; req KNumber "attempts_made"; req KString "created_at"].

Definition Project : list member :=
  [req KString "id"; req KString "org_id"; req KString "name"; req KString "slug";
   opt KString "description"; req KString "created_at"; req KString "updated_at"].

(** ** Conformance *)

Definition of_kind (k : kind) (v : jsval) : bool :=
  match k, v with
  | KString, JStr _ | KNumber, JNum _ | KBoolean, JBool _ | KObject, JObj _ => true
  | _, _ => false
  end.

(** Whether a value may stand for a member. TypeScript's [x?: T] admits a
    missing property; [null] is admitted only when [nullable]. *)
Definition fits (nullable : bool) (m : member) (v : jsval) : bool :=
  of_kind (m_kind m) v ||
  (m_optional m && match v with JUndef => true | JNull => nullable | _ => false end).

Definition conforms (nullable : bool) (i : list member) (v : jsval) : bool :=
  match v with
  | JObj l => forallb (fun m => fits nullable m (obj_get l (m_name m))) i
  | _ => false
  end.

(** [Page<T>]. *)
Definition conforms_page (nullable : bool) (i : list member) (v : jsval) : bool :=
  match field v "items", field v "has_more" with
  | JArr items, JBool _ => forallb (conforms nullable i) items
  | _, _ => false
  end.

(** What the console reads of an object the server serializes. *)
Definition on_wire (v : jsval) : jsval := default JUndef (json_value v).

(** ** The responses fit their interfaces *)

Definition is_object (v : jsval) : bool := match v with JObj _ => true | _ => false end.

(** The members of a wire object: what [json_value] keeps. *)
Fixpoint wire_members (l : list (string * jsval)) : list (string * jsval) :=
  match l with
  | [] => []
  | (k, w) :: l' => match json_value w with
                    | Some w' => (k, w') :: wire_members l'
                    | None => wire_members l'
                    end
  end.

Lemma on_wire_obj l : on_wire (JObj l) = JObj (wire_members l).
Proof. done. Qed.

(** Keys apart, a member of the wire object is the wire form of the member. *)
Lemma wire_members_notin l k : k ∉ l.*1 → obj_get (wire_members l) k = JUndef.
Proof.
  induction l as [|[k' w] l IH]; csimpl; [done|]. rewrite not_elem_of_cons. intros [? ?].
  destruct (json_value w); cbn [obj_get]; [rewrite decide_False by done|]; auto.
Qed.

Lemma wire_members_get l k :
  NoDup l.*1 → obj_get (wire_members l) k = on_wire (obj_get l k).
Proof.
  induction l as [|[k' w] l IH]; csimpl; [done|]. intros [Hk Hnd]%NoDup_cons.
  cbn [obj_get]. destruct (decide (k' = k)) as [->|].
  - unfold on_wire. destruct (json_value w); cbn [obj_get];
      [by rewrite decide_True|]. by apply wire_members_notin.
  - destruct (json_value w); cbn [obj_get]; [rewrite decide_False by done|]; auto.
Qed.

Lemma field_on_wire l k :
  NoDup l.*1 → field (on_wire (JObj l)) k = on_wire (field (JObj l) k).
Proof. intros Hnd. rewrite on_wire_obj. by apply wire_members_get. Qed.

Lemma on_wire_plain v : json_plain v = true → on_wire v = v.
Proof. intros Hv. unfold on_wire. by rewrite json_value_plain. Qed.

Lemma conforms_members nullable i l :
  NoDup l.*1 → Forall (fun m => fits nullable m (on_wire (obj_get l (m_name m))) = true) i →
  conforms nullable i (on_wire (JObj l)) = true.
Proof.
  intros Hnd Hi. rewrite on_wire_obj. cbn [conforms]. apply forallb_forall.
  intros m Hm%list_elem_of_In. rewrite Forall_forall in Hi. rewrite wire_members_get by done.
  by apply Hi.
Qed.

(** Wire forms of the columns. *)
Lemma fits_or_undefined b n o :
  fits b (opt KString n) (on_wire (or_undefined (js_opt JStr o))) = true.
Proof. by destruct o. Qed.

Lemma fits_toIso b n o : fits b (opt KString n) (on_wire (toIso (js_opt js_instant o))) = true.
Proof. by destruct o. Qed.

Lemma fits_nullable {A} (f : A → jsval) k n o :
  (∀ a, of_kind k (on_wire (f a)) = true) → fits true (opt k n) (on_wire (js_opt f o)) = true.
Proof. intros H. destruct o as [a|]; [|by destruct k]. unfold fits. simpl. by rewrite H. Qed.

Lemma fits_object b n v : is_object v = true → fits b (req KObject n) (on_wire v) = true.
Proof. by destruct v. Qed.

Lemma fits_number_opt b n o :
  fits b (opt KNumber n) (on_wire (if is_nullish (js_opt JInt o) then JUndef
                                   else JNum (js_to_num (js_opt JInt o)))) = true.
Proof. by destruct o. Qed.

Ltac conform_members :=
  lazymatch goal with
  | |- Forall _ [] => constructor
  | |- Forall _ (_ :: _) =>
      constructor;
      [first [ reflexivity | apply fits_or_undefined | apply fits_toIso | apply fits_number_opt
             | by apply fits_nullable | by apply fits_object ]
      | conform_members ]
  end.

(** An object built from a row conforms, member by member. *)
Tactic Notation "conform" reference(i) :=
  apply conforms_members; [by apply (bool_decide_eq_true_1 _); vm_compute|unfold i; conform_members].

Lemma queue_conforms q : conforms false Queue (on_wire (mapQueue (queue_to_js q))) = true.
Proof. conform Queue. Qed.

Lemma job_conforms j v :
  mapJob (job_to_js j) = inr v → is_object (field v "payload") = true →
  conforms false Job (on_wire v) = true.
Proof.
  unfold mapJob. intros (p & _ & Hv)%bind_sum_inr Hp. apply (inj inr) in Hv. subst v.
  change (field _ "payload") with p in Hp. conform Job.
Qed.

(** The handlers that send rows as they are: [NULL] columns become [null]. *)
Lemma project_conforms p : conforms true Project (on_wire (project_to_js p)) = true.
Proof. conform Project. Qed.

Lemma execution_conforms x :
  is_Some (x_worker_id x) → conforms true JobExecution (on_wire (exec_to_js x)) = true.
Proof. intros [w Hw]. unfold exec_to_js. rewrite Hw. conform JobExecution. Qed.

Lemma worker_conforms db seen w : conforms true WorkerInfo (on_wire (worker_to_js db seen w)) = true.
Proof. conform WorkerInfo. Qed.

Lemma dlq_conforms db d :
  is_Some (queues db !! d_original_queue_id d) → is_object (d_payload d) = true →
  conforms true DLQItem (on_wire (dlq_to_js db d)) = true.
Proof. intros [q Hq] Hp. unfold dlq_to_js. rewrite Hq. conform DLQItem. Qed.

Lemma page_conforms nullable i vs :
  (∀ v, v ∈ vs → is_object v = true ∧ conforms nullable i (on_wire v) = true) →
  conforms_page nullable i (on_wire (js_page vs)) = true.
Proof.
  intros H.
  change (conforms_page nullable i (on_wire (js_page vs)))
    with (forallb (conforms nullable i) (map (fun w => default JNull (json_value w)) vs)).
  apply forallb_forall. intros w Hw. apply in_map_iff in Hw as (v & <- & Hv%list_elem_of_In).
  destruct (H v Hv) as [Ho Hc]. by destruct v.
Qed.

Lemma map_sum_elem {E A B} (f : A → E + B) l bs b :
  map_sum f l = inr bs → b ∈ bs → ∃ a, a ∈ l ∧ f a = inr b.
Proof.
  revert bs. induction l as [|a l IH]; intros bs; simpl.
  { intros [= <-]. set_solver. }
  intros (b' & Hb & (bs' & Hbs & [= <-])%bind_sum_inr)%bind_sum_inr Hin.
  apply elem_of_cons in Hin as [->|Hin]; [set_solver|].
  destruct (IH bs' Hbs Hin) as (a' & ? & ?). set_solver.
Qed.

