(* ===== verification/Query.v ===== *)
(** * Query strings

    [URLSearchParams]: the form encoding the API client writes query strings
    with and the server reads them with. *)

From Stdlib Require Import Ascii.
From S2P Require Import Prelude JsValue JsJson JsonText.

Local Open Scope Z_scope.

(** ** Writing *)

(** Characters the form encoding leaves alone. *)
Definition form_safe (c : ascii) : bool :=
  is_alnum c || is_upper c || bool_decide (c ∈ ["*"; "-"; "."; "_"]%char).

Definition hex_upper (z : Z) : ascii :=
  default "0"%char (to_chars "0123456789ABCDEF" !! Z.to_nat z).

Definition form_char (c : ascii) : chars :=
  if form_safe c then [c]
  else if bool_decide (c = " "%char) then ["+"%char]
  else ["%"%char; hex_upper (code c `div` 16); hex_upper (code c `mod` 16)].

Definition form_encode (s : string) : chars := concat (map form_char (to_chars s)).

Definition form_pair (kv : string * string) : chars :=
  form_encode kv.1 ++ "="%char :: form_encode kv.2.

(** [new URLSearchParams(params).toString()]. *)
Definition query_string (params : list (string * string)) : string :=
  of_chars (join_chars ["&"%char] (map form_pair params)).

(** ** Reading *)

(** Percent-decoding, with [+] read as a space. A [%] that no two hexadecimal
    digits follow stands for itself. *)
Fixpoint form_decode (l : chars) : chars :=
  match l with
  | [] => []
  | c :: l1 =>
      if bool_decide (c = "+"%char) then " "%char :: form_decode l1
      else if bool_decide (c = "%"%char) then
        match l1 with
        | a :: (b :: l2) as l1' =>
            match hex_digit a, hex_digit b with
            | Some x, Some y => byte_char (x * 16 + y) :: form_decode l2
            | _, _ => c :: form_decode l1
            end
        | _ => c :: form_decode l1
        end
      else c :: form_decode l1
  end.

Fixpoint split_on (sep : ascii) (l : chars) : list chars :=
  match l with
  | [] => [[]]
  | c :: l' =>
      if bool_decide (c = sep) then [] :: split_on sep l'
      else match split_on sep l' with
           | [] => [[c]]
           | s :: ss => (c :: s) :: ss
           end
  end.

Definition not_equals (c : ascii) : bool := bool_decide (c ≠ "="%char).

(** A pair: the name up to the first [=], the value after it. *)
Definition parse_pair (l : chars) : string * string :=
  (of_chars (form_decode (take_while not_equals l)),
   of_chars (form_decode (drop 1 (drop_while not_equals l)))).

(** [new URLSearchParams(query)]: empty sequences are skipped. *)
Definition parse_query (q : string) : list (string * string) :=
  parse_pair <$> List.filter (fun l => bool_decide (l ≠ [])) (split_on "&"%char (to_chars q)).

(** ** The round trip *)

Lemma form_decode_char c l : form_decode (form_char c ++ l) = c :: form_decode l.
Proof. destruct c as [[] [] [] [] [] [] [] []]; reflexivity. Qed.

Lemma form_decode_encode s : form_decode (form_encode s) = to_chars s.
Proof.
  unfold form_encode. induction (to_chars s) as [|c l IH]; [done|].
  cbn [map concat]. by rewrite form_decode_char, IH.
Qed.

(** Encoded text has none of the delimiters. *)
Definition no_delimiter (c : ascii) : bool :=
  bool_decide (c ∉ ["&"; "="; "?"; "#"]%char).

Lemma form_char_plain c : Forall (fun d => no_delimiter d = true) (form_char c).
Proof.
  apply Forall_forall. intros d Hd. eapply forallb_forall; [|by apply list_elem_of_In].
  by destruct c as [[] [] [] [] [] [] [] []].
Qed.

Lemma form_encode_plain s : Forall (fun d => no_delimiter d = true) (form_encode s).
Proof.
  unfold form_encode. induction (to_chars s) as [|c l IH]; cbn [map concat]; [done|].
  apply Forall_app. split; [apply form_char_plain|done].
Qed.

Lemma no_delimiter_ne c d : no_delimiter c = true → no_delimiter d = false → c ≠ d.
Proof. intros H1 H2 ->. congruence. Qed.

Lemma split_on_app sep l r :
  Forall (fun c => c ≠ sep) l → split_on sep (l ++ sep :: r) = l :: split_on sep r.
Proof.
  induction 1 as [|c l Hc _ IH]; simpl; [by rewrite bool_decide_true|].
  rewrite bool_decide_false by done. by rewrite IH.
Qed.

Lemma split_on_none sep l : Forall (fun c => c ≠ sep) l → split_on sep l = [l].
Proof.
  induction 1 as [|c l Hc _ IH]; simpl; [done|]. rewrite bool_decide_false by done. by rewrite IH.
Qed.

Lemma parse_form_pair kv : parse_pair (form_pair kv) = kv.
Proof.
  unfold parse_pair, form_pair. destruct kv as [k v]. cbn [fst snd].
  destruct (take_while_app not_equals (form_encode k) ("="%char :: form_encode v)) as [-> ->].
  - eapply Forall_impl; [apply form_encode_plain|]. intros c Hc. unfold not_equals.
    apply bool_decide_eq_true. by eapply no_delimiter_ne.
  - by intros c [= <-].
  - rewrite skipn_cons, skipn_O. by rewrite !form_decode_encode, !of_to_chars.
Qed.

Lemma form_pair_no_amp kv : Forall (fun c => c ≠ "&"%char) (form_pair kv).
Proof.
  unfold form_pair. apply Forall_app. split; [|constructor; [done|]].
  all: eapply Forall_impl; [apply form_encode_plain|]; intros c Hc;
    by eapply (no_delimiter_ne c).
Qed.

Lemma form_pair_nonempty kv : form_pair kv ≠ [].
Proof. unfold form_pair. by destruct (form_encode kv.1). Qed.

Lemma parse_query_string params : parse_query (query_string params) = params.
Proof.
  unfold parse_query, query_string. rewrite to_of_chars.
  assert (∀ kv l, List.filter (fun l => bool_decide (l ≠ []))
            (split_on "&"%char (join_chars ["&"%char] (map form_pair (kv :: l)))) =
          map form_pair (kv :: l)) as Hf.
  { intros kv l. revert kv. induction l as [|kv' l IH]; intros kv.
    - cbn [map join_chars]. rewrite split_on_none by apply form_pair_no_amp. cbn.
      by rewrite bool_decide_true by apply form_pair_nonempty.
    - rewrite !map_cons, join_chars_cons, <- map_cons. cbn [app].
      rewrite split_on_app by apply form_pair_no_amp. cbn [List.filter].
      rewrite bool_decide_true by apply form_pair_nonempty. by rewrite IH. }
  destruct params as [|kv params]; [done|]. rewrite Hf.
  generalize (kv :: params). clear. intros l.
  induction l as [|kv l IH]; csimpl; [done|]. by rewrite parse_form_pair, IH.
Qed.
