(* ===== verification/Client.v ===== *)
(** * The API client ([dashboard/src/lib/api.ts], [use-api.ts])

    The browser's side of the REST API: the stored session, [request] and the
    calls of the [api] object, the cache keys of the hooks, and how each call
    meets its route on the server. *)

From Stdlib Require Import Ascii.
From S2P Require Import Prelude JsValue JsJson JsonText Database Proc Http Auth Worker Setup.
From S2P Require Import Router Query.

Open Scope js_scope.
Local Open Scope Z_scope.

(** ** The browser *)

(** What the client uses of a browser tab: local storage, the path of the
    page, and the address it was last sent to by [window.location.href = ...]. *)
Record Tab := MkTab {
  tab_storage : gmap string string;
  tab_pathname : string;
  tab_sent_to : option string }.

Definition token_key : string := "scheduler_token".

(** [getToken]; [None] is rendering on the server, where there is no window. *)
Definition getToken (window : option Tab) : option string :=
  match window with
  | None => None
  | Some tab => tab_storage tab !! token_key
  end.

Definition setToken (token : string) (tab : Tab) : Tab :=
  MkTab (<[token_key := token]> (tab_storage tab)) (tab_pathname tab) (tab_sent_to tab).

Definition clearToken (tab : Tab) : Tab :=
  MkTab (delete token_key (tab_storage tab)) (tab_pathname tab) (tab_sent_to tab).

(** [!!getToken()]. *)
Definition hasToken (window : option Tab) : bool :=
  match getToken window with
  | Some s => bool_decide (s ≠ "")
  | None => false
  end.

Definition send_to (href : string) (tab : Tab) : Tab :=
  MkTab (tab_storage tab) (tab_pathname tab) (Some href).

(** ** [request] *)

(** The members of [RequestOpts] the calls set. *)
Record RequestOpts := MkOpts {
  o_method : option string; o_auth : option bool; o_body : option string }.

Definition no_opts : RequestOpts := MkOpts None None None.

(** What is handed to [fetch]. *)
Record FetchCall := MkFetch {
  f_url : string; f_method : string; f_headers : list (string * string);
  f_body : option string }.

Definition BASE : string := "/api".

(** A stored empty token is falsy. *)
Definition auth_header (token : option string) : list (string * string) :=
  match token with
  | Some t => if bool_decide (t ≠ "") then [("Authorization", "Bearer " +:+ t)] else []
  | None => []
  end.

Definition fetch_call (path : string) (init : RequestOpts) (tab : Tab) : FetchCall :=
  MkFetch (BASE +:+ path) (default "GET" (o_method init))
    (("Content-Type", "application/json") :: auth_header (getToken (Some tab)))
    (o_body init).

(** [res.json()]: an empty body is not JSON. *)
Definition res_json (res : Response) : thrown + jsval :=
  match res_body res with
  | Some v => inr v
  | None => inl (JsError "Unexpected end of JSON input")
  end.

Definition res_ok (res : Response) : bool := bool_decide (200 ≤ res_status res ≤ 299).

Definition unreachable : thrown :=
  JsError "Cannot reach the API. Check your connection or redeploy the Vercel app.".

Definition session_expired : thrown := JsError "Session expired. Sign in again.".

(** [throw new Error(body.error || `HTTP ${res.status}`)] with the body read
    as [{}] when it is not JSON; [null.error] is itself an error. *)
Definition failure (res : Response) : thrown :=
  let body := match res_json res with inr v => v | inl _ => JObj [] end in
  match prop body "error" with
  | inl e => e
  | inr m => JsError (if truthy m then js_to_string m
                      else "HTTP " +:+ num_to_string (num_of_Z (res_status res)))
  end.

(** What follows the [fetch] of [request]. *)
Definition settle (auth : bool) (out : thrown + Response) (tab : Tab) : (thrown + jsval) * Tab :=
  match out with
  | inl _ => (inl unreachable, tab)
  | inr res =>
      if bool_decide (res_status res = 401) && auth then
        let tab := clearToken tab in
        (inl session_expired,
         if bool_decide (tab_pathname tab ≠ "/login") then send_to "/login" tab else tab)
      else if negb (res_ok res) then (inl (failure res), tab)
      else (res_json res, tab)
  end.

(** [request(path, init)], where [fetch] is what the network answers. *)
Definition request (fetch : FetchCall → thrown + Response) (path : string) (init : RequestOpts)
    (tab : Tab) : (thrown + jsval) * Tab :=
  settle (default true (o_auth init)) (fetch (fetch_call path init tab)) tab.

(** ** The calls of [api] *)

(** A call with its arguments; [data] is the object passed to
    [JSON.stringify]. *)
Inductive ApiCall :=
| Login (email password : string)
| ListProjects
| CreateProject (data : jsval)
| ListQueues
| CreateQueue (data : jsval)
| GetQueue (id : string)
| GetQueueStats (id : string)
| UpdateQueue (id : string) (data : jsval)
| PauseQueue (id : string)
| ResumeQueue (id : string)
| ListJobs (params : list (string * string))
| ListQueueJobs (queueId : string) (params : list (string * string))
| GetJob (id : string)
| GetJobExecutions (id : string)
| GetJobLogs (id : string)
| RetryJob (id : string)
| EnqueueJob (queueId : string) (data : jsval)
| ListWorkers
| WorkerPulse
| ListDLQ.

Definition opts (method : string) (body : option jsval) : RequestOpts :=
  MkOpts (Some method) None (body ≫= stringify).

(** [qs ? `?${qs}` : ""]. *)
Definition query_suffix (params : list (string * string)) : string :=
  let qs := query_string params in
  if bool_decide (qs ≠ "") then "?" +:+ qs else "".

(** The path and the options each call passes to [request]. *)
Definition api (c : ApiCall) : string * RequestOpts :=
  match c with
  | Login email password =>
      ("/auth/login",
       MkOpts (Some "POST") (Some false)
         (stringify (JObj [("email", JStr email); ("password", JStr password)])))
  | ListProjects => ("/projects", no_opts)
  | CreateProject data => ("/projects", opts "POST" (Some data))
  | ListQueues => ("/queues", no_opts)
  | CreateQueue data => ("/queues", opts "POST" (Some data))
  | GetQueue id => ("/queues/" +:+ id, no_opts)
  | GetQueueStats id => ("/queues/" +:+ id +:+ "/stats", no_opts)
  | UpdateQueue id data => ("/queues/" +:+ id, opts "PUT" (Some data))
  | PauseQueue id => ("/queues/" +:+ id +:+ "/pause", opts "POST" None)
  | ResumeQueue id => ("/queues/" +:+ id +:+ "/resume", opts "POST" None)
  | ListJobs params => ("/jobs" +:+ query_suffix params, no_opts)
  | ListQueueJobs queueId params =>
      ("/queues/" +:+ queueId +:+ "/jobs" +:+ query_suffix params, no_opts)
  | GetJob id => ("/jobs/" +:+ id, no_opts)
  | GetJobExecutions id => ("/jobs/" +:+ id +:+ "/executions", no_opts)
  | GetJobLogs id => ("/jobs/" +:+ id +:+ "/logs", no_opts)
  | RetryJob id => ("/jobs/" +:+ id +:+ "/retry", opts "POST" None)
  | EnqueueJob queueId data => ("/queues/" +:+ queueId +:+ "/jobs", opts "POST" (Some data))
  | ListWorkers => ("/workers", no_opts)
  | WorkerPulse => ("/worker/pulse", no_opts)
  | ListDLQ => ("/dlq", no_opts)
  end.

Definition call (fetch : FetchCall → thrown + Response) (c : ApiCall) (tab : Tab) :
    (thrown + jsval) * Tab :=
  request fetch (api c).1 (api c).2 tab.

(** ** What the server receives *)

(** The part of a URL before and after its first [?]. *)
Definition not_query (c : ascii) : bool := bool_decide (c ≠ "?"%char).
Definition url_path (url : string) : string := of_chars (take_while not_query (to_chars url)).
Definition url_query (url : string) : string :=
  of_chars (drop 1 (drop_while not_query (to_chars url))).

Definition header (k : string) (l : list (string * string)) : option string :=
  snd <$> head (List.filter (fun kv => bool_decide (kv.1 = k)) l).

(** The [Request] of a call: a missing body is not JSON. *)
Definition received (f : FetchCall) : Request :=
  MkRequest (f_method f) (header "Authorization" (f_headers f)) (parse_query (url_query (f_url f)))
    (match f_body f with Some t => json_parse t | None => inl json_syntax_error end).

(** A path segment that needs no escaping: letters, digits and dashes, as in
    the ids the database makes. *)
Definition plain_char (c : ascii) : bool := is_alnum c || is_upper c || bool_decide (c = "-"%char).
Definition plain (s : string) : bool :=
  bool_decide (s ≠ "") && forallb plain_char (to_chars s).

(** The framework's routing of [app/api/[[...path]]/route.ts]: the segments of
    the catch-all parameter for the path of a URL. *)
Class NextRouting := { next_segments : string → list string }.

(** Documented behaviour: the segments are what the slashes separate. The
    paths of the two other route files are not the catch-all's. *)
Class NextRoutingOk (N : NextRouting) : Prop := {
  next_segments_join : ∀ segs,
    segs ≠ [] → Forall (fun s => plain s = true) segs →
    segs ≠ ["setup"] → segs ≠ ["cron"; "worker"] →
    next_segments ("/api/" +:+ join "/" segs) = segs }.

(** ** Calls and routes *)

Definition ids_of (c : ApiCall) : list string :=
  match c with
  | GetQueue id | GetQueueStats id | UpdateQueue id _ | PauseQueue id | ResumeQueue id
  | ListQueueJobs id _ | GetJob id | GetJobExecutions id | GetJobLogs id | RetryJob id
  | EnqueueJob id _ => [id]
  | _ => []
  end.

Definition params_of (c : ApiCall) : list (string * string) :=
  match c with ListJobs params | ListQueueJobs _ params => params | _ => [] end.

Definition data_of (c : ApiCall) : option jsval :=
  match c with
  | Login email password => Some (JObj [("email", JStr email); ("password", JStr password)])
  | CreateProject data | CreateQueue data | UpdateQueue _ data | EnqueueJob _ data => Some data
  | _ => None
  end.

(** The segments of the path of a call. *)
Definition segments (c : ApiCall) : list string :=
  match c with
  | Login _ _ => ["auth"; "login"]
  | ListProjects | CreateProject _ => ["projects"]
  | ListQueues | CreateQueue _ => ["queues"]
  | GetQueue id | UpdateQueue id _ => ["queues"; id]
  | GetQueueStats id => ["queues"; id; "stats"]
  | PauseQueue id => ["queues"; id; "pause"]
  | ResumeQueue id => ["queues"; id; "resume"]
  | ListJobs _ => ["jobs"]
  | ListQueueJobs id _ | EnqueueJob id _ => ["queues"; id; "jobs"]
  | GetJob id => ["jobs"; id]
  | GetJobExecutions id => ["jobs"; id; "executions"]
  | GetJobLogs id => ["jobs"; id; "logs"]
  | RetryJob id => ["jobs"; id; "retry"]
  | ListWorkers => ["workers"]
  | WorkerPulse => ["worker"; "pulse"]
  | ListDLQ => ["dlq"]
  end.

Lemma to_chars_app s t : to_chars (s +:+ t) = to_chars s ++ to_chars t.
Proof.
  induction s as [|c s IH]; [done|].
  change (c :: to_chars (s +:+ t) = c :: to_chars s ++ to_chars t). by rewrite IH.
Qed.

Lemma to_chars_inj s t : to_chars s = to_chars t → s = t.
Proof. intros H. by rewrite <- (of_to_chars s), H, of_to_chars. Qed.

Lemma str_app_assoc s t u : (s +:+ t) +:+ u = s +:+ t +:+ u.
Proof. apply to_chars_inj. by rewrite !to_chars_app, app_assoc. Qed.

(** The URL of a call is its segments and its query. *)
Lemma api_url c :
  BASE +:+ (api c).1 = "/api/" +:+ join "/" (segments c) +:+ query_suffix (params_of c).
Proof.
  apply to_chars_inj. destruct c; cbn [api fst segments params_of join];
    rewrite !to_chars_app; cbn; rewrite ?to_chars_app, <- ?app_assoc, ?app_nil_r; done.
Qed.

Lemma plain_no_query s : plain s = true → Forall (fun c => not_query c = true) (to_chars s).
Proof.
  unfold plain. intros [_ H]%andb_true_iff. apply Forall_forall. intros c Hc.
  assert (plain_char c = true) as Hp by (by eapply forallb_forall, list_elem_of_In).
  unfold not_query. apply bool_decide_eq_true. by intros ->.
Qed.

Lemma plain_no_slash s : plain s = true → Forall (fun c => not_slash c = true) (to_chars s).
Proof.
  unfold plain. intros [_ H]%andb_true_iff. apply Forall_forall. intros c Hc.
  assert (plain_char c = true) as Hp by (by eapply forallb_forall, list_elem_of_In).
  unfold not_slash. apply bool_decide_eq_true. by intros ->.
Qed.

Lemma join_no_query segs :
  Forall (fun s => plain s = true) segs →
  Forall (fun c => not_query c = true) (to_chars (join "/" segs)).
Proof.
  induction 1 as [|s segs Hs Hsegs IH]; [done|]. cbn [join].
  destruct segs; [by apply plain_no_query|]. rewrite !to_chars_app.
  apply Forall_app. split; [by apply plain_no_query|]. by constructor.
Qed.

Lemma segments_plain c :
  Forall (fun s => plain s = true) (ids_of c) → Forall (fun s => plain s = true) (segments c).
Proof. destruct c; cbn [ids_of segments]; intros H; repeat constructor; by inversion H. Qed.

Lemma url_parts base params :
  Forall (fun c => not_query c = true) (to_chars base) →
  url_path (base +:+ query_suffix params) = base ∧
  parse_query (url_query (base +:+ query_suffix params)) = params.
Proof.
  intros Hb. unfold url_path, url_query, query_suffix. rewrite to_chars_app.
  case_bool_decide as Hq.
  - rewrite to_chars_app.
    destruct (take_while_app not_query (to_chars base) (to_chars "?" ++ to_chars (query_string params)))
      as [-> ->]; [done|by intros c [= <-]|].
    split; [apply of_to_chars|]. cbn [to_chars String.list_ascii_of_string app].
    rewrite skipn_cons, skipn_O, of_to_chars. apply parse_query_string.
  - destruct (take_while_app not_query (to_chars base) []) as [Et Ed]; [done|done|].
    cbn [to_chars String.list_ascii_of_string]. rewrite Et, Ed.
    split; [apply of_to_chars|]. rewrite <- (parse_query_string params), Hq. done.
Qed.

(** What the server reads of a call: its path, its query and its body. *)
Lemma call_received c tab :
  Forall (fun s => plain s = true) (ids_of c) →
  let f := fetch_call (api c).1 (api c).2 tab in
  url_path (f_url f) = "/api/" +:+ join "/" (segments c) ∧
  req_search (received f) = params_of c ∧
  (∀ v w, data_of c = Some v → json_value v = Some w → json_plain w = true →
     req_json (received f) = inr w).
Proof.
  intros Hids f. unfold f, fetch_call, received. cbn [f_url f_method f_body req_search req_json].
  rewrite api_url.
  assert (Forall (fun c => not_query c = true) (to_chars ("/api/" +:+ join "/" (segments c)))) as Hb.
  { rewrite to_chars_app. apply Forall_app. split; [by repeat constructor|].
    by apply join_no_query, segments_plain. }
  pose proof (url_parts _ (params_of c) Hb) as [Hu Hs].
  rewrite str_app_assoc in Hu, Hs. split; [done|]. split; [done|].
  intros v w Hv Hw Hp. destruct (stringify_parse v w Hw Hp) as (t & Ht & Hj).
  assert (o_body (api c).2 = Some t) as ->; [|done].
  destruct c; cbn [data_of] in Hv; try discriminate Hv; injection Hv as <-; exact Ht.
Qed.

(** *** Paths *)

Lemma strip_app w l : strip w (w ++ l) = Some l.
Proof. induction w as [|c w IH]; [done|]. simpl. by rewrite decide_True. Qed.

Lemma plain_nonempty s : plain s = true → to_chars s ≠ [].
Proof.
  unfold plain. intros [H _]%andb_true_iff. apply bool_decide_eq_true in H.
  intros E. apply H. by rewrite <- (of_to_chars s), E.
Qed.

(** The segments a resource path is matched into. *)
Lemma match_resource_tail prefix id tail :
  plain id = true → (tail = [] ∨ ∃ t, tail = "/"%char :: t) →
  match_resource prefix (prefix +:+ "/" +:+ id +:+ of_chars tail) =
  match tail with
  | [] => Some (id, "")
  | _ :: [] => None
  | _ :: sub => if forallb not_newline sub then Some (id, of_chars sub) else None
  end.
Proof.
  intros Hid Ht. unfold match_resource.
  rewrite <- (str_app_assoc prefix), (to_chars_app (prefix +:+ "/")), strip_app.
  rewrite to_chars_app, to_of_chars.
  destruct (take_while_app not_slash (to_chars id) tail) as [-> ->].
  - by apply plain_no_slash.
  - by intros c; destruct Ht as [->|[t ->]]; [|intros [= <-]].
  - rewrite decide_False by (by apply plain_nonempty). by rewrite of_to_chars.
Qed.

Lemma match_resource_id prefix id :
  plain id = true → match_resource prefix (join "/" [prefix; id]) = Some (id, "").
Proof.
  intros Hid. pose proof (match_resource_tail prefix id [] Hid ltac:(by left)) as H.
  rewrite <- H. f_equal. apply to_chars_inj. cbn [join]. rewrite !to_chars_app. cbn.
  by rewrite app_nil_r.
Qed.

Lemma match_resource_sub prefix id c sub :
  plain id = true → forallb not_newline (c :: to_chars sub) = true →
  match_resource prefix (join "/" [prefix; id; String c sub]) = Some (id, String c sub).
Proof.
  intros Hid Hs.
  pose proof (match_resource_tail prefix id ("/"%char :: c :: to_chars sub) Hid
                ltac:(right; by eexists)) as H.
  cbv iota beta in H. rewrite Hs in H.
  change (c :: to_chars sub) with (to_chars (String c sub)) in H at 2.
  rewrite of_to_chars in H. rewrite <- H. f_equal. apply to_chars_inj. cbn [join].
  rewrite !to_chars_app, to_of_chars. done.
Qed.

Section routed.
Context {W : World} {J : Jose}.

(** The handler each call is written for. The last two have none. *)
Definition intended (c : ApiCall) (req : Request) (org : string) : proc Response :=
  match c with
  | Login _ _ => login req
  | ListProjects => list_projects org
  | CreateProject _ => create_project req org
  | ListQueues => list_queues org
  | CreateQueue _ => create_queue req org
  | GetQueueStats id => queue_stats id org
  | UpdateQueue id _ => update_queue req id org
  | PauseQueue id => pause_queue true id org
  | ResumeQueue id => pause_queue false id org
  | ListJobs _ => list_jobs req org
  | GetJob id => get_job id org
  | GetJobExecutions id => job_executions_of id org
  | GetJobLogs id => job_logs_of id org
  | RetryJob id => retry_job id org
  | EnqueueJob id _ => enqueue_job req id org
  | ListWorkers => list_workers
  | WorkerPulse => worker_pulse
  | ListDLQ => list_dlq org
  | GetQueue _ | ListQueueJobs _ _ => ret (error "not found" 404 "NOT_FOUND")
  end.

(** The method of a call. *)
Definition method_of (c : ApiCall) : string := default "GET" (o_method (api c).2).

(** A request with the method and the path of a call is handled by the
    handler it is written for: sign-in before authentication, every other
    call behind it. *)
Definition reaches (c : ApiCall) (req : Request) (path : list string) : Prop :=
  match c with
  | Login _ _ => handleApi req path = catch (login req) (fun e => ret (api_error e))
  | _ => ∀ org, routes req (join "/" path) org = intended c req org
  end.

Lemma routes_queue req id sub org h :
  match_resource "queues" (join "/" ("queues" :: id :: sub)) = Some h →
  routes req (join "/" ("queues" :: id :: sub)) org =
  match queue_routes req h.1 h.2 org with
  | Some p => p
  | None => late_routes req (join "/" ("queues" :: id :: sub)) org
  end.
Proof.
  intros H. unfold routes. rewrite H. destruct h as [q s].
  rewrite !andb_false_r. done.
Qed.

Lemma routes_job req id sub org h :
  match_resource "jobs" (join "/" ("jobs" :: id :: sub)) = Some h →
  routes req (join "/" ("jobs" :: id :: sub)) org =
  match job_routes req h.1 h.2 org with
  | Some p => p
  | None => ret (error "not found" 404 "NOT_FOUND")
  end.
Proof.
  intros H. unfold routes. rewrite !andb_false_r.
  change (match_resource "queues" (join "/" ("jobs" :: id :: sub))) with (@None (string * string)).
  cbn [mbind option_bind]. unfold late_routes. rewrite H. rewrite !andb_false_r. by destruct h.
Qed.

(** Under [queues] no later route matches. *)
Lemma late_routes_queue req id sub org :
  late_routes req (join "/" ("queues" :: id :: sub)) org = ret (error "not found" 404 "NOT_FOUND").
Proof. unfold late_routes. by rewrite !andb_false_r. Qed.

Lemma call_reaches c req path :
  Forall (fun s => plain s = true) (ids_of c) → req_method req = method_of c →
  path = segments c → reaches c req path.
Proof.
  intros Hids Hm ->. unfold reaches.
  assert (∀ m, method_is m req = bool_decide (method_of c = m)) as Hmi
    by (intros m; unfold method_is; by rewrite Hm).
  destruct c; try intros org; cbn [segments ids_of] in *;
    try (apply Forall_cons in Hids as [Hid _]);
    lazymatch goal with
    | |- context [routes _ (join "/" ["queues"; _; String ?c ?s])] =>
        rewrite (routes_queue _ _ _ _ _ (match_resource_sub "queues" _ c s Hid eq_refl))
    | |- context [routes _ (join "/" ["queues"; _])] =>
        rewrite (routes_queue _ _ _ _ _ (match_resource_id "queues" _ Hid))
    | |- context [routes _ (join "/" ["jobs"; _; String ?c ?s])] =>
        rewrite (routes_job _ _ _ _ _ (match_resource_sub "jobs" _ c s Hid eq_refl))
    | |- context [routes _ (join "/" ["jobs"; _])] =>
        rewrite (routes_job _ _ _ _ _ (match_resource_id "jobs" _ Hid))
    | |- handleApi _ _ = _ => unfold handleApi
    | |- _ => idtac
    end.
  all: try rewrite late_routes_queue.
  all: unfold routes, late_routes, queue_routes, job_routes; rewrite ?Hmi; reflexivity.
Qed.

End routed.

(** ** The hooks of [use-api.ts] *)

(** A hook with its arguments; an absent id is [None], absent parameters are
    the empty object. *)
Inductive Hook :=
| useQueues
| useProjects
| useQueueStats (id : option string)
| useAllQueueStats (queueIds : list string)
| useJobs (params : list (string * string))
| useJob (id : option string)
| useJobExecutions (id : option string)
| useJobLogs (id : option string)
| useWorkers
| useWorkerPulse
| useDLQ.

(** [id ? `${prefix}${id}` : null]. *)
Definition key_with (prefix : string) (id : option string) : option string :=
  match id with
  | Some s => if bool_decide (s = "") then None else Some (prefix +:+ s)
  | None => None
  end.

Definition params_object (params : list (string * string)) : jsval :=
  JObj (prod_map id JStr <$> params).

(** The cache key of a hook; [None] is [null], which does not fetch. *)
Definition swr_key (h : Hook) : option string :=
  match h with
  | useQueues => Some "queues"
  | useProjects => Some "projects"
  | useQueueStats id => key_with "queue-stats-" id
  | useAllQueueStats ids =>
      if bool_decide (ids = []) then None else Some ("all-queue-stats-" +:+ join "," ids)
  | useJobs params => (fun t => "jobs-" +:+ t) <$> stringify (params_object params)
  | useJob id => key_with "job-" id
  | useJobExecutions id => key_with "job-exec-" id
  | useJobLogs id => key_with "job-logs-" id
  | useWorkers => Some "workers"
  | useWorkerPulse => Some "worker-pulse"
  | useDLQ => Some "dlq"
  end.

(** The calls a hook makes to fill its key. *)
Definition hook_calls (h : Hook) : list ApiCall :=
  let on (f : string → ApiCall) (id : option string) :=
    match id with Some s => [f s] | None => [] end in
  match h with
  | useQueues => [ListQueues]
  | useProjects => [ListProjects]
  | useQueueStats id => on GetQueueStats id
  | useAllQueueStats ids => GetQueueStats <$> ids
  | useJobs params => [ListJobs params]
  | useJob id => on GetJob id
  | useJobExecutions id => on GetJobExecutions id
  | useJobLogs id => on GetJobLogs id
  | useWorkers => [ListWorkers]
  | useWorkerPulse => [WorkerPulse]
  | useDLQ => [ListDLQ]
  end.

(** The filter [SubmitJobForm] revalidates with. *)
Definition is_jobs_key (key : string) : bool := startsWith key "jobs".
