(* ===== verification/ClientProps.v ===== *)
(** * The console and the server together

    Each call of the API client meets the handler it is written for, cache
    keys of the hooks tell their data apart, the session ends on both sides
    when it expires, and the calls whose answer has no body fail on the
    client after they took effect. *)

From Stdlib Require Import Ascii.
From S2P Require Import Prelude JsValue JsJson JsonText Database Proc Hoare Http Auth DemoWorld.
From S2P Require Import Worker Scheduler Setup Router Integrity Statements Invariant Fixtures.
From S2P Require Import Execution Sessions Tenancy JobsApi Query Client.

Open Scope js_scope.
Local Open Scope Z_scope.

(** ** Cache keys *)

(** Ids as the database prints them: hexadecimal digits and dashes. *)
Definition uuid_char (c : ascii) : bool :=
  bool_decide (is_Some (hex_digit c)) || bool_decide (c = "-"%char).
Definition uuid_text (s : string) : bool :=
  bool_decide (s ≠ "") && forallb uuid_char (to_chars s).

Definition opt_uuid (id : option string) : bool :=
  match id with Some s => uuid_text s | None => true end.

(** A hook called with ids of the database and an object of parameters. *)
Definition hook_ok (h : Hook) : bool :=
  match h with
  | useQueueStats id | useJob id | useJobExecutions id | useJobLogs id => opt_uuid id
  | useAllQueueStats ids => forallb uuid_text ids
  | useJobs params => bool_decide (NoDup params.*1)
  | _ => true
  end.

Lemma join_split ids :
  ids ≠ [] → Forall (fun s => uuid_text s = true) ids →
  split_on ","%char (to_chars (join "," ids)) = to_chars <$> ids.
Proof.
  intros Hne Hids.
  assert (∀ s, uuid_text s = true → Forall (fun c => c ≠ ","%char) (to_chars s)) as Hc.
  { intros s [_ H]%andb_true_iff. apply Forall_forall. intros c Hc ->.
    rewrite forallb_forall in H. by specialize (H _ (proj1 (list_elem_of_In _ _) Hc)). }
  induction Hids as [|s ids Hs Hids IH]; [done|]. cbn [join]. destruct ids as [|s' ids].
  { rewrite split_on_none by auto. done. }
  rewrite !to_chars_app. cbn [to_chars String.list_ascii_of_string app] in *.
  rewrite split_on_app by auto. rewrite IH by done. done.
Qed.

#[local] Instance to_chars_Inj : Inj (=) (=) to_chars.
Proof. intros s t. apply to_chars_inj. Qed.

Lemma join_inj ids ids' :
  ids ≠ [] → ids' ≠ [] → Forall (fun s => uuid_text s = true) ids →
  Forall (fun s => uuid_text s = true) ids' → join "," ids = join "," ids' → ids = ids'.
Proof.
  intros Hn Hn' H H' E. pose proof (join_split ids Hn H) as E1. rewrite E, join_split in E1 by done.
  by apply (inj (fmap to_chars)) in E1.
Qed.

Lemma params_plain params :
  NoDup params.*1 → json_plain (params_object params) = true.
Proof.
  intros H. unfold params_object. cbn [json_plain]. apply andb_true_iff. split.
  - apply bool_decide_eq_true. rewrite <- list_fmap_compose. exact H.
  - apply forallb_forall. intros kv Hkv%list_elem_of_In.
    apply list_elem_of_fmap in Hkv as (? & -> & _). done.
Qed.

Lemma params_key params t :
  NoDup params.*1 → stringify (params_object params) = Some t →
  json_parse t = inr (params_object params).
Proof.
  intros H Ht. pose proof (params_plain _ H) as Hp.
  destruct (stringify_parse _ _ (json_value_plain _ Hp) Hp) as (t' & Ht' & Hj). congruence.
Qed.

Lemma params_object_inj params params' : params_object params = params_object params' → params = params'.
Proof.
  unfold params_object. intros [= H]. revert params' H.
  induction params as [|[k v] l IH]; intros [|[k' v'] l'] H; simplify_eq/=; [done|].
  f_equal. by apply IH.
Qed.

Lemma key_with_Some prefix id k :
  key_with prefix id = Some k → ∃ s, id = Some s ∧ k = prefix +:+ s.
Proof. destruct id as [s|]; [|done]. simpl. case_bool_decide; naive_solver. Qed.

(** A key, taken apart. *)
Lemma swr_key_Some h k :
  swr_key h = Some k →
  match h with
  | useQueues => k = "queues"
  | useProjects => k = "projects"
  | useQueueStats id => ∃ s, id = Some s ∧ k = "queue-stats-" +:+ s
  | useAllQueueStats ids => ids ≠ [] ∧ k = "all-queue-stats-" +:+ join "," ids
  | useJobs params => ∃ t, stringify (params_object params) = Some t ∧ k = "jobs-" +:+ t
  | useJob id => ∃ s, id = Some s ∧ k = "job-" +:+ s
  | useJobExecutions id => ∃ s, id = Some s ∧ k = "job-exec-" +:+ s
  | useJobLogs id => ∃ s, id = Some s ∧ k = "job-logs-" +:+ s
  | useWorkers => k = "workers"
  | useWorkerPulse => k = "worker-pulse"
  | useDLQ => k = "dlq"
  end.
Proof.
  destruct h; cbn [swr_key]; try (by intros [= <-]); try apply key_with_Some.
  - case_bool_decide as H; [done|]. by intros [= <-].
  - intros (t & Ht & ->)%fmap_Some. by exists t.
Qed.


(** ** Calls meet their handlers *)

Section together.
Context {W : World} {J : Jose} {N : NextRouting} `{!NextRoutingOk N}.

(** The request and the catch-all parameter a call arrives with. *)
Definition sent (c : ApiCall) (tab : Tab) : FetchCall := fetch_call (api c).1 (api c).2 tab.
Definition arrives (f : FetchCall) : list string := next_segments (url_path (f_url f)).

Lemma arrives_segments c tab :
  Forall (fun s => plain s = true) (ids_of c) → arrives (sent c tab) = segments c.
Proof.
  intros Hids. unfold arrives, sent. destruct (call_received c tab Hids) as [-> _].
  apply next_segments_join; [by destruct c|by apply segments_plain|by destruct c..].
Qed.

Lemma sent_authorization c tab :
  req_authorization (received (sent c tab)) =
  match getToken (Some tab) with
  | Some t => if bool_decide (t ≠ "") then Some ("Bearer " +:+ t) else None
  | None => None
  end.
Proof.
  unfold sent, fetch_call, received, header, auth_header. cbn [f_headers req_authorization].
  destruct (getToken (Some tab)) as [t|]; [|done]. by case_bool_decide.
Qed.

(** C26: Every call of the console arrives at the handler it is written for,
    whatever the ids of the database in its path: with its query parameters
    as they were given, its JSON body as the value it stands for on the wire, and with the stored token as bearer
    token. The exceptions are the two calls without a route, for one queue
    and for the jobs of one queue, which are answered 404. *)
Theorem client_calls_routed c tab :
  Forall (fun s => plain s = true) (ids_of c) →
  let r := received (sent c tab) in
  reaches c r (arrives (sent c tab)) ∧
  req_search r = params_of c ∧
  (∀ v w, data_of c = Some v → json_value v = Some w → json_plain w = true → req_json r = inr w) ∧
  (∀ t, getToken (Some tab) = Some t → t ≠ "" → bearer r = Some t).
Proof.
  intros Hids r. destruct (call_received c tab Hids) as (_ & Hs & Hb).
  split; [apply call_reaches; [done|done|by apply arrives_segments]|].
  split; [exact Hs|]. split; [exact Hb|].
  intros t Ht Hne. unfold bearer, r. rewrite sent_authorization, Ht, bool_decide_true by done.
  cbn [mbind option_bind]. destruct (bearer_prefix t) as [-> ->]. done.
Qed.

(** The server at the other end of [fetch]. *)
Definition server (f : FetchCall) (s : store) : (thrown + Response) * store :=
  run (dispatch (received f) (Some (arrives f))) s.

(** The outcome of a call on the client, with the server in the store [s]. *)
Definition call_server (c : ApiCall) (tab : Tab) (s : store) : ((thrown + jsval) * Tab) * store :=
  let '(res, s') := server (sent c tab) s in
  (call (fun _ => res) c tab, s').

Definition is_sign_in (c : ApiCall) : bool := match c with Login _ _ => true | _ => false end.

Lemma sent_not_login c tab :
  Forall (fun s => plain s = true) (ids_of c) → is_sign_in c = false →
  is_login (received (sent c tab)) (segments c) = false.
Proof.
  intros Hids Hc. unfold is_login. apply andb_false_iff. right. apply bool_decide_eq_false.
  destruct c; done.
Qed.

Lemma run_call c tab s :
  Forall (fun s => plain s = true) (ids_of c) → is_sign_in c = false →
  server (sent c tab) s =
  match session_at (st_step s) (received (sent c tab)) with
  | None => (inr unauthorized, checked (received (sent c tab)) s)
  | Some cl =>
      run (catch (getSql ;;! intended c (received (sent c tab)) (c_org_id cl))
             (fun e => ret (api_error e)))
          (checked (received (sent c tab)) s)
  end.
Proof.
  intros Hids Hc. unfold server, dispatch. cbn [default]. rewrite arrives_segments by done.
  rewrite run_handleApi by (by apply sent_not_login).
  destruct (session_at _ _) as [cl|]; [|done]. unfold serve.
  pose proof (call_reaches c (received (sent c tab)) (segments c) Hids eq_refl eq_refl) as H.
  unfold reaches in H. destruct c; try discriminate Hc; by rewrite H.
Qed.

(** C27: When its session is missing or has expired, a call of the console
    changes nothing on the server, drops the stored token, sends the browser
    to the sign-in page unless it is there already, and reports that the
    session expired. *)
Theorem expired_session_signs_out c tab s :
  Forall (fun s => plain s = true) (ids_of c) → is_sign_in c = false →
  session_at (st_step s) (received (sent c tab)) = None →
  ∃ tab' s', call_server c tab s = (inl session_expired, tab', s') ∧
    st_db s' = st_db s ∧ hasToken (Some tab') = false ∧
    tab_sent_to tab' = (if bool_decide (tab_pathname tab = "/login") then tab_sent_to tab
                        else Some "/login").
Proof.
  intros Hids Hc Hs. unfold call_server. rewrite run_call, Hs by done.
  assert (default true (o_auth (api c).2) = true) as Ha by (by destruct c).
  unfold call, request, settle. rewrite Ha. cbn [unauthorized error res_status].
  rewrite bool_decide_true by done. cbn [andb].
  assert (hasToken (Some (clearToken tab)) = false) as Ht.
  { unfold hasToken, getToken, clearToken. cbn [tab_storage]. by rewrite lookup_delete_eq. }
  eexists _, _. split; [done|]. split; [apply checked_db|].
  change (tab_pathname (clearToken tab)) with (tab_pathname tab).
  case_bool_decide as Hp; case_bool_decide as Hp'; try done.
Qed.

(** ** Answers without a body *)

Section pausing.
Context (Hf : no_faults_at_all).

Lemma run_pause_queue b id org o q s :
  db_ok (st_db s) → uuid_param (JStr id) = inr (Some id) → uuid_param (JStr org) = inr (Some o) →
  queues (st_db s) !! id = Some q → queue_in_org (st_db s) o q = true →
  ∃ s', run (pause_queue b id org) s = (inr no_content, s') ∧ db_ok (st_db s') ∧
    projects (st_db s') = projects (st_db s) ∧ st_step s' = S (st_step s) ∧
    queues (st_db s') = <[id := set_paused b (pg_now (st_step s)) q]> (queues (st_db s)).
Proof.
  intros Hok Hi Ho Hq Horg. destruct s as [db v n bg]; cbn [st_db st_step] in *. unfold pause_queue.
  erewrite run_stmt; [cbv beta|done|by unfold sql_set_paused, uuid_arg; rewrite Hi, Ho].
  eexists. split; [done|]. cbn [st_db st_step]. split; [by apply db_ok_update_queues|].
  split; [by destruct db|]. split; [done|].
  transitivity (update_where (org_queue db (Some id) (Some o)) (set_paused b (pg_now n)) (queues db));
    [by destruct db|].
  by apply update_org_queue.
Qed.

Definition pause_call (b : bool) (id : string) : ApiCall :=
  if b then PauseQueue id else ResumeQueue id.

(** Pausing and resuming a queue of the organization takes effect on the
    server and is answered 204 without a body; the client parses that body as
    JSON, so the call always rejects. *)
Lemma pause_applied_but_rejected b id tab s c o q :
  plain id = true → session_at (st_step s) (received (sent (pause_call b id) tab)) = Some c →
  (∃ url, getUrl = inr url) → db_ok (st_db s) →
  uuid_param (JStr id) = inr (Some id) → uuid_param (JStr (c_org_id c)) = inr (Some o) →
  queues (st_db s) !! id = Some q → queue_in_org (st_db s) o q = true →
  ∃ s' t, call_server (pause_call b id) tab s =
      (inl (JsError "Unexpected end of JSON input"), tab, s') ∧
    db_ok (st_db s') ∧ projects (st_db s') = projects (st_db s) ∧
    (st_step s ≤ st_step s' ≤ 2 + st_step s)%nat ∧
    queues (st_db s') = <[id := set_paused b t q]> (queues (st_db s)).
Proof.
  intros Hid Hs [url Hu] Hok Hi Ho Hq Horg. unfold call_server.
  rewrite run_call, Hs by (by destruct b; repeat constructor).
  set (r := received (sent (pause_call b id) tab)).
  destruct (checked_db r s) as (Hdb & _ & _).
  destruct (run_pause_queue b id (c_org_id c) o q (checked r s)) as (s' & Hrun & Hok' & Hp & Hn & Hs');
    [by rewrite ?Hdb..|].
  assert (intended (pause_call b id) r (c_org_id c) = pause_queue b id (c_org_id c)) as ->
    by (by destruct b).
  rewrite run_catch, run_bind, (getSql_url _ ltac:(by eexists)), Hrun.
  exists s', (pg_now (st_step (checked r s))). rewrite Hs', Hp, Hn, Hdb.
  pose proof (checked_step r s). split; [by destruct b|]. do 2 (split; [done|]). split; [lia|done].
Qed.

End pausing.

End together.

(** ** Instances *)

(** Routing by splitting at the slashes. *)
Definition split_routing : NextRouting := {|
  next_segments s := of_chars <$> split_on "/"%char (drop 5 (to_chars s)) |}.

Lemma plain_ne_slash s : plain s = true → Forall (fun c => c ≠ "/"%char) (to_chars s).
Proof.
  intros H%plain_no_slash. eapply Forall_impl; [exact H|]. intros c Hc.
  unfold not_slash in Hc. by apply bool_decide_eq_true in Hc.
Qed.

Lemma split_routing_ok : NextRoutingOk split_routing.
Proof.
  split. intros segs Hne Hp _ _. cbn [next_segments split_routing].
  rewrite to_chars_app. change (drop 5 (to_chars "/api/" ++ ?l)) with l.
  induction Hp as [|s segs Hs Hp IH]; [done|]. cbn [join]. destruct segs as [|s' segs].
  - rewrite split_on_none by (by apply plain_ne_slash). csimpl. by rewrite of_to_chars.
  - rewrite !to_chars_app. cbn [to_chars String.list_ascii_of_string app] in *.
    rewrite split_on_app, fmap_cons by (by apply plain_ne_slash).
    cbn [join] in *. rewrite IH by done. by rewrite of_to_chars.
Qed.

Definition demo_tab (token : option string) : Tab :=
  MkTab (match token with Some t => {[token_key := t]} | None => ∅ end) "/jobs" None.

Definition demo_token : string :=
  jwt_sign secret (claims_members demo_claims) (epoch 0) (epoch 0 + 86400).


Lemma client_calls_routed_witness :
  let c := EnqueueJob "q1" demo_submit in
  let r := received (sent c (demo_tab (Some "abc"))) in
  reaches (W := demo) c r (arrives (N := split_routing) (sent c (demo_tab (Some "abc")))) ∧
  req_search r = params_of c ∧
  (∀ v w, data_of c = Some v → json_value v = Some w → json_plain w = true → req_json r = inr w) ∧
  (∀ t, getToken (Some (demo_tab (Some "abc"))) = Some t → t ≠ "" → bearer r = Some t).
Proof.
  apply (@client_calls_routed demo _ split_routing split_routing_ok).
  by repeat constructor.
Defined.

Lemma expired_session_signs_out_witness :
  ∃ tab' s', call_server (N := split_routing) ListQueues (demo_tab (Some "stale")) demo_store =
      (inl session_expired, tab', s') ∧
    st_db s' = st_db demo_store ∧ hasToken (Some tab') = false ∧
    tab_sent_to tab' = (if bool_decide (tab_pathname (demo_tab (Some "stale")) = "/login")
                        then tab_sent_to (demo_tab (Some "stale")) else Some "/login").
Proof.
  apply (@expired_session_signs_out demo _ split_routing split_routing_ok);
    [by repeat constructor|done|vm_compute; reflexivity].
Defined.

