(* ===== verification/Status.v ===== *)
(** * Status styles ([dashboard/src/lib/status.ts], [components/ui/StatusChip.tsx])

    Colours and labels of statuses. *)

From Stdlib Require Import Ascii.
From S2P Require Import Prelude JsValue Database.

Local Open Scope Z_scope.

Record StatusStyle := MkStyle { color : string; dim : string; label : string }.

Definition css (name label : string) : StatusStyle :=
  MkStyle ("var(--st-" +:+ name +:+ ")") ("var(--st-" +:+ name +:+ "-dim)") label.

Definition STYLES : list (string * StatusStyle) :=
  [("queued", css "queued" "Queued");
   ("scheduled", css "scheduled" "Scheduled");
   ("claimed", css "claimed" "Claimed");
   ("running", css "running" "Running");
   ("completed", css "completed" "Completed");
   ("failed", css "failed" "Failed");
   ("dead_letter", css "dead" "Dead letter");
   ("dead", css "dead" "Dead");
   ("retrying", css "retrying" "Retrying");
   ("active", css "active" "Active");
   ("offline", css "offline" "Offline");
   ("paused", css "paused" "Paused")].

(** [.replace(/\s+/g, "_")]: [run] tells that the previous character was
    replaced. *)
Fixpoint underscore_spaces (run : bool) (l : chars) : chars :=
  match l with
  | [] => []
  | c :: l => if Ascii.is_space c then
                if run then underscore_spaces true l else "_"%char :: underscore_spaces true l
              else c :: underscore_spaces false l
  end.

Definition status_key (status : string) : string :=
  of_chars (underscore_spaces false (to_chars (toLowerCase status))).

(** What [STYLES[key]] finds: a style, a property every object inherits (the
    inherited names without upper-case letters are these two), or nothing. *)
Inductive found := Style (s : StatusStyle) | Inherited | Missing.

Definition lookup_style (key : string) : found :=
  match List.find (fun kv => bool_decide (kv.1 = key)) STYLES with
  | Some kv => Style kv.2
  | None => if bool_decide (key ∈ ["constructor"; "__proto__"]) then Inherited else Missing
  end.

(** [getStatusStyle]; [None] is an inherited property, which has no style. *)
Definition getStatusStyle (status : string) : option StatusStyle :=
  match lookup_style (status_key status) with
  | Style s => Some s
  | Inherited => None
  | Missing => Some (MkStyle "var(--text-tertiary)" "var(--bg-surface-2)" status)
  end.

Definition JOB_STATUSES : list string :=
  ["queued"; "scheduled"; "claimed"; "running"; "completed"; "failed"; "dead_letter"].

(** Whether the dot of a [StatusChip] pulses. *)
Definition shouldPulse (status : string) (pulse : bool) : bool :=
  pulse || bool_decide (status = "running") || bool_decide (status = "active").

(** ** Properties *)

Lemma lower_lower c : lower_char (lower_char c) = lower_char c.
Proof. by destruct c as [[] [] [] [] [] [] [] []]. Qed.

Lemma underscore_fixed run l :
  lower_char <$> underscore_spaces run (lower_char <$> l) = underscore_spaces run (lower_char <$> l) ∧
  underscore_spaces false (underscore_spaces run (lower_char <$> l)) =
    underscore_spaces run (lower_char <$> l).
Proof.
  revert run. induction l as [|c l IH]; intros run; [done|]. csimpl.
  cbn [underscore_spaces]. destruct (Ascii.is_space (lower_char c)) eqn:E; [destruct run|].
  - apply IH.
  - rewrite fmap_cons. cbn [underscore_spaces]. destruct (IH true) as [-> ->]. done.
  - rewrite fmap_cons. cbn [underscore_spaces]. rewrite E, lower_lower.
    destruct (IH false) as [-> ->]. done.
Qed.

Lemma status_key_idemp s : status_key (status_key s) = status_key s.
Proof.
  unfold status_key, toLowerCase. rewrite !to_of_chars. f_equal.
  destruct (underscore_fixed false (to_chars s)) as [-> ->]. done.
Qed.

(** Every status a job can have in the database is one of the filters of
    the explorer, once, and has a style of its own with a label that no other
    job status has; a style found for a status does not depend on its case or
    on how its words are separated. *)
Theorem status_styles_complete :
  (∀ st, ∃ s, getStatusStyle (job_status_text st) = Some s ∧
     (job_status_text st, s) ∈ STYLES ∧ job_status_text st ∈ JOB_STATUSES) ∧
  NoDup JOB_STATUSES ∧ (∀ f, f ∈ JOB_STATUSES → ∃ st, f = job_status_text st) ∧
  (∀ st st', label <$> getStatusStyle (job_status_text st) =
             label <$> getStatusStyle (job_status_text st') → st = st') ∧
  (∀ status s, lookup_style (status_key status) = Style s →
     getStatusStyle (status_key status) = getStatusStyle status ∧
     getStatusStyle status = Some s).
Proof.
  split; [|split; [|split; [|split]]].
  - intros []; eexists; (split; [reflexivity|]);
      (split; repeat first [apply list_elem_of_here|apply list_elem_of_further]).
  - apply (bool_decide_eq_true_1 _). by vm_compute.
  - intros f Hf. unfold JOB_STATUSES in Hf. repeat (apply elem_of_cons in Hf as [->|Hf]);
      [by exists Queued|by exists Scheduled|by exists Claimed|by exists Running|by exists Completed
      |by exists Failed|by exists DeadLetter|by apply not_elem_of_nil in Hf].
  - by intros [] []; vm_compute.
  - intros status s H. unfold getStatusStyle. by rewrite status_key_idemp, H.
Qed.
