(* ===== verification/Palette.v ===== *)
(** * The command palette ([dashboard/src/components/ui/CommandPalette.tsx])

    Scoring, filtering and ranking of commands, and the keyboard. *)

From Stdlib Require Import Ascii.
From S2P Require Import Prelude JsValue JsJson Database Proc Http Auth Worker Setup Router Query.
From S2P Require Import Client Format.

Local Open Scope Z_scope.

(** ** Commands *)

(** What running a command does, in order; a call that rejects ends it. *)
Inductive effect :=
| Push (path : string)
| Call (c : ApiCall)
| Mutate (key : string).

Record CommandItem := MkItem {
  i_id : string; i_label : string; i_section : string; i_keywords : string;
  i_run : list effect }.

(** What the palette reads of a queue and of a dead letter. *)
Record queue_item := MkQueueItem {
  cq_id : string; cq_name : string; cq_slug : string; cq_is_paused : bool }.
Record dlq_item := MkDlqItem { cd_job_id : string; cd_queue_name : string; cd_payload : jsval }.

Definition nav_items : list CommandItem :=
  [MkItem "nav-overview" "Go to Overview" "Navigate" "home dashboard" [Push "/"];
   MkItem "nav-queues" "Go to Queues" "Navigate" "queues" [Push "/queues"];
   MkItem "nav-jobs" "Go to Jobs" "Navigate" "jobs explorer" [Push "/jobs"];
   MkItem "nav-workers" "Go to Workers" "Navigate" "workers" [Push "/workers"];
   MkItem "nav-dlq" "Go to Dead Letter" "Navigate" "dlq dead letter" [Push "/dlq"];
   MkItem "action-submit-job" "Submit job" "Actions" "enqueue create add job" [Push "/jobs?submit=1"];
   MkItem "action-create-queue" "Create queue" "Actions" "add queue new" [Push "/queues?create=1"]].

Definition queue_action (q : queue_item) : CommandItem :=
  MkItem ("pause-" +:+ cq_id q)
    ((if cq_is_paused q then "Resume queue " else "Pause queue ") +:+ cq_name q)
    "Queues" (cq_name q +:+ " " +:+ cq_slug q +:+ " pause resume")
    [Call (if cq_is_paused q then ResumeQueue (cq_id q) else PauseQueue (cq_id q)); Mutate "queues"].

Definition dlq_action (d : dlq_item) : CommandItem :=
  let name := jobDisplayName (JObj [("payload", cd_payload d)]) "Unnamed job" in
  MkItem ("retry-" +:+ cd_job_id d)
    ("Retry " +:+ name +:+ " (" +:+ cd_queue_name d +:+ ")")
    "Dead letter" (name +:+ " " +:+ cd_queue_name d +:+ " retry dlq")
    [Call (RetryJob (cd_job_id d)); Mutate "dlq"; Push "/dlq"].

(** The [items] of the palette. *)
Definition palette_items (queues : list queue_item) (dlq : list dlq_item) : list CommandItem :=
  nav_items ++ (queue_action <$> queues) ++ (dlq_action <$> take 8 dlq).

(** ** Search *)

(** [.split(/\s+/)]. *)
Fixpoint split_spaces (l : chars) : list chars :=
  match l with
  | [] => [[]]
  | c :: l' =>
      if Ascii.is_space c then
        match l' with
        | d :: _ => if Ascii.is_space d then split_spaces l' else [] :: split_spaces l'
        | [] => [[]; []]
        end
      else match split_spaces l' with
           | [] => [[c]]
           | w :: ws => (c :: w) :: ws
           end
  end.

Definition haystack (item : CommandItem) : string :=
  toLowerCase (i_label item +:+ " " +:+ i_keywords item +:+ " " +:+ i_section item).

Definition score (query : string) (item : CommandItem) : Z :=
  let q := trim (toLowerCase query) in
  if bool_decide (q = "") then 1
  else
    let hay := haystack item in
    if startsWith hay q then 100
    else if includes hay q then 50
    else foldl (fun s w => if includes hay (of_chars w) then s + 10 else s) 0
           (split_spaces (to_chars q)).

(** [.sort((a, b) => b.s - a.s)]: descending, and stable. *)
Fixpoint insert_desc (x : CommandItem * Z) (l : list (CommandItem * Z)) : list (CommandItem * Z) :=
  match l with
  | [] => [x]
  | y :: l' => if bool_decide (y.2 ≤ x.2) then x :: l else y :: insert_desc x l'
  end.

Definition sort_desc (l : list (CommandItem * Z)) : list (CommandItem * Z) :=
  foldr insert_desc [] l.

Definition filtered (query : string) (items : list CommandItem) : list CommandItem :=
  (sort_desc (List.filter (fun x => bool_decide (0 < x.2))
                ((fun item => (item, score query item)) <$> items))).*1.

(** ** Ranking *)

Definition ranks_before (x y : CommandItem * Z) : Prop := y.2 ≤ x.2.

Lemma insert_desc_perm x l : insert_desc x l ≡ₚ x :: l.
Proof.
  induction l as [|y l IH]; simpl; [done|]. case_bool_decide; [done|].
  rewrite IH. apply perm_swap.
Qed.

Lemma sort_desc_perm l : sort_desc l ≡ₚ l.
Proof. induction l as [|x l IH]; simpl; [done|]. by rewrite insert_desc_perm, IH. Qed.

Lemma insert_desc_sorted x l :
  StronglySorted ranks_before l → StronglySorted ranks_before (insert_desc x l).
Proof.
  induction 1 as [|y l Hs IH Hy]; simpl; [by repeat constructor|].
  unfold ranks_before in *. case_bool_decide as Hxy.
  - constructor; [by constructor|]. constructor; [done|]. eapply Forall_impl; [done|].
    simpl. intros z Hz. lia.
  - constructor; [done|]. rewrite insert_desc_perm. constructor; [lia|done].
Qed.

Lemma sort_desc_sorted l : StronglySorted ranks_before (sort_desc l).
Proof. induction l; simpl; [constructor|by apply insert_desc_sorted]. Qed.

(** Equal scores keep their order. *)
Definition scored (z : Z) (x : CommandItem * Z) : bool := bool_decide (x.2 = z).

Lemma insert_desc_stable z x l :
  List.filter (scored z) (insert_desc x l) =
  if scored z x then x :: List.filter (scored z) l else List.filter (scored z) l.
Proof.
  induction l as [|y l IH]; cbn [insert_desc]; [done|].
  case_bool_decide as Hyx; [done|]. cbn [List.filter]. rewrite IH. unfold scored. destruct (decide (x.2 = z)) as [Hx|Hx].
  - rewrite (bool_decide_true (x.2 = z)) by done. by rewrite (bool_decide_false (y.2 = z)) by lia.
  - by rewrite (bool_decide_false (x.2 = z)) by done.
Qed.

Lemma sort_desc_stable z l : List.filter (scored z) (sort_desc l) = List.filter (scored z) l.
Proof. induction l as [|x l IH]; simpl; [done|]. rewrite insert_desc_stable, IH. done. Qed.

Lemma filtered_scored query items :
  ∃ l, filtered query items = l.*1 ∧ l = (fun i => (i, score query i)) <$> filtered query items ∧
    StronglySorted ranks_before l ∧
    l ≡ₚ (fun i => (i, score query i)) <$>
           List.filter (fun i => bool_decide (0 < score query i)) items ∧
    (∀ z, List.filter (scored z) l = List.filter (scored z)
       ((fun i => (i, score query i)) <$>
          List.filter (fun i => bool_decide (0 < score query i)) items)).
Proof.
  unfold filtered. rewrite filter_bool_fmap.
  set (fi := List.filter _ items). set (l := sort_desc _).
  assert (l ≡ₚ (fun i => (i, score query i)) <$> fi) as Hl by apply sort_desc_perm.
  exists l. split; [done|]. split; [|split; [apply sort_desc_sorted|split; [done|]]].
  - rewrite <- list_fmap_compose. rewrite <- (list_fmap_id l) at 1.
    apply list_fmap_ext. intros k [i s] Hk%list_elem_of_lookup_2.
    rewrite Hl in Hk. apply list_elem_of_fmap in Hk as (i' & [= -> ->] & _). done.
  - intros z. apply sort_desc_stable.
Qed.

(** The palette lists exactly the commands with a positive score, best
    first and in menu order among equals; with a blank query it lists all of
    them in menu order. *)
Theorem palette_ranking query items :
  filtered query items ≡ₚ List.filter (fun i => bool_decide (0 < score query i)) items ∧
  StronglySorted (fun a b => score query b ≤ score query a) (filtered query items) ∧
  (∀ z, 0 < z → List.filter (fun i => bool_decide (score query i = z)) (filtered query items) =
                List.filter (fun i => bool_decide (score query i = z)) items) ∧
  (trim (toLowerCase query) = "" → filtered query items = items).
Proof.
  destruct (filtered_scored query items) as (l & E & El & Hs & Hp & Hst).
  set (f := filtered query items) in *. set (sc := fun i => (i, score query i)) in *.
  assert (∀ l' : list CommandItem, (sc <$> l').*1 = l') as Hfst.
  { intros l'. rewrite <- list_fmap_compose. apply list_fmap_id. }
  assert (∀ z, 0 < z → List.filter (fun i => bool_decide (score query i = z)) f =
                List.filter (fun i => bool_decide (score query i = z)) items) as Hstable.
  { intros z Hz. specialize (Hst z). rewrite El, !filter_bool_fmap in Hst.
    apply (f_equal (fmap fst)) in Hst. rewrite !Hfst in Hst. etransitivity; [exact Hst|].
    clear -Hz. induction items as [|i l IH]; cbn [List.filter]; [done|].
    case_bool_decide as H0; cbn [List.filter]; rewrite IH; [done|].
    unfold scored. simpl. by rewrite bool_decide_false by lia. }
  split; [|split; [|split; [exact Hstable|]]].
  - rewrite E, Hp. by rewrite Hfst.
  - rewrite El in Hs. clear -Hs. induction f as [|i f IH]; [constructor|].
    csimpl in Hs. apply StronglySorted_inv in Hs as [Hs Hi]. constructor; [by apply IH|].
    rewrite Forall_fmap in Hi. eapply Forall_impl; [exact Hi|]. done.
  - intros Hq. assert (∀ i, score query i = 1) as H1
      by (intros i; unfold score; by rewrite bool_decide_true).
    specialize (Hstable 1 ltac:(lia)).
    assert (∀ l' : list CommandItem,
      List.filter (fun i => bool_decide (score query i = 1)) l' = l') as Hall.
    { induction l' as [|i l' IH]; cbn [List.filter]; [done|].
      rewrite bool_decide_true, IH by apply H1. done. }
    by rewrite !Hall in Hstable.
Qed.

(** ** The keyboard *)

Record Palette := MkPalette { p_open : bool; p_query : string; p_active : Z }.

Inductive key := ArrowDown | ArrowUp | Enter | Escape.

(** What happens to the palette: a key in its input, a click on an option, a
    new query, the shortcut that toggles it, the backdrop. *)
Inductive event :=
| Key (k : key)
| Click (i : Z)
| Type_ (query : string)
| Toggle
| Dismiss.

(** The effect on [commandOpen] clears a closed palette. *)
Definition closed : Palette := MkPalette false "" 0.

(** [filtered[active]]. *)
Definition at_index (l : list CommandItem) (i : Z) : option CommandItem :=
  if bool_decide (0 ≤ i) then l !! Z.to_nat i else None.

(** [run(item)]: the palette closes and the command runs. *)
Definition palette_pick (p : Palette) (item : option CommandItem) : Palette * option CommandItem :=
  match item with Some i => (closed, Some i) | None => (p, None) end.

(** The next state and the command that is run. *)
Definition palette_step (items : list CommandItem) (p : Palette) (e : event) :
    Palette * option CommandItem :=
  let list := filtered (p_query p) items in
  if negb (p_open p) then
    match e with Toggle => (MkPalette true (p_query p) (p_active p), None) | _ => (p, None) end
  else
    match e with
    | Key ArrowDown =>
        (MkPalette true (p_query p) (Z.min (p_active p + 1) (Z.of_nat (length list) - 1)), None)
    | Key ArrowUp => (MkPalette true (p_query p) (Z.max (p_active p - 1) 0), None)
    | Key Enter => palette_pick p (at_index list (p_active p))
    | Click i => palette_pick p (at_index list i)
    | Key Escape | Toggle | Dismiss => (closed, None)
    | Type_ q => (MkPalette true q (if bool_decide (q = p_query p) then p_active p else 0), None)
    end.

Definition palette_run (items : list CommandItem) (es : list event) : Palette :=
  foldl (fun p e => (palette_step items p e).1) closed es.

(** The options of an open palette, the highlighted one marked; none leave a
    text. *)
Record OptionView := MkOption { op_label : string; op_section : string; op_selected : bool }.

Definition option_view (active : Z) (i : nat) (item : CommandItem) : OptionView :=
  MkOption (i_label item) (i_section item) (bool_decide (Z.of_nat i = active)).

Definition CommandPalette (items : list CommandItem) (p : Palette) : option (string + list OptionView) :=
  if p_open p then
    Some match filtered (p_query p) items with
         | [] => inl "No matching commands"
         | l => inr (imap (option_view (p_active p)) l)
         end
  else None.

(** The highlight is on the list, unless the list is empty. *)
Definition highlight_ok (items : list CommandItem) (p : Palette) : Prop :=
  (p_open p = false → p = closed) ∧
  (filtered (p_query p) items ≠ [] →
   0 ≤ p_active p < Z.of_nat (length (filtered (p_query p) items))).

Lemma highlight_zero items b q :
  (b = false → MkPalette b q 0 = closed) → highlight_ok items (MkPalette b q 0).
Proof.
  intros H. split; [exact H|]. simpl. destruct (filtered q items); [done|]. simpl. lia.
Qed.

Lemma highlight_step items p e :
  highlight_ok items p → highlight_ok items (palette_step items p e).1.
Proof.
  destruct p as [[] q a]; intros [Ho Ha]; unfold palette_step; simpl in *.
  - destruct e as [[]|i|q'| |]; simpl; try (by apply highlight_zero).
    + split; [done|]. simpl. intros Hne. specialize (Ha Hne). lia.
    + split; [done|]. simpl. intros Hne. specialize (Ha Hne). lia.
    + destruct (at_index _ _); [by apply highlight_zero|done].
    + destruct (at_index _ i); [by apply highlight_zero|done].
    + case_bool_decide as Hq; [by subst q'|]. by apply highlight_zero.
  - specialize (Ho eq_refl). injection Ho as -> ->.
    destruct e; simpl; by apply highlight_zero.
Qed.

(** One option is marked when the highlight is on the list. *)
Lemma marked_option l k c n :
  l !! k = Some c →
  List.filter op_selected (imap (fun i => option_view (Z.of_nat (n + k)) (n + i)) l) =
  [MkOption (i_label c) (i_section c) true].
Proof.
  revert k n. induction l as [|d l IH]; intros k n Hc; [done|]. rewrite imap_cons.
  unfold option_view at 1. cbn [List.filter op_selected]. destruct k as [|k].
  - injection Hc as ->. rewrite bool_decide_true by done. f_equal.
    rewrite (filter_bool_ext _ (fun _ => false)); [by induction (imap _ _)|].
    intros o Ho. apply elem_of_lookup_imap in Ho as (i & x & -> & _). apply bool_decide_eq_false. lia.
  - rewrite bool_decide_false by lia.
    rewrite (imap_ext _ (fun i => option_view (Z.of_nat (S n + k)) (S n + i))); [by apply IH|].
    intros i x _. unfold compose. f_equal; lia.
Qed.



(** The highlight is kept when a poll shortens the list: it can fall off the
    end, where no option is marked and Enter runs nothing. *)
Example palette_shrinks :
  let queue := MkQueueItem "q1" "Emails" "emails" false in
  let down := Key ArrowDown in
  let p := palette_run (palette_items [queue] []) [Toggle; Type_ "queue"; down; down; down] in
  (palette_step (palette_items [queue] []) p (Key Enter)).2 ≠ None ∧
  (palette_step (palette_items [] []) p (Key Enter)).2 = None ∧
  filtered (p_query p) (palette_items [] []) ≠ [].
Proof. by vm_compute. Qed.
