(* ===== verification/Shell.v ===== *)
(** * The shell of the console

    [components/providers/ConsoleProvider.tsx], [auth/AuthGuard.tsx],
    [shell/TopBar.tsx], [shell/LeftRail.tsx] and the sign-in page: the live
    trace of job outcomes, the guard in front of the pages, navigation and
    the session of the browser. *)

From Stdlib Require Import Ascii.
From S2P Require Import Prelude JsValue JsJson JsonText Database Proc Hoare Http Auth DemoWorld.
From S2P Require Import Worker Scheduler Setup Router Integrity Statements Invariant Fixtures.
From S2P Require Import Sessions Query Client ClientProps Format.

Open Scope js_scope.
Local Open Scope Z_scope.

(** ** [ConsoleProvider] *)

Inductive PulseEventType := PCompleted | PFailed.
#[export] Instance PulseEventType_eq_dec : EqDecision PulseEventType.
Proof. solve_decision. Defined.

Record PulseEvent := MkPulse { ev_type : PulseEventType; ev_at : Z }.

(** The counts of the last page, [prevRef.current]. *)
Record Counts := MkCounts { n_completed : nat; n_failed : nat; n_dead : nat }.

Record Console := MkConsole {
  pulseEvents : list PulseEvent; commandOpen : bool;
  submitJobRequest : Z; createQueueRequest : Z; prevRef : Counts }.

Definition initial_console : Console := MkConsole [] false 0 0 (MkCounts 0 0 0).

Definition status_is (s : string) (j : jsval) : bool :=
  bool_decide (as_string (field j "status") = Some s).

Definition count_status (s : string) (items : list jsval) : nat :=
  length (List.filter (status_is s) items).

Definition counts_of (items : list jsval) : Counts :=
  MkCounts (count_status "completed" items) (count_status "failed" items)
    (count_status "dead_letter" items).

(** [n - m] events from [now] on, one per millisecond, when the count grew. *)
Definition burst (type : PulseEventType) (now : Z) (n m : nat) : list PulseEvent :=
  if bool_decide (m < n)%nat
  then (fun i => MkPulse type (now + Z.of_nat i)) <$> seq 0 (n - m) else [].

Definition page_events (now : Z) (prev cur : Counts) : list PulseEvent :=
  burst PCompleted now (n_completed cur) (n_completed prev) ++
  burst PFailed now (n_failed cur + n_dead cur) (n_failed prev + n_dead prev).

(** The effect on [jobPage]; [None] is a page that has not loaded. *)
Definition page_effect (c : Console) (poll : Z * option (list jsval)) : Console :=
  match poll.2 with
  | None => c
  | Some items =>
      let cur := counts_of items in
      let next := page_events poll.1 (prevRef c) cur in
      MkConsole (match next with [] => pulseEvents c | _ => take_last 50 (pulseEvents c ++ next) end)
        (commandOpen c) (submitJobRequest c) (createQueueRequest c) cur
  end.

Definition openCommand (c : Console) : Console :=
  MkConsole (pulseEvents c) true (submitJobRequest c) (createQueueRequest c) (prevRef c).
Definition openSubmitJob (c : Console) : Console :=
  MkConsole (pulseEvents c) (commandOpen c) (submitJobRequest c + 1) (createQueueRequest c) (prevRef c).
Definition openCreateQueue (c : Console) : Console :=
  MkConsole (pulseEvents c) (commandOpen c) (submitJobRequest c) (createQueueRequest c + 1) (prevRef c).

(** [onKey]: Ctrl+K or Cmd+K toggles the palette. *)
Definition onKey (meta ctrl : bool) (key : string) (c : Console) : Console :=
  if (meta || ctrl) && bool_decide (toLowerCase key = "k")
  then MkConsole (pulseEvents c) (negb (commandOpen c)) (submitJobRequest c) (createQueueRequest c)
         (prevRef c)
  else c.

(** *** The trace *)

(** All events of a sequence of polls, without the bound. *)
Fixpoint trace (prev : Counts) (polls : list (Z * option (list jsval))) : list PulseEvent :=
  match polls with
  | [] => []
  | (_, None) :: polls => trace prev polls
  | (now, Some items) :: polls =>
      page_events now prev (counts_of items) ++ trace (counts_of items) polls
  end.

Lemma take_last_all {A} n (l : list A) : (length l ≤ n)%nat → take_last n l = l.
Proof. intros H. unfold take_last. by replace (length l - n)%nat with 0%nat by lia. Qed.

Lemma take_last_app {A} n (l r : list A) : take_last n (take_last n l ++ r) = take_last n (l ++ r).
Proof.
  unfold take_last at 1 3. rewrite !length_app, length_take_last.
  unfold take_last. destruct (le_lt_dec (length r) n) as [Hr|Hr].
  - rewrite !drop_app_le by (rewrite ?length_drop; lia). rewrite drop_drop. f_equal. f_equal. lia.
  - rewrite !drop_app_ge by (rewrite ?length_drop; lia). f_equal. rewrite ?length_drop. lia.
Qed.

Lemma page_effects_trace c polls evs :
  pulseEvents c = take_last 50 evs →
  pulseEvents (foldl page_effect c polls) = take_last 50 (evs ++ trace (prevRef c) polls).
Proof.
  revert c evs. induction polls as [|[now [items|]] polls IH]; intros c evs Hc; cbn [foldl trace].
  - by rewrite app_nil_r.
  - rewrite app_assoc. apply IH. unfold page_effect. cbn [fst snd pulseEvents].
    destruct (page_events _ _ _) as [|e next] eqn:E; [by rewrite app_nil_r|].
    rewrite Hc. apply take_last_app.
  - by apply IH.
Qed.

Definition count_type (t : PulseEventType) (l : list PulseEvent) : nat :=
  length (List.filter (fun e => bool_decide (ev_type e = t)) l).

Lemma count_type_app t l r : count_type t (l ++ r) = (count_type t l + count_type t r)%nat.
Proof. unfold count_type. by rewrite List.filter_app, length_app. Qed.

Lemma count_burst t t' now n m :
  count_type t (burst t' now n m) = if bool_decide (t' = t) then (n - m)%nat else 0%nat.
Proof.
  unfold burst, count_type. case_bool_decide as Hnm; simpl.
  - rewrite filter_bool_fmap, length_fmap. simpl.
    case_bool_decide as Ht.
    + assert (∀ l : list nat, List.filter (fun _ => true) l = l) as Hl
        by (induction l as [|a l IH]; simpl; [done|by rewrite IH]).
      by rewrite Hl, length_seq.
    + assert (∀ l : list nat, List.filter (fun _ => false) l = []) as Hl
        by (by induction l).
      by rewrite Hl.
  - case_bool_decide; lia.
Qed.

Lemma count_page_events now prev cur :
  count_type PCompleted (page_events now prev cur) = (n_completed cur - n_completed prev)%nat ∧
  count_type PFailed (page_events now prev cur) =
    ((n_failed cur + n_dead cur) - (n_failed prev + n_dead prev))%nat.
Proof. unfold page_events. rewrite !count_type_app, !count_burst. simpl. lia. Qed.

(** Pages whose counts never fall. *)
Fixpoint growing (prev : Counts) (polls : list (Z * option (list jsval))) : Prop :=
  match polls with
  | [] => True
  | (_, None) :: polls => growing prev polls
  | (_, Some items) :: polls =>
      let cur := counts_of items in
      (n_completed prev ≤ n_completed cur)%nat ∧
      (n_failed prev + n_dead prev ≤ n_failed cur + n_dead cur)%nat ∧ growing cur polls
  end.

(** The counts after the polls. *)
Fixpoint last_counts (prev : Counts) (polls : list (Z * option (list jsval))) : Counts :=
  match polls with
  | [] => prev
  | (_, None) :: polls => last_counts prev polls
  | (_, Some items) :: polls => last_counts (counts_of items) polls
  end.

Lemma growing_trace prev polls :
  growing prev polls →
  (count_type PCompleted (trace prev polls) + n_completed prev =
     n_completed (last_counts prev polls))%nat ∧
  (count_type PFailed (trace prev polls) + (n_failed prev + n_dead prev) =
     n_failed (last_counts prev polls) + n_dead (last_counts prev polls))%nat.
Proof.
  revert prev. induction polls as [|[now [items|]] polls IH]; intros prev Hg;
    cbn [trace growing last_counts] in *; [done| |by apply IH].
  destruct Hg as (H1 & H2 & Hg). destruct (IH _ Hg) as [E1 E2].
  rewrite !count_type_app. destruct (count_page_events now prev (counts_of items)) as [-> ->].
  cbn [n_completed n_failed n_dead counts_of] in *. lia.
Qed.

(** The live trace of the console is the last fifty of the events that the
    polled pages gave rise to, and never more; while the counts of finished
    jobs only grow, those events are one per completed job and one per failed
    or dead-lettered job of the last page. *)
Theorem console_trace polls :
  let c := foldl page_effect initial_console polls in
  let z := MkCounts 0 0 0 in
  pulseEvents c = take_last 50 (trace z polls) ∧ (length (pulseEvents c) ≤ 50)%nat ∧
  (growing z polls →
   count_type PCompleted (trace z polls) = n_completed (last_counts z polls) ∧
   count_type PFailed (trace z polls) =
     (n_failed (last_counts z polls) + n_dead (last_counts z polls))%nat).
Proof.
  intros c z. pose proof (page_effects_trace initial_console polls [] eq_refl) as E.
  cbn [app] in E. split; [exact E|]. split.
  - unfold c. rewrite E, length_take_last. lia.
  - intros Hg. destruct (growing_trace z polls Hg) as [E1 E2]. simpl in E1, E2. lia.
Qed.

(** ** [AuthGuard] *)

(** The effect on the path: whether the page becomes ready, and the path
    [router.replace] is called with. *)
Definition guard_effect (pathname : string) (tab : Tab) (ready : bool) : bool * option string :=
  if bool_decide (pathname = "/login") then
    if hasToken (Some tab) then (ready, Some "/") else (true, None)
  else if negb (hasToken (Some tab)) then (ready, Some "/login")
  else (true, None).

(** The guard over a sequence of visits, from a fresh load. *)
Definition guard_run (visits : list (string * Tab)) : bool :=
  foldl (fun ready v => (guard_effect v.1 v.2 ready).1) false visits.

(** A page that may be shown: sign-in without a session, the others with one. *)
Definition admissible (v : string * Tab) : bool :=
  if bool_decide (v.1 = "/login") then negb (hasToken (Some v.2)) else hasToken (Some v.2).

Lemma guard_run_sticky visits ready :
  foldl (fun ready v => (guard_effect v.1 v.2 ready).1) ready visits =
  ready || existsb admissible visits.
Proof.
  revert ready. induction visits as [|[p t] visits IH]; intros ready; simpl; [by rewrite orb_false_r|].
  rewrite IH. unfold guard_effect, admissible. simpl.
  destruct (bool_decide (p = "/login")), (hasToken (Some t)), ready; simpl; done.
Qed.

(** The guard shows nothing until a visit is admissible, that is, the
    sign-in page without a token or another page with one; it sends every
    other visit away, to the overview or to the sign-in page, and a page it
    sends to is never sent away again, so it cannot loop. *)
Theorem auth_guard_correct visits pathname tab ready :
  (guard_run visits = existsb admissible visits) ∧
  ((guard_effect pathname tab ready).2 = None ↔ admissible (pathname, tab) = true) ∧
  (admissible (pathname, tab) = true → (guard_effect pathname tab ready).1 = true) ∧
  (∀ target, (guard_effect pathname tab ready).2 = Some target →
     admissible (target, tab) = true ∧ (guard_effect pathname tab ready).1 = ready).
Proof.
  split; [apply guard_run_sticky|].
  unfold guard_effect, admissible. simpl.
  destruct (bool_decide (pathname = "/login")), (hasToken (Some tab)); simpl;
    (split; [done|]); (split; [done|]); try done; by intros target [= <-].
Qed.

(** What is rendered once the guard has decided: skeletons until it is ready,
    the sign-in page alone, any other page within the shell, where
    [WorkerPulse] polls the worker. *)
Inductive ShellView := GuardSkeleton | PageAlone | PageInShell.

Definition AuthGuard (ready : bool) (children : ShellView) : ShellView :=
  if ready then children else GuardSkeleton.

Definition ShellWrapper (path : string) (ready : bool) : ShellView :=
  AuthGuard ready (if bool_decide (path = "/login") then PageAlone else PageInShell).

(** ** Navigation ([TopBar], [LeftRail]) *)

Definition NAV : list (string * string) :=
  [("/", "Overview"); ("/queues", "Queues"); ("/jobs", "Jobs"); ("/workers", "Workers");
   ("/dlq", "Dead Letter")].

Definition nav_active (path href : string) : bool :=
  if bool_decide (href = "/") then bool_decide (path = "/") else startsWith path href.

Definition BREADCRUMBS : list (string * string) :=
  [("/", "Overview"); ("/queues", "Queues"); ("/jobs", "Jobs"); ("/workers", "Workers");
   ("/dlq", "Dead Letter")].

Definition crumb (path : string) : string :=
  let c := match List.find (fun kv => bool_decide (kv.1 = path)) BREADCRUMBS with
           | Some kv => kv.2
           | None => "Overview"
           end in
  if startsWith path "/jobs/" then "Job detail" else c.

(** [pausedCount > 0 || activeWorkers === 0]. *)
Definition degraded (queues workers : list jsval) : bool :=
  bool_decide (0 < length (List.filter (fun q => truthy (field q "is_paused")) queues))%nat ||
  bool_decide (length (List.filter (status_is "active") workers) = 0%nat).

(** The top bar: breadcrumb, the button of the page and the health. *)
Record TopBarView := MkTopBar { tb_crumb : string; tb_buttons : list string; tb_health : string }.

Definition TopBar (path : string) (queues workers : list jsval) : TopBarView :=
  MkTopBar (crumb path)
    ((if bool_decide (path = "/jobs") || startsWith path "/jobs/" then ["Submit job"] else []) ++
     (if bool_decide (path = "/queues") then ["Create queue"] else []))
    (if degraded queues workers then "Degraded" else "Operational").

(** A link of the rail; the bar of small screens shows the first word,
    [label.split(" ")[0]]. *)
Record RailLink := MkRailLink { rl_href : string; rl_label : string; rl_short : string; rl_active : bool }.

Definition first_word (label : string) : string :=
  of_chars (default [] (head (split_on " "%char (to_chars label)))).

Definition LeftRail (path : string) : list RailLink :=
  (fun kv => MkRailLink kv.1 kv.2 (first_word kv.2) (nav_active path kv.1)) <$> NAV.

(** The button that signs out. *)
Definition sign_out (tab : Tab) : Tab := send_to "/login" (clearToken tab).

Lemma startsWith_app s p : startsWith s p = true → ∃ r, s = p +:+ r.
Proof.
  unfold startsWith. revert s. induction p as [|c p IH]; intros s H; [by exists s|].
  destruct s as [|d s]; [done|]. simpl in H. destruct (ascii_dec c d) as [->|]; [|done].
  destruct (IH s H) as [r ->]. by exists r.
Qed.

(** At most one entry of the navigation is highlighted, whatever the
    path; on the page of an entry it is that one, and the breadcrumb shows its
    label. *)
Theorem navigation_consistent path :
  (∀ a b, a ∈ NAV → b ∈ NAV → nav_active path a.1 = true → nav_active path b.1 = true → a = b) ∧
  (∀ a, a ∈ NAV → path = a.1 → nav_active path a.1 = true ∧ crumb path = a.2).
Proof.
  assert (∀ a, a ∈ NAV → nav_active path a.1 = true → a = ("/", "Overview") ∧ path = "/" ∨
    ∃ r, path = a.1 +:+ r ∧ a.1 ≠ "/") as Hact.
  { intros a Ha H. unfold nav_active in H. case_bool_decide as Hh.
    - left. apply bool_decide_eq_true in H. split; [|done].
      unfold NAV in Ha. repeat (apply elem_of_cons in Ha as [->|Ha]; [done|]). set_solver.
    - right. apply startsWith_app in H as [r ->]. by exists r. }
  split.
  - intros a b Ha Hb Ea Eb. pose proof (Hact a Ha Ea) as Pa. pose proof (Hact b Hb Eb) as Pb.
    clear Hact Ea Eb. unfold NAV in Ha, Hb.
    repeat (apply elem_of_cons in Ha as [->|Ha]); try (by apply not_elem_of_nil in Ha);
      repeat (apply elem_of_cons in Hb as [->|Hb]); try (by apply not_elem_of_nil in Hb);
      destruct Pa as [[? ?]|(r & ? & ?)], Pb as [[? ?]|(r' & ? & ?)]; subst; simplify_eq/=; done.
  - intros a Ha ->. unfold NAV in Ha. repeat (apply elem_of_cons in Ha as [->|Ha]; [done|]). set_solver.
Qed.

(** ** The sign-in page *)

Record LoginForm := MkLoginForm {
  lf_email : string; lf_password : string; lf_error : string; lf_loading : bool }.

(** The text of an error and of the button. *)
Record LoginView := MkLoginView { lv_error : option string; lv_button : string; lv_disabled : bool }.

Definition LoginPage (form : LoginForm) : LoginView :=
  MkLoginView (non_empty (Some (lf_error form)))
    (if lf_loading form then "Opening console…" else "Open console") (lf_loading form).

Section signing_in.
Context {W : World} {J : Jose} {N : NextRouting}.

(** [handleSubmit]: what remains when it is over. *)
Definition handleLogin (fetch : FetchCall → thrown + Response) (form : LoginForm) (tab : Tab) :
    LoginForm * Tab :=
  let '(r, tab) := call fetch (Login (trim (lf_email form)) (lf_password form)) tab in
  match (try! body := r in try! token := prop body "token" in inr (js_to_string token)) with
  | inr token =>
      (MkLoginForm (lf_email form) (lf_password form) "" false, send_to "/" (setToken token tab))
  | inl e =>
      (MkLoginForm (lf_email form) (lf_password form)
         (error_message e "Sign-in failed. Check API availability.") false, tab)
  end.

Definition login_call (form : LoginForm) : ApiCall :=
  Login (trim (lf_email form)) (lf_password form).

(** The page with the server in the store [s]. *)
Definition sign_in (form : LoginForm) (tab : Tab) (s : store) : (LoginForm * Tab) * store :=
  let '(res, s') := server (sent (login_call form) tab) s in
  (handleLogin (fun _ => res) form tab, s').

Lemma token_sent c tab t :
  t ≠ "" → bearer (received (sent c (send_to "/" (setToken t tab)))) = Some t.
Proof.
  intros Hne. unfold bearer. rewrite sent_authorization. unfold getToken, send_to, setToken.
  cbn [tab_storage]. rewrite lookup_insert_eq, bool_decide_true by done.
  cbn [mbind option_bind]. by destruct (bearer_prefix t) as [-> ->].
Qed.

Lemma run_login_call `{!NextRoutingOk N} form tab s :
  server (sent (login_call form) tab) s =
  run (catch (login (received (sent (login_call form) tab))) (fun e => ret (api_error e))) s.
Proof.
  unfold server, dispatch. cbn [default]. rewrite arrives_segments by done.
  by rewrite (call_reaches (login_call form) (received (sent (login_call form) tab))
                (segments (login_call form)) ltac:(done) eq_refl eq_refl).
Qed.

(** A login is answered 200, or not at all well. *)
Lemma login_status req s r s' :
  run (login req) s = (inr r, s') → res_status r = 200 ∨ res_ok r = false.
Proof.
  set (Q := fun r => res_status r = 200 ∨ res_ok r = false).
  assert (safe (fun _ => True) Q (login req)) as H; [|by eapply (safe_result _ Q); [apply H|done]].
  unfold login, body_of, get.
  repeat (eapply safe_bind; [apply any_preserves|intros ? _]). cbv zeta.
  case_bool_decide; [by apply safe_ret; right|].
  repeat (eapply safe_bind; [apply any_preserves|intros ? _]).
  case_match; [|by apply safe_ret; right].
  eapply safe_bind; [apply any_preserves|intros token _]. by constructor; left.
Qed.

Lemma handleLogin_refused res form tab :
  match res with inl _ => True | inr r => res_ok r = false end →
  ∃ e, handleLogin (fun _ => res) form tab =
    (MkLoginForm (lf_email form) (lf_password form)
       (error_message e "Sign-in failed. Check API availability.") false, tab).
Proof.
  intros Hr. unfold handleLogin, call, request, settle. cbn [api fst snd o_auth default].
  destruct res as [e|r]; [by eexists|]. rewrite andb_false_r, Hr. by eexists.
Qed.

(** After signing out no call carries a session, and the guard lets the
    sign-in page be. *)
Lemma signed_out tab c m :
  session_at m (received (sent c (sign_out tab))) = None ∧
  tab_sent_to (sign_out tab) = Some "/login" ∧ admissible ("/login", sign_out tab) = true.
Proof.
  assert (getToken (Some (sign_out tab)) = None) as E by apply lookup_delete_eq.
  split; [|split; [done|]].
  - unfold session_at, bearer. by rewrite sent_authorization, E.
  - unfold admissible, hasToken. cbn [fst snd]. by rewrite E, bool_decide_true.
Qed.


End signing_in.

