(* ===== verification/Forms.v ===== *)
(** * Forms ([dashboard/src/components/forms])

    The forms that submit a job ([SubmitJobForm.tsx]) and create queues and
    projects ([CreateQueueForm.tsx]): the effects that keep their fields in
    step, and what they send. *)

From Stdlib Require Import Ascii QArith Qcanon.
From S2P Require Import Prelude JsValue JsJson JsonText Database Proc Hoare Http Auth DemoWorld.
From S2P Require Import Worker Scheduler Setup Router Integrity Statements Invariant Fixtures.
From S2P Require Import Execution Sessions JobsApi ApiTypes Query Client ClientProps Format.

Open Scope js_scope.
Local Open Scope Z_scope.

(** ** [SubmitJobForm] *)

Inductive JobTemplate := TSleep | TAlwaysFail | TWebhook | TCustom.
#[export] Instance JobTemplate_eq_dec : EqDecision JobTemplate.
Proof. solve_decision. Defined.

Definition JOB_TEMPLATES_sleep : jsval := JObj [("type", JStr "sleep"); ("duration_ms", JInt 500)].
Definition JOB_TEMPLATES_webhook : jsval :=
  JObj [("type", JStr "webhook"); ("url", JStr "https://example.com/hook"); ("method", JStr "POST")].

Record SubmitForm := MkSubmitForm {
  sf_queueId : string; sf_jobName : string; sf_template : JobTemplate;
  sf_durationMs : string; sf_failMessage : string; sf_priority : string;
  sf_maxAttempts : string; sf_delaySeconds : string; sf_cronExpr : string;
  sf_customPayload : string; sf_error : string }.

Definition text_of (v : jsval) : string := default "" (stringify_indent v).

(** The fields as the form opens; [queues] are the ids it can submit to. *)
Definition initial_submit_form (queues : list string) (defaultQueueId : option string) : SubmitForm :=
  MkSubmitForm (match defaultQueueId with Some q => q | None => default "" (head queues) end)
    "" TSleep "500" "simulated failure" "" "3" "" "" (text_of JOB_TEMPLATES_sleep) "".

(** The effect that picks the first queue once queues are known. *)
Definition queue_effect (queues : list string) (f : SubmitForm) : SubmitForm :=
  match head queues with
  | Some q =>
      if bool_decide (sf_queueId f = "") then
        MkSubmitForm q (sf_jobName f) (sf_template f) (sf_durationMs f) (sf_failMessage f)
          (sf_priority f) (sf_maxAttempts f) (sf_delaySeconds f) (sf_cronExpr f)
          (sf_customPayload f) (sf_error f)
      else f
  | None => f
  end.

(** [parseInt(s, 10) || d]. *)
Definition int_or (s : string) (d : Z) : jsval := JNum (num_or (parseInt10 s) (num_of_Z d)).

(** The payload that the template stands for; a custom one has none. *)
Definition template_payload (f : SubmitForm) : option jsval :=
  match sf_template f with
  | TSleep => Some (JObj [("type", JStr "sleep"); ("duration_ms", int_or (sf_durationMs f) 500)])
  | TAlwaysFail => Some (JObj [("type", JStr "always_fail"); ("message", JStr (sf_failMessage f))])
  | TWebhook => Some JOB_TEMPLATES_webhook
  | TCustom => None
  end.

Definition set_payload (t : string) (f : SubmitForm) : SubmitForm :=
  MkSubmitForm (sf_queueId f) (sf_jobName f) (sf_template f) (sf_durationMs f) (sf_failMessage f)
    (sf_priority f) (sf_maxAttempts f) (sf_delaySeconds f) (sf_cronExpr f) t (sf_error f).

(** The effect on the template and its parameters. *)
Definition template_effect (f : SubmitForm) : SubmitForm :=
  match template_payload f with
  | Some v => set_payload (text_of v) f
  | None => f
  end.

Definition set_error (e : string) (f : SubmitForm) : SubmitForm :=
  MkSubmitForm (sf_queueId f) (sf_jobName f) (sf_template f) (sf_durationMs f) (sf_failMessage f)
    (sf_priority f) (sf_maxAttempts f) (sf_delaySeconds f) (sf_cronExpr f) (sf_customPayload f) e.

(** What the operator does in the form: a new value for a field. *)
Inductive submit_edit :=
| SetQueue (v : string) | SetJobName (v : string) | SetTemplate (v : JobTemplate)
| SetDuration (v : string) | SetMessage (v : string) | SetPayload (v : string)
| SetPriority (v : string) | SetMaxAttempts (v : string) | SetDelay (v : string) | SetCron (v : string).

(** The field that goes with the template: the duration, the message, or the
    text of the payload, which the other two hide. *)
Inductive TemplateField := DurationField (v : string) | MessageField (v : string) | PayloadField (v : string).

Definition template_field (f : SubmitForm) : TemplateField :=
  match sf_template f with
  | TSleep => DurationField (sf_durationMs f)
  | TAlwaysFail => MessageField (sf_failMessage f)
  | TWebhook | TCustom => PayloadField (sf_customPayload f)
  end.

(** Only a field that is shown can be edited. *)
Definition can_edit (f : SubmitForm) (e : submit_edit) : bool :=
  match e, template_field f with
  | SetDuration _, DurationField _ | SetMessage _, MessageField _ | SetPayload _, PayloadField _ => true
  | SetDuration _, _ | SetMessage _, _ | SetPayload _, _ => false
  | _, _ => true
  end.

(** The setter of the field, and the effect on the template and its
    parameters when one of them changed. *)
Definition set_field (f : SubmitForm) (e : submit_edit) : SubmitForm :=
  let '(MkSubmitForm q n t d m p a w c x err) := f in
  match e with
  | SetQueue v => MkSubmitForm v n t d m p a w c x err
  | SetJobName v => MkSubmitForm q v t d m p a w c x err
  | SetTemplate v => MkSubmitForm q n v d m p a w c x err
  | SetDuration v => MkSubmitForm q n t v m p a w c x err
  | SetMessage v => MkSubmitForm q n t d v p a w c x err
  | SetPayload v => MkSubmitForm q n t d m p a w c v err
  | SetPriority v => MkSubmitForm q n t d m v a w c x err
  | SetMaxAttempts v => MkSubmitForm q n t d m p v w c x err
  | SetDelay v => MkSubmitForm q n t d m p a v c x err
  | SetCron v => MkSubmitForm q n t d m p a w v x err
  end.

Definition retemplated (f g : SubmitForm) : bool :=
  negb (bool_decide (sf_template f = sf_template g ∧ sf_durationMs f = sf_durationMs g ∧
                     sf_failMessage f = sf_failMessage g)).

Definition submit_step (f : SubmitForm) (e : submit_edit) : SubmitForm :=
  if can_edit f e then
    let g := set_field f e in if retemplated f g then template_effect g else g
  else f.

(** The form as it opens and after edits; the effects run once at the start. *)
Definition submit_edits (queues : list string) (defaultQueueId : option string)
    (es : list submit_edit) : SubmitForm :=
  foldl submit_step (template_effect (queue_effect queues (initial_submit_form queues defaultQueueId))) es.

(** While its text is hidden, the payload is the one of the template. *)
Definition payload_hidden (f : SubmitForm) : bool :=
  match template_field f with PayloadField _ => false | _ => true end.

Definition in_step (f : SubmitForm) : Prop :=
  ∀ v, payload_hidden f = true → template_payload f = Some v → sf_customPayload f = text_of v.

Lemma template_effect_in_step f : in_step (template_effect f).
Proof. intros v _. unfold template_effect. destruct f as [? ? [] ? ? ? ? ? ? ? ?]; by intros [= <-]. Qed.

Lemma submit_step_in_step f e : in_step f → in_step (submit_step f e).
Proof.
  intros Hf. unfold submit_step. destruct (can_edit f e) eqn:Hc; [|done].
  destruct (retemplated f _) eqn:Hr; [apply template_effect_in_step|].
  unfold retemplated in Hr. apply negb_false_iff, bool_decide_eq_true in Hr as (Ht & Hd & Hm).
  destruct f as [q n t d m p a w c x err], e; simpl in Ht, Hd, Hm; subst; try exact Hf.
  intros z Hh. by destruct t.
Qed.

Lemma submit_edits_in_step queues d es : in_step (submit_edits queues d es).
Proof.
  unfold submit_edits. generalize (queue_effect queues (initial_submit_form queues d)) as f0. intros f0.
  pose proof (template_effect_in_step f0) as H. revert H. generalize (template_effect f0) as f.
  induction es as [|e es IH]; intros f H; [done|]. cbn [foldl]. by apply IH, submit_step_in_step.
Qed.

(** What the form shows: without a queue, a text only. *)
Record SubmitView := MkSubmitView {
  sv_error : option string; sv_queues : list (string * string); sv_field : TemplateField;
  sv_button : string; sv_disabled : bool }.

Definition SubmitJobForm (queues : list (string * string)) (f : SubmitForm) (saving : bool) :
    string + SubmitView :=
  match queues with
  | [] => inl "Create a queue first, then submit work to it."
  | _ => inr (MkSubmitView (non_empty (Some (sf_error f))) queues (template_field f)
                (if saving then "Submitting…" else "Submit job") saving)
  end.

(** [...(text ? { key: value } : {})]. *)
Definition member_if (text key : string) (value : jsval) : list (string * jsval) :=
  if bool_decide (text ≠ "") then [(key, value)] else [].

Definition int_of (s : string) : jsval := JNum (parseInt10 s).

(** The object handed to [api.enqueueJob]. *)
Definition submit_data (f : SubmitForm) (payload : jsval) : jsval :=
  JObj ([("payload", payload)] ++
        member_if (trim (sf_jobName f)) "idempotency_key" (JStr (trim (sf_jobName f))) ++
        member_if (sf_priority f) "priority" (int_of (sf_priority f)) ++
        member_if (sf_maxAttempts f) "max_attempts" (int_of (sf_maxAttempts f)) ++
        member_if (sf_delaySeconds f) "delay_seconds" (int_of (sf_delaySeconds f)) ++
        member_if (trim (sf_cronExpr f)) "cron_expr" (JStr (trim (sf_cronExpr f)))).

Section submitting.
Context {W : World} {J : Jose} {N : NextRouting}.

(** [handleSubmit]: the form, the tab and, when [onSubmitted] was called, its
    argument. *)
Definition handleSubmit (fetch : FetchCall → thrown + Response) (f : SubmitForm) (tab : Tab) :
    SubmitForm * Tab * option jsval :=
  match json_parse (sf_customPayload f) with
  | inl _ => (set_error "Payload must be valid JSON." f, tab, None)
  | inr payload =>
      let '(r, tab) := call fetch (EnqueueJob (sf_queueId f) (submit_data f payload)) tab in
      match (try! job := r in prop job "id") with
      | inr id => (set_error "" f, tab, Some id)
      | inl e => (set_error (error_message e "Failed to submit job") f, tab, None)
      end
  end.

(** The form with the server in the store [s]. *)
Definition submit (f : SubmitForm) (tab : Tab) (s : store) :
    SubmitForm * Tab * option jsval * store :=
  match json_parse (sf_customPayload f) with
  | inl _ => (handleSubmit (fun _ => inl NotAnError) f tab, s)
  | inr payload =>
      let '(res, s') := server (sent (EnqueueJob (sf_queueId f) (submit_data f payload)) tab) s in
      (handleSubmit (fun _ => res) f tab, s')
  end.

(** *** What is sent *)

Lemma parseInt10_int s : parseInt10 s = NaN ∨ ∃ z, parseInt10 s = num_of_Z z.
Proof.
  unfold parseInt10. destruct (split_sign _) as [sg l]. case_decide; [by left|right]. by eexists.
Qed.

Lemma int_of_wire s w : json_value (int_of s) = Some w → json_plain w = true.
Proof.
  unfold int_of. destruct (parseInt10_int s) as [->|[z ->]]; intros [= <-]; [done|].
  by apply bool_decide_eq_true.
Qed.

Lemma int_or_plain s d : json_plain (int_or s d) = true.
Proof.
  unfold int_or, num_or. destruct (parseInt10_int s) as [->|[z ->]]; [by apply bool_decide_eq_true|].
  case_match; by apply bool_decide_eq_true.
Qed.

Lemma template_payload_plain f v : template_payload f = Some v → json_plain v = true.
Proof.
  unfold template_payload. destruct (sf_template f); intros [= <-]; try done.
  cbn [json_plain forallb snd]. by rewrite int_or_plain.
Qed.

(** The text of a template reads back as the payload it stands for. *)
Lemma template_effect_payload f v :
  template_payload f = Some v → json_parse (sf_customPayload (template_effect f)) = inr v.
Proof.
  intros Hv. unfold template_effect. rewrite Hv. unfold text_of.
  destruct (stringify_indent_parse v (template_payload_plain f v Hv)) as (t & -> & Ht). exact Ht.
Qed.

Lemma wire_members_keys l : (wire_members l).*1 `sublist_of` l.*1.
Proof.
  induction l as [|[k w] l IH]; [done|]. cbn [wire_members]. rewrite fmap_cons.
  destruct (json_value w); [rewrite fmap_cons; by apply sublist_skip|by apply sublist_cons].
Qed.

Lemma wire_members_plain l :
  NoDup l.*1 → Forall (fun kv => ∀ w, json_value kv.2 = Some w → json_plain w = true) l →
  json_plain (JObj (wire_members l)) = true.
Proof.
  intros Hnd Hl. cbn [json_plain]. apply andb_true_iff. split.
  - apply bool_decide_eq_true. eapply sublist_NoDup; [exact Hnd|apply wire_members_keys].
  - induction Hl as [|[k w] l Hw Hl IH]; [done|]. apply NoDup_cons in Hnd as [_ Hnd].
    cbn [wire_members]. destruct (json_value w) eqn:E; [|by apply IH].
    cbn [forallb snd]. rewrite (Hw _ E), IH by done. done.
Qed.

Lemma member_if_plain text key v :
  (∀ w, json_value v = Some w → json_plain w = true) →
  Forall (fun kv => ∀ w, json_value kv.2 = Some w → json_plain w = true) (member_if text key v).
Proof. intros H. unfold member_if. case_bool_decide; by repeat constructor. Qed.

Lemma submit_data_wire f payload :
  json_plain payload = true →
  ∃ w, json_value (submit_data f payload) = Some w ∧ json_plain w = true.
Proof.
  intros Hp. eexists. split; [done|]. apply wire_members_plain.
  - rewrite !fmap_app. unfold member_if.
    repeat case_bool_decide; apply (bool_decide_eq_true_1 _); vm_compute; reflexivity.
  - constructor.
    { simpl. rewrite json_value_plain by done. by intros w [= <-]. }
    repeat apply Forall_app_2; apply member_if_plain; try apply int_of_wire;
      intros w [= <-]; done.
Qed.

(** *** A submission, from the form to the table *)

Lemma json_first k x y l st :
  json_value x = Some y →
  json (JObj ((k, x) :: l)) st = inr (MkResponse st (Some (JObj ((k, y) :: wire_members l)))).
Proof. intros H. unfold json. cbn [json_value]. by rewrite H. Qed.

Lemma created_id j v st :
  mapJob (job_to_js j) = inr v →
  ∃ w, json v st = inr (MkResponse st (Some w)) ∧ prop w "id" = inr (JStr (j_id j)).
Proof.
  unfold mapJob. intros (p & _ & Hv)%bind_sum_inr. apply (inj inr) in Hv. subst v.
  eexists. split; [by apply (json_first "id" _ (JStr (j_id j)))|]. cbn [prop obj_get].
  by rewrite decide_True.
Qed.

Lemma handleSubmit_created f payload w tab :
  json_parse (sf_customPayload f) = inr payload →
  ∀ id, prop w "id" = inr id →
  handleSubmit (fun _ => inr (MkResponse 201 (Some w))) f tab = (set_error "" f, tab, Some id).
Proof.
  intros Hp id Hid. unfold handleSubmit. rewrite Hp. unfold call, request, settle.
  cbn [api fst snd opts o_auth default res_status]. cbn [res_json res_body bind_sum].
  change (bool_decide (201 = 401) && true) with false.
  change (negb (res_ok (MkResponse 201 (Some w)))) with false. cbv iota beta.
  unfold res_json. cbn [res_body bind_sum]. by rewrite Hid.
Qed.

Section submission.
Context `{!WorldOk W, !NextRoutingOk N} (Hf : no_faults_at_all).


End submission.

End submitting.

(** A named job that sleeps for 200 ms, after a look at another template. *)
Definition demo_edits : list submit_edit :=
  [SetTemplate TAlwaysFail; SetMessage "boom"; SetJobName " order-17 "; SetTemplate TSleep;
   SetPayload "not shown"; SetDuration "200"].


(** ** [CreateQueueForm] and [CreateProjectInline] *)

(** The name and slug fields the two forms share. *)
Record SlugFields := MkSlug { sl_name : string; sl_slug : string; sl_touched : bool }.

(** [if (!slugTouched && name) setSlug(slugifyName(name))]. *)
Definition slug_effect (f : SlugFields) : SlugFields :=
  if negb (sl_touched f) && bool_decide (sl_name f ≠ "")
  then MkSlug (sl_name f) (slugifyName (sl_name f)) (sl_touched f) else f.

Inductive edit := EditName (s : string) | EditSlug (s : string).

(** An edit, and the effect that follows it. *)
Definition apply_edit (f : SlugFields) (e : edit) : SlugFields :=
  match e with
  | EditName s => slug_effect (MkSlug s (sl_slug f) (sl_touched f))
  | EditSlug s => slug_effect (MkSlug (sl_name f) s true)
  end.

Definition edits (es : list edit) : SlugFields := foldl apply_edit (MkSlug "" "" false) es.

Record QueueForm := MkQueueForm {
  qf_projectId : string; qf_fields : SlugFields; qf_concurrency : string; qf_priority : string }.

(** The form as it opens, and the effect that picks the first project. *)
Definition initial_queue_form (projects : list string) : QueueForm :=
  MkQueueForm (default "" (head projects)) (MkSlug "" "" false) "10" "5".

Definition project_effect (projects : list string) (f : QueueForm) : QueueForm :=
  match head projects with
  | Some p => if bool_decide (qf_projectId f = "")
              then MkQueueForm p (qf_fields f) (qf_concurrency f) (qf_priority f) else f
  | None => f
  end.

(** [concurrency ? parseInt(concurrency, 10) : undefined]. *)
Definition int_or_undefined (s : string) : jsval :=
  if bool_decide (s ≠ "") then int_of s else JUndef.

Definition queue_data (f : QueueForm) : jsval :=
  JObj [("project_id", JStr (qf_projectId f));
        ("name", JStr (trim (sl_name (qf_fields f))));
        ("slug", JStr (trim (sl_slug (qf_fields f))));
        ("priority_default", int_or (qf_priority f) 5);
        ("concurrency_limit", int_or_undefined (qf_concurrency f))].

Definition project_data (f : SlugFields) : jsval :=
  JObj [("name", JStr (trim (sl_name f))); ("slug", JStr (trim (sl_slug f)))].

(** [handleSubmit] of either form: the message shown, and whether [onCreated]
    is called. *)
Definition handleCreate {W : World} (c : ApiCall) (failed : string)
    (fetch : FetchCall → thrown + Response) (tab : Tab) : string * bool * Tab :=
  let '(r, tab) := call fetch c tab in
  match r with
  | inr _ => ("", true, tab)
  | inl e => (error_message e failed, false, tab)
  end.

Definition create_queue_submit {W : World} (f : QueueForm) :=
  handleCreate (CreateQueue (queue_data f)) "Failed to create queue".
Definition create_project_submit {W : World} (f : SlugFields) :=
  handleCreate (CreateProject (project_data f)) "Failed to create project".

(** The last name that was not empty, and the last slug typed. *)
Definition last_name (es : list edit) : string :=
  foldl (fun n e => match e with EditName s => if bool_decide (s = "") then n else s
                               | EditSlug _ => n end) "" es.
Definition last_slug (es : list edit) : option string :=
  foldl (fun n e => match e with EditSlug s => Some s | EditName _ => n end) None es.

Lemma edits_fields es :
  sl_touched (edits es) = bool_decide (is_Some (last_slug es)) ∧
  sl_slug (edits es) = match last_slug es with Some s => s | None => slugifyName (last_name es) end.
Proof.
  unfold edits, last_slug, last_name. induction es as [|e es [IHt IHs]] using rev_ind; [done|].
  rewrite !foldl_app. cbn [foldl]. set (F := foldl apply_edit _ es) in *. clearbody F.
  destruct e as [s|s].
  - unfold apply_edit, slug_effect. cbn [sl_touched sl_name sl_slug]. rewrite IHt.
    destruct (foldl _ None es) as [t|].
    + by rewrite bool_decide_true.
    + rewrite bool_decide_false in * by (by intros [? ?]). cbn [negb andb].
      destruct (decide (s = "")) as [->|Hs]; [done|].
      by rewrite (bool_decide_true (s ≠ "")), (bool_decide_false (s = "")).
  - unfold apply_edit, slug_effect. cbn [sl_touched negb andb]. by rewrite bool_decide_true.
Qed.

(** However the name and the slug of a new queue or project are edited,
    the slug is the one that was typed last; if none was typed it is the slug
    of the last name that was not empty, and then it is empty or passes the
    validation of the field. *)
Theorem form_slug_valid es :
  (∀ s, last_slug es = Some s → sl_slug (edits es) = s) ∧
  (last_slug es = None →
   sl_slug (edits es) = slugifyName (last_name es) ∧
   (sl_slug (edits es) = "" ∨ slug_pattern (sl_slug (edits es)) = true)).
Proof.
  destruct (edits_fields es) as [_ ->]. split; [by intros s ->|]. intros ->.
  split; [done|]. apply slugify_valid.
Qed.
