(* ===== verification/Views.v ===== *)
(** * Handlers of the queue drawer and of the job explorer

    The form and the buttons of the queue drawer ([app/queues/QueuesView.tsx])
    and the filters, the query and the drawers of the job explorer
    ([app/jobs/JobsExplorer.tsx]). *)

From Stdlib Require Import Ascii QArith Qcanon.
From S2P Require Import Prelude JsValue JsJson JsonText Database Proc Hoare Http Auth DemoWorld.
From S2P Require Import Worker Scheduler Setup Router Integrity Statements Invariant Fixtures.
From S2P Require Import Execution Sessions Tenancy JobsApi ApiTypes Query Client ClientProps.
From S2P Require Import Format Shell Forms.

Open Scope js_scope.
Local Open Scope Z_scope.

(** ** [QueueDrawer] *)

Record DrawerForm := MkDrawer { df_name : string; df_concurrency : string; df_priority : string }.

(** The fields for a queue: [queue.concurrency_limit?.toString() ?? ""]. *)
Definition drawer_form (queue : jsval) : DrawerForm :=
  MkDrawer (js_to_string (field queue "name"))
    (let l := field queue "concurrency_limit" in if is_nullish l then "" else js_to_string l)
    (js_to_string (field queue "priority_default")).

Definition save_data (f : DrawerForm) : jsval :=
  JObj [("name", JStr (df_name f)); ("priority_default", int_or (df_priority f) 0);
        ("concurrency_limit", int_or_undefined (df_concurrency f))].

(** What the drawer does after a call: [onUpdated], then [onClose]. *)
Inductive drawer_effect := Updated | Closed.

Section drawer.
Context {W : World} {J : Jose} {N : NextRouting}.

(** [save]: the message shown, and the callbacks. *)
Definition save (fetch : FetchCall → thrown + Response) (id : string) (f : DrawerForm) (tab : Tab) :
    string * list drawer_effect * Tab :=
  let '(r, tab) := call fetch (UpdateQueue id (save_data f)) tab in
  match r with
  | inr _ => ("", [Updated; Closed], tab)
  | inl e => (error_message e "Update failed", [], tab)
  end.

(** [togglePause]; a call that rejects ends it, unhandled. *)
Definition togglePause (fetch : FetchCall → thrown + Response) (id : string) (is_paused : bool)
    (tab : Tab) : thrown + list drawer_effect :=
  let '(r, _) := call fetch (if is_paused then ResumeQueue id else PauseQueue id) tab in
  try! _ := r in inr [Updated; Closed].

(** The drawer with the server in the store [s]. *)
Definition save_queue (id : string) (f : DrawerForm) (tab : Tab) (s : store) :
    string * list drawer_effect * Tab * store :=
  let '(res, s') := server (sent (UpdateQueue id (save_data f)) tab) s in
  (save (fun _ => res) id f tab, s').

(** *** Saving *)

(** The integer a field is read as. *)
Definition field_int (s : string) : option Z :=
  match parseInt10 s with Fin q => Some (Qnum q) | _ => None end.

Lemma parseInt10_field s :
  parseInt10 s = match field_int s with Some z => num_of_Z z | None => NaN end.
Proof. unfold field_int. by destruct (parseInt10_int s) as [->|[z ->]]. Qed.

(** [parseInt(s, 10) || d]: zero is falsy too. *)
Definition field_int_or (s : string) (d : Z) : Z :=
  match field_int s with Some z => if bool_decide (z = 0) then d else z | None => d end.

Lemma int_or_field s d : int_or s d = JInt (field_int_or s d).
Proof.
  unfold int_or, num_or, field_int_or. rewrite parseInt10_field.
  destruct (field_int s) as [z|]; [|done]. cbn [truthy num_of_Z].
  destruct (decide (z = 0)) as [->|Hz].
  - by rewrite (bool_decide_true (0 = 0)).
  - rewrite (bool_decide_false (z = 0)), bool_decide_true; [done| |done].
    rewrite <- Z2Qc_inj_0, Z2Qc_inj_iff. done.
Qed.

Lemma save_data_wire f :
  ∃ w, json_value (save_data f) = Some w ∧ json_plain w = true ∧
    field w "name" = JStr (df_name f) ∧
    field w "priority_default" = JInt (field_int_or (df_priority f) 0) ∧
    nullish (field w "concurrency_limit") JNull =
      match field_int (df_concurrency f) with
      | Some z => if bool_decide (df_concurrency f = "") then JNull else JInt z
      | None => JNull
      end.
Proof.
  exists (JObj (wire_members [("name", JStr (df_name f)); ("priority_default", int_or (df_priority f) 0);
        ("concurrency_limit", int_or_undefined (df_concurrency f))])).
  split; [done|]. split.
  { apply wire_members_plain; [apply (bool_decide_eq_true_1 _); by vm_compute|].
    repeat constructor; cbn [snd].
    - by intros w [= <-].
    - intros w Hw. rewrite json_value_plain in Hw by apply int_or_plain. simplify_eq. apply int_or_plain.
    - unfold int_or_undefined. case_bool_decide; [apply int_of_wire|done]. }
  split; [done|]. rewrite int_or_field. split; [done|]. unfold int_or_undefined, int_of.
  rewrite parseInt10_field.
  destruct (decide (df_concurrency f = "")) as [->|Hc]; [done|].
  rewrite (bool_decide_true (df_concurrency f ≠ "")), (bool_decide_false (df_concurrency f = "")) by done.
  by destruct (field_int _) as [z|].
Qed.

Section saving.
Context `{!WorldOk W, !NextRoutingOk N} (Hf : no_faults_at_all).

(** The row after an update of a queue of the organization. *)
Lemma run_update_queue req id org o q body name prio limit s :
  req_json req = inr body → (∃ l, body = JObj l) →
  db_ok (st_db s) → uuid_param (JStr id) = inr (Some id) → uuid_param (JStr org) = inr (Some o) →
  text_param (nullish (field body "name") JNull) = name →
  int4_param (nullish (field body "priority_default") JNull) = inr prio →
  int4_param (nullish (field body "concurrency_limit") JNull) = inr limit →
  queues (st_db s) !! id = Some q → queue_in_org (st_db s) o q = true →
  let q' := set_queue name prio limit (pg_now (st_step s)) q in
  ∃ v s', run (update_queue req id org) s = (inr (MkResponse 200 (Some v)), s') ∧
    queues (st_db s') = <[id := q']> (queues (st_db s)).
Proof.
  intros Hb [l Hl] Hok Hi Ho Hname Hprio Hlimit Hq Horg q'.
  destruct s as [db vs n bg]; cbn [st_db st_step] in *.
  unfold update_queue, body_of, get. rewrite Hb, run_lift_bind, Hl. cbn [prop].
  rewrite !run_lift_bind. cbn [field] in *.
  change (obj_get l) with (field (JObj l)). rewrite <- Hl.
  erewrite run_stmt; [cbv beta|done|].
  2:{ unfold sql_update_queue, uuid_arg. rewrite Hi, Ho. cbn [throw_pg bind_sum].
      rewrite Hprio, Hlimit, Hname. cbn [throw_pg bind_sum]. done. }
  assert (updated_rows n (org_queue db (Some id) (Some o)) (set_queue name prio limit (pg_now n))
            (queues db) = [q']) as ->.
  { unfold updated_rows. rewrite select_queue_rows, Hq, Horg by done. done. }
  eexists _, _. split; [done|]. cbn [st_db].
  transitivity (update_where (org_queue db (Some id) (Some o)) (set_queue name prio limit (pg_now n))
                  (queues db)); [by destruct db|].
  by apply update_org_queue.
Qed.

(** C29: Saving the configuration of a queue from its drawer stores the name
    and the priority of the form, and the concurrency limit when the field
    holds a number; a cleared field leaves the old limit in place, so the
    drawer cannot make a queue unlimited although it says so. *)
Theorem queue_save_correct id f tab s c o q :
  plain id = true →
  session_at (st_step s) (received (sent (UpdateQueue id (save_data f)) tab)) = Some c →
  (∃ url, getUrl = inr url) → db_ok (st_db s) →
  uuid_param (JStr id) = inr (Some id) → uuid_param (JStr (c_org_id c)) = inr (Some o) →
  int4_min ≤ field_int_or (df_priority f) 0 ≤ int4_max →
  (∀ z, field_int (df_concurrency f) = Some z → int4_min ≤ z ≤ int4_max) →
  queues (st_db s) !! id = Some q → queue_in_org (st_db s) o q = true →
  ∃ s' q', save_queue id f tab s = ("", [Updated; Closed], tab, s') ∧
    queues (st_db s') = <[id := q']> (queues (st_db s)) ∧
    q_name q' = df_name f ∧ q_priority_default q' = field_int_or (df_priority f) 0 ∧
    q_concurrency_limit q' =
      match field_int (df_concurrency f) with
      | Some z => if bool_decide (df_concurrency f = "") then q_concurrency_limit q else Some z
      | None => q_concurrency_limit q
      end.
Proof.
  intros Hid Hs [url Hu] Hok Hi Ho Hpr Hli Hq Horg. unfold save_queue.
  set (cl := UpdateQueue id (save_data f)) in *. set (r := received (sent cl tab)) in *.
  assert (Forall (fun s => plain s = true) (ids_of cl)) as Hids by (by repeat constructor).
  rewrite run_call by done. fold r. rewrite Hs.
  destruct (save_data_wire f) as (w & Hw & Hwp & Hn & Hp & Hl).
  assert (req_json r = inr w) as Hj.
  { destruct (call_received cl tab Hids) as (_ & _ & H). exact (H _ w eq_refl Hw Hwp). }
  assert (∃ l, w = JObj l) as Hwo by (unfold save_data in Hw; simpl in Hw; simplify_eq; by eexists).
  destruct (checked_db r s) as (Hdb & _ & _).
  set (limit := match field_int (df_concurrency f) with
                | Some z => if bool_decide (df_concurrency f = "") then None else Some z
                | None => None end).
  destruct (run_update_queue r id (c_org_id c) o q w (Some (df_name f))
              (Some (field_int_or (df_priority f) 0)) limit (checked r s) Hj Hwo)
    as (v & s' & Hrun & Hs'); try by rewrite ?Hdb.
  - rewrite Hn. apply text_param_str.
  - rewrite Hp. by apply int4_param_int.
  - rewrite Hl. unfold limit. destruct (field_int _) as [z|] eqn:Ez; [|by apply int4_param_null].
    case_bool_decide; [by apply int4_param_null|]. apply int4_param_int. by apply Hli.
  - rewrite run_catch, run_bind, (getSql_url _ ltac:(by eexists)). cbn [intended cl]. rewrite Hrun.
    eexists s', _. split; [done|]. rewrite Hs', Hdb. do 3 (split; [done|]).
    cbn [q_concurrency_limit set_queue]. unfold limit. destruct (field_int _); [|done].
    by case_bool_decide.
Qed.
End saving.
End drawer.

Lemma queue_save_correct_witness :
  let f := MkDrawer "Mail" "" "7" in
  let tab := demo_tab (Some demo_token) in
  ∃ s' q', save_queue (N := split_routing) "q1" f tab demo_store = ("", [Updated; Closed], tab, s') ∧
    queues (st_db s') = <["q1" := q']> (queues (st_db demo_store)) ∧
    q_name q' = df_name f ∧ q_priority_default q' = field_int_or (df_priority f) 0 ∧
    q_concurrency_limit q' =
      match field_int (df_concurrency f) with
      | Some z => if bool_decide (df_concurrency f = "") then q_concurrency_limit demo_queue else Some z
      | None => q_concurrency_limit demo_queue
      end.
Proof.
  apply (@queue_save_correct demo _ split_routing demo_ok split_routing_ok demo_no_faults
           "q1" (MkDrawer "Mail" "" "7") (demo_tab (Some demo_token)) demo_store demo_claims "o1"
           demo_queue);
    [done|vm_compute; reflexivity|by eexists|apply demo_sys_ok|done|done|by vm_compute|done|done
    |by vm_compute].
Defined.

(** ** The job explorer *)

(** [params]. *)
Definition explorer_params (statusFilters : list string) (queueId : string) : list (string * string) :=
  match statusFilters with [s] => [("status", s)] | _ => [] end ++
  (if bool_decide (queueId ≠ "") then [("queue_id", queueId)] else []).

Definition status_among (filters : list string) (j : jsval) : bool :=
  match as_string (field j "status") with Some s => bool_decide (s ∈ filters) | None => false end.

(** [jobs]: a second filter on the client when several statuses are chosen. *)
Definition shown_jobs (statusFilters : list string) (items : list jsval) : list jsval :=
  if bool_decide (length statusFilters ≤ 1)%nat then items
  else List.filter (status_among statusFilters) items.

Definition toggleStatus (s : string) (prev : list string) : list string :=
  if bool_decide (s ∈ prev) then List.filter (fun x => bool_decide (x ≠ s)) prev else prev ++ [s].

(** The drawers of the page: the job that is open and the form, after the
    effects on the query of the URL and on the requests of the top bar. *)
Record ExplorerState := MkExplorer { ex_selected : option string; ex_submitOpen : bool }.

Definition url_effect (params : list (string * string)) (e : ExplorerState) : ExplorerState :=
  let get k := snd <$> head (List.filter (fun kv => bool_decide (kv.1 = k)) params) in
  MkExplorer (match get "job" with
              | Some id => if bool_decide (id = "") then ex_selected e else Some id
              | None => ex_selected e
              end)
    (bool_decide (get "submit" = Some "1") || ex_submitOpen e).

Definition request_effect (submitJobRequest : Z) (e : ExplorerState) : ExplorerState :=
  MkExplorer (ex_selected e) (bool_decide (0 < submitJobRequest) || ex_submitOpen e).

(** [onSubmitted]. *)
Definition submitted (jobId : string) (e : ExplorerState) : ExplorerState :=
  MkExplorer (Some jobId) false.

Lemma toggle_elem s x prev :
  x ∈ toggleStatus s prev ↔ if decide (x = s) then s ∉ prev else x ∈ prev.
Proof.
  unfold toggleStatus. case_bool_decide as Hs.
  - rewrite elem_of_filter_bool, bool_decide_eq_true. case_decide; naive_solver.
  - rewrite elem_of_app, list_elem_of_singleton. case_decide; naive_solver.
Qed.

Lemma toggle_NoDup s prev : NoDup prev → NoDup (toggleStatus s prev).
Proof.
  intros H. unfold toggleStatus. case_bool_decide as Hs; [by apply NoDup_filter_bool|].
  apply NoDup_app. split; [done|]. split; [set_solver|]. apply NoDup_singleton.
Qed.

(** What the server reads of the explorer's query. *)
Lemma explorer_search filters queueId req :
  req_search req = explorer_params filters queueId →
  search_param req "status" = match filters with [s] => Some s | _ => None end ∧
  search_param req "queue_id" = (if bool_decide (queueId ≠ "") then Some queueId else None).
Proof.
  intros H. unfold search_param. rewrite H. unfold explorer_params.
  destruct filters as [|s [|t l]]; case_bool_decide; done.
Qed.

Lemma mapJob_wire_status j v :
  mapJob (job_to_js j) = inr v →
  field (on_wire v) "status" = JStr (job_status_text (j_status j)).
Proof.
  unfold mapJob. intros (p & _ & Hv)%bind_sum_inr. apply (inj inr) in Hv. subst v.
  rewrite on_wire_obj. cbn [field]. rewrite wire_members_get; [done|].
  apply (bool_decide_eq_true_1 _). by vm_compute.
Qed.

Lemma map_sum_wire {A B} (f : A → thrown + B) l bs a :
  map_sum f l = inr bs → a ∈ l → ∃ b, f a = inr b ∧ b ∈ bs.
Proof.
  revert bs. induction l as [|a' l IH]; intros bs H Ha; [set_solver|]. simpl in H.
  apply bind_sum_inr in H as (b & Hb & H). apply bind_sum_inr in H as (bs' & Hbs & [= <-]).
  apply elem_of_cons in Ha as [->|Ha]; [set_solver|].
  destruct (IH bs' Hbs Ha) as (b' & ? & ?). set_solver.
Qed.

(** The job matches what is chosen in the explorer. *)
Definition chosen (filters : list string) (j : JobRow) : Prop :=
  filters = [] ∨ job_status_text (j_status j) ∈ filters.

Lemma shown_iff filters j v items :
  mapJob (job_to_js j) = inr v → on_wire v ∈ items →
  on_wire v ∈ shown_jobs filters items ↔
  ((length filters ≤ 1)%nat ∨ job_status_text (j_status j) ∈ filters).
Proof.
  intros Hv Hin. unfold shown_jobs. case_bool_decide as Hl; [naive_solver|].
  rewrite elem_of_filter_bool. unfold status_among. rewrite (mapJob_wire_status j v Hv).
  cbn [as_string]. rewrite bool_decide_eq_true. naive_solver.
Qed.


(** The page of the fixture's organization. *)
Definition demo_page : list JobRow :=
  match sql_list_jobs (W := demo) "o1" "" None 1%nat demo_db with inr (page, _) => page | inl _ => [] end.
Definition demo_items : list jsval :=
  match map_sum (fun j => mapJob (job_to_js j)) demo_page with inr items => items | inl _ => [] end.

