(* ===== verification/Charts.v ===== *)
(** * Figures of the overview

    Totals and chart of the overview ([app/page.tsx]), utilization bars of
    the queues ([app/queues/QueuesView.tsx]) and the sparkline
    ([components/ui/Sparkline.tsx]). Coordinates are rationals where the
    browser has doubles. *)

From Stdlib Require Import Ascii QArith Qround Qminmax Lqa.
From S2P Require Import Prelude JsValue Format.

Local Open Scope Q_scope.

(** ** Overview *)

(** What the overview reads of the statistics of a queue. *)
Record queue_figures := MkFigures {
  g_name : string; g_depth : Z; g_throughput_1h : Z; g_throughput_24h : Z; g_success_rate : Q }.

Definition total (f : queue_figures → Z) (stats : list queue_figures) : Z :=
  foldl (fun a s => (a + f s)%Z) 0%Z stats.

Definition totalDepth := total g_depth.
Definition throughput1h := total g_throughput_1h.
Definition throughput24h := total g_throughput_24h.

Definition avgSuccess (stats : list queue_figures) : Q :=
  match stats with
  | [] => 0
  | _ => foldl (fun a s => a + g_success_rate s) 0 stats / inject_Z (Z.of_nat (length stats))
  end.

(** [deltaPositive] and [delta] of the success panel. *)
Definition success_positive (avg : Q) : bool := Qle_bool (9 # 10) avg.
Definition success_label (avg : Q) : string :=
  if Qle_bool (95 # 100) avg then "Within SLO"
  else if Qle_bool (8 # 10) avg then "Below target" else "Investigate failures".

(** [Math.round]: the nearest integer, halves upwards. *)
Definition math_round (x : Q) : Z := Qfloor (x + (1 # 2)).

Record chart_row := MkChart { ch_name : string; ch_completed : Z; ch_failed : Z; ch_depth : Z }.

Definition chart (s : queue_figures) : chart_row :=
  let t := inject_Z (g_throughput_1h s) in
  MkChart (if bool_decide (10 < String.length (g_name s))%nat
           then slice_to (g_name s) 10 +:+ "…" else g_name s)
    (math_round (t * g_success_rate s)) (math_round (t * (1 - g_success_rate s))) (g_depth s).

Definition chartData (stats : list queue_figures) : list chart_row := chart <$> stats.

(** ** Utilization *)

(** [limit > 0 ? Math.min(100, (depth / limit) * 100) : 0]. *)
Definition utilization (depth : Z) (limit : option Z) : Q :=
  let limit := default 0%Z limit in
  if bool_decide (0 < limit)%Z then Qmin 100 (inject_Z depth / inject_Z limit * 100) else 0.

(** The text next to the bar, in the drawer and in the table. *)
Definition utilization_label (unlimited sep : string) (depth : Z) (limit : option Z) : string :=
  match limit with
  | Some l => if bool_decide (l = 0)%Z then unlimited else show depth +:+ sep +:+ show l
  | None => unlimited
  end.

Definition drawer_label := utilization_label "Unlimited" " / ".
Definition table_label := utilization_label "∞" "/".

(** ** Sparkline *)

Definition spark_max (data : list Q) : Q := foldl Qmax 1 data.
Definition spark_min (data : list Q) : Q := foldl Qmin 0 data.

(** [max - min || 1]. *)
Definition spark_range (data : list Q) : Q :=
  let r := spark_max data - spark_min data in if Qeq_bool r 0 then 1 else r.

Definition spark_step (width : Q) (data : list Q) : Q :=
  width / inject_Z (Z.of_nat (Nat.max (length data - 1) 1)).

Definition spark_point (width height : Q) (data : list Q) (i : nat) (v : Q) : Q * Q :=
  (inject_Z (Z.of_nat i) * spark_step width data,
   height - (v - spark_min data) / spark_range data * (height - 4) - 2).

(** The points of the polyline. *)
Definition spark_points (width height : Q) (data : list Q) : list (Q * Q) :=
  imap (spark_point width height data) data.

(** What is drawn: without data, a line across the middle. *)
Definition Sparkline (width height : Q) (data : list Q) : list (Q * Q) :=
  match data with
  | [] => [(0, height / 2); (width, height / 2)]
  | _ => spark_points width height data
  end.

(** ** Properties *)

Lemma foldl_max_ge l a v : a <= foldl Qmax a l ∧ (v ∈ l → v <= foldl Qmax a l).
Proof.
  revert a. induction l as [|x l IH]; intros a; simpl; [split; [lra|set_solver]|].
  destruct (IH (Qmax a x)) as [H1 H2]. pose proof (Q.le_max_l a x). pose proof (Q.le_max_r a x).
  split; [lra|]. intros [->|Hv]%elem_of_cons; [lra|auto].
Qed.

Lemma foldl_min_le l a v : foldl Qmin a l <= a ∧ (v ∈ l → foldl Qmin a l <= v).
Proof.
  revert a. induction l as [|x l IH]; intros a; simpl; [split; [lra|set_solver]|].
  destruct (IH (Qmin a x)) as [H1 H2]. pose proof (Q.le_min_l a x). pose proof (Q.le_min_r a x).
  split; [lra|]. intros [->|Hv]%elem_of_cons; [lra|auto].
Qed.

Lemma spark_range_eq data :
  spark_range data = spark_max data - spark_min data ∧ 1 <= spark_max data - spark_min data.
Proof.
  destruct (foldl_max_ge data 1 0) as [H1 _]. destruct (foldl_min_le data 0 0) as [H2 _].
  fold (spark_max data) in H1. fold (spark_min data) in H2.
  split; [|lra]. unfold spark_range. destruct (Qeq_bool _ _) eqn:E; [|done].
  apply Qeq_bool_iff in E. lra.
Qed.

Lemma fraction_bounds a b : 0 <= a <= b → 0 < b → 0 <= a / b <= 1.
Proof.
  intros [H1 H2] Hb. split.
  - apply Qle_shift_div_l; [done|]. lra.
  - apply Qle_shift_div_r; [done|]. lra.
Qed.

Lemma spark_y_bounds height data v :
  v ∈ data → 4 <= height →
  2 <= height - (v - spark_min data) / spark_range data * (height - 4) - 2 <= height - 2.
Proof.
  intros Hv Hh. destruct (spark_range_eq data) as [-> Hr].
  destruct (foldl_max_ge data 1 v) as [_ Hmax]. destruct (foldl_min_le data 0 v) as [_ Hmin].
  specialize (Hmax Hv). specialize (Hmin Hv). fold (spark_max data) in Hmax. fold (spark_min data) in Hmin.
  destruct (fraction_bounds (v - spark_min data) (spark_max data - spark_min data)) as [Ha Hb];
    [split; lra|lra|].
  set (t := (v - spark_min data) / (spark_max data - spark_min data)) in *. nra.
Qed.

(** Points at even steps over [width] stay within it. *)
Lemma evenly_spaced width n i :
  (i < n)%nat → 0 <= width →
  0 <= inject_Z (Z.of_nat i) * (width / inject_Z (Z.of_nat (Nat.max (n - 1) 1))) <= width.
Proof.
  intros Hi Hw. set (m := Nat.max (n - 1) 1).
  assert (1 <= inject_Z (Z.of_nat m)) as Hm.
  { change 1 with (inject_Z 1). rewrite <- Zle_Qle. unfold m. lia. }
  assert (0 <= inject_Z (Z.of_nat i) <= inject_Z (Z.of_nat m)) as [Hi0 Him].
  { change 0 with (inject_Z 0). rewrite <- !Zle_Qle. unfold m. lia. }
  destruct (fraction_bounds (inject_Z (Z.of_nat i)) (inject_Z (Z.of_nat m))) as [Ha Hb]; [done|lra|].
  assert (inject_Z (Z.of_nat i) * (width / inject_Z (Z.of_nat m)) ==
          inject_Z (Z.of_nat i) / inject_Z (Z.of_nat m) * width) as -> by (field; lra).
  set (t := inject_Z (Z.of_nat i) / inject_Z (Z.of_nat m)) in *. nra.
Qed.

(** A sparkline stays in its box, for any data or none: every point is within
    the width and at least two units from the top and the bottom edge, and
    there is one for each value. *)
Lemma sparkline_bounds width height data :
  0 <= width → 4 <= height →
  length (Sparkline width height data) = (if bool_decide (data = []) then 2 else length data)%nat ∧
  ∀ x y, (x, y) ∈ Sparkline width height data → 0 <= x <= width ∧ 2 <= y <= height - 2.
Proof.
  intros Hw Hh. destruct data as [|d data].
  { split; [done|]. assert (height / 2 == height * (1 # 2)) as E by (field; done).
    intros x y Hp. unfold Sparkline in Hp. rewrite !elem_of_cons, elem_of_nil in Hp.
    destruct Hp as [[= -> ->]|[[= -> ->]|[]]]; rewrite E; split; lra. }
  rewrite bool_decide_false by done. split; [apply length_imap|]. intros x y Hp.
  apply elem_of_lookup_imap in Hp as (i & v & [= -> ->] & Hv). split.
  - apply evenly_spaced; [|done]. by eapply lookup_lt_Some.
  - apply spark_y_bounds; [|done]. by eapply list_elem_of_lookup_2.
Qed.

Lemma utilization_bounds depth limit :
  (0 <= depth)%Z → 0 <= utilization depth limit <= 100.
Proof.
  intros Hd. unfold utilization. case_bool_decide as Hl; [|lra].
  assert (0 < inject_Z (default 0%Z limit)) as Hl' by (change 0 with (inject_Z 0); by rewrite <- Zlt_Qlt).
  assert (0 <= inject_Z depth) as Hd' by (change 0 with (inject_Z 0); by rewrite <- Zle_Qle).
  assert (0 <= inject_Z depth / inject_Z (default 0%Z limit)) as Hq
    by (apply Qle_shift_div_l; [done|lra]).
  split; [apply Q.min_glb; nra|apply Q.le_min_l].
Qed.

Lemma sum_bounds stats a :
  Forall (fun s => 0 <= g_success_rate s <= 1) stats →
  a <= foldl (fun a s => a + g_success_rate s) a stats <= a + inject_Z (Z.of_nat (length stats)).
Proof.
  intros H. revert a. induction H as [|s l Hs _ IH]; intros a; cbn [foldl length].
  { change (inject_Z (Z.of_nat 0)) with 0. lra. }
  destruct (IH (a + g_success_rate s)) as [H1 H2].
  rewrite Nat2Z.inj_succ, <- Z.add_1_r, inject_Z_plus. change (inject_Z 1) with 1. lra.
Qed.

Lemma avgSuccess_bounds stats :
  Forall (fun s => 0 <= g_success_rate s <= 1) stats → 0 <= avgSuccess stats <= 1.
Proof.
  intros H. unfold avgSuccess. destruct stats as [|s l]; [lra|].
  pose proof (sum_bounds (s :: l) 0 H) as Hs. apply fraction_bounds; [lra|].
  change 0 with (inject_Z 0). rewrite <- Zlt_Qlt. simpl. lia.
Qed.

Lemma math_round_near x : x - (1 # 2) < inject_Z (math_round x) <= x + (1 # 2).
Proof.
  unfold math_round. pose proof (Qfloor_le (x + (1 # 2))). pose proof (Qlt_floor (x + (1 # 2))).
  rewrite inject_Z_plus in *. change (inject_Z 1) with 1 in *. lra.
Qed.

(** The two series of the chart are between zero and the throughput of the
    last hour and add up to it, or to one more when both are rounded up. Since
    that throughput counts completed runs only, a success rate below one makes
    the chart report completed runs as failed. *)
Lemma chart_in_range s :
  0 <= g_success_rate s <= 1 → (0 <= g_throughput_1h s)%Z →
  (0 <= ch_completed (chart s) <= g_throughput_1h s)%Z ∧
  (0 <= ch_failed (chart s) <= g_throughput_1h s)%Z ∧
  (g_throughput_1h s <= ch_completed (chart s) + ch_failed (chart s) <= g_throughput_1h s + 1)%Z.
Proof.
  intros [Hr0 Hr1] Ht. unfold chart. cbn [ch_completed ch_failed].
  set (t := g_throughput_1h s) in *. set (r := g_success_rate s) in *.
  assert (0 <= inject_Z t) as Htq by (change 0 with (inject_Z 0); by rewrite <- Zle_Qle).
  assert (0 <= inject_Z t * r <= inject_Z t) as Hx by nra.
  assert (inject_Z t * (1 - r) == inject_Z t - inject_Z t * r) as Ey by ring.
  set (x := inject_Z t * r) in *. set (y := inject_Z t * (1 - r)) in *.
  pose proof (math_round_near x) as Hmx. pose proof (math_round_near y) as Hmy.
  assert (∀ a b : Z, inject_Z a < inject_Z b + 1 → (a <= b)%Z) as Hle.
  { intros a b H. change 1 with (inject_Z 1) in H. rewrite <- inject_Z_plus, <- Zlt_Qlt in H. lia. }
  assert (0 <= math_round x)%Z by (apply Hle; change (inject_Z 0) with 0; lra).
  assert (0 <= math_round y)%Z by (apply Hle; change (inject_Z 0) with 0; lra).
  assert (math_round x <= t)%Z by (apply Hle; lra).
  assert (math_round y <= t)%Z by (apply Hle; lra).
  assert (t <= math_round x + math_round y)%Z by (apply Hle; rewrite inject_Z_plus; lra).
  assert (math_round x + math_round y <= t + 1)%Z
    by (apply Hle; rewrite !inject_Z_plus; change (inject_Z 1) with 1; lra).
  lia.
Qed.
