(* ===== verification/Pulse.v ===== *)
(** * The pulse trace

    The animation of [components/ui/Pulse.tsx]: each frame turns the newest
    recent event of the console into a spike, lets the trace decay towards a
    slowly moving baseline, and draws the last points over the width of the
    canvas. Coordinates are rationals where the browser has doubles;
    [Math.sin] is a parameter of which only the range is used. *)

From Stdlib Require Import QArith Qround Qminmax Lqa.
From S2P Require Import Prelude JsValue Shell Charts.

Local Open Scope Q_scope.

(** ** State *)

(** [Math.sin]. *)
Class Sine := { math_sin : Q → Q }.
Class SineOk (S : Sine) : Prop := { math_sin_range : ∀ x, -(1) <= math_sin x <= 1 }.

Definition COMPLETED := "#43C98A".
Definition FAILED := "#F26759".
Definition TRACE := "#4C9DF5".

(** A point of [pointsRef.current]. *)
Record Point := MkPoint { p_y : Q; p_color : option string }.

(** What lives across frames: [pointsRef] and [scanRef]; a scan position of
    [None] is [NaN]. *)
Record PulseRefs := MkRefs { pointsRef : list Point; scanRef : option Q }.
Definition initial_refs : PulseRefs := MkRefs [] (Some 0).

(** [canvas.clientWidth], [canvas.clientHeight] and the preference for
    reduced motion. *)
Record Canvas := MkCanvas { cv_w : Q; cv_h : Q; cv_reduced : bool }.

(** One call of [draw]: the time and [eventsRef.current]. *)
Record Frame := MkFrame { fr_now : Z; fr_events : list PulseEvent }.

(** A stroke of the trace: its ends, its style and its opacity. *)
Record Segment := MkSegment { sg_from : Q * Q; sg_to : Q * Q; sg_style : string; sg_alpha : Q }.

(** ** Drawing *)

Section drawing.
Context {S : Sine}.

Definition mid (cv : Canvas) : Q := cv_h cv / 2.
Definition amp (compact : bool) : Q := if compact then 35 # 100 else 55 # 100.
Definition drift (compact : bool) : Q := if compact then 15 # 10 else 25 # 10.
Definition maxPts (compact : bool) : nat := if compact then 80%nat else 160%nat.

(** [eventsRef.current.filter((e) => now - e.at < 3000)]. *)
Definition recent (now : Z) (events : list PulseEvent) : list PulseEvent :=
  List.filter (fun e => bool_decide (now - ev_at e < 3000)%Z) events.

Definition spike (compact : bool) (cv : Canvas) (t : PulseEventType) : Point :=
  match t with
  | PCompleted => MkPoint (mid cv - cv_h cv * amp compact) (Some COMPLETED)
  | PFailed => MkPoint (mid cv + cv_h cv * amp compact) (Some FAILED)
  end.

(** New events become spikes. *)
Definition ingest (compact : bool) (cv : Canvas) (f : Frame) (pts : list Point) : list Point :=
  match last (recent (fr_now f) (fr_events f)) with
  | Some e => if cv_reduced cv then pts else pts ++ [spike compact cv (ev_type e)]
  | None => pts
  end.

(** Baseline wander and decay. *)
Definition wander (compact : bool) (cv : Canvas) (now : Z) : Q :=
  mid cv + math_sin (inject_Z now / 400) * drift compact.
Definition next_point (compact : bool) (cv : Canvas) (now : Z) (pts : list Point) : Point :=
  let lastY := match last pts with Some p => p_y p | None => mid cv end in
  MkPoint (lastY * (82 # 100) + wander compact cv now * (18 # 100)) None.

Definition draw_points (compact : bool) (cv : Canvas) (f : Frame) (pts : list Point) : list Point :=
  let pts := ingest compact cv f pts in
  let pts := pts ++ [next_point compact cv (fr_now f) pts] in
  if bool_decide (maxPts compact < length pts)%nat then take_last (maxPts compact) pts else pts.

(** [x % w]; the remainder by zero is [NaN]. *)
Definition js_mod (x w : Q) : option Q :=
  if Qeq_bool w 0 then None
  else let q := x / w in
       Some (x - w * inject_Z (if Qle_bool 0 q then Qfloor q else Qceiling q)).

(** The scan line moves, and [createLinearGradient] refuses a position that is
    not finite. *)
Definition draw_scan (compact : bool) (cv : Canvas) (scan : option Q) : thrown + option Q :=
  if cv_reduced cv then inr scan
  else
    match scan with
    | Some x =>
        match js_mod (x + (if compact then 12 # 10 else 2)) (cv_w cv) with
        | Some x => inr (Some x)
        | None => inl (JsError "The provided double value is non-finite.")
        end
    | None => inl (JsError "The provided double value is non-finite.")
    end.

(** The stroke from the point before [i] to the point [i]. *)
Definition stroke (step : Q) (i : nat) (p0 p1 : Point) : Segment :=
  MkSegment (inject_Z (Z.of_nat i - 1) * step, p_y p0) (inject_Z (Z.of_nat i) * step, p_y p1)
    (default TRACE (p_color p1)) (match p_color p1 with Some _ => 95 # 100 | None => 55 # 100 end).

Fixpoint strokes (step : Q) (i : nat) (pts : list Point) : list Segment :=
  match pts with
  | p0 :: (p1 :: _) as rest => stroke step i p0 p1 :: strokes step (Datatypes.S i) rest
  | _ => []
  end.

Definition trace_step (cv : Canvas) (pts : list Point) : Q :=
  cv_w cv / inject_Z (Z.of_nat (Nat.max (length pts - 1) 1)).

(** [draw]: the state and the strokes of the trace, and whether the next frame
    is requested. Scaling and clearing the canvas and its grid line have no
    part in the trace. *)
Definition draw (compact : bool) (cv : Canvas) (f : Frame) (r : PulseRefs) :
    thrown + (PulseRefs * list Segment * bool) :=
  let pts := draw_points compact cv f (pointsRef r) in
  match draw_scan compact cv (scanRef r) with
  | inl e => inl e
  | inr scan => inr (MkRefs pts scan, strokes (trace_step cv pts) 1 pts, negb (cv_reduced cv))
  end.

(** Frames one after the other. *)
Fixpoint animate (compact : bool) (cv : Canvas) (fs : list Frame) (r : PulseRefs) :
    thrown + PulseRefs :=
  match fs with
  | [] => inr r
  | f :: fs =>
      match draw compact cv f r with
      | inl e => inl e
      | inr (r, _, _) => animate compact cv fs r
      end
  end.

(** ** Properties *)

(** How far from the middle the trace can be. *)
Definition reach (compact : bool) (cv : Canvas) : Q := Qmax (cv_h cv * amp compact) (drift compact).
Definition in_band (compact : bool) (cv : Canvas) (y : Q) : Prop :=
  mid cv - reach compact cv <= y <= mid cv + reach compact cv.

(** A point within reach; a coloured one is the spike of its colour. *)
Definition point_ok (compact : bool) (cv : Canvas) (p : Point) : Prop :=
  in_band compact cv (p_y p) ∧
  (p_color p = None ∨ p = spike compact cv PCompleted ∨ p = spike compact cv PFailed).

Definition refs_ok (compact : bool) (cv : Canvas) (r : PulseRefs) : Prop :=
  (length (pointsRef r) ≤ maxPts compact)%nat ∧ Forall (point_ok compact cv) (pointsRef r) ∧
  ∃ x, scanRef r = Some x ∧ 0 <= x < cv_w cv.

Lemma reach_bounds compact cv :
  cv_h cv * amp compact <= reach compact cv ∧ drift compact <= reach compact cv ∧
  0 <= reach compact cv.
Proof.
  unfold reach. pose proof (Q.le_max_l (cv_h cv * amp compact) (drift compact)).
  pose proof (Q.le_max_r (cv_h cv * amp compact) (drift compact)).
  assert (0 <= drift compact) by (destruct compact; unfold drift; lra). lra.
Qed.

Lemma spike_ok compact cv t : 0 <= cv_h cv → point_ok compact cv (spike compact cv t).
Proof.
  intros Hh. destruct (reach_bounds compact cv) as (Ha & _ & Hr). split; [|by destruct t; auto].
  assert (0 <= cv_h cv * amp compact) by (destruct compact; unfold amp; lra).
  unfold in_band. destruct t; cbn [spike p_y]; lra.
Qed.

Context `{!SineOk S}.

Lemma next_point_ok compact cv now pts :
  Forall (point_ok compact cv) pts → point_ok compact cv (next_point compact cv now pts).
Proof.
  intros Hp. destruct (reach_bounds compact cv) as (_ & Hd & Hr).
  split; [|by left]. unfold in_band, next_point. cbn [p_y].
  assert (in_band compact cv (match last pts with Some p => p_y p | None => mid cv end)) as Hl.
  { destruct (last pts) as [p|] eqn:E; [|unfold in_band; lra].
    apply last_Some_elem_of in E. rewrite Forall_forall in Hp. by apply Hp. }
  unfold in_band in Hl. set (y := match last pts with Some p => p_y p | None => mid cv end) in *.
  unfold wander. pose proof (math_sin_range (inject_Z now / 400)) as Hs.
  set (sn := math_sin (inject_Z now / 400)) in *.
  assert (- drift compact <= sn * drift compact <= drift compact) as Hw.
  { destruct compact; unfold drift; lra. }
  set (d := sn * drift compact) in *. lra.
Qed.

Lemma draw_points_ok compact cv f pts :
  0 <= cv_h cv → Forall (point_ok compact cv) pts →
  Forall (point_ok compact cv) (draw_points compact cv f pts) ∧
  (length (draw_points compact cv f pts) ≤ maxPts compact)%nat.
Proof.
  intros Hh Hp.
  assert (Forall (point_ok compact cv) (ingest compact cv f pts)) as Hi.
  { unfold ingest. destruct (last _) as [e|]; [|done]. destruct (cv_reduced cv); [done|].
    apply Forall_app. split; [done|]. apply Forall_singleton. by apply spike_ok. }
  unfold draw_points. set (pts' := ingest compact cv f pts) in *.
  assert (Forall (point_ok compact cv) (pts' ++ [next_point compact cv (fr_now f) pts'])) as Ha.
  { apply Forall_app. split; [done|]. apply Forall_singleton. by apply next_point_ok. }
  case_bool_decide as Hl; split; [|rewrite length_take_last; lia|done|lia].
  by apply Forall_drop.
Qed.

Lemma js_mod_range x w : 0 <= x → 0 < w → ∃ y, js_mod x w = Some y ∧ 0 <= y < w.
Proof.
  intros Hx Hw. unfold js_mod. destruct (Qeq_bool w 0) eqn:E.
  { apply Qeq_bool_iff in E. lra. }
  assert (0 <= x / w) as Hq by (apply Qle_shift_div_l; [done|lra]).
  apply Qle_bool_iff in Hq as ->. eexists. split; [done|].
  pose proof (Qfloor_le (x / w)) as H1. pose proof (Qlt_floor (x / w)) as H2.
  rewrite inject_Z_plus in H2. change (inject_Z 1) with 1 in H2.
  set (k := inject_Z (Qfloor (x / w))) in *.
  assert (x == w * (x / w)) as Hxw by (field; lra). set (t := x / w) in *. nra.
Qed.

Lemma strokes_cons step i p0 p1 pts :
  strokes step i (p0 :: p1 :: pts) =
  stroke step i p0 p1 :: strokes step (Datatypes.S i) (p1 :: pts).
Proof. done. Qed.

Lemma length_strokes step i pts : length (strokes step i pts) = (length pts - 1)%nat.
Proof.
  revert i. induction pts as [|p0 [|p1 pts] IH]; intros i; [done..|].
  rewrite strokes_cons. cbn [length]. rewrite IH. simpl. lia.
Qed.

Lemma strokes_lookup step i pts k sg :
  strokes step i pts !! k = Some sg ↔
  ∃ p0 p1, pts !! k = Some p0 ∧ pts !! Datatypes.S k = Some p1 ∧ sg = stroke step (i + k) p0 p1.
Proof.
  revert i k. induction pts as [|p0 [|p1 pts] IH]; intros i k.
  - split; [done|]. intros (? & ? & ? & _). by rewrite lookup_nil in *.
  - split; [done|]. intros (? & ? & _ & H%lookup_lt_Some & _). simpl in H. lia.
  - rewrite strokes_cons. destruct k as [|k].
    + rewrite Nat.add_0_r. split; [intros [= <-]; by eexists _, _|].
      intros (? & ? & [= <-] & [= <-] & ->). done.
    + rewrite !lookup_cons. rewrite IH. by rewrite Nat.add_succ_comm.
Qed.

Lemma draw_ok compact cv f r :
  0 < cv_w cv → 0 <= cv_h cv → refs_ok compact cv r →
  ∃ r' segs, draw compact cv f r = inr (r', segs, negb (cv_reduced cv)) ∧
    refs_ok compact cv r' ∧ segs = strokes (trace_step cv (pointsRef r')) 1 (pointsRef r').
Proof.
  intros Hw Hh (_ & Hp & x & Hx & Hx0 & Hxw). unfold draw.
  destruct (draw_points_ok compact cv f (pointsRef r) Hh Hp) as [Hp' Hl'].
  assert (∃ y, draw_scan compact cv (scanRef r) = inr (Some y) ∧ 0 <= y < cv_w cv) as (y & -> & Hy).
  { unfold draw_scan. rewrite Hx. destruct (cv_reduced cv); [by exists x|].
    destruct (js_mod_range (x + (if compact then 12 # 10 else 2)) (cv_w cv)) as (y & -> & Hy);
      [destruct compact; lra|done|]. by exists y. }
  eexists _, _. split; [done|]. split; [|done]. split; [done|]. split; [done|]. by exists y.
Qed.

Lemma animate_ok compact cv fs r :
  0 < cv_w cv → 0 <= cv_h cv → refs_ok compact cv r →
  ∃ r', animate compact cv fs r = inr r' ∧ refs_ok compact cv r'.
Proof.
  intros Hw Hh. revert r. induction fs as [|f fs IH]; intros r Hr; [by exists r|].
  destruct (draw_ok compact cv f r Hw Hh Hr) as (r' & segs & E & Hr' & _).
  cbn [animate]. rewrite E. by apply IH.
Qed.

End drawing.

(** A triangle wave, which has the range of a sine. *)
#[local] Instance triangle : Sine := {
  math_sin x := Qmax (-(1)) (Qmin 1 (x - 4 * inject_Z (Qfloor (x / 4)) - 2)) }.
#[local] Instance triangle_ok : SineOk triangle.
Proof.
  constructor. intros x. cbn [math_sin triangle]. split; [apply Q.le_max_l|].
  apply Q.max_lub; [lra|apply Q.le_min_l].
Qed.

Definition demo_frames : list Frame :=
  [MkFrame 1000 [MkPulse PCompleted 900]; MkFrame 1016 [MkPulse PCompleted 900; MkPulse PFailed 1010];
   MkFrame 9000 []].

