(* ===== verification/DeadLetters.v ===== *)
(** * The dead letter page

    [app/dlq/page.tsx]: the cards of the dead letters and the retry of a job,
    from the button to the rows of the database. *)

From S2P Require Import Prelude JsValue JsJson JsonText Database Proc Hoare Http Auth DemoWorld.
From S2P Require Import Worker Scheduler Setup Router Integrity Invariant Fixtures Execution.
From S2P Require Import Sessions Tenancy JobsApi Format ApiTypes Query Client ClientProps.

Open Scope js_scope.
Local Open Scope Z_scope.

(** ** The page *)

(** State of the page: the job whose retry is under way, and the message of
    the last one that failed. *)
Record DlqPage := MkDlqPage { dp_retrying : option string; dp_actionError : string }.
Definition initial_dlq_page : DlqPage := MkDlqPage None "".

(** A string or a number as the child of an element; [null] and [undefined]
    show nothing. *)
Definition react_text (v : jsval) : string :=
  match v with JStr s => s | JNum a => num_to_string a | _ => "" end.

(** What the page shows of a dead letter. *)
Record DlqCard := MkCard {
  card_name : string; card_queue : string; card_reason : option string; card_attempts : string;
  card_payload : option string; card_button : string; card_disabled : bool }.

Definition dlq_card (retrying : option string) (d : jsval) : DlqCard :=
  let mine := match retrying with
              | Some id => is_str (field d "job_id") id
              | None => false
              end in
  MkCard (jobDisplayName (JObj [("payload", field d "payload")]) "Unnamed job")
    (react_text (field d "queue_name"))
    (if truthy (field d "reason") then Some (react_text (field d "reason")) else None)
    (react_text (field d "attempts_made"))
    (stringify_indent (field d "payload"))
    (if mine then "Retrying…" else "Retry job") mine.

(** [{items.length} item{items.length !== 1 ? "s" : ""}]. *)
Definition items_label (items : list jsval) : string :=
  show (Z.of_nat (length items)) +:+ " item" +:+ (if bool_decide (length items = 1%nat) then "" else "s").

(** [retry(jobId)] up to its call, and after the call settled; the effects are
    the cache keys that are revalidated. *)
Definition retry_start (jobId : string) (p : DlqPage) : DlqPage := MkDlqPage (Some jobId) "".
Definition retry_settled (out : thrown + jsval) (p : DlqPage) : DlqPage * list string :=
  match out with
  | inr _ => (MkDlqPage None (dp_actionError p), ["dlq"])
  | inl e => (MkDlqPage None (error_message e "Retry failed"), [])
  end.

Definition retry (fetch : FetchCall → thrown + Response) (jobId : string) (p : DlqPage) (tab : Tab) :
    DlqPage * list string * Tab :=
  let p := retry_start jobId p in
  let '(out, tab) := call fetch (RetryJob jobId) tab in
  (retry_settled out p, tab).

(** The button with the server in the store [s]. *)
Section server.
Context {W : World} {J : Jose} {N : NextRouting}.

Definition retry_job_from_page (jobId : string) (p : DlqPage) (tab : Tab) (s : store) :
    DlqPage * list string * Tab * store :=
  let '(res, s') := server (sent (RetryJob jobId) tab) s in
  (retry (fun _ => res) jobId p tab, s').

(** ** Properties *)

(** What a page loaded from the database shows. *)
Definition shows (db : DB) (org : string) (n : nat) (items : list jsval) : Prop :=
  sql_list_dlq org n db = inr (items, db).

Context `{!WorldOk W, !NextRoutingOk N} (Hf : no_faults_at_all).

Lemma shown_dead_letter db org o n items v :
  uuid_param (JStr org) = inr (Some o) → shows db org n items → v ∈ items →
  ∃ k d, dead_letter_queue db !! k = Some d ∧ dlq_in_org db o d = true ∧ v = dlq_to_js db d.
Proof.
  unfold shows, sql_list_dlq, uuid_arg. intros Ho. rewrite Ho. cbn [throw_pg bind_sum].
  intros [= <-] Hv. apply list_elem_of_fmap in Hv as (d & -> & Hd).
  apply elem_of_order_limit, elem_of_select_where in Hd as [Hd (k & Hk)]. eauto.
Qed.

(** A card shows what the dead letter holds. *)
Lemma dlq_card_shows db d :
  json_plain (d_payload d) = true →
  let card := dlq_card None (on_wire (dlq_to_js db d)) in
  (∃ text, card_payload card = Some text ∧ json_parse text = inr (d_payload d)) ∧
  card_attempts card = show (d_attempts_made d) ∧ card_disabled card = false ∧
  (∀ m, d_reason d = Some m → m ≠ "" → card_reason card = Some m).
Proof.
  intros Hpl. cbv zeta. unfold dlq_card, dlq_to_js.
  rewrite !field_on_wire by (apply (bool_decide_unpack _); vm_compute; exact I).
  cbn [card_payload card_attempts card_disabled card_reason].
  split_and!; [|done|done|].
  - cbn [field]. change (obj_get _ "payload") with (d_payload d).
    rewrite on_wire_plain by done. by apply stringify_indent_parse.
  - intros m Hm Hne. cbn [field]. change (obj_get _ "reason") with (js_opt JStr (d_reason d)).
    rewrite Hm. cbn. by rewrite bool_decide_true.
Qed.

(** C24: Retrying a dead letter from its page, end to end. The card shows the
    reason, the attempts and a text that reads back as the stored payload, and
    its button is enabled. Pressing it puts the job back into its queue with no
    attempts, so that any later claim may take it, and removes its dead letter
    and no other; the page ends without an error and reloads a list in which the
    job no longer appears. *)
Theorem dead_letter_retried id tab s c o j p k d page :
  plain id = true →
  session_at (st_step s) (received (sent (RetryJob id) tab)) = Some c →
  (∃ url, getUrl = inr url) → db_ok (st_db s) →
  uuid_param (JStr id) = inr (Some id) → uuid_param (JStr (c_org_id c)) = inr (Some o) →
  jobs (st_db s) !! id = Some j → job_in_org (st_db s) o j = true →
  parse_payload (j_payload j) = inr p →
  dead_letter_queue (st_db s) !! k = Some d → d_job_id d = id → json_plain (d_payload d) = true →
  let card := dlq_card None (on_wire (dlq_to_js (st_db s) d)) in
  (∃ text, card_payload card = Some text ∧ json_parse text = inr (d_payload d)) ∧
  card_attempts card = show (d_attempts_made d) ∧ card_disabled card = false ∧
  (∀ m, d_reason d = Some m → m ≠ "" → card_reason card = Some m) ∧
  ∃ s' j', retry_job_from_page id page tab s = (MkDlqPage None "", ["dlq"], tab, s') ∧
    jobs (st_db s') = <[id := j']> (jobs (st_db s)) ∧ j_attempts j' = 0 ∧
    (∀ m, (st_step s + 2 ≤ m)%nat → claimable (j_queue_id j) (pg_now m) j' = true) ∧
    (∀ k d, dead_letter_queue (st_db s') !! k = Some d ↔
            dead_letter_queue (st_db s) !! k = Some d ∧ d_job_id d ≠ id) ∧
    (∀ n items, shows (st_db s') (c_org_id c) n items → ∀ v, v ∈ items → field v "job_id" ≠ JStr id).
Proof.
  intros Hid Hs [url Hu] Hok Hi Ho Hj Horg Hp Hk Hd Hpl card.
  destruct (dlq_card_shows (st_db s) d Hpl) as (H1 & H2 & H3 & H4). do 4 (split; [done|]).
  unfold retry_job_from_page. set (cl := RetryJob id) in *. set (r := received (sent cl tab)) in *.
  rewrite run_call by (by repeat constructor). fold r. rewrite Hs.
  destruct (checked_db r s) as (Hdb & _ & _).
  assert (st_step (checked r s) ≤ S (st_step s))%nat as Hst by (unfold checked; case_match; simpl; lia).
  destruct (run_retry_requeues Hf id (c_org_id c) o j p (checked r s)) as (v & s' & Hr & Hjs & _ & Hdl);
    try by rewrite ?Hdb.
  rewrite run_catch, run_bind, (getSql_url _ ltac:(by eexists)). cbn [intended cl]. rewrite Hr.
  rewrite Hdb in *. eexists s', _. split; [done|]. split; [exact Hjs|]. split; [by destruct j|].
  split; [intros m Hm; apply retried_claimable, pg_now_mono; lia|]. split; [done|].
  intros n items Hsh w Hwi. destruct (shown_dead_letter _ _ _ _ _ _ Ho Hsh Hwi) as (k' & d' & Hk' & _ & ->).
  apply Hdl in Hk' as [_ Hne]. change (JStr (d_job_id d') ≠ JStr id). congruence.
Qed.
End server.

Lemma dead_letter_retried_witness :
  let tab := demo_tab (Some demo_token) in
  let card := dlq_card None (on_wire (dlq_to_js demo_db demo_dlq)) in
  (∃ text, card_payload card = Some text ∧ json_parse text = inr (d_payload demo_dlq)) ∧
  card_attempts card = show 3 ∧ card_disabled card = false ∧
  (∀ m, d_reason demo_dlq = Some m → m ≠ "" → card_reason card = Some m) ∧
  ∃ s' j', retry_job_from_page (N := split_routing) "j5" initial_dlq_page tab demo_store =
             (MkDlqPage None "", ["dlq"], tab, s') ∧
    jobs (st_db s') = <["j5" := j']> (jobs demo_db) ∧ j_attempts j' = 0 ∧
    (∀ m, (2 ≤ m)%nat → claimable (j_queue_id demo_j5) (pg_now m) j' = true) ∧
    (∀ k d, dead_letter_queue (st_db s') !! k = Some d ↔
            dead_letter_queue demo_db !! k = Some d ∧ d_job_id d ≠ "j5") ∧
    (∀ n items, shows (st_db s') "o1" n items → ∀ v, v ∈ items → field v "job_id" ≠ JStr "j5").
Proof.
  apply (@dead_letter_retried demo _ split_routing demo_ok split_routing_ok demo_no_faults
           "j5" (demo_tab (Some demo_token)) demo_store demo_claims "o1" demo_j5 fail_payload "d1"
           demo_dlq initial_dlq_page);
    [done|vm_compute; reflexivity|by eexists|apply demo_sys_ok|reflexivity..].
Defined.
