(* ===== verification/Detail.v ===== *)
(** * Jobs and queues as they are shown

    The rows of the tables of the explorer and of the queue page, the drawer
    with the history of a job ([components/jobs/JobDetailContent.tsx]), and the
    deep link to it ([app/jobs/[id]/page.tsx]). A view is the record of the
    texts it shows; the timestamp handed to a [RelativeTime] is kept as it is. *)

From Stdlib Require Import QArith Qcanon.
From S2P Require Import Prelude JsValue JsJson JsonText Database Proc Hoare Http Auth DemoWorld.
From S2P Require Import Worker Scheduler Setup Router Integrity Invariant Fixtures Execution.
From S2P Require Import Sessions Tenancy JobsApi Format ApiTypes Query Client ClientProps Status.
From S2P Require Import DeadLetters Views Charts.

Open Scope js_scope.
Local Open Scope Z_scope.

(** ** Chips and names *)

(** [StatusChip]; a status without a style of its own shows nothing of it. *)
Record Chip := MkChip {
  chip_dim : string; chip_color : string; chip_label : string; chip_pulse : bool }.

Definition StatusChip (status : string) (pulse : bool) : option Chip :=
  (fun st => MkChip (dim st) (color st) (label st) (shouldPulse status pulse)) <$>
  getStatusStyle status.

(** [{ id, name }] of the items of a page. *)
Definition named (items : list jsval) : list (string * string) :=
  (fun v => (js_to_string (field v "id"), js_to_string (field v "name"))) <$> items.

Definition text_if (v : jsval) : option string :=
  if truthy v then Some (js_to_string v) else None.

(** ** The table of the explorer *)

Record JobTableRow := MkJobTableRow {
  jr_name : string; jr_id : string; jr_chip : option Chip; jr_queue : string; jr_priority : string;
  jr_attempts : string; jr_created : jsval }.

Definition job_table_row (queues : list jsval) (j : jsval) : JobTableRow :=
  let status := js_to_string (field j "status") in
  MkJobTableRow (jobDisplayName j "Unnamed job") (js_to_string (field j "id"))
    (StatusChip status (bool_decide (status = "running")))
    (queueName (js_to_string (field j "queue_id")) (named queues))
    (react_text (field j "priority"))
    (react_text (field j "attempts") +:+ "/" +:+ react_text (field j "max_attempts"))
    (field j "created_at").

(** Title of the drawer of the explorer: the job is looked up in the list that
    is shown. *)
Definition drawer_title (selected : option string) (jobs : list jsval) : string :=
  match selected with
  | None => "Job detail"
  | Some id =>
      jobDisplayName (default (JObj []) (List.find (fun j => is_str (field j "id") id) jobs))
        "Unnamed job"
  end.

(** ** The history of a job *)

Record TimelineEntry := MkTimelineEntry {
  te_color : option string; te_title : string; te_chip : option Chip; te_duration : string;
  te_worker : string; te_started : jsval; te_error : option string }.

Definition duration_of (v : jsval) : string :=
  match v with JNum (Fin q) => formatDuration (Some q) | _ => formatDuration None end.

Definition timeline_entry (workers : list jsval) (e : jsval) : TimelineEntry :=
  let status := js_to_string (field e "status") in
  MkTimelineEntry (color <$> getStatusStyle status) ("Attempt #" +:+ react_text (field e "attempt"))
    (StatusChip status false) (duration_of (field e "duration_ms"))
    ("Worker " +:+ workerName (js_to_string (field e "worker_id")) (named workers))
    (field e "started_at") (text_if (field e "error")).

Record LogLine := MkLogLine { ll_time : jsval; ll_color : string; ll_level : string; ll_message : string }.

Definition log_color (level : string) : string :=
  if bool_decide (level = "error") then "var(--st-failed)"
  else if bool_decide (level = "warn") then "var(--st-retrying)" else "var(--text-tertiary)".

Definition log_line (l : jsval) : LogLine :=
  let level := js_to_string (field l "level") in
  MkLogLine (field l "created_at") (log_color level) ("[" +:+ level +:+ "]")
    (react_text (field l "message")).

Record JobDetail := MkJobDetail {
  jd_name : string; jd_chip : option Chip; jd_id : string; jd_queue : string; jd_priority : string;
  jd_attempts : string; jd_created : jsval; jd_cron : option string; jd_error : option string;
  jd_payload : option string; jd_timeline : list TimelineEntry; jd_logs : list LogLine }.

Definition job_detail (job : jsval) (executions logs queues workers : list jsval) : JobDetail :=
  let status := js_to_string (field job "status") in
  MkJobDetail (jobDisplayName job "Unnamed job")
    (StatusChip status (bool_decide (status = "running")))
    (js_to_string (field job "id"))
    (queueName (js_to_string (field job "queue_id")) (named queues))
    (js_to_string (field job "priority"))
    (js_to_string (field job "attempts") +:+ " / " +:+ js_to_string (field job "max_attempts"))
    (field job "created_at") (text_if (field job "cron_expr")) (text_if (field job "error_message"))
    (stringify_indent (field job "payload"))
    (timeline_entry workers <$> executions) (log_line <$> logs).

(** [JobDetailContent]: skeletons while loading, an error, or the job. *)
Inductive DetailView := DetailLoading | DetailError (message : string) | DetailJob (d : JobDetail).

Definition JobDetailContent (isLoading : bool) (error : option thrown) (job : option jsval)
    (executions logs queues workers : list jsval) : DetailView :=
  if isLoading then DetailLoading
  else
    let missing := "Job not found or access denied. Verify the job ID and try again." in
    match error, job with
    | Some e, _ => DetailError (error_message e missing)
    | None, None => DetailError missing
    | None, Some job => DetailJob (job_detail job executions logs queues workers)
    end.

(** ** The table of the queues *)

Record QueueTableRow := MkQueueTableRow {
  qr_name : string; qr_slug : string; qr_depth : Z; qr_bar : Q; qr_label : string;
  qr_throughput : string; qr_chip : option Chip }.

(** What the table reads of a queue. *)
Record QueueItem := MkQueueItem {
  qi_id : string; qi_name : string; qi_slug : string; qi_limit : option Z; qi_paused : bool }.

(** Statistics with the id of their queue, as [stats.find] sees them. *)
Definition stats_of (id : string) (stats : list (string * queue_figures)) : option queue_figures :=
  snd <$> List.find (fun s => bool_decide (s.1 = id)) stats.

Definition queue_table_row (stats : list (string * queue_figures)) (q : QueueItem) : QueueTableRow :=
  let s := stats_of (qi_id q) stats in
  let depth := match s with Some g => g_depth g | None => 0 end in
  MkQueueTableRow (qi_name q) (qi_slug q) depth (utilization depth (qi_limit q))
    (table_label depth (qi_limit q))
    (match s with Some g => show (g_throughput_1h g) | None => "—" end)
    (StatusChip (if qi_paused q then "paused" else "active") false).

(** ** The deep link *)

(** Where [/jobs/:id] sends the browser. *)
Definition job_redirect (id : string) : option string :=
  if bool_decide (id = "") then None else Some ("/jobs?job=" +:+ id).

(** ** Properties *)

(** Rows of the executions and of the logs on the wire. *)
Lemma exec_wire x k : field (on_wire (exec_to_js x)) k = on_wire (field (exec_to_js x) k).
Proof. apply field_on_wire. apply (bool_decide_unpack _). vm_compute. exact I. Qed.

Lemma log_wire l k : field (on_wire (log_to_js l)) k = on_wire (field (log_to_js l) k).
Proof. apply field_on_wire. apply (bool_decide_unpack _). vm_compute. exact I. Qed.

Lemma mapJob_wire j v k :
  mapJob (job_to_js j) = inr v → field (on_wire v) k = on_wire (field v k).
Proof.
  unfold mapJob. intros (p & _ & Hv)%bind_sum_inr. apply (inj inr) in Hv. subst v.
  apply field_on_wire. apply (bool_decide_unpack _). vm_compute. exact I.
Qed.

(** An optional text: shown when it is there and not empty. *)
Lemma text_if_nullable o : text_if (on_wire (js_opt JStr o)) = non_empty o.
Proof. destruct o as [s|]; [|done]. unfold text_if. cbn. by case_bool_decide; case_bool_decide. Qed.

Lemma text_if_optional o : text_if (on_wire (or_undefined (js_opt JStr o))) = non_empty o.
Proof. destruct o as [s|]; [|done]. unfold text_if. cbn. by case_bool_decide; case_bool_decide. Qed.

(** What the drawer shows of a job. *)
Lemma job_detail_shows j p v exs lgs qs ws :
  parse_payload (j_payload j) = inr p → json_plain p = true → mapJob (job_to_js j) = inr v →
  let d := job_detail (on_wire v) exs lgs qs ws in
  jd_id d = j_id j ∧
  jd_attempts d = show (j_attempts j) +:+ " / " +:+ show (j_max_attempts j) ∧
  jd_chip d = StatusChip (job_status_text (j_status j)) (bool_decide (j_status j = Running)) ∧
  jd_error d = non_empty (j_error_message j) ∧
  ∃ text, jd_payload d = Some text ∧ json_parse text = inr p.
Proof.
  intros Hp Hpl Hv. cbv zeta. unfold job_detail.
  rewrite !(mapJob_wire j v) by done. cbn [jd_id jd_attempts jd_chip jd_error jd_payload].
  unfold mapJob in Hv. change (field (job_to_js j) "payload") with (j_payload j) in Hv.
  rewrite Hp in Hv. cbn [bind_sum] in Hv. apply (inj inr) in Hv. subst v.
  split_and!.
  - done.
  - done.
  - change (js_to_string _) with (job_status_text (j_status j)). f_equal.
    by destruct (j_status j).
  - exact (text_if_optional (j_error_message j)).
  - change (field _ "payload") with p. rewrite on_wire_plain by done.
    by apply stringify_indent_parse.
Qed.

(** A row of the explorer shows the same job. *)
Lemma job_row_shows j v qs :
  mapJob (job_to_js j) = inr v →
  let r := job_table_row qs (on_wire v) in
  jr_id r = j_id j ∧ jr_priority r = show (j_priority j) ∧
  jr_attempts r = show (j_attempts j) +:+ "/" +:+ show (j_max_attempts j) ∧
  jr_chip r = StatusChip (job_status_text (j_status j)) (bool_decide (j_status j = Running)).
Proof.
  intros Hv. cbv zeta. unfold job_table_row. rewrite !(mapJob_wire j v) by done.
  cbn [jr_id jr_priority jr_attempts jr_chip].
  unfold mapJob in Hv. apply bind_sum_inr in Hv as (p & _ & Hv). apply (inj inr) in Hv. subst v.
  do 3 (split; [done|]). change (js_to_string _) with (job_status_text (j_status j)). f_equal.
  by destruct (j_status j).
Qed.

(** A row of the queue table shows the figures of its own queue. *)
Lemma queue_row_shows (figures : QueueItem → queue_figures) qs q :
  NoDup (qi_id <$> qs) → q ∈ qs → 0 ≤ g_depth (figures q) →
  let r := queue_table_row ((fun q => (qi_id q, figures q)) <$> qs) q in
  qr_depth r = g_depth (figures q) ∧ qr_throughput r = show (g_throughput_1h (figures q)) ∧
  (0 <= qr_bar r <= 100)%Q.
Proof.
  intros Hnd Hq Hd. cbv zeta. unfold queue_table_row.
  assert (stats_of (qi_id q) ((fun q => (qi_id q, figures q)) <$> qs) = Some (figures q)) as ->.
  { unfold stats_of. revert Hnd Hq. induction qs as [|q' qs IH]; intros Hnd Hq; [set_solver|].
    apply NoDup_cons in Hnd as [Hni Hnd]. csimpl. case_bool_decide as E.
    - apply elem_of_cons in Hq as [-> |Hq]; [done|]. exfalso. apply Hni. rewrite E.
      apply list_elem_of_fmap. eauto.
    - apply elem_of_cons in Hq as [-> |Hq]; [done|]. by apply IH. }
  do 2 (split; [done|]). by apply utilization_bounds.
Qed.

Lemma timeline_shows ws (xs : list ExecRow) :
  te_title <$> (timeline_entry ws <$> (on_wire <$> (exec_to_js <$> xs))) =
    (fun x => "Attempt #" +:+ show (x_attempt x)) <$> xs ∧
  te_error <$> (timeline_entry ws <$> (on_wire <$> (exec_to_js <$> xs))) =
    (fun x => non_empty (x_error x)) <$> xs.
Proof.
  rewrite <- !list_fmap_compose. split; apply list_fmap_ext; intros i x _; cbn [compose].
  - unfold compose, timeline_entry. cbn [te_title]. by rewrite exec_wire.
  - unfold compose, timeline_entry. cbn [te_error]. rewrite exec_wire.
    exact (text_if_nullable (x_error x)).
Qed.

Lemma logs_show (ls : list LogRow) :
  (fun l => (ll_level l, ll_message l)) <$> (log_line <$> (on_wire <$> (log_to_js <$> ls))) =
  (fun l => ("[" +:+ l_level l +:+ "]", l_message l)) <$> ls.
Proof.
  rewrite <- !list_fmap_compose. apply list_fmap_ext. intros i l _.
  unfold compose, log_line. cbn [ll_level ll_message]. by rewrite !log_wire.
Qed.

(** *** Loading from the server *)

(** Objects in an array on the wire. *)
Lemma json_rows {A} (f : A → jsval) (l : list A) st :
  (∀ a, is_object (f a) = true) →
  json (JArr (f <$> l)) st = inr (MkResponse st (Some (JArr (on_wire <$> (f <$> l))))).
Proof.
  intros Ho. unfold json. cbn [json_value]. do 4 f_equal. induction l as [|a l IH]; [done|].
  cbn [fmap list_fmap map]. f_equal; [|exact IH]. specialize (Ho a). by destruct (f a).
Qed.

Section server.
Context {W : World} {J : Jose} {N : NextRouting} `{!WorldOk W, !NextRoutingOk N}.
Context (Hf : no_faults_at_all).

(** A call that reads: the client gets what the handler answers. *)
Lemma call_read c tab s cl w s' :
  Forall (fun s => plain s = true) (ids_of c) → is_sign_in c = false →
  session_at (st_step s) (received (sent c tab)) = Some cl → (∃ url, getUrl = inr url) →
  run (intended c (received (sent c tab)) (c_org_id cl)) (checked (received (sent c tab)) s) =
    (inr (MkResponse 200 (Some w)), s') →
  call_server c tab s = ((inr w, tab), s').
Proof.
  intros Hids Hc Hs Hu Hr. unfold call_server. rewrite run_call, Hs by done.
  rewrite run_catch, run_bind, (getSql_url _ Hu), Hr. done.
Qed.

Lemma run_get_job id org o j v s :
  db_ok (st_db s) → uuid_param (JStr id) = inr (Some id) → uuid_param (JStr org) = inr (Some o) →
  jobs (st_db s) !! id = Some j → job_in_org (st_db s) o j = true → mapJob (job_to_js j) = inr v →
  ∃ s', run (get_job id org) s = (inr (MkResponse 200 (Some (on_wire v))), s') ∧ st_db s' = st_db s ∧
    st_step s' = S (st_step s).
Proof.
  intros Hok Hi Ho Hj Hin Hv. destruct s as [db vs n bg]; cbn [st_db st_step] in *.
  unfold get_job. erewrite run_stmt; [cbv beta|done|].
  2:{ unfold sql_select_job, uuid_arg. rewrite Hi, Ho. done. }
  pose proof (retried_rows n (fun r => r) db id o Hok) as Hrows. unfold updated_rows in Hrows.
  rewrite list_fmap_id, Hj, Hin in Hrows. rewrite Hrows. unfold map_job, respond.
  rewrite Hv, run_lift_bind. unfold json.
  assert (∃ l, v = JObj l) as [l ->].
  { unfold mapJob in Hv. apply bind_sum_inr in Hv as (q & _ & Hv). apply (inj inr) in Hv. subst v.
    by eexists. }
  eexists. split; [done|]. done.
Qed.

(** The rows of a table of the job: all of them, in the order of the query. *)
Lemma owned_rows {R} (job : R → string) (f : R → Z) n db id o (t : gmap string R) j :
  jobs db !! id = Some j → job_in_org db o j = true →
  let l := merge_sort (asc_by f) (select_where n (fun r => owned_by_job db (Some id) (Some o) (job r)) t) in
  l ≡ₚ List.filter (fun r => bool_decide (job r = id)) (rows t) ∧ StronglySorted (asc_by f) l.
Proof.
  intros Hj Hin l. split; [|apply StronglySorted_merge_sort; apply _].
  unfold l. rewrite merge_sort_Permutation, select_where_perm. apply reflexive_eq.
  apply filter_bool_ext. intros r _. unfold owned_by_job, eq_arg.
  destruct (decide (job r = id)) as [->|Hne].
  - by rewrite !bool_decide_true, Hj.
  - by rewrite !bool_decide_false by congruence.
Qed.

Lemma run_executions id org o j s :
  uuid_param (JStr id) = inr (Some id) → uuid_param (JStr org) = inr (Some o) →
  jobs (st_db s) !! id = Some j → job_in_org (st_db s) o j = true →
  ∃ s' xs, run (job_executions_of id org) s =
    (inr (MkResponse 200 (Some (JArr (on_wire <$> (exec_to_js <$> xs))))), s') ∧
    st_db s' = st_db s ∧ st_step s' = S (st_step s) ∧
    xs ≡ₚ List.filter (fun r => bool_decide (x_job_id r = id)) (rows (job_executions (st_db s))) ∧
    StronglySorted (asc_by x_attempt) xs.
Proof.
  intros Hi Ho Hj Hin. destruct s as [db vs n bg]; cbn [st_db st_step] in *. unfold job_executions_of, respond.
  erewrite run_stmt; [cbv beta|done|by unfold sql_job_executions, uuid_arg; rewrite Hi, Ho].
  rewrite json_rows by done. eexists _, _. do 3 (split; [done|]). by eapply owned_rows.
Qed.

Lemma run_logs id org o j s :
  uuid_param (JStr id) = inr (Some id) → uuid_param (JStr org) = inr (Some o) →
  jobs (st_db s) !! id = Some j → job_in_org (st_db s) o j = true →
  ∃ s' ls, run (job_logs_of id org) s =
    (inr (MkResponse 200 (Some (JArr (on_wire <$> (log_to_js <$> ls))))), s') ∧
    st_db s' = st_db s ∧ st_step s' = S (st_step s) ∧
    ls ≡ₚ List.filter (fun r => bool_decide (l_job_id r = id)) (rows (job_logs (st_db s))) ∧
    StronglySorted (asc_by l_created_at) ls.
Proof.
  intros Hi Ho Hj Hin. destruct s as [db vs n bg]; cbn [st_db st_step] in *. unfold job_logs_of, respond.
  erewrite run_stmt; [cbv beta|done|by unfold sql_job_logs, uuid_arg; rewrite Hi, Ho].
  rewrite json_rows by done. eexists _, _. do 3 (split; [done|]). by eapply owned_rows.
Qed.

(** *** The link *)

Lemma form_encode_id id : plain id = true → form_encode id = to_chars id.
Proof.
  unfold plain, form_encode. intros [_ H]%andb_true_iff. revert H.
  generalize (to_chars id) as l. induction l as [|c l IH]; [done|]. cbn [forallb].
  intros [Hc Hl]%andb_true_iff. cbn [map concat]. rewrite IH by done. unfold form_char.
  replace (form_safe c) with true; [done|]. symmetry. unfold plain_char in Hc. unfold form_safe.
  apply orb_true_iff in Hc as [-> |Hc]; [done|]. apply bool_decide_eq_true in Hc as ->. done.
Qed.

Lemma redirect_query id st :
  plain id = true →
  ∃ url, job_redirect id = Some url ∧ url_path url = "/jobs" ∧
    ex_selected (url_effect (parse_query (url_query url)) st) = Some id.
Proof.
  intros Hid. unfold job_redirect. pose proof Hid as Hp. unfold plain in Hp.
  apply andb_true_iff in Hp as [Hne%bool_decide_eq_true _]. rewrite bool_decide_false by done.
  assert ("/jobs?job=" +:+ id = "/jobs" +:+ query_suffix [("job", id)]) as ->.
  { assert (query_string [("job", id)] = "job=" +:+ id) as E.
    { unfold query_string. cbn [map join_chars].
      change (form_pair ("job", id)) with (to_chars "job=" ++ form_encode id).
      by rewrite form_encode_id, <- to_chars_app, of_to_chars. }
    unfold query_suffix. rewrite E, bool_decide_true by done. reflexivity. }
  eexists. split; [done|]. destruct (url_parts "/jobs" [("job", id)]) as [-> ->]; [by repeat constructor|].
  split; [done|]. unfold url_effect. cbn [List.filter fst]. rewrite bool_decide_true by done.
  cbn. by rewrite bool_decide_false.
Qed.

(** C32: The link to a job opens its whole history. [/jobs/:id] leads to the
    explorer with the drawer of that job; its three calls succeed and change
    nothing; the drawer then shows the id, the state, the attempts and the last
    error of the row, a text that reads back as the payload, one entry for each
    execution of the job in the order of the attempts with its error, and each
    log line of the job in the order of time. *)
Theorem job_history_shown id tab s c o j p st queues workers :
  plain id = true →
  (∀ n cl, (st_step s ≤ n ≤ st_step s + 4)%nat → cl ∈ [GetJob id; GetJobExecutions id; GetJobLogs id] →
     session_at n (received (sent cl tab)) = Some c) →
  (∃ url, getUrl = inr url) → db_ok (st_db s) →
  uuid_param (JStr id) = inr (Some id) → uuid_param (JStr (c_org_id c)) = inr (Some o) →
  jobs (st_db s) !! id = Some j → job_in_org (st_db s) o j = true →
  parse_payload (j_payload j) = inr p → json_plain p = true →
  (∃ url, job_redirect id = Some url ∧ url_path url = "/jobs" ∧
     ex_selected (url_effect (parse_query (url_query url)) st) = Some id) ∧
  ∃ job exs lgs s1 s2 s3 d xs ls,
    call_server (GetJob id) tab s = ((inr job, tab), s1) ∧
    call_server (GetJobExecutions id) tab s1 = ((inr (JArr exs), tab), s2) ∧
    call_server (GetJobLogs id) tab s2 = ((inr (JArr lgs), tab), s3) ∧ st_db s3 = st_db s ∧
    JobDetailContent false None (Some job) exs lgs queues workers = DetailJob d ∧
    jd_id d = id ∧ jd_attempts d = show (j_attempts j) +:+ " / " +:+ show (j_max_attempts j) ∧
    jd_chip d = StatusChip (job_status_text (j_status j)) (bool_decide (j_status j = Running)) ∧
    jd_error d = non_empty (j_error_message j) ∧
    (∃ text, jd_payload d = Some text ∧ json_parse text = inr p) ∧
    xs ≡ₚ List.filter (fun x => bool_decide (x_job_id x = id)) (rows (job_executions (st_db s))) ∧
    StronglySorted (asc_by x_attempt) xs ∧
    te_title <$> jd_timeline d = (fun x => "Attempt #" +:+ show (x_attempt x)) <$> xs ∧
    te_error <$> jd_timeline d = (fun x => non_empty (x_error x)) <$> xs ∧
    ls ≡ₚ List.filter (fun l => bool_decide (l_job_id l = id)) (rows (job_logs (st_db s))) ∧
    StronglySorted (asc_by l_created_at) ls ∧
    (fun l => (ll_level l, ll_message l)) <$> jd_logs d =
      (fun l => ("[" +:+ l_level l +:+ "]", l_message l)) <$> ls.
Proof.
  intros Hid Hs Hu Hok Hi Ho Hj Horg Hp Hpl. split; [by apply redirect_query|].
  destruct (proj2 (mapJob_ok j) (ex_intro _ p Hp)) as [v Hv].
  destruct (run_get_job id (c_org_id c) o j v (checked (received (sent (GetJob id) tab)) s))
    as (s1 & R1 & D1 & N1); try (rewrite (proj1 (checked_db _ _)); done); [done..|].
  pose proof (checked_step (received (sent (GetJob id) tab)) s).
  rewrite (proj1 (checked_db _ _)) in D1.
  destruct (run_executions id (c_org_id c) o j (checked (received (sent (GetJobExecutions id) tab)) s1))
    as (s2 & xs & R2 & D2 & N2 & Px & Sx); try (rewrite (proj1 (checked_db _ _)), D1; done); [done..|].
  pose proof (checked_step (received (sent (GetJobExecutions id) tab)) s1).
  rewrite !(proj1 (checked_db _ _)), D1 in *.
  destruct (run_logs id (c_org_id c) o j (checked (received (sent (GetJobLogs id) tab)) s2))
    as (s3 & ls & R3 & D3 & N3 & Pl & Sl); try (rewrite (proj1 (checked_db _ _)), D2; done); [done..|].
  rewrite !(proj1 (checked_db _ _)), D2 in *.
  destruct (job_detail_shows j p v (on_wire <$> (exec_to_js <$> xs)) (on_wire <$> (log_to_js <$> ls))
              queues workers Hp Hpl Hv) as (Did & Datt & Dchip & Derr & Dpay).
  destruct (timeline_shows workers xs) as [Tt Te].
  exists (on_wire v), (on_wire <$> (exec_to_js <$> xs)), (on_wire <$> (log_to_js <$> ls)), s1, s2, s3.
  eexists _, xs, ls.
  split; [eapply call_read; [by repeat constructor|done|apply Hs; [lia|set_solver]|done|exact R1]|].
  split; [eapply call_read; [by repeat constructor|done|apply Hs; [lia|set_solver]|done|exact R2]|].
  split; [eapply call_read; [by repeat constructor|done|apply Hs; [lia|set_solver]|done|exact R3]|].
  split; [done|]. split; [reflexivity|]. split; [by rewrite Did, (ok_j_id _ Hok _ _ Hj)|].
  do 4 (split; [done|]). do 4 (split; [done|]). do 2 (split; [done|]). apply logs_show.
Qed.
End server.

Lemma job_history_shown_witness :
  let tab := demo_tab (Some demo_token) in
  (∃ url, job_redirect "j5" = Some url ∧ url_path url = "/jobs" ∧
     ex_selected (url_effect (parse_query (url_query url)) (MkExplorer None false)) = Some "j5") ∧
  ∃ job exs lgs s1 s2 s3 d xs ls,
    call_server (N := split_routing) (GetJob "j5") tab demo_store = ((inr job, tab), s1) ∧
    call_server (N := split_routing) (GetJobExecutions "j5") tab s1 = ((inr (JArr exs), tab), s2) ∧
    call_server (N := split_routing) (GetJobLogs "j5") tab s2 = ((inr (JArr lgs), tab), s3) ∧
    st_db s3 = demo_db ∧
    JobDetailContent false None (Some job) exs lgs [] [] = DetailJob d ∧
    jd_id d = "j5" ∧ jd_attempts d = show (j_attempts demo_j5) +:+ " / " +:+ show (j_max_attempts demo_j5) ∧
    jd_chip d = StatusChip (job_status_text (j_status demo_j5)) (bool_decide (j_status demo_j5 = Running)) ∧
    jd_error d = non_empty (j_error_message demo_j5) ∧
    (∃ text, jd_payload d = Some text ∧ json_parse text = inr fail_payload) ∧
    xs ≡ₚ List.filter (fun x => bool_decide (x_job_id x = "j5")) (rows (job_executions demo_db)) ∧
    StronglySorted (asc_by x_attempt) xs ∧
    te_title <$> jd_timeline d = (fun x => "Attempt #" +:+ show (x_attempt x)) <$> xs ∧
    te_error <$> jd_timeline d = (fun x => non_empty (x_error x)) <$> xs ∧
    ls ≡ₚ List.filter (fun l => bool_decide (l_job_id l = "j5")) (rows (job_logs demo_db)) ∧
    StronglySorted (asc_by l_created_at) ls ∧
    (fun l => (ll_level l, ll_message l)) <$> jd_logs d =
      (fun l => ("[" +:+ l_level l +:+ "]", l_message l)) <$> ls.
Proof.
  apply (@job_history_shown demo _ split_routing demo_ok split_routing_ok demo_no_faults
           "j5" (demo_tab (Some demo_token)) demo_store demo_claims "o1" demo_j5 fail_payload
           (MkExplorer None false) [] []);
    [done| |by eexists|apply demo_sys_ok|reflexivity..].
  intros n cl Hn Hcl. cbn [demo_store st_step] in Hn.
  destruct n as [|[|[|[|[|n]]]]]; [..|lia]; repeat (apply elem_of_cons in Hcl as [-> |Hcl];
    [vm_compute; reflexivity|]); by apply not_elem_of_nil in Hcl.
Defined.
