(* ===== verification/Overview.v ===== *)
(** * The overview and the workers

    The panels, the table and the worker list of the overview
    ([app/page.tsx], [components/ui/StatPanel.tsx]) and the cards of the
    workers page ([app/workers/page.tsx]), as the texts they show, and where
    the figures come from: the overview loads the queues of the organization
    and the statistics of each of them. *)

From Stdlib Require Import QArith Qcanon Lqa.
From S2P Require Import Prelude JsValue JsJson JsonText Database Proc Hoare Http Auth DemoWorld.
From S2P Require Import Worker Scheduler Setup Router Integrity Invariant Fixtures Execution.
From S2P Require Import Sessions Tenancy JobsApi Format ApiTypes Query Client ClientProps Status.
From S2P Require Import Charts DeadLetters Views Detail.

Open Scope js_scope.
Local Open Scope Z_scope.

(** ** Panels *)

(** [StatPanel]; while it loads, skeletons. The sparkline is drawn in the
    default box of 64 by 24. *)
Record StatPanelView := MkStatPanel {
  sp_label : string; sp_value : string; sp_sparkline : option (list (Q * Q));
  sp_delta : option (string * string) }.

Definition delta_color (deltaPositive : option bool) : string :=
  match deltaPositive with
  | None => "var(--text-tertiary)"
  | Some true => "var(--st-completed)"
  | Some false => "var(--st-failed)"
  end.

Definition StatPanel (loading : bool) (label value : string) (delta : option string)
    (deltaPositive : option bool) (sparkline : option (list Q)) : option StatPanelView :=
  if loading then None
  else Some (MkStatPanel label value (option_map (Sparkline 64 24) sparkline)
    (d ← delta; if bool_decide (d = "") then None else Some (d, delta_color deltaPositive))).

(** What the overview reads of an answer with statistics. *)
Definition int_member (v : jsval) (k : string) : Z :=
  match field v k with JNum (Fin q) => Qnum q | _ => 0 end.
Definition rate_member (v : jsval) (k : string) : Q :=
  match field v k with JNum (Fin q) => q | _ => 0%Q end.

Definition figures_of (v : jsval) : queue_figures :=
  MkFigures (js_to_string (field v "queue_name")) (int_member v "depth")
    (int_member v "throughput_1h") (int_member v "throughput_24h") (rate_member v "success_rate").

(** [workers?.filter((w) => w.status === "active").length]. *)
Definition activeWorkers (workers : list jsval) : nat :=
  length (List.filter (fun w => is_str (field w "status") "active") workers).

(** [stats?.map(...)], where the statistics are absent until they load. *)
Definition overview_panels (loading workersLoading : bool) (stats : option (list jsval))
    (workers : list jsval) : list (option StatPanelView) :=
  let g := map figures_of (default [] stats) in
  let line f := option_map (map (fun s => inject_Z (f (figures_of s)))) stats in
  let avg := avgSuccess g in
  [StatPanel loading "Queue depth" (show (totalDepth g)) (Some "Jobs waiting to run") None (line g_depth);
   StatPanel loading "Throughput / 1h" (show (throughput1h g)) None None (line g_throughput_1h);
   StatPanel loading "Throughput / 24h" (show (throughput24h g)) None None (line g_throughput_24h);
   StatPanel loading "Success rate" (if loading then "—" else formatPercent (Q2Qc avg))
     (Some (success_label avg)) (Some (success_positive avg)) None;
   StatPanel workersLoading "Active workers" (show (Z.of_nat (activeWorkers workers))) None None None].

(** The chart is there when it has a row. *)
Definition overview_chart (stats : list jsval) : option (list chart_row) :=
  match chartData (map figures_of stats) with [] => None | l => Some l end.

(** ** Queues at a glance *)

Record GlanceRow := MkGlance {
  gl_name : string; gl_depth : string; gl_throughput : string; gl_chip : option Chip }.

Definition glance_row (queues : list jsval) (s : jsval) : GlanceRow :=
  let id := js_to_string (field s "queue_id") in
  let q := List.find (fun x => is_str (field x "id") id) queues in
  MkGlance (react_text (field s "queue_name")) (react_text (field s "depth"))
    (react_text (field s "throughput_1h"))
    (StatusChip (if truthy (field (default JUndef q) "is_paused") then "paused" else "active") false).

(** The rows of the table, and the row that says there are none. *)
Definition glance_table (loading : bool) (queues : list jsval) (stats : option (list jsval)) :
    list GlanceRow * option string :=
  (map (glance_row queues) (default [] stats),
   if negb loading && match default [] stats with [] => true | _ => false end
   then Some "No queues yet. Create one to start scheduling work." else None).

(** ** Workers *)

Record WorkerLine := MkWorkerLine {
  wl_name : string; wl_seen : option jsval; wl_load : string; wl_chip : option Chip }.

(** A worker in the list of the overview; without a heartbeat the line says
    so. *)
Definition worker_line (w : jsval) : WorkerLine :=
  let status := js_to_string (field w "status") in
  MkWorkerLine (react_text (field w "name"))
    (if truthy (field w "last_seen_at") then Some (field w "last_seen_at") else None)
    (react_text (field w "jobs_in_flight") +:+ " in flight")
    (StatusChip status (bool_decide (status = "active"))).

(** At most six of them, or a text when there are none. *)
Definition overview_workers (workersLoading : bool) (workers : list jsval) :
    list WorkerLine * option string :=
  (worker_line <$> take 6 workers,
   match workers with
   | [] => if workersLoading then None
           else Some "No workers registered. Start a worker process to claim jobs."
   | _ => None
   end).

(** ** The page *)

(** [queuePage?.items ?? []]. *)
Definition page_items (page : option jsval) : list jsval :=
  match page with
  | Some v => match field v "items" with JArr l => l | _ => [] end
  | None => []
  end.

(** [queues.map((q) => q.id)]. *)
Definition page_ids (page : option jsval) : list string :=
  (fun q => js_to_string (field q "id")) <$> page_items page.

Record OverviewView := MkOverview {
  ov_panels : list (option StatPanelView); ov_chart : option (list chart_row);
  ov_glance : list GlanceRow * option string; ov_workers : list WorkerLine * option string }.

(** [OverviewPage], from what its three hooks return: data, absent until it
    loads, and whether they are loading. *)
Definition OverviewPage (queues stats workers : option jsval * bool) : OverviewView :=
  let loading := queues.2 || stats.2 in
  let rows (v : option jsval) := match v with Some (JArr l) => Some l | _ => None end in
  let ws := default [] (rows workers.1) in
  MkOverview (overview_panels loading workers.2 (rows stats.1) ws)
    (overview_chart (default [] (rows stats.1)))
    (glance_table loading (page_items queues.1) (rows stats.1))
    (overview_workers workers.2 ws).

(** ** The workers page *)

(** The card of a worker on its page. *)
Record WorkerCard := MkWorkerCard {
  wc_name : string; wc_chip : option Chip; wc_load : string; wc_busy : bool; wc_seen : option jsval;
  wc_registered : jsval }.

Definition worker_card (w : jsval) : WorkerCard :=
  let status := js_to_string (field w "status") in
  MkWorkerCard (react_text (field w "name")) (StatusChip status (bool_decide (status = "active")))
    (react_text (field w "jobs_in_flight"))
    (match field w "jobs_in_flight" with JNum a => num_ltb (num_of_Z 0) a | _ => false end)
    (if truthy (field w "last_seen_at") then Some (field w "last_seen_at") else None)
    (field w "created_at").

(** What a page with a list shows: an error in its place, skeletons, a text
    when there is nothing, or the rows. *)
Inductive ListView (R : Type) :=
| ListError (title message : string)
| ListLoading
| ListEmpty (title description : string)
| ListRows (rows : list R).
Arguments ListError {_} _ _.
Arguments ListLoading {_}.
Arguments ListEmpty {_} _ _.
Arguments ListRows {_} _.

Definition list_view {R} (isLoading : bool) (title description : string) (rows : list R) : ListView R :=
  if isLoading then ListLoading
  else match rows with [] => ListEmpty title description | _ => ListRows rows end.

(** [error.message]. *)
Definition message_of (e : thrown) : string := error_message e "".

(** [WorkersPage]. *)
Definition WorkersPage (error : option thrown) (isLoading : bool) (workers : list jsval) :
    ListView WorkerCard :=
  match error with
  | Some e => ListError "Failed to load workers" (message_of e)
  | None =>
      list_view isLoading "No workers registered"
        "Start a worker process to claim and execute jobs. Workers appear here once they connect."
        (worker_card <$> workers)
  end.

(** ** Counting *)

(** Rows counted group by group. *)
Lemma count_groups {A} (grp : A → string) (P : A → bool) (ids : list string) (l : list A) :
  NoDup ids →
  sum_list_with (fun i => length (List.filter (fun a => bool_decide (grp a = i) && P a) l)) ids =
  length (List.filter (fun a => bool_decide (grp a ∈ ids) && P a) l).
Proof.
  induction 1 as [|i ids Hi _ IH]; cbn [sum_list_with].
  { symmetry. rewrite (filter_bool_ext _ (fun _ => false)).
    - by induction l.
    - intros a _. rewrite bool_decide_false; [done|]. apply not_elem_of_nil. }
  rewrite IH, <- length_filter_or.
  - f_equal. apply filter_bool_ext. intros a _.
    rewrite <- andb_orb_distrib_l. f_equal.
    rewrite (bool_decide_ext (grp a ∈ i :: ids) _ (elem_of_cons _ _ _)).
    by rewrite bool_decide_or.
  - intros a _. rewrite andb_true_iff, bool_decide_eq_true. intros [<- _].
    by rewrite bool_decide_false.
Qed.

Lemma total_sum f l : total f l = foldr (fun g a => f g + a) 0 l.
Proof.
  unfold total. cut (∀ a, foldl (fun a s => a + f s) a l = a + foldr (fun g a => f g + a) 0 l).
  { intros ->. lia. }
  induction l as [|g l IH]; intros a; cbn [foldl foldr]; [lia|]. rewrite IH. lia.
Qed.

Lemma total_le f f' l : Forall (fun g => f g ≤ f' g) l → total f l ≤ total f' l.
Proof. rewrite !total_sum. induction 1; cbn [foldr]; lia. Qed.

Lemma total_nonneg f l : Forall (fun g => 0 ≤ f g) l → 0 ≤ total f l.
Proof. rewrite !total_sum. induction 1; cbn [foldr]; lia. Qed.

Section shown.
Context {W : World}.

(** The jobs that wait in a queue, and in an organization. *)
Definition waiting_in (db : DB) (id : string) : nat :=
  count_where (fun j => bool_decide (j_queue_id j = id) && bool_decide (j_status j = Queued)) (jobs db).

Definition waiting_of (db : DB) (org : string) : nat :=
  count_where (fun j => job_in_org db org j && bool_decide (j_status j = Queued)) (jobs db).

Lemma waiting_total db org qs :
  db_ok db → qs ≡ₚ List.filter (queue_in_org db org) (rows (queues db)) →
  sum_list_with (waiting_in db) (q_id <$> qs) = waiting_of db org.
Proof.
  intros Hok Hqs. unfold waiting_in, count_where. rewrite count_groups.
  - unfold waiting_of, count_where. f_equal. apply filter_bool_ext. intros j _. f_equal.
    apply eq_bool_prop_intro. rewrite bool_decide_spec, list_elem_of_fmap. unfold job_in_org. split.
    + intros (q & -> & Hq). rewrite Hqs in Hq. apply elem_of_filter_bool in Hq as [Ho (k & Hk)%elem_of_rows].
      by rewrite (ok_q_id _ Hok _ _ Hk), Hk, Ho.
    + destruct (queues db !! j_queue_id j) as [q|] eqn:Hq; [|done]. intros Ho%Is_true_true.
      exists q. split; [by rewrite (ok_q_id _ Hok _ _ Hq)|]. rewrite Hqs.
      apply elem_of_filter_bool. split; [done|]. apply elem_of_rows. eauto.
  - rewrite Hqs. apply NoDup_filter_keys, Hok.
Qed.

(** The queues of an organization are rows of the table. *)
Lemma org_queues db org qs :
  db_ok db → qs ≡ₚ List.filter (queue_in_org db org) (rows (queues db)) →
  (∀ q, q ∈ qs → queues db !! q_id q = Some q ∧ queue_in_org db org q = true) ∧
  (length qs ≤ size (queues db))%nat.
Proof.
  intros Hok Hqs. split.
  - intros q. rewrite Hqs, elem_of_filter_bool, elem_of_rows. intros [Hin [k Hk]].
    by rewrite (ok_q_id _ Hok _ _ Hk).
  - rewrite Hqs. etrans; [apply length_filter_bool_le|]. unfold rows.
    by rewrite length_fmap, length_map_to_list.
Qed.

(** What statistics say of a queue. *)
Record figures_ok (db : DB) (q : QueueRow) (v : jsval) : Prop := {
  fo_id : field v "queue_id" = JStr (q_id q);
  fo_name : field v "queue_name" = JStr (q_name q);
  fo_depth : field v "depth" = JInt (Z.of_nat (waiting_in db (q_id q)));
  fo_hour : ∃ t, field v "throughput_1h" = JInt t;
  fo_order : 0 ≤ g_throughput_1h (figures_of v) ≤ g_throughput_24h (figures_of v);
  fo_rate : (0 <= g_success_rate (figures_of v) <= 1)%Q }.

Lemma figures_depth db q v : figures_ok db q v → g_depth (figures_of v) = Z.of_nat (waiting_in db (q_id q)).
Proof. intros H. cbn [figures_of g_depth]. unfold int_member. by rewrite (fo_depth _ _ _ H). Qed.

Lemma total_waiting db qs vs :
  Forall2 (figures_ok db) qs vs →
  totalDepth (map figures_of vs) = Z.of_nat (sum_list_with (waiting_in db) (q_id <$> qs)).
Proof.
  unfold totalDepth. rewrite total_sum. induction 1 as [|q v qs vs H _ IH]; [done|].
  cbn [map foldr fmap list_fmap sum_list_with]. rewrite IH, (figures_depth _ _ _ H).
  change (list_fmap QueueRow string q_id qs) with (q_id <$> qs). lia.
Qed.

Lemma figures_all db qs vs (P : queue_figures → Prop) :
  Forall2 (figures_ok db) qs vs → (∀ q v, figures_ok db q v → P (figures_of v)) →
  Forall P (map figures_of vs).
Proof. intros H HP. induction H; constructor; eauto. Qed.

End shown.

(** ** Loading the overview *)

Section server.
Context {W : World} {J : Jose} {N : NextRouting} `{!WorldOk W, !NextRoutingOk N}.

(** [Promise.all] over calls: each is made, and the first that throws decides
    the result. *)
Fixpoint call_all (cs : list ApiCall) (tab : Tab) (s : store) : ((thrown + list jsval) * Tab) * store :=
  match cs with
  | [] => ((inr [], tab), s)
  | c :: cs =>
      let '((r, tab1), s1) := call_server c tab s in
      let '((rs, tab2), s2) := call_all cs tab1 s1 in
      ((try! v := r in try! vs := rs in inr (v :: vs), tab2), s2)
  end.

Context (Hf : no_faults_at_all).

Lemma run_queue_stats id org o q s :
  db_ok (st_db s) → uuid_param (JStr id) = inr (Some id) → uuid_param (JStr org) = inr (Some o) →
  queues (st_db s) !! id = Some q → queue_in_org (st_db s) o q = true →
  ∃ v s', run (queue_stats id org) s = (inr (MkResponse 200 (Some v)), s') ∧
    st_db s' = st_db s ∧ st_step s' = (3 + st_step s)%nat ∧ figures_ok (st_db s) q v.
Proof.
  intros Hok Hi Ho Hq Hin. destruct s as [db vs n bg]; cbn [st_db st_step] in *.
  unfold queue_stats.
  erewrite run_stmt; [cbv beta|done|by unfold sql_queue_depth, uuid_arg; rewrite Hi].
  destruct (sql_queue_stats id (S n) db) as [e|[st db']] eqn:Est.
  { unfold sql_queue_stats, uuid_arg in Est. by rewrite Hi in Est. }
  destruct (queue_stats_consistent _ _ _ _ _ Est) as (-> & Hord & _ & Hfl & Hr0 & Hr1 & _).
  erewrite run_stmt; [cbv beta|done|exact Est].
  erewrite run_stmt; [cbv beta|done|by unfold sql_select_queue, uuid_arg; rewrite Hi, Ho].
  rewrite (select_queue_rows _ _ _ _ Hok), Hq, Hin. unfold respond.
  assert (count_where (fun j => eq_arg (Some id) (j_queue_id j) && bool_decide (j_status j = Queued))
            (jobs db) = waiting_in db id) as ->.
  { unfold waiting_in, count_where. f_equal. apply filter_bool_ext. intros j _. f_equal.
    unfold eq_arg. apply bool_decide_ext. naive_solver. }
  eexists _, _. split; [reflexivity|]. split; [done|]. split; [done|].
  pose proof (ok_q_id _ Hok _ _ Hq) as Hid. split.
  - by rewrite Hid.
  - done.
  - by rewrite Hid.
  - by eexists.
  - exact Hord.
  - exact (conj Hr0 Hr1).
Qed.

Lemma stats_call id tab s c o q :
  session_at (st_step s) (received (sent (GetQueueStats id) tab)) = Some c → (∃ url, getUrl = inr url) →
  plain id = true →
  db_ok (st_db s) → uuid_param (JStr id) = inr (Some id) → uuid_param (JStr (c_org_id c)) = inr (Some o) →
  queues (st_db s) !! id = Some q → queue_in_org (st_db s) o q = true →
  ∃ v s', call_server (GetQueueStats id) tab s = ((inr v, tab), s') ∧ st_db s' = st_db s ∧
    (st_step s ≤ st_step s' ≤ 4 + st_step s)%nat ∧ figures_ok (st_db s) q v.
Proof.
  intros Hs Hu Hid Hok Hi Ho Hq Hin.
  destruct (run_queue_stats id (c_org_id c) o q (checked (received (sent (GetQueueStats id) tab)) s))
    as (v & s' & R & D & Ns & F); try (rewrite (proj1 (checked_db _ _)); done); [done..|].
  rewrite (proj1 (checked_db _ _)) in *. exists v, s'.
  split; [eapply call_read; [by repeat constructor|done..|exact R]|]. split; [done|]. split; [|done].
  pose proof (checked_step (received (sent (GetQueueStats id) tab)) s). lia.
Qed.

(** The statistics of all queues, one after the other. *)
Lemma stats_calls qs tab s c o :
  (∀ n cl, (st_step s ≤ n ≤ 4 * length qs + st_step s)%nat → cl ∈ GetQueueStats <$> (q_id <$> qs) →
     session_at n (received (sent cl tab)) = Some c) → (∃ url, getUrl = inr url) →
  db_ok (st_db s) → uuid_param (JStr (c_org_id c)) = inr (Some o) →
  (∀ q, q ∈ qs → plain (q_id q) = true ∧ uuid_param (JStr (q_id q)) = inr (Some (q_id q)) ∧
     queues (st_db s) !! q_id q = Some q ∧ queue_in_org (st_db s) o q = true) →
  ∃ vs s', call_all (GetQueueStats <$> (q_id <$> qs)) tab s = ((inr vs, tab), s') ∧
    st_db s' = st_db s ∧ (st_step s ≤ st_step s' ≤ 4 * length qs + st_step s)%nat ∧
    Forall2 (figures_ok (st_db s)) qs vs.
Proof.
  intros Hs Hu Hok Ho. revert s Hs Hok. induction qs as [|q qs IH]; intros s Hs Hok Hqs.
  { exists [], s. split; [done|]. split; [done|]. split; [simpl; lia|constructor]. }
  destruct (Hqs q ltac:(set_solver)) as (Hp & Hi & Hq & Hin). cbn [length] in Hs.
  destruct (stats_call (q_id q) tab s c o q) as (v & s1 & R & D & Hn & F); try done.
  { apply Hs; [lia|]. set_solver. }
  destruct (IH s1) as (vs & s2 & R2 & D2 & Hn2 & F2).
  { intros n cl Hn' Hcl. apply Hs; [lia|]. rewrite !fmap_cons. set_solver. }
  { by rewrite D. }
  { rewrite D. intros q' Hq'. apply Hqs. set_solver. }
  rewrite D in *. exists (v :: vs), s2. split; [|split; [done|split; [simpl; lia|by constructor]]].
  rewrite !fmap_cons. cbn [call_all]. by rewrite R, R2.
Qed.

(** The queues of the organization, in the order of their creation. *)
Lemma run_list_queues org o s :
  uuid_param (JStr org) = inr (Some o) →
  ∃ qs s', run (list_queues org) s =
      (inr (MkResponse 200 (Some (on_wire (js_page ((fun q => mapQueue (queue_to_js q)) <$> qs))))), s') ∧
    st_db s' = st_db s ∧ st_step s' = S (st_step s) ∧
    qs ≡ₚ List.filter (queue_in_org (st_db s) o) (rows (queues (st_db s))) ∧
    StronglySorted (asc_by q_created_at) qs.
Proof.
  intros Ho. destruct s as [db vs n bg]; cbn [st_db st_step]. unfold list_queues, respond.
  erewrite run_stmt; [cbv beta|done|by unfold sql_list_queues, uuid_arg; rewrite Ho].
  eexists _, _. split; [reflexivity|]. do 2 (split; [done|]).
  split; [by rewrite merge_sort_Permutation, select_where_perm|].
  apply StronglySorted_merge_sort; apply _.
Qed.

(** A worker has at most one heartbeat, hence one row. *)
Definition last_seen (db : DB) (w : WorkerRow) : option instant :=
  hb_last_seen_at <$> head (heartbeats_of db w).

Lemma worker_rows db l :
  db_ok db →
  (ws ← l; match heartbeats_of db ws with
           | [] => [worker_to_js db None ws]
           | hs => (fun h => worker_to_js db (Some (hb_last_seen_at h)) ws) <$> hs
           end) = (fun w => worker_to_js db (last_seen db w) w) <$> l.
Proof.
  intros Hok. induction l as [|w l IH]; [done|]. rewrite bind_cons, fmap_cons, IH.
  enough (∀ h h' hs, heartbeats_of db w ≠ h :: h' :: hs) as Hone.
  { unfold last_seen. by destruct (heartbeats_of db w) as [|h [|h' hs]] eqn:E; [..|destruct (Hone h h' hs)]. }
  intros h h' hs E. unfold heartbeats_of in E.
  assert (NoDup (hb_worker_id <$> rows (worker_heartbeats db))) as Hnd.
  { unfold rows. rewrite <- list_fmap_compose. apply NoDup_fmap_2_strong; [|apply NoDup_map_to_list].
    intros [k1 r1] [k2 r2] H1%elem_of_map_to_list H2%elem_of_map_to_list Heq.
    pose proof (ok_hb_uniq _ Hok _ _ _ _ H1 H2 Heq). congruence. }
  assert (NoDup (hb_worker_id <$> (h :: h' :: hs))) as Hnd'.
  { rewrite <- E. by apply NoDup_fmap_filter. }
  assert (∀ x, x ∈ h :: h' :: hs → hb_worker_id x = w_id w) as Hw.
  { intros x. rewrite <- E, elem_of_filter_bool. intros [Hx _]. by apply bool_decide_eq_true in Hx. }
  rewrite !fmap_cons, NoDup_cons in Hnd'. destruct Hnd' as [[] _].
  rewrite (Hw h), (Hw h') by set_solver. set_solver.
Qed.

Lemma worker_wire db seen w k :
  field (on_wire (worker_to_js db seen w)) k = on_wire (field (worker_to_js db seen w) k).
Proof. apply field_on_wire. apply (bool_decide_unpack _). vm_compute. exact I. Qed.

Lemma active_count db l :
  activeWorkers (on_wire <$> ((fun w => worker_to_js db (last_seen db w) w) <$> l)) =
  length (List.filter (fun w => bool_decide (w_status w = WActive)) l).
Proof.
  unfold activeWorkers. rewrite <- list_fmap_compose, filter_bool_fmap, length_fmap. f_equal.
  apply filter_bool_ext. intros w _. unfold compose. rewrite worker_wire. by destruct w as [? ? []].
Qed.

Definition active_workers (db : DB) : nat :=
  count_where (fun w => bool_decide (w_status w = WActive)) (workers db).

Lemma run_list_workers s :
  db_ok (st_db s) →
  ∃ ws s', run list_workers s = (inr (MkResponse 200 (Some (JArr ws))), s') ∧ st_db s' = st_db s ∧
    length ws = size (workers (st_db s)) ∧
    activeWorkers ws = active_workers (st_db s).
Proof.
  intros Hok. destruct s as [db vs n bg]; cbn [st_db] in *. unfold list_workers, respond.
  erewrite run_stmt; [cbv beta|done|reflexivity]. rewrite (worker_rows _ _ Hok), json_rows by done.
  eexists _, _. split; [reflexivity|]. split; [done|].
  assert (merge_sort (desc_by w_created_at) (select_where n (fun _ => true) (workers db)) ≡ₚ
          rows (workers db)) as Hp.
  { rewrite merge_sort_Permutation, select_where_perm. apply reflexive_eq.
    induction (rows (workers db)) as [|w l IH]; [done|]. cbn [List.filter]. by rewrite IH. }
  split.
  - rewrite !length_fmap, Hp. unfold rows. by rewrite length_fmap, length_map_to_list.
  - rewrite active_count. unfold active_workers, count_where. by rewrite (filter_bool_perm _ _ _ Hp).
Qed.

End server.

(** *** What the page shows *)

(** A queue as the console gets it. *)
Definition wire_queue (q : QueueRow) : jsval := on_wire (mapQueue (queue_to_js q)).

Lemma wire_queue_field q k : field (wire_queue q) k = on_wire (field (mapQueue (queue_to_js q)) k).
Proof. apply field_on_wire. apply (bool_decide_unpack _). vm_compute. exact I. Qed.

Lemma queue_page_items qs :
  page_items (Some (on_wire (js_page ((fun q => mapQueue (queue_to_js q)) <$> qs)))) = wire_queue <$> qs.
Proof.
  change (map (fun w => default JNull (json_value w)) ((fun q => mapQueue (queue_to_js q)) <$> qs) =
          wire_queue <$> qs).
  induction qs as [|q qs IH]; [done|]. cbn [fmap list_fmap map]. f_equal. exact IH.
Qed.

Lemma queue_page_ids qs :
  page_ids (Some (on_wire (js_page ((fun q => mapQueue (queue_to_js q)) <$> qs)))) = q_id <$> qs.
Proof.
  unfold page_ids. rewrite queue_page_items, <- list_fmap_compose. apply list_fmap_ext.
  intros i q _. unfold compose. by rewrite wire_queue_field.
Qed.

Lemma find_queue qs q :
  NoDup (q_id <$> qs) → q ∈ qs →
  List.find (fun x => is_str (field x "id") (q_id q)) (wire_queue <$> qs) = Some (wire_queue q).
Proof.
  induction qs as [|q' qs IH]; intros Hnd Hq; [set_solver|].
  rewrite fmap_cons in *. apply NoDup_cons in Hnd as [Hni Hnd]. cbn [List.find].
  rewrite wire_queue_field.
  change (on_wire (field (mapQueue (queue_to_js q')) "id")) with (JStr (q_id q')). cbn [is_str].
  apply elem_of_cons in Hq as [-> |Hq]; [by rewrite bool_decide_true|].
  rewrite bool_decide_false; [by apply IH|]. intros E. apply Hni. rewrite E. by apply list_elem_of_fmap_2.
Qed.

(** What a row of the table says of a queue. *)
Definition glance_facts (r : GlanceRow) := (gl_name r, gl_depth r, gl_chip r).

Section view.
Context {W : World}.

Lemma glance_shows db qs q v :
  NoDup (q_id <$> qs) → q ∈ qs → figures_ok db q v →
  glance_facts (glance_row (wire_queue <$> qs) v) =
  (q_name q, show (Z.of_nat (waiting_in db (q_id q))),
   StatusChip (if q_paused q then "paused" else "active") false).
Proof.
  intros Hnd Hq F. unfold glance_facts, glance_row. cbn [gl_name gl_depth gl_chip].
  rewrite (fo_id _ _ _ F), (fo_name _ _ _ F), (fo_depth _ _ _ F).
  change (js_to_string (JStr (q_id q))) with (q_id q). rewrite find_queue by done.
  cbn [from_option]. unfold id. rewrite wire_queue_field. by destruct q as [? ? ? ? ? ? ? []].
Qed.

Lemma glances_show db all qs vs :
  NoDup (q_id <$> all) → qs ⊆ all → Forall2 (figures_ok db) qs vs →
  map glance_facts (map (glance_row (wire_queue <$> all)) vs) =
  (fun q => (q_name q, show (Z.of_nat (waiting_in db (q_id q))),
             StatusChip (if q_paused q then "paused" else "active") false)) <$> qs.
Proof.
  intros Hnd Hsub H. induction H as [|q v qs vs F _ IH]; [done|].
  cbn [fmap list_fmap map]. rewrite (glance_shows db all q v) by (done || set_solver).
  f_equal. apply IH. set_solver.
Qed.

End view.

(** The values of the panels. *)
Definition panel_values (v : OverviewView) : list (option string) := map (option_map sp_value) (ov_panels v).

Definition chart_bounds (g : queue_figures) (r : chart_row) : Prop :=
  0 ≤ ch_completed r ≤ g_throughput_1h g ∧ 0 ≤ ch_failed r ≤ g_throughput_1h g ∧
  g_throughput_1h g ≤ ch_completed r + ch_failed r ≤ g_throughput_1h g + 1.

(** The sparkline of a panel stays in its box. *)
Definition panel_in_box (p : option StatPanelView) : Prop :=
  ∀ x y, (x, y) ∈ default [] (p ≫= sp_sparkline) → (0 <= x <= 64 ∧ 2 <= y <= 22)%Q.

Lemma StatPanel_in_box loading label value delta positive line :
  panel_in_box (StatPanel loading label value delta positive line).
Proof.
  intros x y. unfold StatPanel. destruct loading; [by intros ?%elem_of_nil|].
  destruct line as [l|]; [|by intros ?%elem_of_nil]. intros H.
  destruct (sparkline_bounds 64 24 l) as [_ Hb]; [lra..|]. destruct (Hb x y H). split; lra.
Qed.

Lemma panels_in_box queues stats workers :
  Forall panel_in_box (ov_panels (OverviewPage queues stats workers)).
Proof.
  unfold OverviewPage, overview_panels. cbn [ov_panels].
  do 5 (apply Forall_cons; split; [apply StatPanel_in_box|]). constructor.
Qed.

Section overview.
Context {W : World} {J : Jose} {N : NextRouting} `{!WorldOk W, !NextRoutingOk N}.
Context (Hf : no_faults_at_all).

(** The data of a hook once its calls have answered: none without a key. *)
Definition loaded (h : Hook) (v : jsval) : option jsval * bool := ((fun _ => v) <$> swr_key h, false).

Lemma panels_show ids vs workers ws page :
  length ids = length vs → workers = JArr ws →
  let g := map figures_of vs in
  let v := OverviewPage (Some page, false) (loaded (useAllQueueStats ids) (JArr vs)) (Some workers, false) in
  panel_values v =
    Some <$> [show (totalDepth g); show (throughput1h g); show (throughput24h g);
              formatPercent (Q2Qc (avgSuccess g)); show (Z.of_nat (activeWorkers ws))] ∧
  default [] (ov_chart v) = chartData g ∧
  (ov_glance v).1 = map (glance_row (page_items (Some page))) vs.
Proof. intros Hl ->. cbv zeta. by destruct ids, vs. Qed.

(** C31: The overview shows the state of the organization. Its calls (the
    queues, the statistics of each of them, the workers) succeed and change
    nothing. The panels then show the number of jobs that wait in the queues
    of the organization, completions of the last hour that are at most those
    of the last day, an average success rate between 0 and 1, and the number
    of active workers; the table has one row for each queue of the
    organization in the order of creation, with its name, its waiting jobs and
    whether it is paused; and the two series of the chart stay within the
    completions of the last hour and add up to them, or to one more, and the
    sparklines stay in their boxes. *)
Theorem overview_shows tab s c o :
  (∀ n cl, (st_step s ≤ n ≤ 4 * size (queues (st_db s)) + 2 + st_step s)%nat →
     cl = ListQueues ∨ cl = ListWorkers ∨
       (∃ id, is_Some (queues (st_db s) !! id) ∧ cl = GetQueueStats id) →
     session_at n (received (sent cl tab)) = Some c) →
  (∃ url, getUrl = inr url) → db_ok (st_db s) → uuid_param (JStr (c_org_id c)) = inr (Some o) →
  (∀ id, is_Some (queues (st_db s) !! id) → plain id = true ∧ uuid_param (JStr id) = inr (Some id)) →
  ∃ page stats workers s1 s2 s3 qs,
    call_server ListQueues tab s = ((inr page, tab), s1) ∧
    call_all (hook_calls (useAllQueueStats (page_ids (Some page)))) tab s1 = ((inr stats, tab), s2) ∧
    call_server ListWorkers tab s2 = ((inr workers, tab), s3) ∧ st_db s3 = st_db s ∧
    qs ≡ₚ List.filter (queue_in_org (st_db s) o) (rows (queues (st_db s))) ∧
    StronglySorted (asc_by q_created_at) qs ∧
    let g := map figures_of stats in
    let v := OverviewPage (Some page, false)
               (loaded (useAllQueueStats (page_ids (Some page))) (JArr stats)) (Some workers, false) in
    panel_values v =
      Some <$> [show (Z.of_nat (waiting_of (st_db s) o)); show (throughput1h g); show (throughput24h g);
                formatPercent (Q2Qc (avgSuccess g));
                show (Z.of_nat (active_workers (st_db s)))] ∧
    0 ≤ throughput1h g ≤ throughput24h g ∧ (0 <= avgSuccess g <= 1)%Q ∧
    map glance_facts (ov_glance v).1 =
      (fun q => (q_name q, show (Z.of_nat (waiting_in (st_db s) (q_id q))),
                 StatusChip (if q_paused q then "paused" else "active") false)) <$> qs ∧
    Forall2 chart_bounds g (default [] (ov_chart v)) ∧ Forall panel_in_box (ov_panels v).
Proof.
  intros Hs Hu Hok Ho Hids.
  destruct (run_list_queues Hf (c_org_id c) o (checked (received (sent ListQueues tab)) s) Ho)
    as (qs & s1 & R1 & D1 & N1 & Pq & Sq).
  pose proof (checked_step (received (sent ListQueues tab)) s) as Hst.
  rewrite !(proj1 (checked_db _ _)) in *.
  destruct (org_queues (st_db s) o qs Hok Pq) as [Hqs Hlen].
  destruct (stats_calls Hf qs tab s1 c o) as (vs & s2 & R2 & D2 & N2 & F); try done.
  { intros n cl Hn Hcl. apply Hs; [lia|]. right; right. rewrite <- list_fmap_compose in Hcl.
    apply list_elem_of_fmap in Hcl as (q & -> & Hq). exists (q_id q). split; [|done].
    by rewrite (proj1 (Hqs q Hq)). }
  { by rewrite D1. }
  { rewrite D1. intros q Hq. destruct (Hqs q Hq) as [Hk Hin].
    destruct (Hids (q_id q)) as [? ?]; [by rewrite Hk|]. done. }
  rewrite D1 in *.
  destruct (run_list_workers Hf (checked (received (sent ListWorkers tab)) s2))
    as (ws & s3 & R3 & D3 & _ & Hact); [by rewrite (proj1 (checked_db _ _)), D2|].
  rewrite !(proj1 (checked_db _ _)), D2 in *.
  eexists _, vs, (JArr ws), s1, s2, s3, qs. rewrite queue_page_ids.
  split; [eapply call_read; [by constructor|done|apply Hs; [lia|auto]|done|exact R1]|].
  split; [exact R2|].
  split; [eapply call_read; [by constructor|done|apply Hs; [lia|auto]|done|exact R3]|].
  do 3 (split; [done|]). cbv zeta.
  destruct (panels_show (q_id <$> qs) vs (JArr ws) ws
              (on_wire (js_page ((fun q => mapQueue (queue_to_js q)) <$> qs)))) as (-> & -> & ->);
    [by rewrite length_fmap, (Forall2_length _ _ _ F)|done|].
  rewrite (total_waiting _ _ _ F), (waiting_total _ _ _ Hok Pq), Hact, queue_page_items.
  split; [done|]. split.
  { split; [eapply total_nonneg|eapply total_le]; (eapply figures_all; [exact F|]);
      intros q v Fv; destruct (fo_order _ _ _ Fv); lia. }
  split; [apply avgSuccess_bounds; eapply figures_all; [exact F|]; intros q v Fv; apply Fv|].
  split; [apply glances_show; [rewrite Pq; apply NoDup_filter_keys, Hok|done|done]|].
  split; [|apply panels_in_box].
  unfold chartData. apply Forall2_fmap_r, Forall_Forall2_diag. eapply figures_all; [exact F|].
  intros q v Fv. apply chart_in_range; [apply Fv|apply (fo_order _ _ _ Fv)].
Qed.
End overview.

(** ** Instance *)

(** One completed and one failed execution half an hour ago. *)
Definition demo_exec (id status : string) : ExecRow :=
  MkExec id "j1" (Some "w1") 1 status demo_epoch (Some (demo_epoch - seconds 1800)) None (Some 120)
    demo_epoch demo_epoch.
Definition demo_stats_db : DB :=
  with_executions (fun _ => {["x1" := demo_exec "x1" "completed"; "x2" := demo_exec "x2" "failed"]})
    demo_db.
Definition demo_stats_store : store := MkStore demo_stats_db initial_vars 0 [].

Lemma demo_stats_ok : db_ok demo_stats_db.
Proof.
  destruct demo_sys_ok as [Hok _ _ _]. unfold demo_stats_db, demo_db in *.
  split; simpl; intros; fixture_rows; simplify_eq/=; try done; try (by eexists).
Qed.

(** What the fixture's overview shows. *)
Example demo_overview :
  let tab := demo_tab (Some demo_token) in
  match call_server (N := split_routing) ListQueues tab demo_stats_store with
  | ((inr page, _), s1) =>
      match call_all (N := split_routing) (hook_calls (useAllQueueStats (page_ids (Some page)))) tab s1 with
      | ((inr stats, _), _) =>
          let v := OverviewPage (Some page, false) (Some (JArr stats), false) (None, true) in
          panel_values v = [Some "3"; Some "1"; Some "1"; Some "75.0%"; None] ∧
          map glance_facts (ov_glance v).1 =
            [("Emails", "2", StatusChip "active" false); ("Reports", "1", StatusChip "paused" false)]
      | _ => False
      end
  | _ => False
  end.
Proof. vm_compute. done. Qed.

Lemma overview_shows_witness :
  let tab := demo_tab (Some demo_token) in
  ∃ page stats workers s1 s2 s3 qs,
    call_server (N := split_routing) ListQueues tab demo_stats_store = ((inr page, tab), s1) ∧
    call_all (N := split_routing) (hook_calls (useAllQueueStats (page_ids (Some page)))) tab s1 =
      ((inr stats, tab), s2) ∧
    call_server (N := split_routing) ListWorkers tab s2 = ((inr workers, tab), s3) ∧
    st_db s3 = demo_stats_db ∧
    qs ≡ₚ List.filter (queue_in_org demo_stats_db "o1") (rows (queues demo_stats_db)) ∧
    StronglySorted (asc_by q_created_at) qs ∧
    let g := map figures_of stats in
    let v := OverviewPage (Some page, false)
               (loaded (useAllQueueStats (page_ids (Some page))) (JArr stats)) (Some workers, false) in
    panel_values v =
      Some <$> [show (Z.of_nat (waiting_of demo_stats_db "o1")); show (throughput1h g); show (throughput24h g);
                formatPercent (Q2Qc (avgSuccess g));
                show (Z.of_nat (active_workers demo_stats_db))] ∧
    0 ≤ throughput1h g ≤ throughput24h g ∧ (0 <= avgSuccess g <= 1)%Q ∧
    map glance_facts (ov_glance v).1 =
      (fun q => (q_name q, show (Z.of_nat (waiting_in demo_stats_db (q_id q))),
                 StatusChip (if q_paused q then "paused" else "active") false)) <$> qs ∧
    Forall2 chart_bounds g (default [] (ov_chart v)) ∧ Forall panel_in_box (ov_panels v).
Proof.
  apply (@overview_shows demo _ split_routing demo_ok split_routing_ok demo_no_faults
           (demo_tab (Some demo_token)) demo_stats_store demo_claims "o1");
    [|by eexists|exact demo_stats_ok|reflexivity|].
  - intros n cl Hn Hcl. change (size _) with 2%nat in Hn. cbn [demo_stats_store st_step] in Hn.
    assert (cl ∈ [ListQueues; ListWorkers; GetQueueStats "q1"; GetQueueStats "q2"]) as Hin.
    { destruct Hcl as [-> |[-> |(i & [q Hq] & ->)]]; [set_solver..|].
      cbn in Hq. fixture_rows; set_solver. }
    clear Hcl. do 11 (destruct n as [|n]; [repeat (apply elem_of_cons in Hin as [-> |Hin];
      [vm_compute; reflexivity|]); by apply not_elem_of_nil in Hin|]). lia.
  - intros i [q Hq]. cbn in Hq. by fixture_rows.
Defined.
