(* ===== verification/Pages.v ===== *)
(** * Pages with drawers

    The queue page and the job page ([app/queues/QueuesView.tsx],
    [app/jobs/JobsExplorer.tsx], [components/ui/Drawer.tsx]), the form in the
    drawer of the former ([components/forms/CreateQueueForm.tsx]) and the dead
    letter page ([app/dlq/page.tsx]): what they show of their state and their
    data, and the events that change that state. *)

From Stdlib Require Import QArith Qcanon.
From S2P Require Import Prelude JsValue JsJson JsonText Database Proc Hoare Http Auth DemoWorld.
From S2P Require Import Worker Scheduler Setup Router Integrity Invariant Fixtures Execution.
From S2P Require Import Sessions Tenancy JobsApi Format ApiTypes Query Client ClientProps Status.
From S2P Require Import Forms Views Charts DeadLetters Detail Overview.

Open Scope js_scope.
Local Open Scope Z_scope.

(** ** [Drawer] *)

Record DrawerView (B : Type) := MkDrawerView {
  dw_title : string; dw_subtitle : option string; dw_body : B }.
Arguments MkDrawerView {_} _ _ _.
Arguments dw_title {_} _.
Arguments dw_subtitle {_} _.
Arguments dw_body {_} _.

Definition Drawer {B} (open : bool) (title : string) (subtitle : option string) (body : B) :
    option (DrawerView B) :=
  if open then Some (MkDrawerView title (non_empty subtitle) body) else None.

(** The listener of an open drawer: [onClose] on Escape. *)
Definition drawer_closes (open : bool) (key : string) : bool := open && bool_decide (key = "Escape").

(** ** The queue page *)

Record QueuesState := MkQueuesState { qs_selected : option jsval; qs_createOpen : bool }.

Definition initial_queues : QueuesState := MkQueuesState None false.

(** What the effects, the buttons, the rows and the drawers do to the state.
    [DrawerDone] are the callbacks of the drawer of a queue: [onUpdated]
    fetches the queues again and leaves the state alone. *)
Inductive queues_event :=
| QueuesUrl (params : list (string * string))
| QueuesRequest (createQueueRequest : Z)
| PressCreate
| ClickQueue (q : jsval)
| CloseQueue
| CloseCreate
| QueueCreated
| QueuesKey (key : string)
| DrawerDone (effects : list drawer_effect).

Definition drawer_done (st : QueuesState) (e : drawer_effect) : QueuesState :=
  match e with Updated => st | Closed => MkQueuesState None (qs_createOpen st) end.

Definition queues_step (st : QueuesState) (e : queues_event) : QueuesState :=
  match e with
  | QueuesUrl params =>
      if bool_decide (snd <$> head (List.filter (fun kv => bool_decide (kv.1 = "create")) params) = Some "1")
      then MkQueuesState (qs_selected st) true else st
  | QueuesRequest n => if bool_decide (0 < n) then MkQueuesState (qs_selected st) true else st
  | PressCreate => MkQueuesState (qs_selected st) true
  | ClickQueue q => MkQueuesState (Some q) (qs_createOpen st)
  | CloseQueue => MkQueuesState None (qs_createOpen st)
  | CloseCreate | QueueCreated => MkQueuesState (qs_selected st) false
  | QueuesKey k =>
      MkQueuesState
        (if drawer_closes (bool_decide (is_Some (qs_selected st))) k then None else qs_selected st)
        (if drawer_closes (qs_createOpen st) k then false else qs_createOpen st)
  | DrawerDone l => foldl drawer_done st l
  end.

(** *** What it shows *)

(** What the table reads of a queue, and of the statistics. *)
Definition table_item (q : jsval) : QueueItem :=
  MkQueueItem (js_to_string (field q "id")) (react_text (field q "name")) (react_text (field q "slug"))
    (match field q "concurrency_limit" with JNum (Fin z) => Some (Qnum z) | _ => None end)
    (truthy (field q "is_paused")).

Definition stats_entries (stats : list jsval) : list (string * queue_figures) :=
  (fun s => (js_to_string (field s "queue_id"), figures_of s)) <$> stats.

Record QueueDrawerView := MkQueueDrawer {
  qd_action : string; qd_primary : bool; qd_depth : string; qd_throughput : string;
  qd_concurrency : string; qd_bar : option Q; qd_updated : jsval; qd_error : option string;
  qd_form : DrawerForm; qd_save : string; qd_disabled : bool }.

(** [QueueDrawer], with the fields of its form. *)
Definition QueueDrawer (queue : jsval) (s : option queue_figures) (form : DrawerForm) (saving : bool)
    (error : string) : option (DrawerView QueueDrawerView) :=
  let q := table_item queue in
  let inFlight := match s with Some g => g_depth g | None => 0 end in
  Drawer true (qi_name q) (Some (qi_slug q))
    (MkQueueDrawer
       (if qi_paused q then "Resume queue" else "Pause queue") (qi_paused q)
       (match s with Some g => show (g_depth g) | None => "—" end)
       (match s with Some g => show (g_throughput_1h g) | None => "—" end)
       (drawer_label inFlight (qi_limit q))
       (if bool_decide (0 < default 0 (qi_limit q)) then Some (utilization inFlight (qi_limit q)) else None)
       (field queue "updated_at") (non_empty (Some error)) form
       (if saving then "Saving…" else "Save configuration") saving).

Record QueuesPageView := MkQueuesPage {
  qp_list : ListView QueueTableRow; qp_drawer : option (DrawerView QueueDrawerView);
  qp_create : option (DrawerView ()) }.

(** [QueuesView]; an error replaces the page, its drawers included. The form
    of the drawer starts from the queue that is open. *)
Definition QueuesView (st : QueuesState) (error : option thrown) (isLoading : bool)
    (queuePage : option jsval) (stats : list jsval) : QueuesPageView :=
  match error with
  | Some e =>
      MkQueuesPage (ListError "Failed to load queues"
        (message_of e +:+ ". Check API connectivity and sign in again.")) None None
  | None =>
      MkQueuesPage
        (list_view isLoading "No queues"
           "Queues isolate workloads and control concurrency. Create one to start submitting jobs."
           ((fun q => queue_table_row (stats_entries stats) (table_item q)) <$> page_items queuePage))
        (q ← qs_selected st;
         QueueDrawer q (stats_of (qi_id (table_item q)) (stats_entries stats)) (drawer_form q) false "")
        (Drawer (qs_createOpen st) "Create queue" None ())
  end.

(** *** Pausing from the drawer *)

Section toggling.
Context {W : World} {J : Jose} {N : NextRouting}.

(** The button of the drawer, with the server in the store [s]: the state of
    the page, what is thrown, unhandled, and the store. *)
Definition press_toggle (st : QueuesState) (tab : Tab) (s : store) : QueuesState * option thrown * store :=
  match qs_selected st with
  | None => (st, None, s)
  | Some q =>
      let id := qi_id (table_item q) in
      let paused := qi_paused (table_item q) in
      let '(res, s') := server (sent (if paused then ResumeQueue id else PauseQueue id) tab) s in
      match togglePause (fun _ => res) id paused tab with
      | inr effects => (queues_step st (DrawerDone effects), None, s')
      | inl e => (st, Some e, s')
      end
  end.

End toggling.

(** The queues as the page gets them on the next poll. *)
Definition polled (qs : list QueueRow) : option jsval :=
  Some (on_wire (js_page ((fun q => mapQueue (queue_to_js q)) <$> qs))).

Lemma table_item_wire q :
  table_item (wire_queue q) =
  MkQueueItem (q_id q) (q_name q) (q_slug q) (q_concurrency_limit q) (q_paused q).
Proof.
  unfold table_item. rewrite !wire_queue_field.
  by destruct q as [? ? ? ? ? ? [l|] [] ? ?].
Qed.

(** The label of the button of the open drawer. *)
Definition toggle_label (v : QueuesPageView) : option string := qd_action ∘ dw_body <$> qp_drawer v.

Lemma toggle_label_wire st q page stats :
  qs_selected st = Some (wire_queue q) →
  toggle_label (QueuesView st None false page stats) =
    Some (if q_paused q then "Resume queue" else "Pause queue").
Proof.
  intros Hst. unfold toggle_label, QueuesView. cbn [qp_drawer]. rewrite Hst. cbn [mbind option_bind].
  unfold QueueDrawer, Drawer. rewrite table_item_wire. done.
Qed.

(** The chips of the table. *)
Definition list_rows {R} (v : ListView R) : list R := match v with ListRows l => l | _ => [] end.

Lemma table_chips st qs stats :
  (fun r => (qr_name r, qr_chip r)) <$> list_rows (qp_list (QueuesView st None false (polled qs) stats)) =
  (fun q => (q_name q, StatusChip (if q_paused q then "paused" else "active") false)) <$> qs.
Proof.
  unfold QueuesView. cbn [qp_list]. unfold polled. rewrite queue_page_items.
  transitivity ((fun r => (qr_name r, qr_chip r)) <$>
    ((fun q => queue_table_row (stats_entries stats) (table_item q)) <$> (wire_queue <$> qs))).
  { by destruct qs. }
  rewrite <- !list_fmap_compose. apply list_fmap_ext. intros i q _. unfold compose, queue_table_row.
  by rewrite table_item_wire.
Qed.

Section pausing.
Context {W : World} {J : Jose} {N : NextRouting} `{!WorldOk W, !NextRoutingOk N}.
Context (Hf : no_faults_at_all).

Lemma press_toggle_rejects st tab s c o q q' :
  qs_selected st = Some (wire_queue q) → plain (q_id q) = true →
  session_at (st_step s) (received (sent (pause_call (negb (q_paused q)) (q_id q)) tab)) = Some c →
  (∃ url, getUrl = inr url) → db_ok (st_db s) →
  uuid_param (JStr (q_id q)) = inr (Some (q_id q)) → uuid_param (JStr (c_org_id c)) = inr (Some o) →
  queues (st_db s) !! q_id q = Some q' → queue_in_org (st_db s) o q' = true →
  ∃ s' t, press_toggle st tab s = (st, Some (JsError "Unexpected end of JSON input"), s') ∧
    db_ok (st_db s') ∧ projects (st_db s') = projects (st_db s) ∧
    (st_step s ≤ st_step s' ≤ 2 + st_step s)%nat ∧
    queues (st_db s') = <[q_id q := set_paused (negb (q_paused q)) t q']> (queues (st_db s)).
Proof.
  intros Hst Hid Hs Hu Hok Hi Ho Hq Hin.
  destruct (pause_applied_but_rejected Hf (negb (q_paused q)) (q_id q) tab s c o q') as
    (s' & t & R & Hok' & Hp & Hn & Hqs); try done.
  exists s', t. split; [|done]. unfold press_toggle. rewrite Hst, table_item_wire. cbn [qi_id qi_paused].
  unfold call_server in R.
  assert ((if q_paused q then ResumeQueue (q_id q) else PauseQueue (q_id q)) =
          pause_call (negb (q_paused q)) (q_id q)) as Ec by (by destruct (q_paused q)).
  unfold togglePause. rewrite Ec. destruct (server _ s) as [res s1].
  injection R as R1 R2. rewrite R1, R2. done.
Qed.

(** C28: Pausing or resuming from the drawer of a queue works on the server and
    leaves the page behind. The call is applied, but its empty answer makes it
    reject: nothing catches that, so the drawer stays open on the queue as it
    was when its row was clicked, and still offers what was just done. A second
    press does the same again instead of undoing it. After the next poll the
    table shows the new state; only after Escape and another click on the row
    does the drawer offer the opposite. *)
Theorem drawer_toggle_stale st tab s c o q stats :
  qs_selected st = Some (wire_queue q) → plain (q_id q) = true →
  (∀ n cl, (st_step s ≤ n ≤ 4 + st_step s)%nat →
     cl ∈ [pause_call (negb (q_paused q)) (q_id q); ListQueues] →
     session_at n (received (sent cl tab)) = Some c) →
  (∃ url, getUrl = inr url) → db_ok (st_db s) →
  uuid_param (JStr (q_id q)) = inr (Some (q_id q)) → uuid_param (JStr (c_org_id c)) = inr (Some o) →
  queues (st_db s) !! q_id q = Some q → queue_in_org (st_db s) o q = true →
  ∃ s1 s2 s3 e q' qs,
    press_toggle st tab s = (st, Some e, s1) ∧ press_toggle st tab s1 = (st, Some e, s2) ∧
    (∀ k, k ≠ q_id q → queues (st_db s2) !! k = queues (st_db s) !! k) ∧
    queues (st_db s2) !! q_id q = Some q' ∧ q_paused q' = negb (q_paused q) ∧
    call_server ListQueues tab s2 = ((inr (default JUndef (polled qs)), tab), s3) ∧
    qs ≡ₚ List.filter (queue_in_org (st_db s2) o) (rows (queues (st_db s2))) ∧ q' ∈ qs ∧
    let view st := QueuesView st None false (polled qs) stats in
    (fun r => (qr_name r, qr_chip r)) <$> list_rows (qp_list (view st)) =
      (fun q => (q_name q, StatusChip (if q_paused q then "paused" else "active") false)) <$> qs ∧
    toggle_label (view st) = Some (if q_paused q then "Resume queue" else "Pause queue") ∧
    toggle_label (view (queues_step (queues_step st (QueuesKey "Escape")) (ClickQueue (wire_queue q')))) =
      Some (if q_paused q then "Pause queue" else "Resume queue").
Proof.
  intros Hst Hid Hs Hu Hok Hi Ho Hq Hin.
  destruct (press_toggle_rejects st tab s c o q q) as (s1 & t1 & R1 & Ok1 & P1 & N1 & Q1); try done.
  { apply Hs; [lia|set_solver]. }
  destruct (press_toggle_rejects st tab s1 c o q (set_paused (negb (q_paused q)) t1 q))
    as (s2 & t2 & R2 & Ok2 & P2 & N2 & Q2); try done.
  { apply Hs; [lia|set_solver]. }
  { by rewrite Q1, lookup_insert_eq. }
  { unfold queue_in_org in *. by rewrite P1. }
  set (q' := set_paused (negb (q_paused q)) t2 (set_paused (negb (q_paused q)) t1 q)) in *.
  assert (queues (st_db s2) !! q_id q = Some q') as Hq' by (by rewrite Q2, lookup_insert_eq).
  destruct (run_list_queues Hf (c_org_id c) o (checked (received (sent ListQueues tab)) s2) Ho)
    as (qs & s3 & R3 & _ & _ & Pq & _).
  rewrite !(proj1 (checked_db _ _)) in Pq.
  exists s1, s2, s3, (JsError "Unexpected end of JSON input"), q', qs.
  do 2 (split; [done|]).
  split; [intros k Hk; rewrite Q2, Q1, !lookup_insert_ne by done; done|].
  split; [done|]. split; [done|].
  split; [eapply call_read; [by constructor|done|apply Hs; [lia|set_solver]|done|exact R3]|].
  split; [done|].
  split.
  { rewrite Pq, elem_of_filter_bool, elem_of_rows. split; [|by eauto].
    unfold queue_in_org in *. by rewrite P2, P1. }
  cbv zeta. split; [apply table_chips|]. split; [by apply toggle_label_wire|].
  rewrite (toggle_label_wire _ q') by done. by destruct q as [? ? ? ? ? ? ? []].
Qed.

End pausing.

Lemma drawer_toggle_stale_witness :
  let st := queues_step initial_queues (ClickQueue (wire_queue demo_queue)) in
  let tab := demo_tab (Some demo_token) in
  ∃ s1 s2 s3 e q' qs,
    press_toggle (N := split_routing) st tab demo_store = (st, Some e, s1) ∧
    press_toggle (N := split_routing) st tab s1 = (st, Some e, s2) ∧
    (∀ k, k ≠ "q1" → queues (st_db s2) !! k = queues demo_db !! k) ∧
    queues (st_db s2) !! "q1" = Some q' ∧ q_paused q' = negb (q_paused demo_queue) ∧
    call_server (N := split_routing) ListQueues tab s2 = ((inr (default JUndef (polled qs)), tab), s3) ∧
    qs ≡ₚ List.filter (queue_in_org (st_db s2) "o1") (rows (queues (st_db s2))) ∧ q' ∈ qs ∧
    let view st := QueuesView st None false (polled qs) [] in
    (fun r => (qr_name r, qr_chip r)) <$> list_rows (qp_list (view st)) =
      (fun q => (q_name q, StatusChip (if q_paused q then "paused" else "active") false)) <$> qs ∧
    toggle_label (view st) = Some (if q_paused demo_queue then "Resume queue" else "Pause queue") ∧
    toggle_label (view (queues_step (queues_step st (QueuesKey "Escape")) (ClickQueue (wire_queue q')))) =
      Some (if q_paused demo_queue then "Pause queue" else "Resume queue").
Proof.
  apply (@drawer_toggle_stale demo _ split_routing demo_ok split_routing_ok demo_no_faults
           (queues_step initial_queues (ClickQueue (wire_queue demo_queue)))
           (demo_tab (Some demo_token)) demo_store demo_claims "o1" demo_queue []);
    [done|done| |by eexists|apply demo_sys_ok|done..|by vm_compute].
  intros n cl Hn Hcl. cbn [demo_store st_step] in Hn.
  destruct n as [|[|[|[|[|n]]]]]; [..|lia]; repeat (apply elem_of_cons in Hcl as [-> |Hcl];
    [vm_compute; reflexivity|]); by apply not_elem_of_nil in Hcl.
Defined.

(** ** The job page *)

Record JobsState := MkJobsState { js_filters : list string; js_queueId : string; js_drawers : ExplorerState }.

Definition initial_jobs : JobsState := MkJobsState [] "" (MkExplorer None false).

Inductive jobs_event :=
| JobsUrl (params : list (string * string))
| JobsRequest (submitJobRequest : Z)
| PressStatus (s : string)
| ChooseQueue (id : string)
| PressSubmit
| ClickJob (id : string)
| CloseJob
| CloseSubmit
| JobSubmitted (id : string)
| JobsKey (key : string).

Definition jobs_step (st : JobsState) (e : jobs_event) : JobsState :=
  let d := js_drawers st in
  let drawers d := MkJobsState (js_filters st) (js_queueId st) d in
  match e with
  | JobsUrl params => drawers (url_effect params d)
  | JobsRequest n => drawers (request_effect n d)
  | PressStatus s => MkJobsState (toggleStatus s (js_filters st)) (js_queueId st) d
  | ChooseQueue id => MkJobsState (js_filters st) id d
  | PressSubmit => drawers (MkExplorer (ex_selected d) true)
  | ClickJob id => drawers (MkExplorer (Some id) (ex_submitOpen d))
  | CloseJob => drawers (MkExplorer None (ex_submitOpen d))
  | CloseSubmit => drawers (MkExplorer (ex_selected d) false)
  | JobSubmitted id => drawers (submitted id d)
  | JobsKey k =>
      let job := match ex_selected d with Some id => bool_decide (id ≠ "") | None => false end in
      drawers (MkExplorer (if drawer_closes job k then None else ex_selected d)
                 (if drawer_closes (ex_submitOpen d) k then false else ex_submitOpen d))
  end.

(** A button of the filter: its label and whether it is pressed. *)
Definition filter_button (filters : list string) (s : string) : option string * bool :=
  (label <$> getStatusStyle s, bool_decide (s ∈ filters)).

(** The subtitle of the drawer: the name of the queue of the job, both looked
    up in what is shown. *)
Definition drawer_subtitle (selected : option string) (jobs queues : list jsval) : option string :=
  id ← selected;
  j ← List.find (fun j => is_str (field j "id") id) jobs;
  q ← List.find (fun q => is_str (field q "id") (js_to_string (field j "queue_id"))) queues;
  Some (js_to_string (field q "name")).

Record JobsPageView := MkJobsPage {
  jp_filters : list (option string * bool); jp_queues : list (string * string);
  jp_list : ListView JobTableRow; jp_more : bool;
  jp_drawer : option (DrawerView string); jp_submit : option (DrawerView (option string)) }.

(** [JobsExplorer]: the drawer holds the history of the selected job, the form
    gets the chosen queue as its default. An error replaces the page. *)
Definition JobsExplorer (st : JobsState) (error : option thrown) (isLoading : bool)
    (jobPage queuePage : option jsval) : ListView JobTableRow + JobsPageView :=
  match error with
  | Some e => inl (ListError "Failed to load jobs" (message_of e))
  | None =>
      let queues := page_items queuePage in
      let jobs := shown_jobs (js_filters st) (page_items jobPage) in
      let selected := non_empty (ex_selected (js_drawers st)) in
      inr (MkJobsPage
        (filter_button (js_filters st) <$> JOB_STATUSES)
        (("", "All queues") :: named queues)
        (list_view isLoading "No jobs match"
           "Adjust filters or submit work to a queue. Jobs appear here as soon as they are enqueued."
           (job_table_row queues <$> jobs))
        (match jobPage with Some v => truthy (field v "has_more") | None => false end)
        (Drawer (bool_decide (is_Some selected)) (drawer_title selected jobs)
           (drawer_subtitle selected jobs queues) (default "" selected))
        (Drawer (ex_submitOpen (js_drawers st)) "Submit job" None (non_empty (Some (js_queueId st)))))
  end.

(** ** Creating a queue *)

(** [CreateQueueForm]: without a project, a text and the form for one. *)
Record CreateView := MkCreateView {
  cv_error : option string; cv_projects : list (string * string); cv_slug_ok : bool;
  cv_button : string; cv_disabled : bool }.

Definition CreateQueueForm (projects : list (string * string)) (f : QueueForm) (saving : bool)
    (error : string) : string + CreateView :=
  match projects with
  | [] => inl "No projects exist yet. Create a project first, then add queues under it."
  | _ => inr (MkCreateView (non_empty (Some error)) projects (slug_pattern (sl_slug (qf_fields f)))
                (if saving then "Creating…" else "Create queue") saving)
  end.

(** The limit a field of the form stands for. *)
Definition limit_of (s : string) : option Z := if bool_decide (s = "") then None else field_int s.

Lemma limit_wire s :
  nullish (on_wire (int_or_undefined s)) JNull = js_opt JInt (limit_of s).
Proof.
  unfold int_or_undefined, int_of, limit_of. rewrite parseInt10_field.
  destruct (decide (s = "")) as [->|Hs]; [done|].
  rewrite (bool_decide_true (s ≠ "")), (bool_decide_false (s = "")) by done.
  by destruct (field_int s).
Qed.

Lemma queue_data_wire f :
  ∃ l, json_value (queue_data f) = Some (JObj l) ∧ json_plain (JObj l) = true ∧
    obj_get l "project_id" = JStr (qf_projectId f) ∧
    obj_get l "name" = JStr (trim (sl_name (qf_fields f))) ∧
    obj_get l "slug" = JStr (trim (sl_slug (qf_fields f))) ∧
    obj_get l "priority_default" = JInt (field_int_or (qf_priority f) 5) ∧
    nullish (obj_get l "concurrency_limit") JNull = js_opt JInt (limit_of (qf_concurrency f)).
Proof.
  set (l := [("project_id", JStr (qf_projectId f)); ("name", JStr (trim (sl_name (qf_fields f))));
             ("slug", JStr (trim (sl_slug (qf_fields f)))); ("priority_default", int_or (qf_priority f) 5);
             ("concurrency_limit", int_or_undefined (qf_concurrency f))]).
  assert (NoDup l.*1) as Hnd by (apply (bool_decide_eq_true_1 _); by vm_compute).
  exists (wire_members l). split; [done|]. split.
  { apply wire_members_plain; [exact Hnd|].
    repeat constructor; cbn [snd]; try (by intros w [= <-]).
    - intros w Hw. rewrite json_value_plain in Hw by apply int_or_plain. simplify_eq. apply int_or_plain.
    - unfold int_or_undefined. case_bool_decide; [apply int_of_wire|done]. }
  rewrite !wire_members_get by exact Hnd.
  change (obj_get l "concurrency_limit") with (int_or_undefined (qf_concurrency f)).
  change (obj_get l "priority_default") with (int_or (qf_priority f) 5).
  rewrite limit_wire, int_or_field. done.
Qed.

Section creating.
Context {W : World} {J : Jose} {N : NextRouting} `{!WorldOk W, !NextRoutingOk N}.
Context (Hf : no_faults_at_all).

(** The form with the server in the store [s]. *)
Definition create_queue_from (f : QueueForm) (tab : Tab) (s : store) : string * bool * Tab * store :=
  let '(res, s') := server (sent (CreateQueue (queue_data f)) tab) s in
  (create_queue_submit f (fun _ => res) tab, s').

(** The row of a new queue. *)
Definition new_queue (n : nat) (f : QueueForm) : QueueRow :=
  MkQueue (pg_uuid n) (qf_projectId f) (trim (sl_name (qf_fields f))) (trim (sl_slug (qf_fields f))) None
    (field_int_or (qf_priority f) 5) (limit_of (qf_concurrency f)) false (pg_now n) (pg_now n).

(** Whether a queue of the project has the slug. *)
Definition slug_taken (db : DB) (f : QueueForm) : bool :=
  some_row (fun q => bool_decide (q_project_id q = qf_projectId f ∧
                                  q_slug q = trim (sl_slug (qf_fields f)))) (queues db).

Lemma find_project_row n db pid o p :
  db_ok db → projects db !! pid = Some p → prj_org_id p = o →
  take 1 (prj_id <$> select_where n (fun p => eq_arg (Some pid) (prj_id p) && eq_arg (Some o) (prj_org_id p))
                       (projects db)) = [pid].
Proof.
  intros Hok Hp Ho. rewrite (select_by_key prj_id n _ _ pid).
  - rewrite Hp, (ok_prj_id _ Hok _ _ Hp), Ho. unfold eq_arg. rewrite !bool_decide_true by done.
    cbn. by rewrite (ok_prj_id _ Hok _ _ Hp).
  - apply Hok.
  - intros r. unfold eq_arg. rewrite andb_true_iff, bool_decide_eq_true. intros [H _]. congruence.
Qed.

Lemma run_create_queue req f org o p l s :
  req_json req = inr (JObj l) → json_value (queue_data f) = Some (JObj l) →
  db_ok (st_db s) → uuid_param (JStr org) = inr (Some o) →
  uuid_param (JStr (qf_projectId f)) = inr (Some (qf_projectId f)) →
  int4_min ≤ field_int_or (qf_priority f) 5 ≤ int4_max →
  (∀ z, limit_of (qf_concurrency f) = Some z → int4_min ≤ z ≤ int4_max) →
  projects (st_db s) !! qf_projectId f = Some p → prj_org_id p = o →
  queues (st_db s) !! pg_uuid (S (st_step s)) = None →
  let n := S (st_step s) in
  run (create_queue req org) s =
  if slug_taken (st_db s) f
  then (inl (PgError (UniqueViolation "queues_project_id_slug_key")),
        MkStore (st_db s) (st_vars s) (S n) (st_bg s))
  else (json (mapQueue (queue_to_js (new_queue n f))) 201,
        MkStore (with_queues <[pg_uuid n := new_queue n f]> (st_db s)) (st_vars s) (S n) (st_bg s)).
Proof.
  intros Hb Hw Hok Ho Hi Hpr Hli Hp Horg Hfree. cbv zeta.
  destruct (queue_data_wire f) as (l' & Hw' & _ & Epid & En & Es & Ep & El).
  assert (l' = l) as -> by congruence. clear Hw'.
  destruct s as [db vs n bg]; cbn [st_db st_step st_vars st_bg] in *.
  unfold create_queue, body_of, get. rewrite Hb, run_lift_bind. cbn [prop].
  rewrite run_lift_bind, Epid.
  erewrite run_stmt; [cbv beta|done|by unfold sql_find_project, uuid_arg; rewrite Hi, Ho].
  rewrite (find_project_row _ _ _ _ _ Hok Hp Horg). rewrite !run_lift_bind, En, Es, Ep, El.
  cbn [nullish is_nullish JInt].
  assert (sql_insert_queue (JStr (qf_projectId f)) (JStr (trim (sl_name (qf_fields f))))
            (JStr (trim (sl_slug (qf_fields f)))) (JInt (field_int_or (qf_priority f) 5))
            (js_opt JInt (limit_of (qf_concurrency f))) (S n) db =
          if slug_taken db f then inl (PgError (UniqueViolation "queues_project_id_slug_key"))
          else inr (new_queue (S n) f, with_queues <[pg_uuid (S n) := new_queue (S n) f]> db)) as Hins.
  { unfold sql_insert_queue, uuid_required, uuid_arg, text_required, int4_required.
    rewrite Hi, !text_param_str, int4_param_int by done.
    assert (int4_param (js_opt JInt (limit_of (qf_concurrency f))) = inr (limit_of (qf_concurrency f))) as ->.
    { destruct (limit_of _) as [z|]; [|by apply int4_param_null]. by apply int4_param_int, Hli. }
    cbn [throw_pg bind_sum from_option_sum]. unfold has_key. rewrite Hfree, Hp.
    unfold slug_taken. by destruct (some_row _ _). }
  destruct (slug_taken db f).
  - by rewrite (run_stmt_throws _ _ _ _ _ _ _ Hf Hins).
  - by erewrite run_stmt; [|done|exact Hins].
Qed.

Lemma create_refused f e tab :
  ∃ e', create_queue_submit f (fun _ => inr (api_error e)) tab =
    (error_message e' "Failed to create queue", false, tab).
Proof.
  unfold create_queue_submit, handleCreate, call, request, settle, api_error.
  destruct (includes _ _); by eexists.
Qed.

(** C22: Creating a queue from its form, end to end, after any edits of the name
    and the slug. When no queue of the project has the slug, exactly one queue
    is added to the project: with the trimmed name, the slug that was typed
    last or else the one made from the last name that was not empty, the
    priority of the form or 5, the limit of the form or none, and not paused;
    the form closes without an error. When the slug is taken, nothing changes
    and the form stays open with a message. *)
Theorem queue_form_creates f es tab s c o p :
  qf_fields f = edits es →
  session_at (st_step s) (received (sent (CreateQueue (queue_data f)) tab)) = Some c →
  (∃ url, getUrl = inr url) → db_ok (st_db s) → uuid_param (JStr (c_org_id c)) = inr (Some o) →
  uuid_param (JStr (qf_projectId f)) = inr (Some (qf_projectId f)) →
  int4_min ≤ field_int_or (qf_priority f) 5 ≤ int4_max →
  (∀ z, limit_of (qf_concurrency f) = Some z → int4_min ≤ z ≤ int4_max) →
  projects (st_db s) !! qf_projectId f = Some p → prj_org_id p = o →
  (∀ n, (st_step s < n)%nat → queues (st_db s) !! pg_uuid n = None) →
  if slug_taken (st_db s) f
  then ∃ e s', create_queue_from f tab s = (error_message e "Failed to create queue", false, tab, s') ∧
         st_db s' = st_db s
  else ∃ n s' q, create_queue_from f tab s = ("", true, tab, s') ∧
         st_db s' = with_queues <[pg_uuid n := q]> (st_db s) ∧
         q_project_id q = qf_projectId f ∧ q_name q = trim (sl_name (edits es)) ∧
         q_slug q = trim (match last_slug es with Some s => s | None => slugifyName (last_name es) end) ∧
         q_priority_default q = field_int_or (qf_priority f) 5 ∧
         q_concurrency_limit q = limit_of (qf_concurrency f) ∧ q_paused q = false.
Proof.
  intros Hes Hs Hu Hok Ho Hi Hpr Hli Hp Horg Hfree. unfold create_queue_from.
  set (cl := CreateQueue (queue_data f)) in *. set (r := received (sent cl tab)) in *.
  rewrite run_call by (by repeat constructor). fold r. rewrite Hs.
  destruct (queue_data_wire f) as (l & Hw & Hwp & _).
  assert (req_json r = inr (JObj l)) as Hj.
  { destruct (call_received cl tab) as (_ & _ & H); [by constructor|]. exact (H _ _ eq_refl Hw Hwp). }
  destruct (checked_db r s) as (Hdb & _ & _). pose proof (checked_step r s) as Hn.
  rewrite run_catch, run_bind, (getSql_url _ Hu). cbn [intended cl].
  rewrite (run_create_queue r f (c_org_id c) o p l (checked r s) Hj Hw); rewrite ?Hdb; try done;
    [|apply Hfree; lia].
  destruct (slug_taken (st_db s) f).
  - destruct (create_refused f (PgError (UniqueViolation "queues_project_id_slug_key")) tab) as [e He].
    exists e. eexists. split; [exact (f_equal (fun x => (x, _)) He)|done].
  - eexists _, _, (new_queue _ f). split; [done|]. split; [done|]. cbn [new_queue q_project_id q_name
      q_slug q_priority_default q_concurrency_limit q_paused]. rewrite Hes.
    destruct (edits_fields es) as [_ ->]. done.
Qed.

End creating.

(** A queue whose slug is made from its name, then one whose slug is taken. *)
Definition demo_queue_form (es : list edit) : QueueForm := MkQueueForm "p1" (edits es) "" "7".

Lemma queue_form_creates_witness :
  let es := [EditName "Nightly Reports"] in
  let f := demo_queue_form es in
  let tab := demo_tab (Some demo_token) in
  slug_taken demo_db f = false ∧ slug_taken demo_db (demo_queue_form [EditSlug "emails"]) = true ∧
  ∃ n s' q, create_queue_from (N := split_routing) f tab demo_store = ("", true, tab, s') ∧
    st_db s' = with_queues <[pg_uuid n := q]> demo_db ∧
    q_project_id q = "p1" ∧ q_name q = trim (sl_name (edits es)) ∧
    q_slug q = trim (match last_slug es with Some s => s | None => slugifyName (last_name es) end) ∧
    q_priority_default q = field_int_or "7" 5 ∧ q_concurrency_limit q = limit_of "" ∧ q_paused q = false.
Proof.
  split; [by vm_compute|]. split; [by vm_compute|].
  pose proof (@queue_form_creates demo _ split_routing demo_ok split_routing_ok demo_no_faults
    (demo_queue_form [EditName "Nightly Reports"]) [EditName "Nightly Reports"]
    (demo_tab (Some demo_token)) demo_store demo_claims "o1" demo_project) as H.
  assert (slug_taken (st_db demo_store) (demo_queue_form [EditName "Nightly Reports"]) = false) as E
    by (by vm_compute).
  rewrite E in H. apply H;
    [done|vm_compute; reflexivity|by eexists|apply demo_sys_ok|done|done|by vm_compute|done|done|done|].
  intros n _. by vm_compute.
Defined.

(** ** The dead letter page *)

Record DlqPageView := MkDlqView {
  dl_count : string; dl_error : option string; dl_list : ListView DlqCard }.

Definition DLQPage (p : DlqPage) (error : option thrown) (isLoading : bool) (dlqPage : option jsval) :
    ListView DlqCard + DlqPageView :=
  match error with
  | Some e => inl (ListError "Failed to load dead letter queue" (message_of e))
  | None =>
      let items := page_items dlqPage in
      inr (MkDlqView (items_label items) (non_empty (Some (dp_actionError p)))
        (list_view isLoading "Dead letter queue is empty"
           "No dead-lettered jobs. Failures that exhaust retries land here for operator review."
           (dlq_card (dp_retrying p) <$> items)))
  end.

(** ** Filters and drawers of the job page *)

Definition presses (s : string) (es : list jobs_event) : nat :=
  length (List.filter (fun e => match e with PressStatus t => bool_decide (t = s) | _ => false end) es).

(** However the page is used, a status is chosen exactly when its button was
    pressed an odd number of times, and no status is chosen twice. *)
Lemma filters_parity es :
  let st := foldl jobs_step initial_jobs es in
  NoDup (js_filters st) ∧ ∀ s, s ∈ js_filters st ↔ Nat.odd (presses s es) = true.
Proof.
  cbv zeta. induction es as [|e es [Hnd IH]] using rev_ind.
  { split; [constructor|]. intros s. by rewrite elem_of_nil. }
  rewrite foldl_app. cbn [foldl]. set (st := foldl jobs_step initial_jobs es) in *.
  unfold presses. setoid_rewrite List.filter_app. setoid_rewrite length_app.
  setoid_rewrite Nat.odd_add. fold (presses).
  destruct e as [|?|t| | | | | | |]; try (split; [exact Hnd|]; intros s; rewrite IH; unfold presses;
    cbn [List.filter length Nat.odd]; by rewrite xorb_false_r).
  split; [by apply toggle_NoDup|]. intros s. cbn [jobs_step js_filters List.filter].
  rewrite toggle_elem. specialize (IH s). unfold presses in IH.
  destruct (decide (s = t)) as [->|Hst].
  - rewrite bool_decide_true by done. cbn [length]. rewrite IH.
    by destruct (Nat.odd _).
  - rewrite bool_decide_false by done. cbn [length]. by rewrite xorb_false_r.
Qed.

(** Escape closes every drawer of either page at once. *)
Lemma escape_closes st qst :
  non_empty (ex_selected (js_drawers (jobs_step st (JobsKey "Escape")))) = None ∧
  ex_submitOpen (js_drawers (jobs_step st (JobsKey "Escape"))) = false ∧
  queues_step qst (QueuesKey "Escape") = initial_queues.
Proof.
  destruct st as [fs qi [[id|] []]], qst as [[q|] []]; cbn; unfold drawer_closes; try done;
    destruct (decide (id = "")) as [->|]; rewrite ?bool_decide_true, ?bool_decide_false by done; done.
Qed.
