(* ===== verification/Projects.v ===== *)
(** * The first project

    The form that the drawer of the queue page shows while the organization
    has no project ([CreateProjectInline] of
    [components/forms/CreateQueueForm.tsx]): what it shows, and creating a
    project with it, from the fields to the database and back into the queue
    form. *)

From S2P Require Import Prelude JsValue JsJson JsonText Database Proc Hoare Http Auth DemoWorld.
From S2P Require Import Worker Scheduler Setup Router Integrity Invariant Fixtures Execution.
From S2P Require Import Sessions Tenancy JobsApi Format ApiTypes Query Client ClientProps Status.
From S2P Require Import Forms Views Charts DeadLetters Detail Overview Pages.

Open Scope js_scope.
Local Open Scope Z_scope.

(** [CreateProjectInline]. *)
Record ProjectView := MkProjectView {
  pv_error : option string; pv_name : string; pv_slug : string; pv_button : string;
  pv_disabled : bool }.

Definition CreateProjectInline (f : SlugFields) (saving : bool) (error : string) : ProjectView :=
  MkProjectView (non_empty (Some error)) (sl_name f) (sl_slug f)
    (if saving then "Creating…" else "Create project") saving.

(** The options of the project field for a polled page of projects. *)
Definition project_options (page : jsval) : list (string * string) := named (page_items (Some page)).

Section creating.
Context {W : World} {J : Jose} {N : NextRouting} `{!WorldOk W, !NextRoutingOk N}.
Context (Hf : no_faults_at_all).

(** The form with the server in the store [s]. *)
Definition create_project_from (f : SlugFields) (tab : Tab) (s : store) :
    string * bool * Tab * store :=
  let '(res, s') := server (sent (CreateProject (project_data f)) tab) s in
  (create_project_submit f (fun _ => res) tab, s').

(** The row of a new project. *)
Definition new_project (n : nat) (o : string) (f : SlugFields) : ProjectRow :=
  MkProject (pg_uuid n) o (trim (sl_name f)) (trim (sl_slug f)) None (pg_now n) (pg_now n).

(** Whether a project of the organization has the slug. *)
Definition project_slug_taken (db : DB) (o : string) (f : SlugFields) : bool :=
  some_row (fun p => bool_decide (prj_org_id p = o ∧ prj_slug p = trim (sl_slug f))) (projects db).

Lemma insert_project_result n db org o f u :
  uuid_param (JStr org) = inr (Some o) → organizations db !! o = Some u →
  projects db !! pg_uuid n = None →
  sql_insert_project org (JStr (trim (sl_name f))) (JStr (trim (sl_slug f))) JNull n db =
  if project_slug_taken db o f then inl (PgError (UniqueViolation "projects_org_id_slug_key"))
  else inr (new_project n o f, with_projects <[pg_uuid n := new_project n o f]> db).
Proof.
  intros Ho Hu Hfree. unfold sql_insert_project, uuid_required, uuid_arg, text_required.
  rewrite Ho, !text_param_str, text_param_null by done.
  cbn [throw_pg bind_sum from_option_sum]. unfold has_key. rewrite Hfree, Hu.
  unfold project_slug_taken. by destruct (some_row _ _).
Qed.

Lemma run_create_project req f org o u s :
  req_json req = inr (project_data f) →
  uuid_param (JStr org) = inr (Some o) → organizations (st_db s) !! o = Some u →
  projects (st_db s) !! pg_uuid (st_step s) = None →
  let n := st_step s in
  run (create_project req org) s =
  if project_slug_taken (st_db s) o f
  then (inl (PgError (UniqueViolation "projects_org_id_slug_key")),
        MkStore (st_db s) (st_vars s) (S n) (st_bg s))
  else (json (project_to_js (new_project n o f)) 201,
        MkStore (with_projects <[pg_uuid n := new_project n o f]> (st_db s)) (st_vars s) (S n)
          (st_bg s)).
Proof.
  intros Hb Ho Hu Hfree. cbv zeta. destruct s as [db vs n bg]; cbn [st_db st_step st_vars st_bg] in *.
  pose proof (insert_project_result n db org o f u Ho Hu Hfree) as Hins.
  unfold create_project, body_of, get. rewrite Hb, run_lift_bind. unfold project_data. cbn [prop].
  rewrite !run_lift_bind. cbn -[run bind sql sql_insert_project respond].
  destruct (project_slug_taken db o f).
  - by rewrite (run_stmt_throws _ _ _ _ _ _ _ Hf Hins).
  - by erewrite run_stmt; [|done|exact Hins].
Qed.

Lemma project_refused f e tab :
  ∃ e', create_project_submit f (fun _ => inr (api_error e)) tab =
    (error_message e' "Failed to create project", false, tab).
Proof.
  unfold create_project_submit, handleCreate, call, request, settle, api_error.
  destruct (includes _ _); by eexists.
Qed.

Lemma project_json p :
  json (project_to_js p) 201 = inr (MkResponse 201 (Some (on_wire (project_to_js p)))).
Proof. by destruct p as [? ? ? ? [] ? ?]. Qed.

Lemma project_accepted f v tab :
  create_project_submit f (fun _ => inr (MkResponse 201 (Some v))) tab = ("", true, tab).
Proof. done. Qed.

Lemma run_list_projects org o s :
  uuid_param (JStr org) = inr (Some o) →
  ∃ ps s', run (list_projects org) s =
      (inr (MkResponse 200 (Some (on_wire (js_page (project_to_js <$> ps))))), s') ∧
    ps ≡ₚ List.filter (fun p => bool_decide (prj_org_id p = o)) (rows (projects (st_db s))) ∧
    StronglySorted (asc_by prj_created_at) ps.
Proof.
  intros Ho. destruct s as [db vs n bg]; cbn [st_db st_step]. unfold list_projects, respond.
  erewrite run_stmt; [cbv beta|done|by unfold sql_list_projects, uuid_arg; rewrite Ho].
  eexists _, _. split; [reflexivity|].
  split; [|apply StronglySorted_merge_sort; apply _].
  rewrite merge_sort_Permutation, select_where_perm. unfold eq_arg.
  erewrite filter_bool_ext; [done|]. intros p _. apply bool_decide_ext. naive_solver.
Qed.

(** The options show the projects that were listed. *)
Lemma project_options_wire ps :
  project_options (on_wire (js_page (project_to_js <$> ps))) =
  (fun p => (prj_id p, prj_name p)) <$> ps.
Proof.
  unfold project_options, named.
  transitivity ((fun v => (js_to_string (field v "id"), js_to_string (field v "name"))) <$>
    map (fun w => default JNull (json_value w)) (project_to_js <$> ps)); [done|].
  induction ps as [|p ps IH]; [done|]. cbn [fmap list_fmap map].
  apply (f_equal2 cons); [|exact IH]. by destruct p as [? ? ? ? [] ? ?].
Qed.

(** The projects of the organization after a new one was added. *)
Lemma listed_new (m : gmap string ProjectRow) k p o ps :
  m !! k = None → prj_org_id p = o →
  ps ≡ₚ List.filter (fun p => bool_decide (prj_org_id p = o)) (rows (<[k := p]> m)) →
  p ∈ ps ∧ ((∀ k p', m !! k = Some p' → prj_org_id p' ≠ o) → ps = [p]).
Proof.
  intros Hk Hp Hps. split.
  - rewrite Hps, elem_of_filter_bool, elem_of_rows, bool_decide_eq_true. split; [done|].
    exists k. by rewrite lookup_insert_eq.
  - intros Hnone. apply Permutation_singleton_r. rewrite Hps, (filter_bool_perm _ _ _ (rows_insert _ _ _ Hk)). simpl.
    rewrite bool_decide_true, filter_bool_none; [done| |done].
    intros p' [k' Hk']%elem_of_rows. apply bool_decide_false. by eapply Hnone.
Qed.

Lemma poll_projects tab s c o :
  session_at (st_step s) (received (sent ListProjects tab)) = Some c →
  (∃ url, getUrl = inr url) → uuid_param (JStr (c_org_id c)) = inr (Some o) →
  ∃ s' page ps, call_server ListProjects tab s = ((inr page, tab), s') ∧
    project_options page = (fun p => (prj_id p, prj_name p)) <$> ps ∧
    ps ≡ₚ List.filter (fun p => bool_decide (prj_org_id p = o)) (rows (projects (st_db s))).
Proof.
  intros Hs Hu Ho.
  destruct (run_list_projects (c_org_id c) o (checked (received (sent ListProjects tab)) s) Ho)
    as (ps & s' & R & Hps & _).
  rewrite (proj1 (checked_db _ _)) in Hps. exists s'. eexists _, ps.
  split; [eapply call_read; [by constructor|done|exact Hs|done|exact R]|].
  split; [apply project_options_wire|done].
Qed.

(** One call of the form. *)
Lemma create_project_run f tab s c o u :
  session_at (st_step s) (received (sent (CreateProject (project_data f)) tab)) = Some c →
  (∃ url, getUrl = inr url) → uuid_param (JStr (c_org_id c)) = inr (Some o) →
  organizations (st_db s) !! o = Some u →
  (∀ n, (st_step s ≤ n)%nat → projects (st_db s) !! pg_uuid n = None) →
  ∃ n s', (st_step s ≤ n ≤ S (st_step s))%nat ∧
    if project_slug_taken (st_db s) o f
    then ∃ e, create_project_from f tab s =
                (error_message e "Failed to create project", false, tab, s') ∧ st_db s' = st_db s
    else create_project_from f tab s = ("", true, tab, s') ∧ st_step s' = S n ∧
         st_db s' = with_projects <[pg_uuid n := new_project n o f]> (st_db s).
Proof.
  intros Hs Hu Ho Horg Hfree. unfold create_project_from.
  rewrite run_call by (by repeat constructor). rewrite Hs.
  assert (req_json (received (sent (CreateProject (project_data f)) tab)) = inr (project_data f)) as Hj.
  { destruct (call_received (CreateProject (project_data f)) tab) as (_ & _ & H); [by constructor|].
    by apply (H (project_data f)). }
  revert Hj. generalize (received (sent (CreateProject (project_data f)) tab)) as r. intros r Hj.
  destruct (checked_db r s) as (Hdb & _ & _). pose proof (checked_step r s) as Hn.
  rewrite run_catch, run_bind, (getSql_url _ Hu). cbn [intended].
  rewrite (run_create_project r f (c_org_id c) o u (checked r s) Hj Ho), project_json;
    rewrite ?Hdb; [|done|apply Hfree; lia].
  exists (st_step (checked r s)). destruct (project_slug_taken (st_db s) o f).
  - destruct (project_refused f (PgError (UniqueViolation "projects_org_id_slug_key")) tab) as [e He].
    eexists. split; [done|]. exists e.
    split; [exact (f_equal (fun x => (x, _)) He)|done].
  - eexists. split; [done|]. rewrite project_accepted. done.
Qed.

(** C23: Creating a project from the form of the empty drawer, end to end, after
    any edits of its name and slug. When no project of the organization has the
    slug, exactly one project is added to it, with the trimmed name and the slug
    that was typed last or else the one made from the last name that was not
    empty; the form reports no error, the next poll of the projects lists it,
    and the queue form opens with the first project listed, which is the new one
    when there was none before. When the slug is taken, nothing changes and the
    form shows a message. *)
Theorem project_form_creates es tab s c o u :
  let f := edits es in
  (∀ n cl, (st_step s ≤ n ≤ 2 + st_step s)%nat → cl ∈ [CreateProject (project_data f); ListProjects] →
     session_at n (received (sent cl tab)) = Some c) →
  (∃ url, getUrl = inr url) → uuid_param (JStr (c_org_id c)) = inr (Some o) →
  organizations (st_db s) !! o = Some u →
  (∀ n, (st_step s ≤ n)%nat → projects (st_db s) !! pg_uuid n = None) →
  if project_slug_taken (st_db s) o f
  then ∃ e s', create_project_from f tab s =
                 (error_message e "Failed to create project", false, tab, s') ∧
         st_db s' = st_db s
  else ∃ n p s' s'' page ps, create_project_from f tab s = ("", true, tab, s') ∧
         st_db s' = with_projects <[pg_uuid n := p]> (st_db s) ∧
         prj_org_id p = o ∧ prj_name p = trim (sl_name f) ∧
         prj_slug p = trim (match last_slug es with Some s => s | None => slugifyName (last_name es) end) ∧
         call_server ListProjects tab s' = ((inr page, tab), s'') ∧
         project_options page = (fun p => (prj_id p, prj_name p)) <$> ps ∧
         ps ≡ₚ List.filter (fun p => bool_decide (prj_org_id p = o)) (rows (projects (st_db s'))) ∧
         p ∈ ps ∧
         (∀ q, qf_projectId q = "" →
            Some (qf_projectId (project_effect (prj_id <$> ps) q)) = prj_id <$> head ps) ∧
         ((∀ k p', projects (st_db s) !! k = Some p' → prj_org_id p' ≠ o) → ps = [p]).
Proof.
  intros f Hs Hu Ho Horg Hfree.
  destruct (create_project_run f tab s c o u) as (n & s' & Hn & H);
    [apply Hs; [lia|set_solver]|done..|].
  destruct (edits_fields es) as [_ Hslug]. fold f in Hslug. clearbody f.
  destruct (project_slug_taken (st_db s) o f); [destruct H as (e & ? & ?); by eauto|].
  destruct H as (Hrun & Hstep & Hdb).
  destruct (poll_projects tab s' c o) as (s'' & page & ps & R & Hopt & Hps); [|done|done|].
  { apply Hs; [lia|set_solver]. }
  assert (projects (st_db s') = <[pg_uuid n := new_project n o f]> (projects (st_db s))) as Hpr.
  { rewrite Hdb. by destruct (st_db s). }
  destruct (listed_new (projects (st_db s)) (pg_uuid n) (new_project n o f) o ps) as [Hin Hone];
    [apply Hfree; lia|done|by rewrite <- Hpr|].
  exists n, (new_project n o f), s', s'', page, ps. do 4 (split; [done|]).
  split; [by rewrite <- Hslug|]. do 4 (split; [done|]). split; [|done].
  intros q Hq. destruct ps as [|p0 ps]; [set_solver|]. unfold project_effect.
  cbn [fmap list_fmap head option_map option_fmap]. by rewrite Hq, bool_decide_true.
Qed.

End creating.

(** An organization without a project. *)
Definition new_account : DB := with_jobs (fun _ => ∅) (with_queues (fun _ => ∅)
  (with_dlq (fun _ => ∅) (with_projects (fun _ => ∅) demo_db))).

Lemma project_form_creates_witness :
  let es := [EditName "Data Platform"; EditSlug "data"] in
  let tab := demo_tab (Some demo_token) in
  let s := MkStore new_account initial_vars 0 [] in
  ∃ n p s' s'' page ps, create_project_from (N := split_routing) (edits es) tab s = ("", true, tab, s') ∧
    st_db s' = with_projects <[pg_uuid n := p]> new_account ∧
    prj_org_id p = "o1" ∧ prj_name p = trim (sl_name (edits es)) ∧
    prj_slug p = trim (match last_slug es with Some s => s | None => slugifyName (last_name es) end) ∧
    call_server (N := split_routing) ListProjects tab s' = ((inr page, tab), s'') ∧
    project_options page = (fun p => (prj_id p, prj_name p)) <$> ps ∧
    ps ≡ₚ List.filter (fun p => bool_decide (prj_org_id p = "o1")) (rows (projects (st_db s'))) ∧
    p ∈ ps ∧
    (∀ q, qf_projectId q = "" →
       Some (qf_projectId (project_effect (prj_id <$> ps) q)) = prj_id <$> head ps) ∧
    ((∀ k p', projects new_account !! k = Some p' → prj_org_id p' ≠ "o1") → ps = [p]).
Proof.
  pose proof (@project_form_creates demo _ split_routing demo_ok split_routing_ok demo_no_faults
    [EditName "Data Platform"; EditSlug "data"] (demo_tab (Some demo_token))
    (MkStore new_account initial_vars 0 []) demo_claims "o1" demo_org) as H.
  assert (project_slug_taken new_account "o1" (edits [EditName "Data Platform"; EditSlug "data"]) = false)
    as E by (by vm_compute).
  cbn [st_db] in H. rewrite E in H. apply H; [|by eexists|done|done|done].
  intros n cl Hn Hcl. cbn [st_step] in Hn. rewrite !elem_of_cons, elem_of_nil in Hcl.
  assert (n = 0 ∨ n = 1 ∨ n = 2)%nat as Hn' by lia.
  destruct Hcl as [-> |[-> |[]]]; destruct Hn' as [-> |[-> | ->]]; vm_compute; reflexivity.
Defined.
